(** * ChineseSmartCompletion: a shallow embedding of 智能续写引擎.js

    The engine is a rule table (ordered regular expressions bound to
    handlers), a result cache and six handlers.  JavaScript strings are
    sequences of UTF-16 code units, numbers are IEEE-754 binary64 values,
    and the regular expressions are the backtracking expressions of the
    language; each of the three is modelled below before the engine. *)

From Stdlib Require Import List ZArith NArith Lia Bool String Ascii SpecFloat.
From Stdlib Require Import Permutation.
From stdpp Require Import gmap.
Import ListNotations.

Local Open Scope N_scope.
Local Open Scope list_scope.

(* ===================================================================== *)
(** ** Strings: lists of UTF-16 code units *)
(* ===================================================================== *)

Module JsString.

(** A code unit is a 16-bit unsigned number; a string is a list of them. *)
Definition cu : Type := N.

(** Source text of this file is UTF-8; [utf16] decodes a byte sequence to
    the code units a JavaScript string literal with the same text holds
    (code points above U+FFFF become a surrogate pair). *)
Fixpoint utf16 (fuel : nat) (bs : list N) : list N :=
  match fuel with
  | O => []
  | S fuel' =>
    match bs with
    | [] => []
    | b0 :: t0 =>
      if b0 <? 0x80 then b0 :: utf16 fuel' t0
      else if b0 <? 0xE0 then
        match t0 with
        | b1 :: t1 =>
            (N.land b0 0x1F * 64 + N.land b1 0x3F) :: utf16 fuel' t1
        | _ => []
        end
      else if b0 <? 0xF0 then
        match t0 with
        | b1 :: b2 :: t2 =>
            (N.land b0 0x0F * 4096 + N.land b1 0x3F * 64 + N.land b2 0x3F)
              :: utf16 fuel' t2
        | _ => []
        end
      else
        match t0 with
        | b1 :: b2 :: b3 :: t3 =>
            let cp := N.land b0 0x07 * 262144 + N.land b1 0x3F * 4096
                      + N.land b2 0x3F * 64 + N.land b3 0x3F in
            let v := cp - 0x10000 in
            (0xD800 + N.shiftr v 10) :: (0xDC00 + N.land v 0x3FF)
              :: utf16 fuel' t3
        | _ => []
        end
    end
  end.

Definition js (s : string) : list N :=
  let bs := map N_of_ascii (list_ascii_of_string s) in
  utf16 (List.length bs) bs.

(** [s.includes(w)]: [w] occurs in [s] as a contiguous block. *)
Fixpoint starts_with (w s : list N) : bool :=
  match w, s with
  | [], _ => true
  | a :: w', b :: s' => (a =? b) && starts_with w' s'
  | _ :: _, [] => false
  end.

Fixpoint includes (s w : list N) : bool :=
  starts_with w s ||
  match s with
  | [] => false
  | _ :: s' => includes s' w
  end.

(** WhiteSpace and LineTerminator code units: the set that [\s] matches
    and that [String.prototype.trim] strips. *)
Definition is_space (c : N) : bool :=
  ((0x09 <=? c) && (c <=? 0x0D)) || (c =? 0x20) || (c =? 0xA0)
  || (c =? 0x1680) || ((0x2000 <=? c) && (c <=? 0x200A))
  || (c =? 0x2028) || (c =? 0x2029) || (c =? 0x202F) || (c =? 0x205F)
  || (c =? 0x3000) || (c =? 0xFEFF).

Fixpoint trim_start (s : list N) : list N :=
  match s with
  | c :: s' => if is_space c then trim_start s' else s
  | [] => []
  end.

Definition trim_end (s : list N) : list N := rev (trim_start (rev s)).

Definition trim (s : list N) : list N := trim_end (trim_start s).

End JsString.

Export JsString.

Arguments js _%_string.

Abbreviation jsstring := (list N).

(* ===================================================================== *)
(** ** Regular expressions *)
(* ===================================================================== *)

Module RegExp.

(** A character class is a union of inclusive code-unit ranges. *)
Definition cclass : Type := list (N * N).

Definition in_range (c : N) (r : N * N) : bool :=
  (fst r <=? c) && (c <=? snd r).

Definition in_class (cls : cclass) (c : N) : bool :=
  existsb (in_range c) cls.

(** The pattern syntax the engine's expressions use.  Every quantifier of
    the source desugars into these: [r+] is [r r*], [r?] is [r|()],
    [r{1,2}] is [r r?]. *)
Inductive regex : Type :=
| Empty
| Char (cls : cclass)
| Seq (r1 r2 : regex)
| Alt (r1 r2 : regex)
| Star (greedy : bool) (r : regex)
| Group (i : nat) (r : regex)
| Bol
| Eol.

Definition Plus (r : regex) : regex := Seq r (Star true r).
Definition Opt (r : regex) : regex := Alt r Empty.

Fixpoint Lit (w : list N) : regex :=
  match w with
  | [] => Empty
  | [c] => Char [(c, c)]
  | c :: w' => Seq (Char [(c, c)]) (Lit w')
  end.

Fixpoint AltOf (rs : list regex) : regex :=
  match rs with
  | [] => Char []
  | [r] => r
  | r :: rs' => Alt r (AltOf rs')
  end.

Fixpoint SeqOf (rs : list regex) : regex :=
  match rs with
  | [] => Empty
  | [r] => r
  | r :: rs' => Seq r (SeqOf rs')
  end.

(** Class escapes. *)
Definition digit : cclass := [(0x30, 0x39)].
Definition space : cclass :=
  [(0x09, 0x0D); (0x20, 0x20); (0xA0, 0xA0); (0x1680, 0x1680);
   (0x2000, 0x200A); (0x2028, 0x2029); (0x202F, 0x202F); (0x205F, 0x205F);
   (0x3000, 0x3000); (0xFEFF, 0xFEFF)].
(** [.] without the s flag: everything but the four line terminators. *)
Definition dot : cclass :=
  [(0x00, 0x09); (0x0B, 0x0C); (0x0E, 0x2027); (0x202A, 0xFFFF)].
Definition one (c : N) : cclass := [(c, c)].
Definition any_of (w : list N) : cclass := map (fun c => (c, c)) w.

(** Matcher state: index into the input, what is left of the input, and
    the captures so far (slot [i] for group [i]; slot 0 is unused). *)
Record mstate : Type := MState {
  pos : nat;
  rest : list N;
  caps : list (option (list N))
}.

Fixpoint set_nth {A} (i : nat) (x : A) (l : list A) : list A :=
  match i, l with
  | _, [] => []
  | O, _ :: l' => x :: l'
  | S i', y :: l' => y :: set_nth i' x l'
  end.

Fixpoint group_ids (r : regex) : list nat :=
  match r with
  | Seq a b | Alt a b => group_ids a ++ group_ids b
  | Star _ a => group_ids a
  | Group i a => i :: group_ids a
  | _ => []
  end.

Definition clear_caps (ids : list nat) (st : mstate) : mstate :=
  MState (pos st) (rest st)
         (fold_right (fun i cs => set_nth i None cs) (caps st) ids).

(** What was consumed between two states of one run. *)
Definition consumed (st st' : mstate) : list N :=
  firstn (List.length (rest st) - List.length (rest st')) (rest st).

(** One quantifier [r*]: [step] is one iteration of [r], [n] bounds the
    number of iterations by the length of the input that is left.  An
    iteration that consumes nothing is rejected, so the bound is never the
    reason to stop.  The greedy form tries another iteration first, the
    lazy form tries to stop first. *)
Fixpoint star_loop (greedy : bool) (step : mstate -> list mstate)
  (n : nat) (st : mstate) {struct n} : list mstate :=
  match n with
  | O => [st]
  | S n' =>
    let more :=
      flat_map
        (fun st' =>
           if (List.length (rest st') <? List.length (rest st))%nat
           then star_loop greedy step n' st' else [])
        (step st) in
    if greedy then more ++ [st] else st :: more
  end.

(** All the ways [r] matches at [st], in the order a backtracking matcher
    tries them: the head of the list is the match the language returns.
    The captures of a quantified expression are reset at each
    iteration. *)
Fixpoint matches (r : regex) (st : mstate) : list mstate :=
  match r with
  | Empty => [st]
  | Char cls =>
    match rest st with
    | c :: tl =>
        if in_class cls c then [MState (S (pos st)) tl (caps st)] else []
    | [] => []
    end
  | Seq r1 r2 => flat_map (matches r2) (matches r1 st)
  | Alt r1 r2 => matches r1 st ++ matches r2 st
  | Star greedy r1 =>
    star_loop greedy
      (fun st0 => matches r1 (clear_caps (group_ids r1) st0))
      (List.length (rest st)) st
  | Group i r1 =>
    map (fun st' =>
           MState (pos st') (rest st')
                  (set_nth i (Some (consumed st st')) (caps st')))
        (matches r1 st)
  | Bol => if (pos st =? 0)%nat then [st] else []
  | Eol => match rest st with [] => [st] | _ :: _ => [] end
  end.

Definition ngroups (r : regex) : nat := S (list_max (group_ids r)).

(** The match object: where the match starts, what it covers, and the
    captured groups ([None] is [undefined]). *)
Record MatchResult : Type := Match {
  index : nat;
  matched : list N;
  groups : list (option (list N))
}.

Definition match_at (r : regex) (i : nat) (s : list N)
  : option MatchResult :=
  let st := MState i s (repeat None (ngroups r)) in
  match matches r st with
  | st' :: _ => Some (Match i (consumed st st') (caps st'))
  | [] => None
  end.

(** [search r i s]: first match of [r] in the suffix [s] that starts at
    index [i] of the input, trying start positions left to right. *)
Fixpoint search (r : regex) (i : nat) (s : list N) : option MatchResult :=
  match match_at r i s with
  | Some m => Some m
  | None =>
    match s with
    | [] => None
    | _ :: s' => search r (S i) s'
    end
  end.

(** [s.match(r)] for an expression without the g flag. *)
Definition String_match (s : list N) (r : regex) : option MatchResult :=
  search r 0 s.

Definition group (m : MatchResult) (i : nat) : option (list N) :=
  nth i (groups m) None.

(** [s.replace(r, f)] for an expression without the g flag: the first
    match is replaced, the rest of the string is kept. *)
Definition String_replace (s : list N) (r : regex)
  (f : MatchResult -> list N) : list N :=
  match search r 0 s with
  | None => s
  | Some m =>
      firstn (index m) s ++ f m
      ++ skipn (index m + List.length (matched m)) s
  end.

(** [s.replace(r, f)] with the g flag.  [s] is the part of the input from
    index [i] on that has not been copied yet; after an empty match the
    scan moves one code unit on. *)
Fixpoint replace_loop (fuel : nat) (r : regex) (f : MatchResult -> list N)
  (i : nat) (s : list N) : list N :=
  match fuel with
  | O => s
  | S fuel' =>
    match search r i s with
    | None => s
    | Some m =>
      let skipped := (index m - i)%nat in
      let len := List.length (matched m) in
      let after := skipn (skipped + len) s in
      firstn skipped s ++ f m ++
      match len, after with
      | O, c :: after' => c :: replace_loop fuel' r f (S (index m)) after'
      | O, [] => []
      | S _, _ => replace_loop fuel' r f (index m + len)%nat after
      end
    end
  end.

Definition String_replace_all (s : list N) (r : regex)
  (f : MatchResult -> list N) : list N :=
  replace_loop (S (List.length s)) r f 0 s.

End RegExp.

Export RegExp.

(* ===================================================================== *)
(** ** The rule table's patterns *)
(* ===================================================================== *)

Module Patterns.

(** [\d+(?:\.\d+)?] *)
Definition number : regex :=
  Seq (Plus (Char digit)) (Opt (Seq (Char (one 0x2E)) (Plus (Char digit)))).

Definition ws : regex := Star true (Char space).

Definition word (s : string) : regex := Lit (js s).
Arguments word _%_string.

(** [/^(\d+(?:\.\d+)?)\s*[+\-*/]\s*(\d+(?:\.\d+)?)$/] *)
Definition math_symbolic : regex :=
  SeqOf [Bol; Group 1 number; ws; Char (any_of (js "+-*/")); ws;
         Group 2 number; Eol].

(** [/^(\d+(?:\.\d+)?)\s*(加|减|乘|除)\s*(\d+(?:\.\d+)?)$/] *)
Definition math_chinese : regex :=
  SeqOf [Bol; Group 1 number; ws;
         Group 2 (AltOf [word "加"; word "减"; word "乘"; word "除"]); ws;
         Group 3 number; Eol].

(** [/^(\d+(?:\.\d+)?)\s*的\s*(平方根|立方根)$/] *)
Definition math_root : regex :=
  SeqOf [Bol; Group 1 number; ws; word "的"; ws;
         Group 2 (AltOf [word "平方根"; word "立方根"]); Eol].

(** [/^(\d+)\s*(天|日|周|月|年)\s*(后|前)$/] *)
Definition date_relative : regex :=
  SeqOf [Bol; Group 1 (Plus (Char digit)); ws;
         Group 2 (AltOf [word "天"; word "日"; word "周"; word "月";
                         word "年"]); ws;
         Group 3 (AltOf [word "后"; word "前"]); Eol].

(** [/^(今天|明天|后天|昨天|前天|下周|上周)$/] *)
Definition date_deictic : regex :=
  SeqOf [Bol;
         Group 1 (AltOf [word "今天"; word "明天"; word "后天"; word "昨天";
                         word "前天"; word "下周"; word "上周"]);
         Eol].

Definition cjk : cclass := [(0x4E00, 0x9FA5)].
Definition latin : cclass := [(0x41, 0x5A); (0x61, 0x7A)].

(** [/^([\u4e00-\u9fa5]+|[A-Za-z]+)\s*时间$/] *)
Definition timezone_city : regex :=
  SeqOf [Bol; Group 1 (Alt (Plus (Char cjk)) (Plus (Char latin))); ws;
         word "时间"; Eol].

(** [/^(\d{1,2})[:\.]?(\d{2})?\s*(点|时)\s*([\u4e00-\u9fa5]+)\s*(时间)?$/] *)
Definition timezone_clock : regex :=
  SeqOf [Bol; Group 1 (Seq (Char digit) (Opt (Char digit)));
         Opt (Char (any_of (js ":.")));
         Opt (Group 2 (Seq (Char digit) (Char digit))); ws;
         Group 3 (AltOf [word "点"; word "时"]); ws;
         Group 4 (Plus (Char cjk)); ws;
         Opt (Group 5 (word "时间")); Eol].

Definition temperature_units : regex :=
  AltOf [word "摄氏度"; word "华氏度"; word "℃"; word "℉"].

Definition length_units : regex :=
  AltOf [word "米"; word "厘米"; word "千米"; word "英尺"; word "英寸";
         word "m"; word "cm"; word "km"; word "ft"; word "in"].

(** [/^(\d+(?:\.\d+)?)\s*(摄氏度|华氏度|℃|℉)\s*(等于|转换为)?$/] *)
Definition unit_temperature : regex :=
  SeqOf [Bol; Group 1 number; ws; Group 2 temperature_units; ws;
         Opt (Group 3 (AltOf [word "等于"; word "转换为"])); Eol].

(** [/^(\d+(?:\.\d+)?)\s*(米|厘米|千米|英尺|英寸|m|cm|km|ft|in)\s*(等于|转换为)?$/] *)
Definition unit_length : regex :=
  SeqOf [Bol; Group 1 number; ws; Group 2 length_units; ws;
         Opt (Group 3 (AltOf [word "等于"; word "转换为"])); Eol].

(** [/^(\d+(?:\.\d+)?)\s*(美元|人民币|欧元|英镑|USD|CNY|EUR|GBP)$/] *)
Definition currency_any : regex :=
  SeqOf [Bol; Group 1 number; ws;
         Group 2 (AltOf [word "美元"; word "人民币"; word "欧元";
                         word "英镑"; word "USD"; word "CNY"; word "EUR";
                         word "GBP"]);
         Eol].

(** [/^(\d+(?:\.\d+)?)\s*(美元|人民币|欧元|英镑)\s*(等于|换算成)?$/] *)
Definition currency_named : regex :=
  SeqOf [Bol; Group 1 number; ws;
         Group 2 (AltOf [word "美元"; word "人民币"; word "欧元";
                         word "英镑"]); ws;
         Opt (Group 3 (AltOf [word "等于"; word "换算成"])); Eol].

(** [/^(牛顿第[一二三]定律|欧姆定律|万有引力定律)$/] *)
Definition formula_physics : regex :=
  SeqOf [Bol;
         Group 1 (AltOf [SeqOf [word "牛顿第"; Char (any_of (js "一二三"));
                                word "定律"];
                         word "欧姆定律"; word "万有引力定律"]);
         Eol].

(** [/^(勾股定理|二次方程|圆的面积公式)$/] *)
Definition formula_math : regex :=
  SeqOf [Bol;
         Group 1 (AltOf [word "勾股定理"; word "二次方程";
                         word "圆的面积公式"]);
         Eol].

(** [/^(水的分子式|二氧化碳|氧气的化学式)$/] *)
Definition formula_chemistry : regex :=
  SeqOf [Bol;
         Group 1 (AltOf [word "水的分子式"; word "二氧化碳";
                         word "氧气的化学式"]);
         Eol].

(** The handlers' own expressions. *)

(** [/^(\d+(?:\.\d+)?)\s*([+\-*/])\s*(\d+(?:\.\d+)?)$/] *)
Definition basic_arith : regex :=
  SeqOf [Bol; Group 1 number; ws; Group 2 (Char (any_of (js "+-*/"))); ws;
         Group 3 number; Eol].

(** [/.*?(\d+(?:\.\d+)?).*/] *)
Definition first_number : regex :=
  SeqOf [Star false (Char dot); Group 1 number; Star true (Char dot)].

(** [/^(\d+(?:\.\d+)?)\s*(摄氏度|华氏度|℃|℉)/] *)
Definition temperature_prefix : regex :=
  SeqOf [Bol; Group 1 number; ws; Group 2 temperature_units].

(** [/^(\d+(?:\.\d+)?)\s*(米|厘米|千米|英尺|英寸|m|cm|km|ft|in)/] *)
Definition length_prefix : regex :=
  SeqOf [Bol; Group 1 number; ws; Group 2 length_units].

(** [/\s+/g] and [/[，。！？；：]/g] of the normalizer. *)
Definition spaces : regex := Plus (Char space).
Definition punctuation : regex := Char (any_of (js "，。！？；：")).

End Patterns.

(* ===================================================================== *)
(** ** Numbers: IEEE-754 binary64 *)
(* ===================================================================== *)

Module Number.

Local Open Scope Z_scope.

(** The Number type is binary64: 53 bits of precision, infinities at
    exponent 1024; the arithmetic is that of [SpecFloat]. *)
Definition prec : Z := 53.
Definition emax : Z := 1024.

Abbreviation number := spec_float.

Definition add : number -> number -> number := SFadd prec emax.
Definition sub : number -> number -> number := SFsub prec emax.
Definition mul : number -> number -> number := SFmul prec emax.
Definition div : number -> number -> number := SFdiv prec emax.
Definition sqrt : number -> number := SFsqrt prec emax.

(** The Number nearest the ratio [p / q] (ties to even). *)
Definition of_ratio (p : Z) (q : positive) : number :=
  match p with
  | Z0 => S754_zero false
  | Zpos m => div (S754_finite false m 0) (S754_finite false q 0)
  | Zneg m => div (S754_finite true m 0) (S754_finite false q 0)
  end.

Definition of_Z (z : Z) : number := of_ratio z 1.

(** [x !== 0] *)
Definition is_zero (x : number) : bool :=
  match x with
  | S754_zero _ => true
  | _ => false
  end.

Definition is_nan (x : number) : bool :=
  match x with
  | S754_nan => true
  | _ => false
  end.

(** Neither NaN nor below zero ([-0] counts as zero). *)
Definition non_negative (x : number) : bool :=
  match x with
  | S754_nan => false
  | S754_zero _ => true
  | S754_infinity s | S754_finite s _ _ => negb s
  end.

(** *** Decimal digits *)

Definition digit_char (d : Z) : N := (0x30 + Z.to_N d)%N.

Fixpoint decimal_loop (fuel : nat) (n : Z) (acc : list N) : list N :=
  match fuel with
  | O => acc
  | S fuel' =>
    let acc' := digit_char (n mod 10) :: acc in
    if n / 10 =? 0 then acc' else decimal_loop fuel' (n / 10) acc'
  end.

(** The decimal digits of a non-negative integer, without leading zeros. *)
Definition decimal (n : Z) : list N :=
  decimal_loop (S (Z.to_nat (Z.log2 n))) n [].

Definition is_digit (c : N) : bool := ((0x30 <=? c) && (c <=? 0x39))%N.

Definition digit_value (c : N) : Z := Z.of_N (c - 0x30).

(** The integer a run of decimal digits denotes. *)
Definition digits_value (ds : list N) : Z :=
  fold_left (fun acc c => acc * 10 + digit_value c) ds 0.

Fixpoint span_digits (s : list N) : list N * list N :=
  match s with
  | c :: s' =>
    if is_digit c then let '(ds, tl) := span_digits s' in (c :: ds, tl)
    else ([], s)
  | [] => ([], [])
  end.

(** *** parseFloat

    The longest prefix of the trimmed string that is a decimal literal
    (sign, digits, fraction, exponent) or [Infinity]; NaN when there is
    none. *)
Definition scale (neg : bool) (digits : Z) (e10 : Z) : number :=
  if digits =? 0 then S754_zero neg
  else
    let m := if neg then - digits else digits in
    if 0 <=? e10 then of_ratio (m * 10 ^ e10) 1
    else of_ratio m (Z.to_pos (10 ^ (- e10))).

Definition parse_exponent (s : list N) : Z :=
  match s with
  | c :: s1 =>
    if ((c =? 0x65) || (c =? 0x45))%N then
      let '(neg, s2) :=
        match s1 with
        | d :: s2 =>
          if (d =? 0x2B)%N then (false, s2)
          else if (d =? 0x2D)%N then (true, s2) else (false, s1)
        | [] => (false, s1)
        end in
      let '(ds, _) := span_digits s2 in
      if neg then - digits_value ds else digits_value ds
    else 0
  | [] => 0
  end.

Definition parseFloat (s : list N) : number :=
  let s1 := trim_start s in
  let '(neg, s2) :=
    match s1 with
    | c :: tl =>
      if (c =? 0x2B)%N then (false, tl)
      else if (c =? 0x2D)%N then (true, tl) else (false, s1)
    | [] => (false, s1)
    end in
  if starts_with (js "Infinity") s2 then S754_infinity neg
  else
    let '(ip, s3) := span_digits s2 in
    let '(fp, s4) :=
      match s3 with
      | c :: tl => if (c =? 0x2E)%N then span_digits tl else ([], s3)
      | [] => ([], s3)
      end in
    match ip, fp with
    | [], [] => S754_nan
    | _, _ =>
      scale neg (digits_value (ip ++ fp))
            (parse_exponent s4 - Z.of_nat (List.length fp))
    end.

(** *** parseInt, radix left out

    Decimal unless the trimmed, unsigned string starts with [0x]. *)
Definition hex_value (c : N) : option Z :=
  if is_digit c then Some (digit_value c)
  else if ((0x61 <=? c) && (c <=? 0x66))%N then Some (Z.of_N (c - 0x61) + 10)
  else if ((0x41 <=? c) && (c <=? 0x46))%N then Some (Z.of_N (c - 0x41) + 10)
  else None.

Fixpoint parse_hex (s : list N) (acc : option Z) : option Z :=
  match s with
  | c :: s' =>
    match hex_value c with
    | Some d => parse_hex s' (Some (match acc with
                                    | Some a => a * 16 + d
                                    | None => d
                                    end))
    | None => acc
    end
  | [] => acc
  end.

Definition parseInt (s : list N) : number :=
  let s1 := trim_start s in
  let '(neg, s2) :=
    match s1 with
    | c :: tl =>
      if (c =? 0x2B)%N then (false, tl)
      else if (c =? 0x2D)%N then (true, tl) else (false, s1)
    | [] => (false, s1)
    end in
  let magnitude :=
    match s2 with
    | z :: x :: tl =>
      if ((z =? 0x30) && ((x =? 0x78) || (x =? 0x58)))%N
      then parse_hex tl None
      else match fst (span_digits s2) with
           | [] => None
           | ds => Some (digits_value ds)
           end
    | _ => match fst (span_digits s2) with
           | [] => None
           | ds => Some (digits_value ds)
           end
    end in
  match magnitude with
  | None => S754_nan
  | Some v => if v =? 0 then S754_zero neg
              else of_Z (if neg then - v else v)
  end.

(** *** Number to string

    [shortest m e] finds the decimal [s * 10^x] with the fewest digits
    that reads back as the Number [m * 2^e], the closest one to it when
    several do, the even one on a tie. *)
Definition to_ratio (m : positive) (e : Z) : Z * Z :=
  if 0 <=? e then (Zpos m * 2 ^ e, 1) else (Zpos m, 2 ^ (- e)).

(** Least [n] from [n0] on with [p / q < 10^n]. *)
Fixpoint decimal_exponent (fuel : nat) (p q : Z) (n : Z) : Z :=
  match fuel with
  | O => n
  | S fuel' =>
    let below :=
      if 0 <=? n then p <? q * 10 ^ n else p * 10 ^ (- n) <? q in
    if below then n else decimal_exponent fuel' p q (n + 1)
  end.

(** A lower bound of the decimal exponent: [m * 2^e >= 2^(l-1)] for
    [l] the bit length of [m] plus [e], and [log10 2 > 0.30102]; the
    margin of one covers the rounding for negative [l]. *)
Definition exponent_estimate (m : positive) (e : Z) : Z :=
  (Z.log2 (Zpos m) + e) * 30102 / 100000 - 1.

Definition reads_back (x : number) (s : Z) (x10 : Z) : bool :=
  match SFcompare (scale false s x10) x with
  | Some Eq => true
  | _ => false
  end.

Fixpoint shortest_loop (fuel : nat) (x : number) (p q : Z) (n : Z) (k : Z)
  : Z * Z :=
  let x10 := n - k in
  let '(a, b) :=
    if 0 <=? x10 then (p, q * 10 ^ x10) else (p * 10 ^ (- x10), q) in
  let lo := a / b in
  let r := a mod b in
  match fuel with
  | O => (lo, x10)
  | S fuel' =>
    let ok_lo := (0 <? lo) && reads_back x lo x10 in
    let ok_hi := negb (r =? 0) && reads_back x (lo + 1) x10 in
    match ok_lo, ok_hi with
    | true, false => (lo, x10)
    | false, true => (lo + 1, x10)
    | true, true =>
      match 2 * r ?= b with
      | Lt => (lo, x10)
      | Gt => (lo + 1, x10)
      | Eq => if Z.even lo then (lo, x10) else (lo + 1, x10)
      end
    | false, false => shortest_loop fuel' x p q n (k + 1)
    end
  end.

Fixpoint strip_zeros (fuel : nat) (s x10 : Z) : Z * Z :=
  match fuel with
  | O => (s, x10)
  | S fuel' =>
    if (s mod 10 =? 0) && negb (s =? 0)
    then strip_zeros fuel' (s / 10) (x10 + 1)
    else (s, x10)
  end.

Definition shortest (m : positive) (e : Z) : Z * Z :=
  let x := S754_finite false m e in
  let '(p, q) := to_ratio m e in
  let n := decimal_exponent 8 p q (exponent_estimate m e) in
  let '(s, x10) := shortest_loop 17 x p q n 1 in
  strip_zeros 20 s x10.

Definition zeros (n : Z) : list N := repeat 0x30%N (Z.to_nat n).

(** The digits [ds] with the decimal point after [n] of them, in the
    notation Number::toString chooses for that [n]. *)
Definition layout (ds : list N) (n : Z) : list N :=
  let k := Z.of_nat (List.length ds) in
  if (k <=? n) && (n <=? 21) then ds ++ zeros (n - k)
  else if (0 <? n) && (n <=? 21) then
    firstn (Z.to_nat n) ds ++ js "." ++ skipn (Z.to_nat n) ds
  else if (-6 <? n) && (n <=? 0) then js "0." ++ zeros (- n) ++ ds
  else
    let e := n - 1 in
    let sign := if 0 <=? e then js "+" else js "-" in
    match ds with
    | [d] => [d] ++ js "e" ++ sign ++ decimal (Z.abs e)
    | d :: tl => [d] ++ js "." ++ tl ++ js "e" ++ sign ++ decimal (Z.abs e)
    | [] => []
    end.

Definition toString (x : number) : list N :=
  match x with
  | S754_nan => js "NaN"
  | S754_zero _ => js "0"
  | S754_infinity false => js "Infinity"
  | S754_infinity true => js "-Infinity"
  | S754_finite s m e =>
    let '(d, x10) := shortest m e in
    let ds := decimal d in
    (if s then js "-" else []) ++ layout ds (Z.of_nat (List.length ds) + x10)
  end.

(** *** toFixed(f)

    The integer [n] nearest [x * 10^f] (the larger one on a tie), written
    with [f] digits after the point; a magnitude of [10^21] or more falls
    back to [toString]. *)
Definition fixed_digits (n : Z) (f : nat) : list N :=
  let m := decimal n in
  match f with
  | O => m
  | S _ =>
    let k := List.length m in
    let m' := if (k <=? f)%nat then repeat 0x30%N (S f - k) ++ m else m in
    let k' := List.length m' in
    firstn (k' - f) m' ++ js "." ++ skipn (k' - f) m'
  end.

Definition toFixed (x : number) (f : nat) : list N :=
  match x with
  | S754_nan => js "NaN"
  | S754_infinity false => js "Infinity"
  | S754_infinity true => js "-Infinity"
  | S754_zero _ => fixed_digits 0 f
  | S754_finite s m e =>
    let '(p, q) := to_ratio m e in
    (if s then js "-" else []) ++
    (if 10 ^ 21 * q <=? p then toString (S754_finite false m e)
     else fixed_digits ((2 * p * 10 ^ Z.of_nat f + q) / (2 * q)) f)
  end.

(** A decimal literal of the source text, e.g. [dec "7.1776"]. *)
Definition dec (s : string) : number := parseFloat (js s).
Arguments dec _%_string.

End Number.

Export Number.

(* ===================================================================== *)
(** ** Objects, dates and the host *)
(* ===================================================================== *)

Module Runtime.

Local Open Scope Z_scope.

(** *** Property lookup on an object literal

    [obj[key]] finds the literal's own properties and, failing that, the
    members every object inherits from [Object.prototype]. *)
Inductive property (A : Type) : Type :=
| Own (v : A)
| Inherited (key : list N)
| Undefined.

Arguments Own {A} v.
Arguments Inherited {A} key.
Arguments Undefined {A}.

Definition string_eqb (a b : list N) : bool :=
  if decide (a = b) then true else false.

Fixpoint own_property {A} (obj : list (list N * A)) (key : list N)
  : option A :=
  match obj with
  | [] => None
  | (k, v) :: obj' =>
      if string_eqb k key then Some v else own_property obj' key
  end.

Definition object_prototype : list (list N) :=
  [js "constructor"; js "hasOwnProperty"; js "isPrototypeOf";
   js "propertyIsEnumerable"; js "toLocaleString"; js "toString";
   js "valueOf"; js "__proto__"; js "__defineGetter__";
   js "__defineSetter__"; js "__lookupGetter__"; js "__lookupSetter__"].

Definition get {A} (obj : list (list N * A)) (key : list N) : property A :=
  match own_property obj key with
  | Some v => Own v
  | None =>
      if existsb (string_eqb key) object_prototype then Inherited key
      else Undefined
  end.

(** *** Completions: a call returns or throws *)
Inductive exn : Type :=
| RangeError (detail : list N)
| Thrown (payload : list N).

Inductive completion (A : Type) : Type :=
| Return (a : A)
| Throw (e : exn).

Arguments Return {A} a.
Arguments Throw {A} e.

Definition try_catch {A} (body : completion A) (handler : exn -> completion A)
  : completion A :=
  match body with
  | Return a => Return a
  | Throw e => handler e
  end.

(** *** Calendar arithmetic of Date

    Days are counted from 1970-01-01; months are 0-based as in
    [getMonth]. *)
Definition msPerDay : Z := 86400000.

Definition days_from_civil (y m d : Z) : Z :=
  let y' := if m <=? 2 then y - 1 else y in
  let era := y' / 400 in
  let yoe := y' - era * 400 in
  let mp := if 2 <? m then m - 3 else m + 9 in
  let doy := (153 * mp + 2) / 5 + d - 1 in
  let doe := yoe * 365 + yoe / 4 - yoe / 100 + doy in
  era * 146097 + doe - 719468.

(** Year, month (1-12) and day of month of a day number. *)
Definition civil_from_days (z : Z) : Z * Z * Z :=
  let z' := z + 719468 in
  let era := z' / 146097 in
  let doe := z' - era * 146097 in
  let yoe := (doe - doe / 1460 + doe / 36524 - doe / 146096) / 365 in
  let doy := doe - (365 * yoe + yoe / 4 - yoe / 100) in
  let mp := (5 * doy + 2) / 153 in
  let d := doy - (153 * mp + 2) / 5 + 1 in
  let m := if mp <? 10 then mp + 3 else mp - 9 in
  ((if m <=? 2 then yoe + era * 400 + 1 else yoe + era * 400), m, d).

(** MakeDay: the day number of day [date] of month [month] (0-based, any
    integer) of [year]. *)
Definition MakeDay (year month date : Z) : Z :=
  days_from_civil (year + month / 12) (month mod 12 + 1) 1 + date - 1.

Definition TimeClip (t : Z) : option Z :=
  if Z.abs t <=? 8640000000000000 then Some t else None.

(** ToIntegerOrInfinity on a finite Number; [None] for NaN and the
    infinities, which every Date setter turns into an invalid date. *)
Definition to_integer (x : number) : option Z :=
  match x with
  | S754_zero _ => Some 0
  | S754_finite s m e =>
      let v := if 0 <=? e then Zpos m * 2 ^ e else Zpos m / 2 ^ (- e) in
      Some (if s then - v else v)
  | _ => None
  end.

(** *** What the host supplies

    The local time zone (the LocalTime and UTC operations of Date), the
    time-zone database behind [Intl.DateTimeFormat], and [Math.cbrt], which
    the language leaves implementation-approximated. *)
Class Host : Type := {
  LocalTime : Z -> Z;
  UTC : Z -> Z;
  (** [new Intl.DateTimeFormat('zh-CN', {timeZone, hour: '2-digit',
      minute: '2-digit', hour12: false}).format(t)] for a zone name of the
      database *)
  format_hour_minute : list N -> Z -> list N;
  Math_cbrt : number -> number
}.

Section Date.
Context {H : Host}.

(** A Date object's time value; [None] is the invalid date. *)
Definition Date : Type := option Z.

Definition fields (d : Date) : option (Z * Z * Z) :=
  match d with
  | Some t => Some (civil_from_days (LocalTime t / msPerDay))
  | None => None
  end.

(** [getFullYear], [getMonth] (0-based) and [getDate] as Numbers. *)
Definition getFullYear (d : Date) : number :=
  match fields d with
  | Some (y, _, _) => of_Z y
  | None => S754_nan
  end.

Definition getMonth (d : Date) : number :=
  match fields d with
  | Some (_, m, _) => of_Z (m - 1)
  | None => S754_nan
  end.

Definition getDate (d : Date) : number :=
  match fields d with
  | Some (_, _, dd) => of_Z dd
  | None => S754_nan
  end.

Definition rebuild (d : Date) (f : Z * Z * Z -> Z -> Z * Z * Z) (x : number)
  : Date :=
  match d, to_integer x with
  | Some t, Some v =>
      let lt := LocalTime t in
      let '(y, m, dd) := f (civil_from_days (lt / msPerDay)) v in
      TimeClip (UTC (MakeDay y (m - 1) dd * msPerDay + lt mod msPerDay))
  | _, _ => None
  end.

Definition setDate (d : Date) (x : number) : Date :=
  rebuild d (fun '(y, m, _) v => (y, m, v)) x.

Definition setMonth (d : Date) (x : number) : Date :=
  rebuild d (fun '(y, _, dd) v => (y, v + 1, dd)) x.

Definition setFullYear (d : Date) (x : number) : Date :=
  rebuild d (fun '(_, m, dd) v => (v, m, dd)) x.

End Date.

End Runtime.

Export Runtime.

(* ===================================================================== *)
(** ** The engine: class ChineseSmartCompletion *)
(* ===================================================================== *)

Module Category.
Inductive t : Type := math | date | timezone | unit | currency | formula.
End Category.

Module ResultType.
Inductive t : Type :=
  calculation | date | timezone | conversion | currency | formula | error.
End ResultType.

(** The [result] field of a Result is a string everywhere but in the
    formula handler, which stores whatever [formulaDatabase[input]] is:
    for an inherited key that is a member of [Object.prototype]. *)
Inductive display : Type :=
| Text (s : list N)
| Member (key : list N).

Record Result : Type := mkResult {
  type : ResultType.t;
  result : display
}.

Record Rule : Type := mkRule {
  category : Category.t;
  priority : nat;
  patterns : list regex;
  (** [handler(match, cleanInput)], run when the clock reads [now] *)
  handler : MatchResult -> list N -> Z -> completion (option Result)
}.

(** The mutable part of an engine, and the diagnostic sink
    [console.error] writes to. *)
Record Engine : Type := mkEngine {
  cache : gmap (list N) Result;
  console : list (Category.t * exn)
}.

(** *** initializeData *)
Module Data.

Definition timezoneMap : list (list N * list N) :=
  [(js "纽约", js "America/New_York");
   (js "洛杉矶", js "America/Los_Angeles");
   (js "伦敦", js "Europe/London");
   (js "巴黎", js "Europe/Paris");
   (js "东京", js "Asia/Tokyo");
   (js "首尔", js "Asia/Seoul");
   (js "新加坡", js "Asia/Singapore");
   (js "迪拜", js "Asia/Dubai")].

Definition formulaDatabase : list (list N * list N) :=
  [(js "牛顿第二定律", js "F = ma");
   (js "牛顿第一定律", js "物体保持静止或匀速直线运动状态");
   (js "牛顿第三定律", js "作用力与反作用力大小相等，方向相反");
   (js "欧姆定律", js "V = IR");
   (js "万有引力定律", js "F = G(m₁m₂)/r²");
   (js "勾股定理", js "a² + b² = c²");
   (js "二次方程", js "x = (-b ± √(b²-4ac)) / 2a");
   (js "圆的面积公式", js "S = πr²");
   (js "水的分子式", js "H₂O");
   (js "二氧化碳", js "CO₂");
   (js "氧气的化学式", js "O₂")].

(** [exchangeRates.USD.CNY] and [exchangeRates.CNY.USD], the two rates
    the engine reads. *)
Definition exchangeRates_USD_CNY : number := dec "7.1776".
Definition exchangeRates_CNY_USD : number := dec "0.1393".

End Data.

Section Handlers.
Context {H : Host}.

Definition text_of (o : option (list N)) : list N :=
  match o with
  | Some w => w
  | None => js "undefined"
  end.

(** *** preprocessInput *)
Definition preprocessInput (input : list N) : list N :=
  String_replace_all
    (String_replace_all (trim input) Patterns.spaces (fun _ => js " "))
    Patterns.punctuation (fun _ => []).

(** *** handleMathCalculation *)
Definition replacements : list (list N * list N) :=
  [(js "加", js "+"); (js "减", js "-"); (js "乘", js "*"); (js "除", js "/");
   (js "的平方根", js "sqrt"); (js "的立方根", js "cbrt")].

(** The loop over [Object.entries(replacements)]. *)
Definition translate (input : list N) : list N :=
  fold_left
    (fun expression '(chinese, symbol) =>
       String_replace_all expression (Lit chinese) (fun _ => symbol))
    replacements input.

(** [parseFloat(expression.replace(/.*?(\d+(?:\.\d+)?).*/, '$1'))] *)
Definition operand (expression : list N) : number :=
  parseFloat
    (String_replace expression Patterns.first_number
       (fun m => match group m 1 with Some w => w | None => [] end)).

Definition division_by_zero : list N := js "除数不能为0".

Definition handleMathCalculation (m : MatchResult) (input : list N) (now : Z)
  : completion (option Result) :=
  try_catch
    (let expression := translate input in
     if includes expression (js "sqrt") then
       let num := operand expression in
       Return (Some (mkResult ResultType.calculation
                       (Text (js "= " ++ toString (sqrt num)))))
     else if includes expression (js "cbrt") then
       let num := operand expression in
       Return (Some (mkResult ResultType.calculation
                       (Text (js "= " ++ toFixed (Math_cbrt num) 4))))
     else
       match String_match expression Patterns.basic_arith with
       | Some basicMatch =>
         let num1 := text_of (group basicMatch 1) in
         let operator := text_of (group basicMatch 2) in
         let num2 := text_of (group basicMatch 3) in
         let a := parseFloat num1 in
         let b := parseFloat num2 in
         let shown :=
           if string_eqb operator (js "+") then toString (add a b)
           else if string_eqb operator (js "-") then toString (sub a b)
           else if string_eqb operator (js "*") then toString (mul a b)
           else if string_eqb operator (js "/") then
             if negb (is_zero b) then toString (div a b)
             else division_by_zero
           else js "undefined" in
         Return (Some (mkResult ResultType.calculation
                         (Text (js "= " ++ shown))))
       | None => Return None
       end)
    (fun _ => Return (Some (mkResult ResultType.error
                              (Text (js "计算错误"))))).

(** *** handleDateCalculation *)
Definition month_day (targetDate : Date) : Result :=
  let month := add (getMonth targetDate) (of_Z 1) in
  let day := getDate targetDate in
  mkResult ResultType.date
    (Text (js "（" ++ toString month ++ js "月" ++ toString day
           ++ js "日）")).

Definition specialDates : list (list N * Z) :=
  [(js "今天", 0%Z); (js "明天", 1%Z); (js "后天", 2%Z);
   (js "昨天", (-1)%Z); (js "前天", (-2)%Z)].

Definition handleDateCalculation (m : MatchResult) (input : list N) (now : Z)
  : completion (option Result) :=
  let targetDate : Date := Some now in
  match String_match input Patterns.date_relative with
  | Some relativeMatch =>
    let amount := text_of (group relativeMatch 1) in
    let unit := text_of (group relativeMatch 2) in
    let direction := text_of (group relativeMatch 3) in
    let num := parseInt amount in
    let multiplier :=
      if string_eqb direction (js "后") then of_Z 1 else of_Z (-1) in
    let targetDate :=
      if string_eqb unit (js "天") || string_eqb unit (js "日") then
        setDate targetDate (add (getDate targetDate) (mul num multiplier))
      else if string_eqb unit (js "周") then
        setDate targetDate
          (add (getDate targetDate) (mul (mul num (of_Z 7)) multiplier))
      else if string_eqb unit (js "月") then
        setMonth targetDate (add (getMonth targetDate) (mul num multiplier))
      else if string_eqb unit (js "年") then
        setFullYear targetDate
          (add (getFullYear targetDate) (mul num multiplier))
      else targetDate in
    Return (Some (month_day targetDate))
  | None =>
    match own_property specialDates input with
    | Some offset =>
      Return (Some (month_day
                      (setDate targetDate
                         (add (getDate targetDate) (of_Z offset)))))
    | None => Return None
    end
  end.

(** *** handleTimezoneQuery

    An inherited member as [timeZone] is no zone name:
    [Intl.DateTimeFormat] rejects it with a RangeError. *)
Definition handleTimezoneQuery (m : MatchResult) (input : list N) (now : Z)
  : completion (option Result) :=
  match String_match input Patterns.timezone_city with
  | Some cityMatch =>
    let city := text_of (group cityMatch 1) in
    match get Data.timezoneMap city with
    | Own timezone =>
      match timezone with
      | [] => Return None
      | _ :: _ =>
        let time := format_hour_minute timezone now in
        Return (Some (mkResult ResultType.timezone
                        (Text (js "（" ++ time ++ js "）"))))
      end
    | Inherited key => Throw (RangeError key)
    | Undefined => Return None
    end
  | None => Return None
  end.

(** *** handleUnitConversion *)
Definition handleUnitConversion (m : MatchResult) (input : list N) (now : Z)
  : completion (option Result) :=
  let temperature :=
    match String_match input Patterns.temperature_prefix with
    | Some tempMatch =>
      let value := text_of (group tempMatch 1) in
      let unit := text_of (group tempMatch 2) in
      let num := parseFloat value in
      if string_eqb unit (js "摄氏度") || string_eqb unit (js "℃") then
        let fahrenheit :=
          toFixed (add (div (mul num (of_Z 9)) (of_Z 5)) (of_Z 32)) 1 in
        Some (mkResult ResultType.conversion
                (Text (fahrenheit ++ js "华氏度")))
      else if string_eqb unit (js "华氏度") || string_eqb unit (js "℉") then
        let celsius :=
          toFixed (div (mul (sub num (of_Z 32)) (of_Z 5)) (of_Z 9)) 1 in
        Some (mkResult ResultType.conversion
                (Text (celsius ++ js "摄氏度")))
      else None
    | None => None
    end in
  match temperature with
  | Some r => Return (Some r)
  | None =>
    match String_match input Patterns.length_prefix with
    | Some lengthMatch =>
      let value := text_of (group lengthMatch 1) in
      let unit := text_of (group lengthMatch 2) in
      let num := parseFloat value in
      if string_eqb unit (js "米") || string_eqb unit (js "m") then
        let feet := toFixed (mul num (dec "3.28084")) 2 in
        Return (Some (mkResult ResultType.conversion
                        (Text (feet ++ js "英尺"))))
      else Return None
    | None => Return None
    end
  end.

(** *** handleCurrencyConversion *)
Definition currencyMap : list (list N * list N) :=
  [(js "美元", js "USD"); (js "人民币", js "CNY"); (js "欧元", js "EUR");
   (js "英镑", js "GBP")].

Definition handleCurrencyConversion (m : MatchResult) (input : list N)
  (now : Z) : completion (option Result) :=
  match String_match input Patterns.currency_any with
  | Some currencyMatch =>
    let amount := text_of (group currencyMatch 1) in
    let currency := text_of (group currencyMatch 2) in
    let num := parseFloat amount in
    (* currencyMap[currency] || currency *)
    let fromCurrency :=
      match get currencyMap currency with
      | Own code => match code with [] => Some currency | _ => Some code end
      | Inherited _ => None
      | Undefined => Some currency
      end in
    match fromCurrency with
    | Some code =>
      if string_eqb code (js "USD") then
        let cnyAmount := toFixed (mul num Data.exchangeRates_USD_CNY) 4 in
        Return (Some (mkResult ResultType.currency
                        (Text (js "（" ++ cnyAmount ++ js " 人民币）"))))
      else if string_eqb code (js "CNY") then
        let usdAmount := toFixed (mul num Data.exchangeRates_CNY_USD) 4 in
        Return (Some (mkResult ResultType.currency
                        (Text (js "（" ++ usdAmount ++ js " 美元）"))))
      else Return None
    | None => Return None
    end
  | None => Return None
  end.

(** *** handleFormulaQuery *)
Definition handleFormulaQuery (m : MatchResult) (input : list N) (now : Z)
  : completion (option Result) :=
  match get Data.formulaDatabase input with
  | Own text =>
    match text with
    | [] => Return None
    | _ :: _ => Return (Some (mkResult ResultType.formula (Text text)))
    end
  | Inherited key =>
      Return (Some (mkResult ResultType.formula (Member key)))
  | Undefined => Return None
  end.

(** *** initializeRules *)
Definition math_rule : Rule :=
  mkRule Category.math 1
    [Patterns.math_symbolic; Patterns.math_chinese; Patterns.math_root]
    handleMathCalculation.

Definition date_rule : Rule :=
  mkRule Category.date 2
    [Patterns.date_relative; Patterns.date_deictic]
    handleDateCalculation.

Definition timezone_rule : Rule :=
  mkRule Category.timezone 3
    [Patterns.timezone_city; Patterns.timezone_clock]
    handleTimezoneQuery.

Definition unit_rule : Rule :=
  mkRule Category.unit 4
    [Patterns.unit_temperature; Patterns.unit_length]
    handleUnitConversion.

Definition currency_rule : Rule :=
  mkRule Category.currency 5
    [Patterns.currency_any; Patterns.currency_named]
    handleCurrencyConversion.

Definition formula_rule : Rule :=
  mkRule Category.formula 6
    [Patterns.formula_physics; Patterns.formula_math;
     Patterns.formula_chemistry]
    handleFormulaQuery.

Definition initializeRules : list Rule :=
  [math_rule; date_rule; timezone_rule; unit_rule; currency_rule;
   formula_rule].

End Handlers.

(** *** process

    A call of [process] runs in the monad of engine state and
    completions.  Inside the loops [Some r] stands for [return r] and
    [None] for falling through to the next iteration. *)
Module Process.

Definition M (A : Type) : Type := Engine -> completion A * Engine.

Definition ret {A} (a : A) : M A := fun e => (Return a, e).

Definition bind {A B} (m : M A) (k : A -> M B) : M B :=
  fun e =>
    match m e with
    | (Return a, e') => k a e'
    | (Throw x, e') => (Throw x, e')
    end.

Definition call {A} (c : completion A) : M A := fun e => (c, e).

Definition catch {A} (body : M A) (handler : exn -> M A) : M A :=
  fun e =>
    match body e with
    | (Return a, e') => (Return a, e')
    | (Throw x, e') => handler x e'
    end.

Definition cache_get (k : list N) : M (option Result) :=
  fun e => (Return (cache e !! k), e).

Definition cache_set (k : list N) (v : Result) : M unit :=
  fun e => (Return tt, mkEngine (<[k := v]> (cache e)) (console e)).

Definition console_error (c : Category.t) (x : exn) : M unit :=
  fun e => (Return tt, mkEngine (cache e) (console e ++ [(c, x)])).

Notation "'let*' x := m 'in' k" := (bind m (fun x => k))
  (at level 10, x name, m at level 100, k at level 200).
Notation "'do' m 'then' k" := (bind m (fun _ => k))
  (at level 10, m at level 100, k at level 200).

Section Dispatch.
Variable preprocess : list N -> list N.
Variable rules : list Rule.

Fixpoint for_patterns (rule : Rule) (pats : list regex)
  (cleanInput : list N) (now : Z) : M (option Result) :=
  match pats with
  | [] => ret None
  | pattern :: pats' =>
    match String_match cleanInput pattern with
    | Some m =>
      let* returned :=
        catch
          (let* result := call (handler rule m cleanInput now) in
           match result with
           | Some r => do cache_set cleanInput r then ret (Some r)
           | None => ret None
           end)
          (fun error =>
             do console_error (category rule) error then ret None) in
      match returned with
      | Some r => ret (Some r)
      | None => for_patterns rule pats' cleanInput now
      end
    | None => for_patterns rule pats' cleanInput now
    end
  end.

Fixpoint for_rules (rs : list Rule) (cleanInput : list N) (now : Z)
  : M (option Result) :=
  match rs with
  | [] => ret None
  | rule :: rs' =>
    let* returned := for_patterns rule (patterns rule) cleanInput now in
    match returned with
    | Some r => ret (Some r)
    | None => for_rules rs' cleanInput now
    end
  end.

Definition process_with (input : list N) (now : Z) : M (option Result) :=
  let cleanInput := preprocess input in
  let* cached := cache_get cleanInput in
  match cached with
  | Some r => ret (Some r)
  | None => for_rules rules cleanInput now
  end.

End Dispatch.

End Process.

Export Process.

(** [new ChineseSmartCompletion()] and its [process] method. *)
Definition new_engine : Engine := mkEngine ∅ [].

Definition process {H : Host} (input : list N) (now : Z)
  : M (option Result) :=
  process_with preprocessInput initializeRules input now.

(* ===================================================================== *)
(** ** Reasoning about patterns *)
(* ===================================================================== *)

(** [first r st st']: the matcher's first choice for [r] at [st]. *)
Definition first (r : regex) (st st' : mstate) : Prop :=
  exists tl, matches r st = st' :: tl.

(** A match consumes a prefix of what is left and moves the index along. *)
Definition extends (st st' : mstate) : Prop :=
  exists w, rest st = w ++ rest st' /\ pos st' = (pos st + List.length w)%nat.

(** The state a match attempt at index [i] starts from. *)
Definition start (r : regex) (i : nat) (s : list N) : mstate :=
  MState i s (repeat None (ngroups r)).

(** The state after consuming [w] with [tl] left. *)
Definition after (st : mstate) (w tl : list N) : mstate :=
  MState (List.length w + pos st) tl (caps st).

(** [s] is empty or starts outside [cls]. *)
Definition stops (cls : cclass) (s : list N) : bool :=
  match s with
  | [] => true
  | c :: _ => negb (in_class cls c)
  end.

Definition subrange (r q : N * N) : bool :=
  (fst q <=? fst r) && (snd r <=? snd q).

(** Every range of [a] lies inside a range of [b]. *)
Definition subclass (a b : cclass) : bool :=
  forallb (fun r => existsb (subrange r) b) a.

Definition apart (r q : N * N) : bool :=
  (snd r <? fst q) || (snd q <? fst r).

(** No range of [a] meets a range of [b]. *)
Definition disjoint (a b : cclass) : bool :=
  forallb (fun r => forallb (apart r) b) a.

Definition zero_width (r : regex) : bool :=
  match r with
  | Empty | Bol | Eol => true
  | _ => false
  end.

(** Sufficient syntactic conditions: whatever [r] matches contains a code
    unit outside [a] ([escapes]), starts with one of [p] ([begins]), ends
    with one of [p] ([ends]); [r] only matches up to the end of the input
    ([to_end]) or from its start ([from_start]). *)
Fixpoint escapes (a : cclass) (r : regex) : bool :=
  match r with
  | Char cls => disjoint cls a
  | Seq r1 r2 => escapes a r1 || escapes a r2
  | Alt r1 r2 => escapes a r1 && escapes a r2
  | Group _ r1 => escapes a r1
  | _ => false
  end.

Fixpoint begins (p : cclass) (r : regex) : bool :=
  match r with
  | Char cls => subclass cls p
  | Seq a b => begins p a || (zero_width a && begins p b)
  | Alt a b => begins p a && begins p b
  | Group _ a => begins p a
  | _ => false
  end.

Fixpoint ends (p : cclass) (r : regex) : bool :=
  match r with
  | Char cls => subclass cls p
  | Seq a b => ends p b || (zero_width b && ends p a)
  | Alt a b => ends p a && ends p b
  | Group _ a => ends p a
  | _ => false
  end.

Fixpoint to_end (r : regex) : bool :=
  match r with
  | Eol => true
  | Seq a b => to_end b
  | Alt a b => to_end a && to_end b
  | Group _ a => to_end a
  | _ => false
  end.

Fixpoint from_start (r : regex) : bool :=
  match r with
  | Bol => true
  | Seq a b => from_start a
  | Alt a b => from_start a && from_start b
  | Group _ a => from_start a
  | _ => false
  end.

(** Every code unit of [s] is in [cls]. *)
Definition all_in (cls : cclass) (s : list N) : bool :=
  forallb (in_class cls) s.

(** A numeric literal: digits, optionally a point and more digits. *)
Definition is_numeral (a : list N) : bool :=
  let '(ip, r) := span_digits a in
  match ip, r with
  | [], _ => false
  | _, [] => true
  | _, c :: r' =>
    (c =? 0x2E) &&
    (let '(fp, r'') := span_digits r' in
     match fp, r'' with
     | _ :: _, [] => true
     | _, _ => false
     end)
  end.

Arguments in_class : simpl never.
Arguments all_in : simpl never.
Arguments stops : simpl never.
Arguments disjoint : simpl never.
Arguments subclass : simpl never.

(** [st'] is [st] after consuming [w], captures untouched. *)
Definition took (st : mstate) (w : list N) (st' : mstate) : Prop :=
  rest st = w ++ rest st' /\ pos st' = (List.length w + pos st)%nat
  /\ caps st' = caps st.

(* ===================================================================== *)
(** ** Reasoning about dispatch *)
(* ===================================================================== *)

(** The (rule, pattern) pairs in the order the two loops of [process]
    visit them. *)
Definition attempts (rules : list Rule) : list (Rule * regex) :=
  flat_map (fun rule => map (pair rule) (patterns rule)) rules.

(** One visit: the handler runs when the pattern matches. *)
Definition attempt (rule : Rule) (pattern : regex) (clean : list N) (now : Z)
  : completion (option Result) :=
  match String_match clean pattern with
  | Some m => handler rule m clean now
  | None => Return None
  end.

Definition yields (rp : Rule * regex) (clean : list N) (now : Z)
  : option Result :=
  match attempt (fst rp) (snd rp) clean now with
  | Return (Some r) => Some r
  | _ => None
  end.

Definition fault (rp : Rule * regex) (clean : list N) (now : Z)
  : list (Category.t * exn) :=
  match attempt (fst rp) (snd rp) clean now with
  | Throw x => [(category (fst rp), x)]
  | _ => []
  end.

Definition faults (l : list (Rule * regex)) (clean : list N) (now : Z)
  : list (Category.t * exn) :=
  flat_map (fun rp => fault rp clean now) l.

(** The visits in order, up to the first that yields a Result: what it
    yields, and the faults logged on the way. *)
Fixpoint run (l : list (Rule * regex)) (clean : list N) (now : Z)
  : option Result * list (Category.t * exn) :=
  match l with
  | [] => (None, [])
  | rp :: l' =>
    match yields rp clean now with
    | Some r => (Some r, [])
    | None =>
      let '(o, log) := run l' clean now in (o, fault rp clean now ++ log)
    end
  end.

(** The engine after a call that found [o] for [clean] and logged
    [log]. *)
Definition settle (e : Engine) (clean : list N) (o : option Result)
  (log : list (Category.t * exn)) : Engine :=
  mkEngine (match o with
            | Some r => <[clean := r]> (cache e)
            | None => cache e
            end)
           (console e ++ log).

(** The engines a program can hold: a new one, and what calls of
    [process] at any moments make of it. *)
Inductive reachable {H : Host} : Engine -> Prop :=
| reach_new : reachable new_engine
| reach_process e input now :
    reachable e -> reachable (snd (process input now e)).

(** What the rule table finds for a normalized input at a given time. *)
Definition dispatch {H : Host} (clean : list N) (now : Z) : option Result :=
  fst (run (attempts initializeRules) clean now).

(** The Result of a call, [None] for null. *)
Definition returned (c : completion (option Result) * Engine)
  : option Result :=
  match fst c with
  | Return o => o
  | Throw _ => None
  end.

Definition shown (o : option Result) : option (list N) :=
  match o with
  | Some (mkResult _ (Text s)) => Some s
  | _ => None
  end.

(* ===================================================================== *)
(** ** A host to run the engine on *)
(* ===================================================================== *)

Module SampleHost.

Local Open Scope Z_scope.

(** Standard-time offsets from UTC, in minutes, of the zones of the
    fixture table. *)
Definition zone_offset : list (list N * Z) :=
  [(js "America/New_York", -300); (js "America/Los_Angeles", -480);
   (js "Europe/London", 0); (js "Europe/Paris", 60);
   (js "Asia/Tokyo", 540); (js "Asia/Seoul", 540);
   (js "Asia/Singapore", 480); (js "Asia/Dubai", 240)].

Definition two_digits (n : Z) : list N :=
  (if n <? 10 then js "0" else []) ++ decimal n.

Definition hour_minute (zone : list N) (t : Z) : list N :=
  let offset := match own_property zone_offset zone with
                | Some o => o
                | None => 0
                end in
  let m := (t / 60000 + offset) mod 1440 in
  two_digits (m / 60) ++ js ":" ++ two_digits (m mod 60).

(** Integer cube root, bit by bit from bit [n - 1] down. *)
Fixpoint icbrt (n : nat) (x q : Z) : Z :=
  match n with
  | O => q
  | S n' =>
    let q' := q + 2 ^ Z.of_nat n' in
    icbrt n' x (if q' * q' * q' <=? x then q' else q)
  end.

(** The correctly rounded cube root. *)
Definition cbrt (x : number) : number :=
  match x with
  | S754_finite s m e =>
    let sh := 162 + (e - 162) mod 3 in
    let x' := Zpos m * 2 ^ sh in
    let q := icbrt (S (Z.to_nat (Z.log2 x' / 3))) x' 0 in
    binary_round_aux prec emax s q ((e - sh) / 3)
      (if q * q * q =? x' then loc_Exact else loc_Inexact Lt)
  | _ => x
  end.

(** A host on China Standard Time, without daylight saving anywhere. *)
#[export] Instance host : Host := {|
  LocalTime := fun t => t + 28800000;
  UTC := fun t => t - 28800000;
  format_hour_minute := hour_minute;
  Math_cbrt := cbrt
|}.

End SampleHost.

(* ===================================================================== *)
(** ** The interactive shell's example list (交互测试.js, showExamples) *)
(* ===================================================================== *)

Definition examples : list (list N * list (list N)) :=
  [(js "数学计算", [js "1+1"; js "25*4"; js "100的平方根"]);
   (js "日期时间", [js "3天后"; js "明天"; js "下周"]);
   (js "时区查询", [js "纽约时间"; js "东京时间"; js "伦敦时间"]);
   (js "单位转换", [js "37摄氏度等于"; js "100米"; js "50英尺"]);
   (js "汇率换算", [js "1美元"; js "100人民币"; js "50欧元"]);
   (js "公式查询", [js "牛顿第二定律"; js "勾股定理"; js "欧姆定律"])].

(* ===================================================================== *)
(** ** The specification's exact arithmetic *)
(* ===================================================================== *)

Module Exact.

Local Open Scope Z_scope.

(** A ratio [(n, d)] stands for [n / d]; [d] is positive. *)
Definition ratio : Type := (Z * Z)%type.

Definition same (x y : ratio) : Prop := fst x * snd y = fst y * snd x.

(** The value a decimal string denotes: an optional minus sign, digits,
    and optionally a point and digits; nothing else. *)
Definition value (s : list N) : option ratio :=
  let '(neg, s1) :=
    match s with
    | c :: tl => if (c =? 0x2D)%N then (true, tl) else (false, s)
    | [] => (false, s)
    end in
  let '(ip, s2) := span_digits s1 in
  let '(fp, s3) :=
    match s2 with
    | c :: tl => if (c =? 0x2E)%N then span_digits tl else ([], s2)
    | [] => ([], s2)
    end in
  match ip, s3 with
  | _ :: _, [] =>
      let n := digits_value (ip ++ fp) in
      Some (if neg then - n else n, 10 ^ Z.of_nat (List.length fp))
  | _, _ => None
  end.

Inductive operation : Type := plus | minus | times | over.

Definition apply (op : operation) (x y : ratio) : ratio :=
  match op with
  | plus => (fst x * snd y + fst y * snd x, snd x * snd y)
  | minus => (fst x * snd y - fst y * snd x, snd x * snd y)
  | times => (fst x * fst y, snd x * snd y)
  | over => (fst x * snd y * Z.sgn (fst y), snd x * Z.abs (fst y))
  end.

(** Exact arithmetic as the specification words it: the display is ["= "] followed by
    a decimal that denotes the exact value of [a op b]. *)
Definition shows_exact (display : list N) (op : operation) (a b : list N)
  : Prop :=
  exists d x y v,
    display = js "= " ++ d /\ value a = Some x /\ value b = Some y /\
    value d = Some v /\ same v (apply op x y).

End Exact.

(** Rounding to a number of decimal places, as the specification words
    it. *)
Module Rounded.

Local Open Scope Z_scope.

(** [n / 10^k] is the multiple of [10^-k] nearest [x], the larger one
    when two are equally near. *)
Definition nearest (n : Z) (k : nat) (x : Exact.ratio) : Prop :=
  2 * snd x * n <= 2 * fst x * 10 ^ Z.of_nat k + snd x < 2 * snd x * (n + 1).

(** [d] is a decimal with [k] digits after the point, the one nearest
    the exact product of the decimals [a] and [b]. *)
Definition of_product (d : list N) (k : nat) (a b : list N) : Prop :=
  exists x y n,
    Exact.value a = Some x /\ Exact.value b = Some y /\
    Exact.value d = Some (n, 10 ^ Z.of_nat k) /\
    nearest n k (Exact.apply Exact.times x y).

(** The exact value of a Number that is finite and not below zero. *)
Definition value_of (x : number) : option Exact.ratio :=
  match x with
  | S754_zero _ => Some (0, 1)
  | S754_finite false m e => Some (to_ratio m e)
  | _ => None
  end.

(** [d] is a decimal with [k] digits after the point, the one nearest
    the Number [x]. *)
Definition of_number (d : list N) (k : nat) (x : number) : Prop :=
  exists v n,
    value_of x = Some v /\ Exact.value d = Some (n, 10 ^ Z.of_nat k) /\
    nearest n k v.

(** [x] is finite, not below zero and below [10^21], where [toFixed]
    changes to the exponent notation. *)
Definition fixed_range (x : number) : bool :=
  match value_of x with
  | Some (p, q) => p <? 10 ^ 21 * q
  | None => false
  end.

End Rounded.

(* ===================================================================== *)
(** ** The specification's normal form of an input *)
(* ===================================================================== *)

Module Normal.

Definition leading_space (s : list N) : bool :=
  match s with
  | c :: _ => is_space c
  | [] => false
  end.

Definition trailing_space (s : list N) : bool := leading_space (rev s).

(** Two whitespace code units in a row. *)
Fixpoint space_run (s : list N) : bool :=
  match s with
  | a :: tl =>
    (is_space a && leading_space tl) || space_run tl
  | [] => false
  end.

Definition marks : list N := js "，。！？；：".

Definition has_mark (s : list N) : bool :=
  existsb (fun c => existsb (N.eqb c) marks) s.

(** The normal form as the specification words it: no whitespace at
    either end, no run of whitespace inside, none of the six marks. *)
Definition normalized (s : list N) : bool :=
  negb (leading_space s) && negb (trailing_space s)
  && negb (space_run s) && negb (has_mark s).

End Normal.

(* ===================================================================== *)
(** ** The inputs the claims speak of *)
(* ===================================================================== *)

Module Inputs.

(** The code units of a numeral and of the whitespace around it. *)
Definition numeric : cclass := digit ++ one 0x2E ++ space.

(** Currency inputs: an amount, a currency by name or code, and for the
    names an optional 等于 or 换算成. *)
Definition usd : list (list N) := [js "美元"; js "USD"].
Definition cny : list (list N) := [js "人民币"; js "CNY"].
Definition other_currencies : list (list N) :=
  [js "欧元"; js "英镑"; js "EUR"; js "GBP"].
Definition currency_names : list (list N) :=
  [js "美元"; js "人民币"; js "欧元"; js "英镑"].
Definition currency_suffixes : list (list N) :=
  [[]; js "等于"; js "换算成"].
Definition currency_alphabet : cclass :=
  numeric ++ any_of (js "美元人民币欧英镑USDCNYEURGBP等于换算成").

(** Length inputs: an amount, a unit, and an optional 等于 or 转换为. *)
Definition meters : list (list N) := [js "米"; js "m"].
Definition other_lengths : list (list N) :=
  [js "厘米"; js "千米"; js "英尺"; js "英寸";
   js "cm"; js "km"; js "ft"; js "in"].
Definition unit_suffixes : list (list N) := [[]; js "等于"; js "转换为"].
Definition length_alphabet : cclass :=
  numeric ++ any_of (js "米厘千英尺寸mckftin等于转换为").

(** Arithmetic inputs: two numerals around an operator. *)
Definition symbols : list N := js "+-*/".
Definition operator_words : list N := js "加减乘除".
Definition symbolic_alphabet : cclass := numeric ++ any_of symbols.
Definition chinese_alphabet : cclass := numeric ++ any_of operator_words.

(** The symbol an operator stands for. *)
Definition symbol_of (op : N) : N :=
  if op =? 0x52A0 then 0x2B
  else if op =? 0x51CF then 0x2D
  else if op =? 0x4E58 then 0x2A
  else if op =? 0x9664 then 0x2F
  else op.

(** The Number operation of a symbol. *)
Definition operation (sym : N) (a b : number) : list N :=
  if sym =? 0x2B then toString (add a b)
  else if sym =? 0x2D then toString (sub a b)
  else if sym =? 0x2A then toString (mul a b)
  else if negb (is_zero b) then toString (div a b)
  else division_by_zero.

(** Time-zone queries: a city of the fixture table, then 时间. *)
Definition cities : list (list N) := map fst Data.timezoneMap.
Definition timezone_alphabet : cclass :=
  space ++ any_of (js "纽约洛杉矶伦敦巴黎东京首尔新加坡迪拜时间").

End Inputs.

(** The Results of the currency handler. *)
Definition to_cny (a : list N) : Result :=
  mkResult ResultType.currency
    (Text (js "（" ++ toFixed (mul (parseFloat a) Data.exchangeRates_USD_CNY) 4
           ++ js " 人民币）")).

Definition to_usd (a : list N) : Result :=
  mkResult ResultType.currency
    (Text (js "（" ++ toFixed (mul (parseFloat a) Data.exchangeRates_CNY_USD) 4
           ++ js " 美元）")).


(** The Result of the length branch of the unit handler. *)
Definition to_feet (a : list N) : Result :=
  mkResult ResultType.conversion
    (Text (toFixed (mul (parseFloat a) (dec "3.28084")) 2 ++ js "英尺")).

(** The Numbers the currency handler and the length branch of the unit
    handler compute from an amount. *)
Definition usd_to_cny (a : list N) : number :=
  mul (parseFloat a) Data.exchangeRates_USD_CNY.

Definition cny_to_usd (a : list N) : number :=
  mul (parseFloat a) Data.exchangeRates_CNY_USD.

Definition meters_to_feet (a : list N) : number :=
  mul (parseFloat a) (dec "3.28084").

(** The Number an arithmetic symbol computes. *)
Definition arith (sym : N) (a b : number) : number :=
  if sym =? 0x2B then add a b
  else if sym =? 0x2D then sub a b
  else if sym =? 0x2A then mul a b
  else div a b.

Definition calculation (text : list N) : Result :=
  mkResult ResultType.calculation (Text (js "= " ++ text)).

(** [s] with every code unit of [cls] replaced by [rep]. *)
Definition substitute (cls : cclass) (rep : list N) (s : list N) : list N :=
  flat_map (fun c => if in_class cls c then rep else [c]) s.

(** The Result of a time-zone query answered when the clock reads [t]. *)
Definition zone_time {H : Host} (zone : list N) (t : Z) : Result :=
  mkResult ResultType.timezone
    (Text (js "（" ++ format_hour_minute zone t ++ js "）")).

(* ===================================================================== *)
(** ** Further vocabulary for statements about the engine *)
(* ===================================================================== *)

(** A rule table with the priorities replaced: everything but the
    [priority] fields is kept. *)
Definition with_priorities (f : Rule -> nat) (rules : list Rule)
  : list Rule :=
  map (fun rule =>
         mkRule (category rule) (f rule) (patterns rule) (handler rule))
      rules.

(** A sufficient syntactic condition: whatever [r] matches consists of
    code units of [a]. *)
Fixpoint within (a : cclass) (r : regex) : bool :=
  match r with
  | Empty | Bol | Eol => true
  | Char cls => subclass cls a
  | Seq r1 r2 | Alt r1 r2 => within a r1 && within a r2
  | Star _ r1 | Group _ r1 => within a r1
  end.

(** Every code unit but those of [w] (given in increasing order). *)
Fixpoint all_but_from (lo : N) (w : list N) : cclass :=
  match w with
  | [] => [(lo, 0xFFFF)]
  | c :: w' =>
    (if lo <? c then [(lo, c - 1)] else []) ++ all_but_from (c + 1) w'
  end.

Definition all_but (w : list N) : cclass := all_but_from 0 w.

(** The code units a city name of a time-zone query is made of. *)
Definition letters : cclass := Patterns.cjk ++ Patterns.latin.

(** Every code unit but 时 and 点. *)
Definition no_hour : cclass := all_but [0x65F6; 0x70B9].

(** Temperature inputs: an amount, a unit, and an optional 等于 or
    转换为. *)
Definition celsius_units : list (list N) := [js "摄氏度"; js "℃"].
Definition fahrenheit_units : list (list N) := [js "华氏度"; js "℉"].
Definition temperature_alphabet : cclass :=
  Inputs.numeric ++ any_of (js "摄氏度华℃℉等于转换为").

(** The Results of the temperature branch of the unit handler. *)
Definition to_fahrenheit (a : list N) : Result :=
  mkResult ResultType.conversion
    (Text (toFixed (add (div (mul (parseFloat a) (of_Z 9)) (of_Z 5))
                      (of_Z 32)) 1 ++ js "华氏度")).

Definition to_celsius (a : list N) : Result :=
  mkResult ResultType.conversion
    (Text (toFixed (div (mul (sub (parseFloat a) (of_Z 32)) (of_Z 5))
                      (of_Z 9)) 1 ++ js "摄氏度")).

(** Root requests: an amount, 的, and 平方根 or 立方根. *)
Definition roots : list (list N) := [js "平方根"; js "立方根"].
Definition root_alphabet : cclass :=
  Inputs.numeric ++ any_of (js "的平方根立").

(** The space U+0020, which the normalizer puts for every run of
    whitespace. *)
Definition blank : cclass := one 0x20.

(** The type of Result each rule's handler builds. *)
Definition result_type (c : Category.t) : ResultType.t :=
  match c with
  | Category.math => ResultType.calculation
  | Category.date => ResultType.date
  | Category.timezone => ResultType.timezone
  | Category.unit => ResultType.conversion
  | Category.currency => ResultType.currency
  | Category.formula => ResultType.formula
  end.

(** *** formatOutput

    [!result] holds for null; [result.result || ''] is [''] for the empty
    string, the one falsy display. *)
Definition formatOutput (r : option Result) : display :=
  match r with
  | None => Text []
  | Some r =>
    match type r with
    | ResultType.calculation => result r
    | ResultType.date | ResultType.timezone | ResultType.currency =>
        result r
    | ResultType.conversion => result r
    | ResultType.formula => result r
    | ResultType.error =>
        match result r with
        | Text [] => Text []
        | d => d
        end
    end
  end.

(** A Result of the type [c]'s rule builds with a non-empty string to
    display. *)
Definition shaped (c : Category.t) (r : Result) : Prop :=
  type r = result_type c /\ exists s, result r = Text s /\ s <> [].

(** Every run of whitespace replaced by one space U+0020; [in_run] tells
    that the code unit before was whitespace. *)
Fixpoint collapse (in_run : bool) (s : list N) : list N :=
  match s with
  | [] => []
  | c :: s' =>
    if is_space c then
      if in_run then collapse true s' else 0x20 :: collapse true s'
    else c :: collapse false s'
  end.

(** *** Calendar dates *)

(** The integers [lo], [lo + 1], ..., [lo + n - 1]. *)
Definition zrange (lo : Z) (n : nat) : list Z :=
  map (fun i => (lo + Z.of_nat i)%Z) (seq 0 n).

(** The number of the local calendar day that contains the moment [t]. *)
Definition local_day {H : Host} (t : Z) : Z := (LocalTime t / msPerDay)%Z.

(** The Result that shows the month and the day of month of day number
    [z]. *)
Definition date_display (z : Z) : Result :=
  let '(_, m, d) := civil_from_days z in
  mkResult ResultType.date
    (Text (js "（" ++ decimal m ++ js "月" ++ decimal d ++ js "日）")).

(** Relative dates: an amount, a unit, and 后 or 前. *)
Definition date_units : list N := js "天日周月年".
Definition directions : list N := js "后前".
Definition date_alphabet : cclass :=
  digit ++ space ++ any_of (js "天日周月年后前").

(** The date the date handler builds for an amount, a unit and a
    direction when the clock reads [now]. *)
Definition shifted {H : Host} (now : Z) (amount : list N)
  (unit direction : N) : Date :=
  let num := parseInt amount in
  let multiplier := if direction =? 0x540E then of_Z 1 else of_Z (-1) in
  let targetDate : Date := Some now in
  if (unit =? 0x5929) || (unit =? 0x65E5) then
    setDate targetDate (add (getDate targetDate) (mul num multiplier))
  else if unit =? 0x5468 then
    setDate targetDate
      (add (getDate targetDate) (mul (mul num (of_Z 7)) multiplier))
  else if unit =? 0x6708 then
    setMonth targetDate (add (getMonth targetDate) (mul num multiplier))
  else
    setFullYear targetDate
      (add (getFullYear targetDate) (mul num multiplier)).

(** *** Telling the rules apart *)

(** The code units the classes of [r] allow. *)
Fixpoint alphabet_of (r : regex) : cclass :=
  match r with
  | Char cls => cls
  | Seq r1 r2 | Alt r1 r2 => alphabet_of r1 ++ alphabet_of r2
  | Star _ r1 | Group _ r1 => alphabet_of r1
  | Empty | Bol | Eol => []
  end.

(** [p] needs a code unit that the anchored expression [q] cannot take. *)
Definition needs_beyond (p q : regex) : bool :=
  escapes (alphabet_of q) p && within (alphabet_of q) q
  && from_start q && to_end q.

Definition category_id (c : Category.t) : nat :=
  match c with
  | Category.math => 0
  | Category.date => 1
  | Category.timezone => 2
  | Category.unit => 3
  | Category.currency => 4
  | Category.formula => 5
  end.

(** A pattern of [rule] matches [clean]. *)
Definition live (clean : list N) (rule : Rule) : bool :=
  existsb (fun p => match String_match clean p with
                    | Some _ => true
                    | None => false
                    end) (patterns rule).

(** *** Integers as Numbers *)

(** [M * 2^e] is the integer [v]. *)
Definition scaled (M e v : Z) : Prop :=
  forall K : Z, (0 <= K -> 0 <= e + K -> M * 2 ^ (e + K) = v * 2 ^ K)%Z.

(** The Number [x] is the integer [v]: nothing was rounded away. *)
Definition holds (x : number) (v : Z) : Prop :=
  match x with
  | S754_zero _ => v = 0%Z
  | S754_finite s m e => scaled (cond_Zopp s (Zpos m)) e v
  | _ => False
  end.

(** *** Dates by the calendar *)

(** The Date of local day [day] at the time of day of the moment [now]. *)
Definition at_day {H : Host} (now day : Z) : Date :=
  TimeClip (UTC (day * msPerDay + LocalTime now mod msPerDay)%Z).

(** The days that 天, 日 and 周 stand for, the months that 月 and 年 stand
    for, and the directions of 后 and 前. *)
Definition day_units : list (N * Z) :=
  [(0x5929, 1%Z); (0x65E5, 1%Z); (0x5468, 7%Z)].
Definition month_units : list (N * Z) := [(0x6708, 1%Z); (0x5E74, 12%Z)].
Definition signs : list (N * Z) := [(0x540E, 1%Z); (0x524D, (-1)%Z)].

Definition leap (y : Z) : bool :=
  ((y mod 4 =? 0) && negb (y mod 100 =? 0) || (y mod 400 =? 0))%Z.

(** The days of month [m] (1 to 12) of year [y]. *)
Definition month_length (y m : Z) : Z :=
  (if m =? 2 then if leap y then 29 else 28
   else if (m =? 4) || (m =? 6) || (m =? 9) || (m =? 11) then 30
   else 31)%Z.

(** The Result that shows day [d] of month [m]. *)
Definition month_day_display (m d : Z) : Result :=
  mkResult ResultType.date
    (Text (js "（" ++ decimal m ++ js "月" ++ decimal d ++ js "日）")).

(** What the date handler shows of an invalid date. *)
Definition invalid_date_display : Result :=
  mkResult ResultType.date (Text (js "（NaN月NaN日）")).

(* ===================================================================== *)
(** ** The matcher *)
(* ===================================================================== *)

(** Case analysis on the comparisons of a goal, dropping the cases the
    order on code units rules out. *)
Ltac split_cmp :=
  repeat (match goal with
          | |- context [N.leb ?a ?b] => destruct (N.leb_spec a b)
          | |- context [N.eqb ?a ?b] => destruct (N.eqb_spec a b)
          | |- context [N.ltb ?a ?b] => destruct (N.ltb_spec a b)
          end; try lia);
  simpl; try reflexivity; try lia.

Section MatcherFacts.

Lemma in_class_app a b c :
  in_class (a ++ b) c = in_class a c || in_class b c.
Proof. unfold in_class. apply existsb_app. Qed.

Lemma subclass_sound a b c :
  subclass a b = true -> in_class a c = true -> in_class b c = true.
Proof.
  unfold subclass, in_class. intros Hs Hc.
  apply existsb_exists in Hc as (r & Hr & Hin).
  rewrite forallb_forall in Hs. specialize (Hs r Hr).
  apply existsb_exists in Hs as (q & Hq & Hsub).
  apply existsb_exists. exists q. split; [assumption|].
  unfold subrange in Hsub. unfold in_range in *.
  apply andb_prop in Hsub as [H1 H2]. apply andb_prop in Hin as [H3 H4].
  apply N.leb_le in H1, H2, H3, H4.
  apply andb_true_intro. split; apply N.leb_le; lia.
Qed.

Lemma disjoint_sound a b c :
  disjoint a b = true -> in_class a c = true -> in_class b c = false.
Proof.
  unfold disjoint, in_class. intros Hd Hc.
  apply existsb_exists in Hc as (r & Hr & Hin).
  rewrite forallb_forall in Hd. specialize (Hd r Hr).
  rewrite forallb_forall in Hd.
  apply not_true_is_false. intros Hb.
  apply existsb_exists in Hb as (q & Hq & Hin').
  specialize (Hd q Hq). unfold apart, in_range in *.
  apply andb_prop in Hin as [H3 H4]. apply andb_prop in Hin' as [H5 H6].
  apply N.leb_le in H3, H4, H5, H6.
  apply orb_prop in Hd as [Hd|Hd]; apply N.ltb_lt in Hd; lia.
Qed.

Lemma all_in_app cls a b :
  all_in cls (a ++ b) = all_in cls a && all_in cls b.
Proof. unfold all_in. apply forallb_app. Qed.

Lemma all_in_sub a b s :
  subclass a b = true -> all_in a s = true -> all_in b s = true.
Proof.
  unfold all_in. intros Hs Ha. rewrite forallb_forall in *.
  intros c Hc. eapply subclass_sound; eauto.
Qed.

(** A string over [a] has no code unit of a class apart from [a]. *)
Lemma all_in_none a p s :
  disjoint p a = true -> all_in a s = true ->
  existsb (in_class p) s = false.
Proof.
  intros Hd Ha. apply not_true_is_false. intros He.
  apply existsb_exists in He as (c & Hc & Hp).
  unfold all_in in Ha. rewrite forallb_forall in Ha. specialize (Ha c Hc).
  rewrite (disjoint_sound _ _ _ Hd Hp) in Ha. discriminate.
Qed.

Lemma is_space_class c : is_space c = in_class space c.
Proof.
  unfold is_space, in_class, space, in_range. cbn [existsb fst snd].
  split_cmp.
Qed.

Lemma is_digit_class c : is_digit c = in_class digit c.
Proof. unfold is_digit, in_class, digit, in_range. simpl. now rewrite orb_false_r. Qed.

End MatcherFacts.

Section Consumption.

Lemma extends_refl st : extends st st.
Proof. exists []. split; [reflexivity|simpl; lia]. Qed.

Lemma extends_trans a b c : extends a b -> extends b c -> extends a c.
Proof.
  intros (w1 & H1 & P1) (w2 & H2 & P2). exists (w1 ++ w2). split.
  - rewrite H1, H2. now rewrite app_assoc.
  - rewrite P2, P1, length_app. lia.
Qed.

Lemma star_loop_extends g step n :
  (forall s s', In s' (step s) -> extends s s') ->
  forall st st', In st' (star_loop g step n st) -> extends st st'.
Proof.
  intros Hstep. induction n as [|n IH]; intros st st' Hin; simpl in Hin.
  - destruct Hin as [<-|[]]. apply extends_refl.
  - assert (Hmore : forall x,
      In x (flat_map (fun st0 =>
              if (List.length (rest st0) <? List.length (rest st))%nat
              then star_loop g step n st0 else []) (step st)) ->
      extends st x).
    { intros x Hx. apply in_flat_map in Hx as (s1 & Hs1 & Hx).
      destruct (_ <? _)%nat; [|contradiction].
      eapply extends_trans; [apply Hstep; eassumption|apply IH; assumption]. }
    destruct g.
    + apply in_app_or in Hin as [Hin|[<-|[]]]; [auto|apply extends_refl].
    + destruct Hin as [<-|Hin]; [apply extends_refl|auto].
Qed.

Lemma matches_extends r :
  forall st st', In st' (matches r st) -> extends st st'.
Proof.
  induction r as [|cls|r1 IH1 r2 IH2|r1 IH1 r2 IH2|g r1 IH1|i r1 IH1| |];
    intros st st' Hin; simpl in Hin.
  - destruct Hin as [<-|[]]. apply extends_refl.
  - destruct (rest st) as [|c tl] eqn:E; [contradiction|].
    destruct (in_class cls c); [|contradiction].
    destruct Hin as [<-|[]]. exists [c]. simpl. split; [assumption|lia].
  - apply in_flat_map in Hin as (s1 & H1 & H2).
    eapply extends_trans; eauto.
  - apply in_app_or in Hin as [Hin|Hin]; eauto.
  - eapply star_loop_extends; [|eassumption].
    intros s s' Hs. apply IH1 in Hs. exact Hs.
  - apply in_map_iff in Hin as (s1 & <- & H1). apply IH1 in H1.
    exact H1.
  - destruct (pos st =? 0)%nat; [|contradiction].
    destruct Hin as [<-|[]]. apply extends_refl.
  - destruct (rest st); [|contradiction].
    destruct Hin as [<-|[]]. apply extends_refl.
Qed.

Lemma consumed_app st st' w :
  rest st = w ++ rest st' -> consumed st st' = w.
Proof.
  intros E. unfold consumed. rewrite E, length_app.
  replace (List.length w + List.length (rest st') - List.length (rest st'))%nat
    with (List.length w + 0)%nat by lia.
  rewrite firstn_app_2. simpl. apply app_nil_r.
Qed.

Lemma extends_length st st' :
  extends st st' -> (List.length (rest st') <= List.length (rest st))%nat.
Proof. intros (w & E & _). rewrite E, length_app. lia. Qed.

End Consumption.

(* --------------------------------------------------------------------- *)
(** *** First choices *)
(* --------------------------------------------------------------------- *)

Section FirstChoice.

Lemma matches_seq a b st :
  matches (Seq a b) st = flat_map (matches b) (matches a st).
Proof. reflexivity. Qed.

Lemma matches_alt a b st : matches (Alt a b) st = matches a st ++ matches b st.
Proof. reflexivity. Qed.

Lemma first_empty st : first Empty st st.
Proof. exists []. reflexivity. Qed.

Lemma first_bol st : pos st = 0%nat -> first Bol st st.
Proof. intros E. exists []. simpl. now rewrite E. Qed.

Lemma first_eol st : rest st = [] -> first Eol st st.
Proof. intros E. exists []. simpl. now rewrite E. Qed.

Lemma first_seq r1 r2 st st1 st2 :
  first r1 st st1 -> first r2 st1 st2 -> first (Seq r1 r2) st st2.
Proof.
  intros [t1 E1] [t2 E2]. unfold first. simpl. rewrite E1. simpl. rewrite E2.
  eexists. reflexivity.
Qed.

Lemma first_alt_l r1 r2 st st' : first r1 st st' -> first (Alt r1 r2) st st'.
Proof. intros [t E]. unfold first. simpl. rewrite E. eexists. reflexivity. Qed.

Lemma first_alt_r r1 r2 st st' :
  matches r1 st = [] -> first r2 st st' -> first (Alt r1 r2) st st'.
Proof.
  intros E1 [t E]. unfold first. simpl. rewrite E1, E. eexists. reflexivity.
Qed.

Lemma first_opt_skip r st : matches r st = [] -> first (Opt r) st st.
Proof. intros E. apply first_alt_r; [assumption|apply first_empty]. Qed.

Lemma first_group i r st st' :
  first r st st' ->
  first (Group i r) st
        (MState (pos st') (rest st')
                (set_nth i (Some (consumed st st')) (caps st'))).
Proof. intros [t E]. unfold first. simpl. rewrite E. eexists. reflexivity. Qed.

Lemma first_char cls st c tl :
  rest st = c :: tl -> in_class cls c = true ->
  first (Char cls) st (MState (S (pos st)) tl (caps st)).
Proof. intros E Hc. unfold first. simpl. rewrite E, Hc. eexists. reflexivity. Qed.

Lemma no_char cls st : stops cls (rest st) = true -> matches (Char cls) st = [].
Proof.
  unfold stops. simpl. destruct (rest st) as [|c tl]; [reflexivity|].
  intros Hc. apply negb_true_iff in Hc. now rewrite Hc.
Qed.

Lemma no_seq r1 r2 st : matches r1 st = [] -> matches (Seq r1 r2) st = [].
Proof. intros E. simpl. now rewrite E. Qed.

(** A greedy [cls*] first takes the whole run of [cls]. *)
Lemma first_star_class cls w : forall st tl,
  rest st = w ++ tl -> all_in cls w = true -> stops cls tl = true ->
  first (Star true (Char cls)) st (after st w tl).
Proof.
  induction w as [|c w IH]; intros [p rs cs] tl E Hw Htl; simpl in E; subst rs.
  - unfold first, after. simpl.
    destruct tl as [|c tl]; simpl.
    + eexists. reflexivity.
    + simpl in Htl. apply negb_true_iff in Htl. rewrite Htl. simpl.
      eexists. reflexivity.
  - simpl in Hw. apply andb_prop in Hw as [Hc Hw].
    specialize (IH (MState (S p) (w ++ tl) cs) tl eq_refl Hw Htl).
    destruct IH as [t Ht]. unfold first, after in *. simpl in *.
    rewrite Hc. simpl.
    replace (List.length (w ++ tl) <? S (List.length (w ++ tl)))%nat with true
      by (symmetry; apply Nat.ltb_lt; lia).
    rewrite Ht. simpl. rewrite Nat.add_succ_r.
    eexists. reflexivity.
Qed.

(** A lazy star first takes nothing. *)
Lemma first_star_lazy r st : first (Star false r) st st.
Proof.
  unfold first. simpl. destruct (List.length (rest st)); simpl; eexists; reflexivity.
Qed.

(** A star always has a match. *)
Lemma star_some g r st : exists st', first (Star g r) st st'.
Proof.
  unfold first. simpl. destruct (List.length (rest st)) as [|n]; simpl.
  - eauto.
  - destruct g; [|eauto].
    match goal with |- context [?l ++ [st]] => destruct l eqn:E end; simpl; eauto.
Qed.

Lemma first_plus_class cls c w st tl :
  rest st = c :: w ++ tl -> in_class cls c = true -> all_in cls w = true ->
  stops cls tl = true ->
  first (Plus (Char cls)) st (after st (c :: w) tl).
Proof.
  intros E Hc Hw Htl. unfold Plus.
  eapply first_seq; [eapply first_char; eassumption|].
  pose proof (first_star_class cls w
                (MState (S (pos st)) (w ++ tl) (caps st)) tl eq_refl Hw Htl) as F.
  unfold after in *. simpl in *. rewrite Nat.add_succ_r in F.
  exact F.
Qed.

Lemma in_one_refl c : in_class [(c, c)] c = true.
Proof. unfold in_class, in_range. simpl. rewrite N.leb_refl. reflexivity. Qed.

Lemma in_one_neq c b : c <> b -> in_class [(c, c)] b = false.
Proof. intros Hne. unfold in_class, in_range. simpl. split_cmp. Qed.

(** A literal takes itself. *)
Lemma first_lit w : forall st tl,
  rest st = w ++ tl -> first (Lit w) st (after st w tl).
Proof.
  induction w as [|c w IH]; intros [p rs cs] tl E; simpl in E; subst rs.
  - unfold after. simpl. apply first_empty.
  - destruct w as [|c' w].
    + unfold after. simpl.
      apply (first_char [(c, c)] (MState p (c :: tl) cs) c tl eq_refl).
      apply in_one_refl.
    + change (Lit (c :: c' :: w)) with (Seq (Char [(c, c)]) (Lit (c' :: w))).
      eapply first_seq.
      * apply (first_char [(c, c)] (MState p (c :: (c' :: w) ++ tl) cs) c
                 ((c' :: w) ++ tl) eq_refl).
        apply in_one_refl.
      * specialize (IH (MState (S p) ((c' :: w) ++ tl) cs) tl eq_refl).
        unfold after in *. simpl in *. rewrite Nat.add_succ_r in IH.
        exact IH.
Qed.

(** A literal that is no prefix of the input does not match. *)
Lemma no_lit w : forall st,
  starts_with w (rest st) = false -> matches (Lit w) st = [].
Proof.
  induction w as [|c w IH]; intros [p rs cs] Hs; simpl in Hs.
  - discriminate.
  - destruct rs as [|b rs].
    + destruct w as [|c' w]; [reflexivity|].
      change (Lit (c :: c' :: w)) with (Seq (Char [(c, c)]) (Lit (c' :: w))).
      apply no_seq. reflexivity.
    + destruct (N.eqb_spec c b) as [->|Hne]; simpl in Hs.
      * destruct w as [|c' w]; [destruct rs; discriminate|].
        change (Lit (b :: c' :: w)) with (Seq (Char [(b, b)]) (Lit (c' :: w))).
        destruct (first_char [(b, b)] (MState p (b :: rs) cs) b rs eq_refl
                    (in_one_refl b)) as [t Ht].
        assert (t = []) as ->.
        { cbn [matches rest pos caps] in Ht. rewrite in_one_refl in Ht.
          now injection Ht as <-. }
        rewrite matches_seq, Ht. simpl. rewrite app_nil_r.
        apply (IH (MState (S p) rs cs)). exact Hs.
      * assert (Hc : matches (Char [(c, c)]) (MState p (b :: rs) cs) = []).
        { apply no_char. unfold stops. cbn [rest].
          now rewrite in_one_neq. }
        destruct w as [|c' w]; [exact Hc|].
        change (Lit (c :: c' :: w)) with (Seq (Char [(c, c)]) (Lit (c' :: w))).
        apply no_seq. exact Hc.
Qed.

End FirstChoice.

(* --------------------------------------------------------------------- *)
(** *** What a pattern demands of its input *)
(* --------------------------------------------------------------------- *)

Section Demands.

Lemma zero_width_same r st st' :
  zero_width r = true -> In st' (matches r st) -> st' = st.
Proof.
  destruct r; try discriminate; intros _ Hin; simpl in Hin.
  - destruct Hin as [<-|[]]. reflexivity.
  - destruct (pos st =? 0)%nat; [|contradiction].
    destruct Hin as [<-|[]]. reflexivity.
  - destruct (rest st); [|contradiction].
    destruct Hin as [<-|[]]. reflexivity.
Qed.

Lemma escapes_sound a r :
  escapes a r = true ->
  forall st st' w, In st' (matches r st) -> rest st = w ++ rest st' ->
  all_in a w = false.
Proof.
  induction r as [|cls|r1 IH1 r2 IH2|r1 IH1 r2 IH2|g r1 IH1|i r1 IH1| |];
    simpl; try discriminate; intros Hn st st' w Hin E.
  - destruct (rest st) as [|c tl] eqn:Er; [contradiction|].
    destruct (in_class cls c) eqn:Hc; [|contradiction].
    destruct Hin as [<-|[]]. simpl in E.
    change (c :: tl) with ([c] ++ tl) in E. apply app_inv_tail in E. subst w.
    unfold all_in. simpl. rewrite (disjoint_sound _ _ _ Hn Hc). reflexivity.
  - apply in_flat_map in Hin as (s1 & H1 & H2).
    destruct (matches_extends _ _ _ H1) as (w1 & E1 & _).
    destruct (matches_extends _ _ _ H2) as (w2 & E2 & _).
    assert (w = w1 ++ w2) as ->.
    { rewrite E1, E2, app_assoc in E. now apply app_inv_tail in E. }
    rewrite all_in_app. apply orb_prop in Hn as [Hn|Hn].
    + rewrite (IH1 Hn _ _ _ H1 E1). reflexivity.
    + rewrite (IH2 Hn _ _ _ H2 E2). apply andb_false_r.
  - apply andb_prop in Hn as [Ha Hb].
    apply in_app_or in Hin as [Hin|Hin]; eauto.
  - apply in_map_iff in Hin as (s1 & <- & H1). simpl in E. eauto.
Qed.

Lemma begins_sound p r :
  begins p r = true ->
  forall st st', In st' (matches r st) ->
  exists c w, rest st = (c :: w) ++ rest st' /\ in_class p c = true.
Proof.
  induction r as [|cls|r1 IH1 r2 IH2|r1 IH1 r2 IH2|g r1 IH1|i r1 IH1| |];
    simpl; try discriminate; intros Hn st st' Hin.
  - destruct (rest st) as [|c tl] eqn:Er; [contradiction|].
    destruct (in_class cls c) eqn:Hc; [|contradiction].
    destruct Hin as [<-|[]]. exists c, []. simpl. split; [reflexivity|].
    eapply subclass_sound; eassumption.
  - apply in_flat_map in Hin as (s1 & H1 & H2).
    apply orb_prop in Hn as [Hn|Hn].
    + destruct (IH1 Hn _ _ H1) as (c & w1 & E1 & Hc).
      destruct (matches_extends _ _ _ H2) as (w2 & E2 & _).
      exists c, (w1 ++ w2). split; [|assumption].
      rewrite E1, E2. simpl. now rewrite app_assoc.
    + apply andb_prop in Hn as [Hz Hn].
      apply (zero_width_same _ _ _ Hz) in H1. subst s1. eauto.
  - apply andb_prop in Hn as [Ha Hb].
    apply in_app_or in Hin as [Hin|Hin]; eauto.
  - apply in_map_iff in Hin as (s1 & <- & H1). simpl. eauto.
Qed.

Lemma ends_sound p r :
  ends p r = true ->
  forall st st', In st' (matches r st) ->
  exists w c, rest st = w ++ c :: rest st' /\ in_class p c = true.
Proof.
  induction r as [|cls|r1 IH1 r2 IH2|r1 IH1 r2 IH2|g r1 IH1|i r1 IH1| |];
    simpl; try discriminate; intros Hn st st' Hin.
  - destruct (rest st) as [|c tl] eqn:Er; [contradiction|].
    destruct (in_class cls c) eqn:Hc; [|contradiction].
    destruct Hin as [<-|[]]. exists [], c. simpl. split; [reflexivity|].
    eapply subclass_sound; eassumption.
  - apply in_flat_map in Hin as (s1 & H1 & H2).
    apply orb_prop in Hn as [Hn|Hn].
    + destruct (IH2 Hn _ _ H2) as (w2 & c & E2 & Hc).
      destruct (matches_extends _ _ _ H1) as (w1 & E1 & _).
      exists (w1 ++ w2), c. split; [|assumption].
      rewrite E1, E2. now rewrite app_assoc.
    + apply andb_prop in Hn as [Hz Hn].
      apply (zero_width_same _ _ _ Hz) in H2. subst st'. eauto.
  - apply andb_prop in Hn as [Ha Hb].
    apply in_app_or in Hin as [Hin|Hin]; eauto.
  - apply in_map_iff in Hin as (s1 & <- & H1). simpl. eauto.
Qed.

Lemma to_end_sound r :
  to_end r = true ->
  forall st st', In st' (matches r st) -> rest st' = [].
Proof.
  induction r as [|cls|r1 IH1 r2 IH2|r1 IH1 r2 IH2|g r1 IH1|i r1 IH1| |];
    simpl; try discriminate; intros Hn st st' Hin.
  - apply in_flat_map in Hin as (s1 & H1 & H2). eauto.
  - apply andb_prop in Hn as [Ha Hb].
    apply in_app_or in Hin as [Hin|Hin]; eauto.
  - apply in_map_iff in Hin as (s1 & <- & H1). simpl. eauto.
  - destruct (rest st) eqn:E; [|contradiction].
    destruct Hin as [<-|[]]. assumption.
Qed.

Lemma from_start_sound r :
  from_start r = true ->
  forall st st', In st' (matches r st) -> pos st = 0%nat.
Proof.
  induction r as [|cls|r1 IH1 r2 IH2|r1 IH1 r2 IH2|g r1 IH1|i r1 IH1| |];
    simpl; try discriminate; intros Hn st st' Hin.
  - apply in_flat_map in Hin as (s1 & H1 & H2). eauto.
  - apply andb_prop in Hn as [Ha Hb].
    apply in_app_or in Hin as [Hin|Hin]; eauto.
  - apply in_map_iff in Hin as (s1 & <- & H1). eauto.
  - destruct (pos st =? 0)%nat eqn:E; [|contradiction].
    now apply Nat.eqb_eq in E.
Qed.

(** Patterns without groups leave the captures alone. *)
Lemma star_loop_caps g step n :
  (forall s s', In s' (step s) -> caps s' = caps s) ->
  forall st st', In st' (star_loop g step n st) -> caps st' = caps st.
Proof.
  intros Hstep. induction n as [|n IH]; intros st st' Hin; simpl in Hin.
  - destruct Hin as [<-|[]]. reflexivity.
  - assert (Hmore : forall x,
      In x (flat_map (fun st0 =>
              if (List.length (rest st0) <? List.length (rest st))%nat
              then star_loop g step n st0 else []) (step st)) ->
      caps x = caps st).
    { intros x Hx. apply in_flat_map in Hx as (s1 & Hs1 & Hx).
      destruct (_ <? _)%nat; [|contradiction].
      rewrite (IH _ _ Hx). now apply Hstep. }
    destruct g.
    + apply in_app_or in Hin as [Hin|[<-|[]]]; auto.
    + destruct Hin as [<-|Hin]; auto.
Qed.

Lemma matches_caps r :
  group_ids r = [] ->
  forall st st', In st' (matches r st) -> caps st' = caps st.
Proof.
  induction r as [|cls|r1 IH1 r2 IH2|r1 IH1 r2 IH2|g r1 IH1|i r1 IH1| |];
    simpl; try discriminate; intros Hg st st' Hin.
  - destruct Hin as [<-|[]]. reflexivity.
  - destruct (rest st) as [|c tl]; [contradiction|].
    destruct (in_class cls c); [|contradiction].
    destruct Hin as [<-|[]]. reflexivity.
  - apply app_eq_nil in Hg as [Ha Hb].
    apply in_flat_map in Hin as (s1 & H1 & H2).
    rewrite (IH2 Hb _ _ H2). eauto.
  - apply app_eq_nil in Hg as [Ha Hb].
    apply in_app_or in Hin as [Hin|Hin]; eauto.
  - eapply star_loop_caps; [|eassumption].
    intros s s' Hs. rewrite Hg in Hs. apply (IH1 Hg) in Hs.
    rewrite Hs. destruct s; reflexivity.
  - destruct (pos st =? 0)%nat; [|contradiction].
    destruct Hin as [<-|[]]. reflexivity.
  - destruct (rest st); [|contradiction].
    destruct Hin as [<-|[]]. reflexivity.
Qed.

End Demands.

(* --------------------------------------------------------------------- *)
(** *** Searching *)
(* --------------------------------------------------------------------- *)

Section Searching.

Lemma match_at_some r i s m :
  match_at r i s = Some m ->
  exists st' tl, matches r (start r i s) = st' :: tl /\
                 m = Match i (consumed (start r i s) st') (caps st').
Proof.
  unfold match_at, start. destruct (matches r _) as [|st' tl]; [discriminate|].
  intros [= <-]. eauto.
Qed.

Lemma match_at_none r i s :
  matches r (start r i s) = [] -> match_at r i s = None.
Proof. unfold match_at, start. now intros ->. Qed.

Lemma match_at_first r i s st' :
  first r (start r i s) st' ->
  match_at r i s = Some (Match i (consumed (start r i s) st') (caps st')).
Proof. intros [tl E]. unfold match_at, start in *. now rewrite E. Qed.

Lemma String_match_first r s st' :
  first r (start r 0 s) st' ->
  String_match s r = Some (Match 0 (consumed (start r 0 s) st') (caps st')).
Proof.
  intros F. unfold String_match. destruct s; simpl;
    now rewrite (match_at_first _ _ _ _ F).
Qed.

Lemma no_match_nil r i s :
  (forall st', ~ In st' (matches r (start r i s))) -> match_at r i s = None.
Proof.
  intros Hn. apply match_at_none. destruct (matches r _) as [|x tl] eqn:E;
    [reflexivity|]. exfalso. apply (Hn x). now left.
Qed.

(** A pattern that takes a code unit outside [a] matches nowhere in a
    string over [a]. *)
Lemma search_escapes a r : escapes a r = true ->
  forall s i, all_in a s = true -> search r i s = None.
Proof.
  intros Hn. induction s as [|c s IH]; intros i He.
  - simpl. rewrite no_match_nil; [reflexivity|].
    intros st' Hin. destruct (matches_extends _ _ _ Hin) as (w & E & _).
    pose proof (escapes_sound _ _ Hn _ _ _ Hin E) as Hw.
    simpl in E. destruct w; discriminate.
  - cbn [search]. rewrite no_match_nil.
    + apply IH. unfold all_in in *. simpl in He.
      now apply andb_prop in He as [_ He].
    + intros st' Hin. destruct (matches_extends _ _ _ Hin) as (w & E & _).
      pose proof (escapes_sound _ _ Hn _ _ _ Hin E) as Hw.
      cbn [start rest] in E. rewrite E, all_in_app, Hw in He. discriminate.
Qed.

Lemma String_match_escapes a r s :
  escapes a r = true -> all_in a s = true -> String_match s r = None.
Proof. intros Hn He. unfold String_match. now apply search_escapes with a. Qed.

(** A pattern with [^] only matches at index 0. *)
Lemma search_from_start r : from_start r = true ->
  forall s i, (0 < i)%nat -> search r i s = None.
Proof.
  intros Hn. induction s as [|c s IH]; intros i Hi.
  - simpl. rewrite no_match_nil; [reflexivity|].
    intros st' Hin. apply (from_start_sound _ Hn) in Hin. simpl in Hin. lia.
  - cbn [search]. rewrite no_match_nil.
    + apply IH. lia.
    + intros st' Hin. apply (from_start_sound _ Hn) in Hin. simpl in Hin. lia.
Qed.

Lemma String_match_from_start r s :
  from_start r = true -> String_match s r = match_at r 0 s.
Proof.
  intros Hn. unfold String_match. destruct s as [|c s]; simpl.
  - now destruct (match_at r 0 []).
  - destruct (match_at r 0 (c :: s)); [reflexivity|].
    apply search_from_start; [assumption|lia].
Qed.

(** A pattern that ends in [p] and reaches the end of the input does not
    match an input whose last code unit is outside [p]. *)
Lemma search_ends p r : ends p r = true -> to_end r = true ->
  forall c, in_class p c = false ->
  forall s i, search r i (s ++ [c]) = None.
Proof.
  intros He Ht c Hc.
  assert (Hno : forall i x, match_at r i (x ++ [c]) = None).
  { intros i x. apply no_match_nil. intros st' Hin.
    destruct (ends_sound _ _ He _ _ Hin) as (w & c' & E & Hc').
    rewrite (to_end_sound _ Ht _ _ Hin) in E. cbn [start rest] in E.
    change (w ++ [c']) with (w ++ [c']) in E.
    apply app_inj_tail in E as [_ <-]. congruence. }
  assert (Hnil : forall i, match_at r i [] = None).
  { intros i. apply no_match_nil. intros st' Hin.
    destruct (ends_sound _ _ He _ _ Hin) as (w & c' & E & Hc').
    cbn [start rest] in E. destruct w; discriminate. }
  induction s as [|b s IH]; intros i.
  - pose proof (Hno i []) as H0. cbn [app] in *. cbn [search].
    rewrite H0. cbn [search]. now rewrite Hnil.
  - change ((b :: s) ++ [c]) with (b :: (s ++ [c])).
    cbn [search]. change (b :: (s ++ [c])) with ((b :: s) ++ [c]).
    rewrite Hno. apply IH.
Qed.

(** An expression anchored at both ends matches the whole input or
    nothing. *)
Lemma anchored_whole r s m :
  from_start r = true -> to_end r = true ->
  String_match s r = Some m -> index m = 0%nat /\ matched m = s.
Proof.
  intros Hf Ht Hm. rewrite (String_match_from_start _ _ Hf) in Hm.
  apply match_at_some in Hm as (st' & tl & Hm & ->).
  assert (Hr : rest st' = [])
    by (apply (to_end_sound r Ht (start r 0 s)); rewrite Hm; now left).
  split; [reflexivity|]. cbn [matched]. unfold consumed.
  rewrite Hr. cbn [start rest List.length]. rewrite Nat.sub_0_r.
  apply firstn_all.
Qed.

End Searching.

(* ===================================================================== *)
(** ** Dispatch *)
(* ===================================================================== *)

Section DispatchFacts.

Lemma settle_settle e clean log1 o log2 :
  settle (settle e clean None log1) clean o log2
  = settle e clean o (log1 ++ log2).
Proof. unfold settle. simpl. now rewrite app_assoc. Qed.

Lemma settle_nil e clean r :
  mkEngine (<[clean := r]> (cache e)) (console e) = settle e clean (Some r) [].
Proof. unfold settle. now rewrite app_nil_r. Qed.

Lemma run_app l1 l2 clean now :
  run (l1 ++ l2) clean now =
  match run l1 clean now with
  | (Some r, log) => (Some r, log)
  | (None, log) => let '(o, log2) := run l2 clean now in (o, log ++ log2)
  end.
Proof.
  induction l1 as [|rp l1 IH]; simpl.
  - now destruct (run l2 clean now).
  - destruct (yields rp clean now); [reflexivity|].
    rewrite IH. destruct (run l1 clean now) as [[r|] log]; [reflexivity|].
    destruct (run l2 clean now) as [o log2]. now rewrite app_assoc.
Qed.

(** The inner loop of [process] is [run] on the rule's patterns. *)
Lemma for_patterns_run rule pats clean now : forall e,
  for_patterns rule pats clean now e =
  let '(o, log) := run (map (pair rule) pats) clean now in
  (Return o, settle e clean o log).
Proof.
  induction pats as [|p pats IH]; intros e.
  - simpl. unfold ret, settle. rewrite app_nil_r. now destruct e.
  - cbn [for_patterns map run]. unfold yields, fault, attempt. cbn [fst snd].
    destruct (String_match clean p) as [m|].
    + destruct (handler rule m clean now) as [[r|]|x] eqn:Eh;
        unfold bind, catch, call, ret, cache_set, console_error; cbn.
      * now rewrite settle_nil.
      * rewrite IH. now destruct (run _ clean now).
      * rewrite IH. destruct (run _ clean now) as [o log].
        unfold settle. cbn. now rewrite <- app_assoc.
    + rewrite IH. now destruct (run _ clean now).
Qed.

(** The outer loop is [run] on all the visits. *)
Lemma for_rules_run rules clean now : forall e,
  for_rules rules clean now e =
  let '(o, log) := run (attempts rules) clean now in
  (Return o, settle e clean o log).
Proof.
  induction rules as [|rule rules IH]; intros e.
  - simpl. unfold ret, settle. rewrite app_nil_r. now destruct e.
  - cbn [for_rules attempts flat_map]. unfold bind.
    rewrite for_patterns_run, run_app.
    destruct (run (map (pair rule) (patterns rule)) clean now)
      as [[r|] log1]; [reflexivity|].
    rewrite IH. fold (attempts rules).
    destruct (run (attempts rules) clean now) as [o log2].
    now rewrite settle_settle.
Qed.

Lemma process_with_hit preprocess rules input now e r :
  cache e !! preprocess input = Some r ->
  process_with preprocess rules input now e = (Return (Some r), e).
Proof.
  intros E. unfold process_with, bind, cache_get, ret. now rewrite E.
Qed.

Lemma process_with_miss preprocess rules input now e :
  cache e !! preprocess input = None ->
  process_with preprocess rules input now e =
  let '(o, log) := run (attempts rules) (preprocess input) now in
  (Return o, settle e (preprocess input) o log).
Proof.
  intros E. unfold process_with, bind, cache_get. rewrite E.
  apply for_rules_run.
Qed.

Lemma run_skip pre l clean now :
  (forall rp, In rp pre -> yields rp clean now = None) ->
  run (pre ++ l) clean now =
  let '(o, log) := run l clean now in (o, faults pre clean now ++ log).
Proof.
  induction pre as [|rp pre IH]; intros Hpre.
  - simpl. now destruct (run l clean now).
  - cbn [app run faults flat_map]. rewrite (Hpre rp (or_introl eq_refl)).
    rewrite IH by (intros x Hx; apply Hpre; now right).
    destruct (run l clean now) as [o log]. fold (faults pre clean now).
    now rewrite app_assoc.
Qed.

End DispatchFacts.

(** C1: [process] visits the rules in the order of the list and the
    patterns of a rule in their order.  When the cache has no entry for
    the normalized input, the first visit whose pattern matches and whose
    handler returns a Result decides the call: that Result is returned
    and stored under the normalized input.  Whatever comes later in the
    table plays no part: the outcome, the cache and the diagnostics of the
    call are fixed by the visits up to that one.  The patterns of the
    engine's own table are anchored at both ends, so with them the match
    is the whole normalized input. *)
Theorem first_match_wins
  (preprocess : list N -> list N) (rules : list Rule) (input : list N)
  (now : Z) (e : Engine) (before after : list (Rule * regex))
  (rule : Rule) (pattern : regex) (m : MatchResult) (r : Result) :
  cache e !! preprocess input = None ->
  attempts rules = before ++ (rule, pattern) :: after ->
  (forall rp, In rp before -> yields rp (preprocess input) now = None) ->
  String_match (preprocess input) pattern = Some m ->
  handler rule m (preprocess input) now = Return (Some r) ->
  process_with preprocess rules input now e =
  (Return (Some r),
   mkEngine (<[preprocess input := r]> (cache e))
            (console e ++ faults before (preprocess input) now))
  /\
  (forall H : Host, In (rule, pattern) (attempts initializeRules) ->
     index m = 0%nat /\ matched m = preprocess input).
Proof.
  intros Hmiss Hsplit Hbefore Hm Hh. split.
  - rewrite (process_with_miss _ _ _ _ _ Hmiss), Hsplit.
    rewrite (run_skip _ _ _ _ Hbefore). cbn [run].
    unfold yields, attempt. cbn [fst snd]. rewrite Hm, Hh.
    unfold settle. now rewrite app_nil_r.
  - intros H Hin.
    assert (A : forallb (fun rp => from_start (snd rp) && to_end (snd rp))
                  (attempts initializeRules) = true) by reflexivity.
    rewrite forallb_forall in A. apply A in Hin. cbn [snd] in Hin.
    apply andb_prop in Hin as [Hf Ht].
    now apply (anchored_whole pattern).
Qed.

Lemma run_quiet l clean now :
  (forall rp, In rp l -> yields rp clean now = None) ->
  run l clean now = (None, faults l clean now).
Proof.
  intros Hl. rewrite <- (app_nil_r l) at 1.
  rewrite (run_skip l [] clean now Hl). cbn [run]. now rewrite app_nil_r.
Qed.

(** A visit whose handler throws logs the fault and hands over to the
    visits after it. *)
Lemma run_fault rule pattern m x rest clean now :
  String_match clean pattern = Some m ->
  handler rule m clean now = Throw x ->
  run ((rule, pattern) :: rest) clean now =
  let '(o, log) := run rest clean now in (o, (category rule, x) :: log).
Proof.
  intros Hm Hx. cbn [run]. unfold yields, fault, attempt. cbn [fst snd].
  rewrite Hm, Hx. now destruct (run rest clean now).
Qed.

(** C6: no call of [process] ends in a fault, whatever the table and
    the handlers.  When the dispatch comes to a pattern that matches and
    its handler throws, [process] logs the fault and goes on with the
    next pattern, or with the next rule, as if the pattern had not
    matched: the first later visit that yields a Result decides the
    call, that Result is returned and stored; when no later visit yields
    one the call returns null and stores nothing.  The fault is in the
    diagnostics either way. *)
Theorem process_contains_faults
  (preprocess : list N -> list N) (rules : list Rule) (input : list N)
  (now : Z) (e : Engine) :
  (exists o e', process_with preprocess rules input now e = (Return o, e'))
  /\
  (forall before rule pattern m x rest,
     cache e !! preprocess input = None ->
     attempts rules = before ++ (rule, pattern) :: rest ->
     (forall rp, In rp before -> yields rp (preprocess input) now = None) ->
     String_match (preprocess input) pattern = Some m ->
     handler rule m (preprocess input) now = Throw x ->
     (forall between rule' pattern' m' r after,
        rest = between ++ (rule', pattern') :: after ->
        (forall rp, In rp between ->
                    yields rp (preprocess input) now = None) ->
        String_match (preprocess input) pattern' = Some m' ->
        handler rule' m' (preprocess input) now = Return (Some r) ->
        process_with preprocess rules input now e =
        (Return (Some r),
         mkEngine (<[preprocess input := r]> (cache e))
                  (console e ++ faults before (preprocess input) now
                   ++ (category rule, x)
                   :: faults between (preprocess input) now)))
     /\
     ((forall rp, In rp rest -> yields rp (preprocess input) now = None) ->
      process_with preprocess rules input now e =
      (Return None,
       mkEngine (cache e)
                (console e ++ faults before (preprocess input) now
                 ++ (category rule, x)
                 :: faults rest (preprocess input) now)))).
Proof.
  split.
  - destruct (cache e !! preprocess input) as [r|] eqn:E.
    + rewrite (process_with_hit _ _ _ _ _ _ E). eauto.
    + rewrite (process_with_miss _ _ _ _ _ E).
      destruct (run _ _ now) as [o log]. eauto.
  - intros before rule pattern m x rest Hmiss Hsplit Hbefore Hm Hx.
    rewrite (process_with_miss _ _ _ _ _ Hmiss), Hsplit.
    rewrite (run_skip _ _ _ _ Hbefore), (run_fault _ _ _ _ _ _ _ Hm Hx).
    split.
    + intros between rule' pattern' m' r after -> Hbetween Hm' Hr.
      rewrite (run_skip _ _ _ _ Hbetween). cbn [run].
      unfold yields, attempt. cbn [fst snd]. rewrite Hm', Hr.
      unfold settle. now rewrite app_nil_r.
    + intros Hrest. rewrite (run_quiet _ _ _ Hrest). reflexivity.
Qed.

(* ===================================================================== *)
(** ** The cache of a running engine *)
(* ===================================================================== *)

Section CacheFacts.
Context {H : Host}.

Lemma process_hit input now e r :
  cache e !! preprocessInput input = Some r ->
  process input now e = (Return (Some r), e).
Proof. apply process_with_hit. Qed.

Lemma process_miss input now e :
  cache e !! preprocessInput input = None ->
  process input now e =
  (Return (dispatch (preprocessInput input) now),
   settle e (preprocessInput input) (dispatch (preprocessInput input) now)
          (snd (run (attempts initializeRules) (preprocessInput input) now))).
Proof.
  intros E. unfold process, dispatch. rewrite (process_with_miss _ _ _ _ _ E).
  now destruct (run _ _ now).
Qed.

(** Every cached Result is what the rule table found for its key at some
    moment. *)
Lemma cache_origin e :
  reachable e ->
  forall k r, cache e !! k = Some r -> exists t, dispatch k t = Some r.
Proof.
  induction 1 as [|e input now He IH]; intros k r Hk.
  - simpl in Hk. rewrite lookup_empty in Hk. discriminate.
  - destruct (cache e !! preprocessInput input) as [r0|] eqn:E.
    + rewrite (process_hit _ _ _ _ E) in Hk. eauto.
    + rewrite (process_miss _ _ _ E) in Hk. cbn [snd settle cache] in Hk.
      destruct (dispatch (preprocessInput input) now) as [r1|] eqn:D; [|eauto].
      destruct (decide (preprocessInput input = k)) as [<-|Hne].
      * rewrite lookup_insert_eq in Hk. injection Hk as <-. eauto.
      * rewrite lookup_insert_ne in Hk by assumption. eauto.
Qed.

(** A call on an input whose resolution does not depend on the time
    returns that resolution, cached or not. *)
Lemma process_settled e input now o :
  reachable e ->
  (forall t, dispatch (preprocessInput input) t = o) ->
  returned (process input now e) = o.
Proof.
  intros He Hd.
  destruct (cache e !! preprocessInput input) as [r|] eqn:E.
  - rewrite (process_hit _ _ _ _ E). cbn.
    destruct (cache_origin e He _ _ E) as [t Ht]. now rewrite <- Ht, Hd.
  - rewrite (process_miss _ _ _ E). cbn. apply Hd.
Qed.

(** A call that finds no cache entry returns what the rule table finds
    and stores it under the normalized input. *)
Lemma process_first input now e r :
  cache e !! preprocessInput input = None ->
  dispatch (preprocessInput input) now = Some r ->
  returned (process input now e) = Some r /\
  cache (snd (process input now e)) !! preprocessInput input = Some r.
Proof.
  intros E D. rewrite (process_miss _ _ _ E). cbn [snd fst returned].
  unfold returned. cbn [fst]. rewrite D. split; [reflexivity|].
  cbn [settle cache]. apply lookup_insert_eq.
Qed.

End CacheFacts.

(* ===================================================================== *)
(** ** The claims settled by evaluation *)
(* ===================================================================== *)

(** C9: 下周 and 上周 match the deictic pattern of the date rule, the date
    handler has no entry for them and returns null, and so does
    [process], on any engine a program can hold and at any time; the
    shell's example list nevertheless offers 下周. *)
Theorem next_week_unresolved {H : Host} (e : Engine) (input : list N)
  (now : Z) :
  reachable e ->
  preprocessInput input = js "下周" \/ preprocessInput input = js "上周" ->
  (exists m,
     String_match (preprocessInput input) Patterns.date_deictic = Some m /\
     handleDateCalculation m (preprocessInput input) now = Return None) /\
  returned (process input now e) = None /\
  In (js "下周") (concat (map snd examples)).
Proof.
  intros He Hin. split; [|split].
  - destruct Hin as [-> | ->]; eexists; split; vm_compute; reflexivity.
  - apply process_settled; [assumption|]. intros t.
    destruct Hin as [-> | ->]; vm_compute; reflexivity.
  - vm_compute. tauto.
Qed.

Lemma next_week_unresolved_witness :
  returned (process (H := SampleHost.host) (js "下周") 1762000000000
              new_engine) = None.
Proof.
  apply (next_week_unresolved (H := SampleHost.host) new_engine (js "下周")
           1762000000000 reach_new).
  left. vm_compute. reflexivity.
Defined.

(** C5, where the code departs from it: the full-width marks are removed
    after trimming and collapsing, so whitespace next to a removed mark
    stays: at the start, at the end, and doubled inside.  The marks
    themselves are gone in each case. *)
Theorem preprocessInput_keeps_whitespace :
  (preprocessInput (js "， a") = js " a" /\
   Normal.leading_space (preprocessInput (js "， a")) = true) /\
  (preprocessInput (js "a ，") = js "a " /\
   Normal.trailing_space (preprocessInput (js "a ，")) = true) /\
  (preprocessInput (js "a ， b") = js "a  b" /\
   Normal.space_run (preprocessInput (js "a ， b")) = true) /\
  Normal.normalized (preprocessInput (js "， a")) = false /\
  Normal.normalized (preprocessInput (js "a ，")) = false /\
  Normal.normalized (preprocessInput (js "a ， b")) = false.
Proof. repeat split; vm_compute; reflexivity. Qed.

(* ===================================================================== *)
(** ** Numerals and the patterns built on them *)
(* ===================================================================== *)

Section Numerals.

Lemma span_digits_spec s : forall ds tl,
  span_digits s = (ds, tl) ->
  s = ds ++ tl /\ all_in digit ds = true /\ stops digit tl = true.
Proof.
  induction s as [|c s IH]; intros ds tl E; simpl in E.
  - injection E as <- <-. repeat split.
  - destruct (is_digit c) eqn:Hc.
    + destruct (span_digits s) as [ds' tl'] eqn:Es. injection E as <- <-.
      destruct (IH _ _ eq_refl) as (-> & Hd & Ht). repeat split; trivial.
      unfold all_in in *. simpl. now rewrite <- is_digit_class, Hc.
    + injection E as <- <-. repeat split. unfold stops.
      now rewrite <- is_digit_class, Hc.
Qed.

(** A numeral is a run of digits, or two runs around a point. *)
Lemma numeral_cases a : is_numeral a = true ->
  exists c ip, in_class digit c = true /\ all_in digit ip = true /\
    (a = c :: ip \/
     exists d fp, in_class digit d = true /\ all_in digit fp = true /\
                  a = (c :: ip) ++ 0x2E :: d :: fp).
Proof.
  unfold is_numeral. destruct (span_digits a) as [ip r] eqn:E.
  destruct (span_digits_spec _ _ _ E) as (-> & Hip & Hr).
  destruct ip as [|c ip]; [discriminate|].
  unfold all_in in Hip. simpl in Hip. apply andb_prop in Hip as [Hc Hip].
  intros Hn. exists c, ip. repeat split; trivial.
  destruct r as [|x r].
  - left. now rewrite app_nil_r.
  - right. apply andb_prop in Hn as [Hx Hn]. apply N.eqb_eq in Hx. subst x.
    destruct (span_digits r) as [fp r'] eqn:E'.
    destruct (span_digits_spec _ _ _ E') as (-> & Hfp & _).
    destruct fp as [|d fp]; [discriminate|]. destruct r'; [|discriminate].
    unfold all_in in Hfp. simpl in Hfp. apply andb_prop in Hfp as [Hd Hfp].
    exists d, fp. repeat split; trivial. now rewrite app_nil_r.
Qed.

Lemma stops_app_l a b cls :
  stops (a ++ b) cls = true -> stops a cls = true.
Proof.
  unfold stops. destruct cls as [|c s]; [reflexivity|].
  rewrite in_class_app, negb_orb. now intros [H _]%andb_prop.
Qed.

Lemma stops_app_r a b cls :
  stops (a ++ b) cls = true -> stops b cls = true.
Proof.
  unfold stops. destruct cls as [|c s]; [reflexivity|].
  rewrite in_class_app, negb_orb. now intros [_ H]%andb_prop.
Qed.

(** Whitespace in front of [x] does not start a run of a class apart from
    the whitespace class. *)
Lemma stops_ws cls w x :
  all_in space w = true -> disjoint space cls = true ->
  stops cls x = true -> stops cls (w ++ x) = true.
Proof.
  intros Hw Hd Hx. destruct w as [|c w]; [exact Hx|].
  unfold all_in in Hw. cbn [forallb] in Hw. apply andb_prop in Hw as [Hc _].
  cbn [app]. unfold stops. now rewrite (disjoint_sound _ _ _ Hd Hc).
Qed.

Lemma first_number a st tl :
  is_numeral a = true -> rest st = a ++ tl ->
  stops (digit ++ one 0x2E) tl = true ->
  first Patterns.number st (after st a tl).
Proof.
  intros Ha E Ht.
  pose proof (stops_app_l _ _ _ Ht) as Htd.
  pose proof (stops_app_r _ _ _ Ht) as Htp.
  destruct (numeral_cases _ Ha) as (c & ip & Hc & Hip & [-> | Hdec]).
  - unfold Patterns.number. eapply first_seq.
    + apply (first_plus_class digit c ip st tl); assumption.
    + apply first_opt_skip. apply no_seq. apply no_char. exact Htp.
  - destruct Hdec as (d & fp & Hd & Hfp & ->).
    rewrite <- app_assoc in E.
    unfold Patterns.number. eapply first_seq.
    + apply (first_plus_class digit c ip st (0x2E :: d :: fp ++ tl));
        trivial.
    + apply first_alt_l. eapply first_seq.
      * eapply first_char; [reflexivity|reflexivity].
      * pose proof (first_plus_class digit d fp
          (MState (S (pos (after st (c :: ip) (0x2E :: d :: fp ++ tl))))
                  (d :: fp ++ tl)
                  (caps (after st (c :: ip) (0x2E :: d :: fp ++ tl))))
          tl eq_refl Hd Hfp Htd) as F.
        unfold after in *. cbn [pos rest caps] in *.
        replace (Nat.add (List.length ((c :: ip) ++ 0x2E :: d :: fp)) (pos st))
          with (Nat.add (List.length (d :: fp))
                        (S (Nat.add (List.length (c :: ip)) (pos st))))
          by (rewrite length_app; simpl; lia).
        exact F.
Qed.

Lemma first_group_after i r st w tl :
  first r st (after st w tl) -> rest st = w ++ tl ->
  first (Group i r) st
        (MState (List.length w + pos st) tl (set_nth i (Some w) (caps st))).
Proof.
  intros F E. apply (first_group i) in F.
  rewrite (consumed_app st (after st w tl) w E) in F. exact F.
Qed.

(** The common head of the rule patterns: a numeral into group 1, then
    whitespace. *)
Lemma first_amount R a w tl st st' :
  is_numeral a = true -> all_in space w = true ->
  rest st = a ++ w ++ tl ->
  stops (digit ++ one 0x2E ++ space) tl = true ->
  first R (MState (List.length w + (List.length a + pos st)) tl
                  (set_nth 1 (Some a) (caps st))) st' ->
  first (Seq (Group 1 Patterns.number) (Seq Patterns.ws R)) st st'.
Proof.
  intros Ha Hw E Ht F.
  assert (Htd : stops (digit ++ one 0x2E) tl = true).
  { unfold stops in *. destruct tl; [reflexivity|].
    rewrite !in_class_app, !negb_orb in *.
    apply andb_prop in Ht as [H1 [H2 _]%andb_prop]. now rewrite H1, H2. }
  assert (Hts : stops space tl = true).
  { now apply stops_app_r, stops_app_r in Ht. }
  eapply first_seq.
  - apply first_group_after; [|exact E].
    apply first_number; [assumption|exact E|].
    apply stops_ws; [assumption|reflexivity|assumption].
  - eapply first_seq; [|exact F].
    apply (first_star_class space w
             (MState (List.length a + pos st) (w ++ tl)
                     (set_nth 1 (Some a) (caps st))) tl eq_refl Hw Hts).
Qed.

End Numerals.


Import Inputs.

(* ===================================================================== *)
(** ** Stepping through the rule table *)
(* ===================================================================== *)

Section Stepping.

Lemma attempt_no_match rule p clean now :
  String_match clean p = None -> attempt rule p clean now = Return None.
Proof. unfold attempt. now intros ->. Qed.

Lemma run_next rp l clean now :
  attempt (fst rp) (snd rp) clean now = Return None ->
  fst (run (rp :: l) clean now) = fst (run l clean now).
Proof.
  intros E. cbn [run]. unfold yields, fault. rewrite E.
  now destruct (run l clean now).
Qed.

Lemma run_found rp l clean now r :
  attempt (fst rp) (snd rp) clean now = Return (Some r) ->
  fst (run (rp :: l) clean now) = Some r.
Proof. intros E. cbn [run]. unfold yields. now rewrite E. Qed.

Lemma run_end clean now : fst (run [] clean now) = None.
Proof. reflexivity. Qed.

Lemma numeral_numeric a : is_numeral a = true -> all_in numeric a = true.
Proof.
  intros Ha. destruct (numeral_cases _ Ha) as (c & ip & Hc & Hip & Hcase).
  assert (Hd : forall s, all_in digit s = true -> all_in numeric s = true).
  { intros s. apply all_in_sub. reflexivity. }
  assert (Hcons : forall x s, in_class digit x = true ->
            all_in digit s = true -> all_in numeric (x :: s) = true).
  { intros x s Hx Hs. apply Hd. unfold all_in in *. cbn [forallb].
    now rewrite Hx, Hs. }
  destruct Hcase as [-> | (d & fp & Hd' & Hfp & ->)].
  - now apply Hcons.
  - rewrite all_in_app. apply andb_true_intro. split; [now apply Hcons|].
    change (0x2E :: d :: fp) with ([0x2E] ++ d :: fp).
    rewrite all_in_app. apply andb_true_intro. split; [reflexivity|].
    now apply Hcons.
Qed.

Lemma space_numeric w : all_in space w = true -> all_in numeric w = true.
Proof. apply all_in_sub. reflexivity. Qed.

End Stepping.

(** Evaluate a closed comparison of strings. *)
Ltac eval_string_eqb :=
  repeat match goal with
  | |- context [string_eqb ?a ?b] =>
      let v := eval vm_compute in (string_eqb a b) in
      change (string_eqb a b) with v
  end.

(** Split a membership in a literal list into its cases. *)
Ltac cases_in H :=
  match type of H with
  | In ?x ?l => let v := eval vm_compute in l in change (In x v) in H
  end;
  repeat (destruct H as [<- | H]; [|]); [..|destruct H].

(** The same, keeping each case as an equation [H]. *)
Ltac cases_eq H :=
  match type of H with
  | In ?x ?l => let v := eval vm_compute in l in change (In x v) in H
  end;
  repeat (destruct H as [H | H]; [|]); [..|destruct H].

(* ===================================================================== *)
(** ** Currency conversion *)
(* ===================================================================== *)

Section Currency.

Lemma currency_any_match a w cur :
  is_numeral a = true -> all_in space w = true ->
  In cur (usd ++ cny ++ other_currencies) ->
  String_match (a ++ w ++ cur) Patterns.currency_any
  = Some (Match 0 (a ++ w ++ cur) [None; Some a; Some cur]).
Proof.
  intros Ha Hw Hcur.
  assert (F : first Patterns.currency_any
                (start Patterns.currency_any 0 (a ++ w ++ cur))
                (MState (List.length cur + (List.length w + (List.length a + 0)))
                        [] [None; Some a; Some cur])).
  { unfold Patterns.currency_any. cbn [SeqOf].
    eapply first_seq; [apply first_bol; reflexivity|].
    cases_in Hcur;
      (eapply first_amount; [exact Ha|exact Hw|reflexivity|reflexivity|];
       eexists; reflexivity). }
  rewrite (String_match_first _ _ _ F).
  rewrite (consumed_app _ _ (a ++ w ++ cur)); [reflexivity|].
  cbn [start rest]. now rewrite app_nil_r.
Qed.

End Currency.

Ltac eval_get :=
  repeat match goal with
  | |- context [get ?m ?k] =>
      let v := eval vm_compute in (get m k) in
      change (get m k) with v
  end.

Section RuleDispatch.
Context {H : Host}.

Lemma all_in_parts cls a w x :
  subclass numeric cls = true ->
  is_numeral a = true -> all_in space w = true -> all_in cls x = true ->
  all_in cls (a ++ w ++ x) = true.
Proof.
  intros Hs Ha Hw Hx. rewrite !all_in_app.
  rewrite (all_in_sub _ _ _ Hs (numeral_numeric _ Ha)).
  rewrite (all_in_sub _ _ _ Hs (space_numeric _ Hw)). now rewrite Hx.
Qed.

(** Visits whose patterns take a code unit outside the input's alphabet
    are passed over. *)
Lemma run_escapes alphabet clean now l l' :
  all_in alphabet clean = true ->
  forallb (fun rp => escapes alphabet (snd rp)) l = true ->
  fst (run (l ++ l') clean now) = fst (run l' clean now).
Proof.
  intros Ha. induction l as [|rp l IH]; intros Hl; [reflexivity|].
  cbn [forallb] in Hl. apply andb_prop in Hl as [Hrp Hl].
  cbn [app]. rewrite run_next; [now apply IH|].
  apply attempt_no_match. now apply (String_match_escapes alphabet).
Qed.

(** The visits of one rule whose handler yields [o] whatever the match
    object: they yield [o] when a pattern of the rule matches. *)
Lemma run_rule rule clean now o l' : forall pats,
  (forall m, handler rule m clean now = Return o) ->
  fst (run (map (pair rule) pats ++ l') clean now) =
  if existsb (fun p => match String_match clean p with
                       | Some _ => true
                       | None => false
                       end) pats
  then match o with Some r => Some r | None => fst (run l' clean now) end
  else fst (run l' clean now).
Proof.
  intros pats Hh. induction pats as [|p pats IH]; [reflexivity|].
  cbn [map app existsb]. destruct (String_match clean p) as [m|] eqn:E.
  - cbn [orb]. destruct o as [r|].
    + apply run_found. cbn [fst snd]. unfold attempt. rewrite E. apply Hh.
    + rewrite run_next.
      2:{ cbn [fst snd]. unfold attempt. rewrite E. apply Hh. }
      rewrite IH. now destruct (existsb _ pats).
  - cbn [orb]. rewrite run_next; [exact IH|].
    apply attempt_no_match. exact E.
Qed.

(** On an input over [alphabet] that only the patterns of [rule] can
    match, a call yields what the rule's handler yields, provided one of
    the rule's patterns matches or the handler yields null. *)
Lemma dispatch_rule alphabet rule before after clean now o p :
  attempts initializeRules = before ++ map (pair rule) (patterns rule) ++ after ->
  forallb (fun rp => escapes alphabet (snd rp)) (before ++ after) = true ->
  all_in alphabet clean = true ->
  (forall m, handler rule m clean now = Return o) ->
  (In p (patterns rule) /\ String_match clean p <> None) \/ o = None ->
  dispatch clean now = o.
Proof.
  intros Hsplit Hesc Ha Hh Hm. unfold dispatch. rewrite Hsplit.
  rewrite forallb_app in Hesc. apply andb_prop in Hesc as [Hb Haf].
  rewrite (run_escapes alphabet _ _ _ _ Ha Hb).
  rewrite (run_rule _ _ _ o _ _ Hh).
  assert (Hafter : fst (run after clean now) = None).
  { rewrite <- (app_nil_r after).
    now rewrite (run_escapes alphabet _ _ _ _ Ha Haf). }
  rewrite Hafter. destruct o as [r|]; [|now destruct (existsb _ _)].
  destruct Hm as [[Hin Hm]|]; [|discriminate].
  assert (Hex : existsb (fun p => match String_match clean p with
                                  | Some _ => true
                                  | None => false
                                  end) (patterns rule) = true).
  { apply existsb_exists. exists p. split; [assumption|].
    now destruct (String_match clean p). }
  now rewrite Hex.
Qed.

End RuleDispatch.

(* ===================================================================== *)
(** ** Currency conversion *)
(* ===================================================================== *)

Section CurrencyHandler.

Lemma handle_usd a w cur m now :
  is_numeral a = true -> all_in space w = true -> In cur usd ->
  handleCurrencyConversion m (a ++ w ++ cur) now = Return (Some (to_cny a)).
Proof.
  intros Ha Hw Hcur. unfold handleCurrencyConversion.
  rewrite currency_any_match; trivial.
  2:{ apply in_or_app. now left. }
  cbn [group groups nth text_of].
  cases_in Hcur; eval_get; cbv iota beta; eval_string_eqb; reflexivity.
Qed.

Lemma handle_cny a w cur m now :
  is_numeral a = true -> all_in space w = true -> In cur cny ->
  handleCurrencyConversion m (a ++ w ++ cur) now = Return (Some (to_usd a)).
Proof.
  intros Ha Hw Hcur. unfold handleCurrencyConversion.
  rewrite currency_any_match; trivial.
  2:{ apply in_or_app. right. apply in_or_app. now left. }
  cbn [group groups nth text_of].
  cases_in Hcur; eval_get; cbv iota beta; eval_string_eqb; reflexivity.
Qed.

Lemma handle_other a w cur m now :
  is_numeral a = true -> all_in space w = true -> In cur other_currencies ->
  handleCurrencyConversion m (a ++ w ++ cur) now = Return None.
Proof.
  intros Ha Hw Hcur. unfold handleCurrencyConversion.
  rewrite currency_any_match; trivial.
  2:{ apply in_or_app. right. apply in_or_app. now right. }
  cbn [group groups nth text_of].
  cases_in Hcur; eval_get; cbv iota beta; eval_string_eqb; reflexivity.
Qed.

(** The handler's own pattern ends with the currency: after a trailing
    code unit that ends no currency it finds nothing. *)
Lemma handle_trailing s c m now :
  in_class (any_of (js "元币镑DYRP")) c = false ->
  handleCurrencyConversion m (s ++ [c]) now = Return None.
Proof.
  intros Hc. unfold handleCurrencyConversion, String_match.
  rewrite (search_ends (any_of (js "元币镑DYRP")) Patterns.currency_any
             eq_refl eq_refl c Hc). reflexivity.
Qed.

(** A non-empty tail of whitespace and suffix ends outside the currency
    words. *)
Lemma suffixed_last (w sfx : list N) :
  all_in space w = true -> In sfx currency_suffixes -> w ++ sfx <> [] ->
  exists s c, w ++ sfx = s ++ [c] /\
              in_class (any_of (js "元币镑DYRP")) c = false.
Proof.
  intros Hw Hs Hne. cases_in Hs.
  - rewrite app_nil_r in *. destruct (exists_last Hne) as (s & c & ->).
    exists s, c. split; [reflexivity|].
    rewrite all_in_app in Hw. apply andb_prop in Hw as [_ Hc].
    unfold all_in in Hc. cbn [forallb] in Hc. rewrite andb_true_r in Hc.
    apply (disjoint_sound space); [reflexivity|assumption].
  - exists (w ++ [0x7B49]), 0x4E8E. split; [|reflexivity].
    now rewrite <- app_assoc.
  - exists (w ++ [0x6362; 0x7B97]), 0x6210. split; [|reflexivity].
    now rewrite <- app_assoc.
Qed.

Lemma handle_suffixed a w name w' sfx m now :
  all_in space w' = true -> In sfx currency_suffixes -> w' ++ sfx <> [] ->
  handleCurrencyConversion m (a ++ w ++ name ++ w' ++ sfx) now = Return None.
Proof.
  intros Hw Hs Hne. destruct (suffixed_last _ _ Hw Hs Hne) as (s & c & E & Hc).
  rewrite E. replace (a ++ w ++ name ++ s ++ [c])
    with ((a ++ w ++ name ++ s) ++ [c]) by (now rewrite <- !app_assoc).
  now apply handle_trailing.
Qed.

(** The tail of the second currency pattern. *)
Lemma currency_named_match a w name w' sfx :
  is_numeral a = true -> all_in space w = true -> In name currency_names ->
  all_in space w' = true -> In sfx currency_suffixes ->
  String_match (a ++ w ++ name ++ w' ++ sfx) Patterns.currency_named <> None.
Proof.
  intros Ha Hw Hn Hw' Hs.
  assert (F : exists st', first Patterns.currency_named
                (start Patterns.currency_named 0 (a ++ w ++ name ++ w' ++ sfx))
                st').
  { unfold Patterns.currency_named. cbn [SeqOf].
    assert (Htail : forall p cs, exists st',
      first (Seq Patterns.ws
               (Seq (Opt (Group 3 (AltOf [Patterns.word "等于";
                                          Patterns.word "换算成"]))) Eol))
            (MState p (w' ++ sfx) cs) st').
    { intros p cs. cases_in Hs;
        match goal with
        | |- exists st', first _ (MState p (w' ++ ?x) cs) st' =>
          eexists; eapply first_seq;
          [apply (first_star_class space w' (MState p (w' ++ x) cs) x
                    eq_refl Hw' eq_refl)|];
          eexists; reflexivity
        end. }
    cases_in Hn;
      match goal with
      | |- context [start _ 0 (a ++ w ++ ?n ++ w' ++ sfx)] =>
        destruct (Htail (List.length n
                         + (List.length w + (List.length a + 0)))%nat
                        (set_nth 2 (Some n)
                           (set_nth 1 (Some a)
                              (repeat None
                                 (ngroups Patterns.currency_named)))))
          as [st' Fst];
        exists st'; eapply first_seq; [apply first_bol; reflexivity|];
        eapply first_amount; [exact Ha|exact Hw|reflexivity|reflexivity|];
        eapply first_seq; [|exact Fst];
        apply (first_group_after 2 _ (MState _ (n ++ w' ++ sfx) _) n
                 (w' ++ sfx)); [eexists; reflexivity|reflexivity]
      end. }
  destruct F as [st' F]. rewrite (String_match_first _ _ _ F). discriminate.
Qed.

End CurrencyHandler.

(* ===================================================================== *)
(** ** Reading a match back *)
(* ===================================================================== *)

Section Inversion.

Lemma took_trans a w1 b w2 c : took a w1 b -> took b w2 c -> took a (w1 ++ w2) c.
Proof.
  intros (E1 & P1 & C1) (E2 & P2 & C2). repeat split.
  - now rewrite E1, E2, app_assoc.
  - rewrite P2, P1, length_app. lia.
  - congruence.
Qed.

Lemma took_nil st : took st [] st.
Proof. repeat split. Qed.

Lemma in_seq a b st st' :
  In st' (matches (Seq a b) st) ->
  exists s1, In s1 (matches a st) /\ In st' (matches b s1).
Proof. intros Hin. now apply in_flat_map in Hin. Qed.

Lemma in_alt a b st st' :
  In st' (matches (Alt a b) st) ->
  In st' (matches a st) \/ In st' (matches b st).
Proof. intros Hin. now apply in_app_or in Hin. Qed.

Lemma in_group i r st st' :
  In st' (matches (Group i r) st) ->
  exists x, In x (matches r st) /\
    st' = MState (pos x) (rest x) (set_nth i (Some (consumed st x)) (caps x)).
Proof.
  intros Hin. simpl in Hin. apply in_map_iff in Hin as (x & <- & Hx). eauto.
Qed.

Lemma in_char cls st st' :
  In st' (matches (Char cls) st) ->
  exists c, took st [c] st' /\ in_class cls c = true.
Proof.
  simpl. destruct (rest st) as [|c tl] eqn:E; [contradiction|].
  destruct (in_class cls c) eqn:Hc; [|contradiction].
  intros [<-|[]]. exists c. repeat split; assumption.
Qed.

Lemma in_bol st st' : In st' (matches Bol st) -> st' = st /\ pos st = 0%nat.
Proof.
  simpl. destruct (pos st =? 0)%nat eqn:E; [|contradiction].
  intros [<-|[]]. split; [reflexivity|now apply Nat.eqb_eq].
Qed.

Lemma in_eol st st' : In st' (matches Eol st) -> st' = st /\ rest st = [].
Proof.
  simpl. destruct (rest st) eqn:E; [|contradiction].
  intros [<-|[]]. now split.
Qed.

Lemma star_loop_took g step cls :
  (forall s s', In s' (step s) ->
                exists c, took s [c] s' /\ in_class cls c = true) ->
  forall n st st', In st' (star_loop g step n st) ->
  exists w, took st w st' /\ all_in cls w = true.
Proof.
  intros Hstep. induction n as [|n IH]; intros st st' Hin; simpl in Hin.
  - destruct Hin as [<-|[]]. exists []. split; [apply took_nil|reflexivity].
  - assert (Hmore : forall x,
      In x (flat_map (fun st0 =>
              if (List.length (rest st0) <? List.length (rest st))%nat
              then star_loop g step n st0 else []) (step st)) ->
      exists w, took st w x /\ all_in cls w = true).
    { intros x Hx. apply in_flat_map in Hx as (s1 & Hs1 & Hx).
      destruct (_ <? _)%nat; [|contradiction].
      apply Hstep in Hs1 as (c & T1 & Hc).
      apply IH in Hx as (w & T2 & Hw).
      exists ([c] ++ w). split; [eapply took_trans; eassumption|].
      rewrite all_in_app, Hw. unfold all_in. cbn [forallb]. now rewrite Hc. }
    destruct g.
    + apply in_app_or in Hin as [Hin|[<-|[]]]; [auto|].
      exists []. split; [apply took_nil|reflexivity].
    + destruct Hin as [<-|Hin]; [|auto].
      exists []. split; [apply took_nil|reflexivity].
Qed.

Lemma in_star_class g cls st st' :
  In st' (matches (Star g (Char cls)) st) ->
  exists w, took st w st' /\ all_in cls w = true.
Proof.
  apply (star_loop_took g
           (fun s => matches (Char cls) (clear_caps [] s)) cls).
  intros s s' Hs. apply in_char in Hs. destruct s; exact Hs.
Qed.

Lemma in_lit w : forall st st', In st' (matches (Lit w) st) -> took st w st'.
Proof.
  induction w as [|c w IH]; intros st st' Hin.
  - simpl in Hin. destruct Hin as [<-|[]]. apply took_nil.
  - destruct w as [|c' w].
    + apply in_char in Hin as (x & T & Hx).
      unfold in_class, in_range in Hx. simpl in Hx.
      rewrite orb_false_r in Hx. apply andb_prop in Hx as [H1 H2].
      apply N.leb_le in H1, H2. assert (x = c) as -> by lia. exact T.
    + change (Lit (c :: c' :: w)) with (Seq (Char [(c, c)]) (Lit (c' :: w)))
        in Hin.
      apply in_seq in Hin as (s1 & H1 & H2).
      apply in_char in H1 as (x & T & Hx).
      unfold in_class, in_range in Hx. simpl in Hx.
      rewrite orb_false_r in Hx. apply andb_prop in Hx as [Hx1 Hx2].
      apply N.leb_le in Hx1, Hx2. assert (x = c) as -> by lia.
      apply IH in H2. apply (took_trans _ [c] _ _ _ T H2).
Qed.

(** An alternation of literals takes one of them. *)
Lemma in_words ws : forall st st',
  In st' (matches (AltOf (map Lit ws)) st) ->
  exists w, In w ws /\ took st w st'.
Proof.
  induction ws as [|w ws IH]; intros st st' Hin.
  - simpl in Hin. destruct (rest st); contradiction.
  - destruct ws as [|w' ws].
    + cbn [map AltOf] in Hin. apply in_lit in Hin. exists w. split; [now left|assumption].
    + change (AltOf (map Lit (w :: w' :: ws)))
        with (Alt (Lit w) (AltOf (map Lit (w' :: ws)))) in Hin.
      apply in_alt in Hin as [Hin|Hin].
      * apply in_lit in Hin. exists w. split; [now left|assumption].
      * apply IH in Hin as (x & Hx & T). exists x. split; [now right|assumption].
Qed.

Lemma span_digits_app ds tl :
  all_in digit ds = true -> stops digit tl = true ->
  span_digits (ds ++ tl) = (ds, tl).
Proof.
  intros Hd Ht. induction ds as [|c ds IH]; simpl.
  - destruct tl as [|c tl]; [reflexivity|]. simpl.
    unfold stops in Ht. rewrite <- is_digit_class in Ht.
    apply negb_true_iff in Ht. now rewrite Ht.
  - unfold all_in in Hd. cbn [forallb] in Hd. apply andb_prop in Hd as [Hc Hd].
    rewrite is_digit_class, Hc, IH; trivial.
Qed.

Lemma numeral_int c ip :
  in_class digit c = true -> all_in digit ip = true ->
  is_numeral (c :: ip) = true.
Proof.
  intros Hc Hip. unfold is_numeral.
  rewrite <- (app_nil_r (c :: ip)), span_digits_app; trivial.
  unfold all_in in *. cbn [forallb]. now rewrite Hc.
Qed.

Lemma numeral_dec c ip d fp :
  in_class digit c = true -> all_in digit ip = true ->
  in_class digit d = true -> all_in digit fp = true ->
  is_numeral ((c :: ip) ++ 0x2E :: d :: fp) = true.
Proof.
  intros Hc Hip Hd Hfp. unfold is_numeral.
  rewrite span_digits_app; [|unfold all_in in *; cbn [forallb];
                              now rewrite Hc|reflexivity].
  rewrite <- (app_nil_r (d :: fp)), span_digits_app; trivial.
  unfold all_in in *. cbn [forallb]. now rewrite Hd.
Qed.

Lemma in_plus_class cls st st' :
  In st' (matches (Plus (Char cls)) st) ->
  exists c w, took st (c :: w) st' /\ in_class cls c = true
              /\ all_in cls w = true.
Proof.
  intros Hin. unfold Plus in Hin. apply in_seq in Hin as (s1 & H1 & H2).
  apply in_char in H1 as (c & T1 & Hc).
  apply in_star_class in H2 as (w & T2 & Hw).
  exists c, w. split; [|now split].
  apply (took_trans _ [c] _ _ _ T1 T2).
Qed.

(** The numeral pattern takes a numeral. *)
Lemma in_number st st' :
  In st' (matches Patterns.number st) ->
  exists a, took st a st' /\ is_numeral a = true.
Proof.
  unfold Patterns.number. intros Hin. apply in_seq in Hin as (s1 & H1 & H2).
  apply in_plus_class in H1 as (c & ip & T1 & Hc & Hip).
  unfold Opt in H2. apply in_alt in H2 as [H2|H2].
  - apply in_seq in H2 as (s2 & H2 & H3).
    apply in_char in H2 as (x & T2 & Hx).
    unfold in_class, in_range, one in Hx. simpl in Hx.
    rewrite orb_false_r in Hx. apply andb_prop in Hx as [Hx1 Hx2].
    apply N.leb_le in Hx1, Hx2. assert (x = 0x2E) as -> by lia.
    apply in_plus_class in H3 as (d & fp & T3 & Hd & Hfp).
    exists ((c :: ip) ++ [0x2E] ++ d :: fp). split.
    + eapply took_trans; [exact T1|]. eapply took_trans; eassumption.
    + now apply numeral_dec.
  - destruct H2 as [<-|[]]. exists (c :: ip). split; [assumption|].
    now apply numeral_int.
Qed.

(** The head the rule patterns share: [^], a numeral into group 1,
    whitespace. *)
Lemma in_amount R r i s st' :
  In st' (matches (Seq Bol (Seq (Group 1 Patterns.number)
                              (Seq Patterns.ws R))) (start r i s)) ->
  exists a w tl,
    is_numeral a = true /\ all_in space w = true /\ s = a ++ w ++ tl /\
    i = 0%nat /\
    In st' (matches R (MState (List.length w + (List.length a + 0)) tl
                              (set_nth 1 (Some a) (repeat None (ngroups r))))).
Proof.
  intros Hin. apply in_seq in Hin as (s0 & H0 & Hin).
  apply in_bol in H0 as [-> Hi]. cbn [start pos] in Hi. subst i.
  apply in_seq in Hin as (s1 & H1 & Hin).
  apply in_group in H1 as (x & Hx & ->).
  apply in_number in Hx as (a & (E1 & P1 & C1) & Ha).
  rewrite (consumed_app _ _ _ E1) in Hin.
  apply in_seq in Hin as (s2 & H2 & Hin).
  apply in_star_class in H2 as (w & (E2 & P2 & C2) & Hw).
  cbn [start pos rest caps] in *.
  exists a, w, (rest s2). repeat split; trivial.
  - now rewrite E1, E2.
  - destruct s2 as [p2 r2 c2]. cbn [pos rest caps] in *. subst.
    rewrite P1, C1 in Hin. exact Hin.
Qed.

End Inversion.

Section PatternInversion.

Lemma String_match_in s r m :
  from_start r = true -> String_match s r = Some m ->
  exists st', In st' (matches r (start r 0 s)) /\ groups m = caps st'.
Proof.
  intros Hs Hm. rewrite (String_match_from_start _ _ Hs) in Hm.
  apply match_at_some in Hm as (st' & tl & E & ->).
  exists st'. split; [rewrite E; now left|reflexivity].
Qed.

(** The shape ^ amount unit suffix? $ shared by the unit and currency
    patterns. *)
Lemma in_suffixed r units sfxs s st' :
  In st' (matches (SeqOf [Bol; Group 1 Patterns.number; Patterns.ws;
                          Group 2 (AltOf (map Lit units)); Patterns.ws;
                          Opt (Group 3 (AltOf (map Lit sfxs))); Eol])
                  (start r 0 s)) ->
  ngroups r = 4%nat ->
  exists a w u w' sfx,
    is_numeral a = true /\ all_in space w = true /\ In u units /\
    all_in space w' = true /\ (sfx = [] \/ In sfx sfxs) /\
    s = a ++ w ++ u ++ w' ++ sfx /\
    nth 1 (caps st') None = Some a /\ nth 2 (caps st') None = Some u.
Proof.
  cbn [SeqOf]. intros Hin Hn.
  apply in_amount in Hin as (a & w & tl & Ha & Hw & -> & _ & Hin).
  rewrite Hn in Hin. cbn [repeat set_nth] in Hin.
  apply in_seq in Hin as (s1 & H1 & Hin).
  apply in_group in H1 as (x & Hx & ->).
  apply in_words in Hx as (u & Hu & (E1 & P1 & C1)).
  rewrite (consumed_app _ _ _ E1) in Hin.
  cbn [pos rest caps] in *. rewrite C1 in Hin. cbn [set_nth] in Hin.
  apply in_seq in Hin as (s2 & H2 & Hin).
  apply in_star_class in H2 as (w' & (E2 & P2 & C2) & Hw').
  cbn [pos rest caps] in *.
  apply in_seq in Hin as (s3 & H3 & Hin).
  apply in_eol in Hin as [-> Hend].
  unfold Opt in H3. apply in_alt in H3 as [H3|H3].
  - apply in_group in H3 as (y & Hy & ->).
    apply in_words in Hy as (sfx & Hs & (E3 & P3 & C3)).
    cbn [rest caps] in *. rewrite Hend, app_nil_r in E3.
    exists a, w, u, w', sfx. repeat split; trivial.
    + now right.
    + now rewrite E1, E2, E3.
    + rewrite C3, C2. reflexivity.
    + rewrite C3, C2. reflexivity.
  - destruct H3 as [<-|[]].
    exists a, w, u, w', []. repeat split; trivial.
    + now left.
    + now rewrite E1, E2, Hend.
    + rewrite C2. reflexivity.
    + rewrite C2. reflexivity.
Qed.

Lemma currency_any_inv s m :
  String_match s Patterns.currency_any = Some m ->
  exists a w cur,
    is_numeral a = true /\ all_in space w = true /\
    In cur (usd ++ cny ++ other_currencies) /\
    s = a ++ w ++ cur /\ group m 2 = Some cur.
Proof.
  intros Hm. apply String_match_in in Hm as (st' & Hin & Hg); [|reflexivity].
  unfold Patterns.currency_any in Hin at 1. cbn [SeqOf] in Hin.
  apply in_amount in Hin as (a & w & tl & Ha & Hw & -> & _ & Hin).
  apply in_seq in Hin as (s1 & H1 & Hin).
  apply in_group in H1 as (x & Hx & ->).
  change (AltOf _) with
    (AltOf (map Lit [js "美元"; js "人民币"; js "欧元"; js "英镑"; js "USD";
                     js "CNY"; js "EUR"; js "GBP"])) in Hx.
  apply in_words in Hx as (cur & Hcur & (E1 & P1 & C1)).
  rewrite (consumed_app _ _ _ E1) in Hin.
  apply in_eol in Hin as [-> Hend]. cbn [pos rest caps] in *.
  rewrite Hend, app_nil_r in E1. subst tl.
  exists a, w, cur. repeat split; trivial.
  - unfold usd, cny, other_currencies. cbn [app]. cbn [In] in *. tauto.
  - unfold group. rewrite Hg. cbn [caps]. rewrite C1. reflexivity.
Qed.

Lemma currency_named_inv s m :
  String_match s Patterns.currency_named = Some m ->
  exists a w name w' sfx,
    is_numeral a = true /\ all_in space w = true /\
    In name currency_names /\ all_in space w' = true /\
    In sfx currency_suffixes /\
    s = a ++ w ++ name ++ w' ++ sfx /\ group m 2 = Some name.
Proof.
  intros Hm. apply String_match_in in Hm as (st' & Hin & Hg); [|reflexivity].
  apply (in_suffixed Patterns.currency_named currency_names
           [js "等于"; js "换算成"]) in Hin; [|reflexivity].
  destruct Hin as (a & w & u & w' & sfx & Ha & Hw & Hu & Hw' & Hs & E & _ & G2).
  exists a, w, u, w', sfx. repeat split; trivial.
  - destruct Hs as [->|Hs]; [now left|now right].
  - unfold group. now rewrite Hg.
Qed.

End PatternInversion.

(* ===================================================================== *)
(** ** C7 *)
(* ===================================================================== *)

Section CurrencyClaim.
Context {H : Host}.

Lemma currency_split :
  attempts initializeRules =
  firstn 9 (attempts initializeRules)
  ++ map (pair currency_rule) (patterns currency_rule)
  ++ skipn 11 (attempts initializeRules).
Proof. reflexivity. Qed.

Lemma dispatch_currency clean now o p :
  all_in currency_alphabet clean = true ->
  (forall m, handleCurrencyConversion m clean now = Return o) ->
  (In p (patterns currency_rule) /\ String_match clean p <> None) \/ o = None ->
  dispatch clean now = o.
Proof.
  intros Ha Hh Hm.
  apply (dispatch_rule currency_alphabet currency_rule _ _ clean now o p
           currency_split); trivial.
Qed.

Lemma currency_words_alphabet cur :
  In cur (usd ++ cny ++ other_currencies) ->
  all_in currency_alphabet cur = true.
Proof.
  intros Hc. unfold usd, cny, other_currencies in Hc. cbn [app] in Hc.
  cases_in Hc; reflexivity.
Qed.

Lemma dispatch_convertible a w cur now r :
  is_numeral a = true -> all_in space w = true ->
  In cur (usd ++ cny ++ other_currencies) ->
  (forall m, handleCurrencyConversion m (a ++ w ++ cur) now = Return (Some r)) ->
  dispatch (a ++ w ++ cur) now = Some r.
Proof.
  intros Ha Hw Hcur Hh.
  apply (dispatch_currency _ _ _ Patterns.currency_any); trivial.
  - apply all_in_parts; trivial. now apply currency_words_alphabet.
  - left. split; [now left|]. rewrite currency_any_match; trivial.
    discriminate.
Qed.

Lemma dispatch_other a w cur now :
  is_numeral a = true -> all_in space w = true -> In cur other_currencies ->
  dispatch (a ++ w ++ cur) now = None.
Proof.
  intros Ha Hw Hcur.
  apply (dispatch_currency _ _ _ Patterns.currency_any).
  - apply all_in_parts; trivial. apply currency_words_alphabet.
    apply in_or_app. right. apply in_or_app. now right.
  - intros m. now apply handle_other.
  - now right.
Qed.

Lemma dispatch_suffixed a w name w' sfx now :
  is_numeral a = true -> all_in space w = true -> In name currency_names ->
  all_in space w' = true -> In sfx currency_suffixes -> w' ++ sfx <> [] ->
  dispatch (a ++ w ++ name ++ w' ++ sfx) now = None.
Proof.
  intros Ha Hw Hn Hw' Hs Hne.
  apply (dispatch_currency _ _ _ Patterns.currency_any).
  - apply all_in_parts; trivial. rewrite !all_in_app.
    rewrite (all_in_sub space currency_alphabet w' eq_refl Hw').
    assert (all_in currency_alphabet name = true) as ->
      by (cases_in Hn; reflexivity).
    assert (all_in currency_alphabet sfx = true) as ->
      by (cases_in Hs; reflexivity).
    reflexivity.
  - intros m. now apply handle_suffixed.
  - now right.
Qed.

End CurrencyClaim.

(* ===================================================================== *)
(** ** Length conversion *)
(* ===================================================================== *)

Section LengthHandler.

Lemma length_words_alphabet u :
  In u (meters ++ other_lengths) -> all_in length_alphabet u = true.
Proof.
  intros Hu. unfold meters, other_lengths in Hu. cbn [app] in Hu.
  cases_in Hu; reflexivity.
Qed.

Lemma length_input_alphabet a w u w' sfx :
  is_numeral a = true -> all_in space w = true ->
  In u (meters ++ other_lengths) ->
  all_in space w' = true -> In sfx unit_suffixes ->
  all_in length_alphabet (a ++ w ++ u ++ w' ++ sfx) = true.
Proof.
  intros Ha Hw Hu Hw' Hs. apply all_in_parts; trivial. rewrite !all_in_app.
  rewrite (length_words_alphabet _ Hu).
  rewrite (all_in_sub space length_alphabet w' eq_refl Hw').
  cases_in Hs; reflexivity.
Qed.

(** The handler's length pattern reads the amount and the unit. *)
Lemma length_prefix_match a w u tl :
  is_numeral a = true -> all_in space w = true ->
  In u (meters ++ other_lengths) ->
  String_match (a ++ w ++ u ++ tl) Patterns.length_prefix
  = Some (Match 0 (a ++ w ++ u) [None; Some a; Some u]).
Proof.
  intros Ha Hw Hu.
  assert (F : first Patterns.length_prefix
                (start Patterns.length_prefix 0 (a ++ w ++ u ++ tl))
                (MState (List.length u + (List.length w + (List.length a + 0)))
                        tl
                        (set_nth 2 (Some u)
                           (set_nth 1 (Some a)
                              (repeat None
                                 (ngroups Patterns.length_prefix)))))).
  { unfold Patterns.length_prefix at 1. cbn [SeqOf].
    eapply first_seq; [apply first_bol; reflexivity|].
    unfold meters, other_lengths in Hu. cbn [app] in Hu. cases_in Hu;
      match goal with
      | |- context [start _ 0 (a ++ w ++ ?n ++ tl)] =>
        eapply first_amount; [exact Ha|exact Hw|reflexivity|reflexivity|];
        apply (first_group_after 2 _ (MState _ (n ++ tl) _) n tl);
        [eexists; reflexivity|reflexivity]
      end. }
  rewrite (String_match_first _ _ _ F).
  rewrite (consumed_app _ _ (a ++ w ++ u)); [reflexivity|].
  cbn [start rest]. now rewrite <- !app_assoc.
Qed.

Lemma temperature_prefix_none s :
  all_in length_alphabet s = true ->
  String_match s Patterns.temperature_prefix = None.
Proof. apply String_match_escapes. reflexivity. Qed.

Lemma handle_meters a w u w' sfx m now :
  is_numeral a = true -> all_in space w = true -> In u meters ->
  all_in space w' = true -> In sfx unit_suffixes ->
  handleUnitConversion m (a ++ w ++ u ++ w' ++ sfx) now
  = Return (Some (to_feet a)).
Proof.
  intros Ha Hw Hu Hw' Hs. unfold handleUnitConversion.
  assert (Hu' : In u (meters ++ other_lengths)) by (apply in_or_app; now left).
  rewrite temperature_prefix_none by (now apply length_input_alphabet).
  rewrite length_prefix_match; trivial.
  cbn [group groups nth text_of].
  cases_in Hu; eval_string_eqb; reflexivity.
Qed.

Lemma handle_other_length a w u w' sfx m now :
  is_numeral a = true -> all_in space w = true -> In u other_lengths ->
  all_in space w' = true -> In sfx unit_suffixes ->
  handleUnitConversion m (a ++ w ++ u ++ w' ++ sfx) now = Return None.
Proof.
  intros Ha Hw Hu Hw' Hs. unfold handleUnitConversion.
  assert (Hu' : In u (meters ++ other_lengths)) by (apply in_or_app; now right).
  rewrite temperature_prefix_none by (now apply length_input_alphabet).
  rewrite length_prefix_match; trivial.
  cbn [group groups nth text_of].
  cases_in Hu; eval_string_eqb; reflexivity.
Qed.

(** The second unit pattern matches the length inputs. *)
Lemma unit_length_match a w u w' sfx :
  is_numeral a = true -> all_in space w = true ->
  In u (meters ++ other_lengths) ->
  all_in space w' = true -> In sfx unit_suffixes ->
  String_match (a ++ w ++ u ++ w' ++ sfx) Patterns.unit_length <> None.
Proof.
  intros Ha Hw Hn Hw' Hs.
  assert (F : exists st', first Patterns.unit_length
                (start Patterns.unit_length 0 (a ++ w ++ u ++ w' ++ sfx))
                st').
  { unfold Patterns.unit_length. cbn [SeqOf].
    assert (Htail : forall p cs, exists st',
      first (Seq Patterns.ws
               (Seq (Opt (Group 3 (AltOf [Patterns.word "等于";
                                          Patterns.word "转换为"]))) Eol))
            (MState p (w' ++ sfx) cs) st').
    { intros p cs. cases_in Hs;
        match goal with
        | |- exists st', first _ (MState p (w' ++ ?x) cs) st' =>
          eexists; eapply first_seq;
          [apply (first_star_class space w' (MState p (w' ++ x) cs) x
                    eq_refl Hw' eq_refl)|];
          eexists; reflexivity
        end. }
    unfold meters, other_lengths in Hn. cbn [app] in Hn. cases_in Hn;
      match goal with
      | |- context [start _ 0 (a ++ w ++ ?n ++ w' ++ sfx)] =>
        destruct (Htail (List.length n
                         + (List.length w + (List.length a + 0)))%nat
                        (set_nth 2 (Some n)
                           (set_nth 1 (Some a)
                              (repeat None
                                 (ngroups Patterns.unit_length)))))
          as [st' Fst];
        exists st'; eapply first_seq; [apply first_bol; reflexivity|];
        eapply first_amount; [exact Ha|exact Hw|reflexivity|reflexivity|];
        eapply first_seq; [|exact Fst];
        apply (first_group_after 2 _ (MState _ (n ++ w' ++ sfx) _) n
                 (w' ++ sfx)); [eexists; reflexivity|reflexivity]
      end. }
  destruct F as [st' F]. rewrite (String_match_first _ _ _ F). discriminate.
Qed.

Lemma unit_length_inv s m :
  String_match s Patterns.unit_length = Some m ->
  exists a w u w' sfx,
    is_numeral a = true /\ all_in space w = true /\
    In u (meters ++ other_lengths) /\ all_in space w' = true /\
    In sfx unit_suffixes /\
    s = a ++ w ++ u ++ w' ++ sfx /\ group m 2 = Some u.
Proof.
  intros Hm. apply String_match_in in Hm as (st' & Hin & Hg); [|reflexivity].
  apply (in_suffixed Patterns.unit_length
           [js "米"; js "厘米"; js "千米"; js "英尺"; js "英寸";
            js "m"; js "cm"; js "km"; js "ft"; js "in"]
           [js "等于"; js "转换为"]) in Hin; [|reflexivity].
  destruct Hin as (a & w & u & w' & sfx & Ha & Hw & Hu & Hw' & Hs & E & _ & G2).
  exists a, w, u, w', sfx. repeat split; trivial.
  - unfold meters, other_lengths. cbn [app]. cbn [In] in *. tauto.
  - destruct Hs as [->|Hs]; [now left|now right].
  - unfold group. now rewrite Hg.
Qed.

End LengthHandler.

Section LengthClaim.
Context {H : Host}.

Lemma unit_split :
  attempts initializeRules =
  firstn 7 (attempts initializeRules)
  ++ map (pair unit_rule) (patterns unit_rule)
  ++ skipn 9 (attempts initializeRules).
Proof. reflexivity. Qed.

Lemma dispatch_length clean now o p :
  all_in length_alphabet clean = true ->
  (forall m, handleUnitConversion m clean now = Return o) ->
  (In p (patterns unit_rule) /\ String_match clean p <> None) \/ o = None ->
  dispatch clean now = o.
Proof.
  intros Ha Hh Hm.
  apply (dispatch_rule length_alphabet unit_rule _ _ clean now o p
           unit_split); trivial.
Qed.

End LengthClaim.

(* ===================================================================== *)
(** ** Replacing *)
(* ===================================================================== *)

Section Replacing.

Lemma search_index r : forall s i m,
  search r i s = Some m -> (i <= index m)%nat.
Proof.
  induction s as [|c s IH]; intros i m; cbn [search];
    destruct (match_at r i _) as [m0|] eqn:E.
  - intros [= <-]. apply match_at_some in E as (? & ? & _ & ->). simpl. lia.
  - discriminate.
  - intros [= <-]. apply match_at_some in E as (? & ? & _ & ->). simpl. lia.
  - intros Hs. apply IH in Hs. lia.
Qed.

Lemma replace_all_none s r f :
  String_match s r = None -> String_replace_all s r f = s.
Proof.
  unfold String_match, String_replace_all. intros E. cbn [replace_loop].
  now rewrite E.
Qed.

(** Where the pattern does not match at the head, the head is copied. *)
Lemma replace_loop_skip fuel r f i c s :
  match_at r i (c :: s) = None ->
  replace_loop (S fuel) r f i (c :: s)
  = c :: replace_loop (S fuel) r f (S i) s.
Proof.
  intros E. cbn [replace_loop search]. rewrite E.
  destruct (search r (S i) s) as [m|] eqn:Es; [|reflexivity].
  pose proof (search_index _ _ _ _ Es) as Hi.
  replace (index m - i)%nat with (S (index m - S i)) by lia.
  reflexivity.
Qed.

Lemma match_at_char cls i c s :
  match_at (Char cls) i (c :: s) =
  if in_class cls c
  then Some (Match i [c] (repeat None (ngroups (Char cls))))
  else None.
Proof.
  unfold match_at. cbn [matches rest pos caps].
  destruct (in_class cls c); [|reflexivity].
  rewrite (consumed_app _ _ [c]); reflexivity.
Qed.

(** Replacing a class globally replaces each of its code units. *)
Lemma replace_loop_char cls rep : forall s fuel i,
  (List.length s < fuel)%nat ->
  replace_loop fuel (Char cls) (fun _ => rep) i s = substitute cls rep s.
Proof.
  induction s as [|c s IH]; intros fuel i Hf;
    (destruct fuel as [|fuel]; [lia|]).
  - reflexivity.
  - cbn [List.length] in Hf. unfold substitute. cbn [flat_map].
    fold (substitute cls rep s).
    destruct (in_class cls c) eqn:Hc.
    + cbn [replace_loop search]. rewrite match_at_char, Hc.
      cbn [index matched List.length]. rewrite Nat.sub_diag.
      cbn [firstn app skipn Nat.add]. rewrite IH by lia. reflexivity.
    + rewrite replace_loop_skip by (now rewrite match_at_char, Hc).
      rewrite IH by (cbn; lia). reflexivity.
Qed.

Lemma replace_all_char s cls rep :
  String_replace_all s (Char cls) (fun _ => rep) = substitute cls rep s.
Proof. unfold String_replace_all. apply replace_loop_char. lia. Qed.

Lemma substitute_app cls rep a b :
  substitute cls rep (a ++ b) = substitute cls rep a ++ substitute cls rep b.
Proof. unfold substitute. apply flat_map_app. Qed.

Lemma substitute_id cls rep alphabet s :
  disjoint cls alphabet = true -> all_in alphabet s = true ->
  substitute cls rep s = s.
Proof.
  intros Hd Hs. induction s as [|c s IH]; [reflexivity|].
  unfold all_in in Hs. cbn [forallb] in Hs. apply andb_prop in Hs as [Hc Hs].
  unfold substitute. cbn [flat_map]. fold (substitute cls rep s).
  rewrite (IH Hs).
  destruct (in_class cls c) eqn:E; [|reflexivity].
  rewrite (disjoint_sound _ _ _ Hd E) in Hc. discriminate.
Qed.

(** A word whose first code unit is outside the alphabet of [s] does not
    occur in [s]. *)
Lemma includes_none alphabet s c w :
  all_in alphabet s = true -> in_class alphabet c = false ->
  includes s (c :: w) = false.
Proof.
  intros Hs Hc. induction s as [|x s IH]; [reflexivity|].
  unfold all_in in Hs. cbn [forallb] in Hs. apply andb_prop in Hs as [Hx Hs].
  cbn [includes starts_with]. rewrite (IH Hs), orb_false_r.
  destruct (N.eqb_spec c x) as [->|]; [congruence|reflexivity].
Qed.

End Replacing.

(* ===================================================================== *)
(** ** Arithmetic *)
(* ===================================================================== *)

Ltac eval_substitute :=
  repeat match goal with
  | |- context [substitute ?c ?r [?x]] =>
      let v := eval vm_compute in (substitute c r [x]) in
      change (substitute c r [x]) with v
  end.

Section Arithmetic.

Lemma numeral_head b cls :
  is_numeral b = true -> disjoint digit cls = true -> stops cls b = true.
Proof.
  intros Hb Hd. destruct (numeral_cases _ Hb) as (c & ip & Hc & _ & Hcase).
  assert (stops cls (c :: ip) = true).
  { unfold stops. now rewrite (disjoint_sound _ _ _ Hd Hc). }
  destruct Hcase as [-> | (d & fp & _ & _ & ->)]; assumption.
Qed.

(** The tail the arithmetic patterns share: whitespace, a numeral into
    group [k], the end. *)
Lemma first_operand k w b p cs :
  all_in space w = true -> is_numeral b = true ->
  first (Seq Patterns.ws (Seq (Group k Patterns.number) Eol))
        (MState p (w ++ b) cs)
        (MState (List.length b + (List.length w + p)) []
                (set_nth k (Some b) cs)).
Proof.
  intros Hw Hb. eapply first_seq.
  - apply (first_star_class space w (MState p (w ++ b) cs) b eq_refl Hw).
    now apply numeral_head.
  - eapply first_seq; [|now apply first_eol].
    apply (first_group_after k _ (MState _ b _) b []).
    + apply first_number; [assumption|cbn [rest]; now rewrite app_nil_r|].
      reflexivity.
    + cbn [rest]. now rewrite app_nil_r.
Qed.

Lemma arithmetic_alphabet alphabet a w1 op w2 b :
  subclass numeric alphabet = true -> in_class alphabet op = true ->
  is_numeral a = true -> all_in space w1 = true ->
  all_in space w2 = true -> is_numeral b = true ->
  all_in alphabet (a ++ w1 ++ [op] ++ w2 ++ b) = true.
Proof.
  intros Hs Hop Ha Hw1 Hw2 Hb. apply all_in_parts; trivial.
  rewrite !all_in_app.
  rewrite (all_in_sub _ _ _ Hs (space_numeric _ Hw2)).
  rewrite (all_in_sub _ _ _ Hs (numeral_numeric _ Hb)).
  unfold all_in. cbn [forallb]. now rewrite Hop.
Qed.

(** The handler's pattern reads the two operands and the symbol. *)
Lemma basic_arith_match a w1 sym w2 b :
  is_numeral a = true -> all_in space w1 = true -> In sym symbols ->
  all_in space w2 = true -> is_numeral b = true ->
  String_match (a ++ w1 ++ [sym] ++ w2 ++ b) Patterns.basic_arith
  = Some (Match 0 (a ++ w1 ++ [sym] ++ w2 ++ b)
                [None; Some a; Some [sym]; Some b]).
Proof.
  intros Ha Hw1 Hs Hw2 Hb.
  assert (F : first Patterns.basic_arith
                (start Patterns.basic_arith 0 (a ++ w1 ++ [sym] ++ w2 ++ b))
                (MState (List.length b + (List.length w2
                         + (1 + (List.length w1 + (List.length a + 0)))))
                        []
                        (set_nth 3 (Some b)
                           (set_nth 2 (Some [sym])
                              (set_nth 1 (Some a)
                                 (repeat None
                                    (ngroups Patterns.basic_arith))))))).
  { unfold Patterns.basic_arith at 1. cbn [SeqOf].
    eapply first_seq; [apply first_bol; reflexivity|].
    unfold symbols in Hs. cases_in Hs;
      match goal with
      | |- context [start _ 0 (a ++ w1 ++ [?x] ++ w2 ++ b)] =>
        eapply first_amount; [exact Ha|exact Hw1|reflexivity|reflexivity|];
        eapply first_seq; [|now apply first_operand];
        apply (first_group_after 2 _ (MState _ ([x] ++ w2 ++ b) _) [x]
                 (w2 ++ b)); [|reflexivity];
        apply (first_char _ (MState _ ([x] ++ w2 ++ b) _) x (w2 ++ b));
        reflexivity
      end. }
  rewrite (String_match_first _ _ _ F).
  rewrite (consumed_app _ _ (a ++ w1 ++ [sym] ++ w2 ++ b)); [reflexivity|].
  cbn [start rest]. now rewrite app_nil_r.
Qed.

Lemma math_symbolic_match a w1 sym w2 b :
  is_numeral a = true -> all_in space w1 = true -> In sym symbols ->
  all_in space w2 = true -> is_numeral b = true ->
  String_match (a ++ w1 ++ [sym] ++ w2 ++ b) Patterns.math_symbolic <> None.
Proof.
  intros Ha Hw1 Hs Hw2 Hb.
  assert (F : exists st', first Patterns.math_symbolic
                (start Patterns.math_symbolic 0
                   (a ++ w1 ++ [sym] ++ w2 ++ b)) st').
  { unfold Patterns.math_symbolic at 1. cbn [SeqOf].
    unfold symbols in Hs. cases_in Hs;
      match goal with
      | |- context [start _ 0 (a ++ w1 ++ [?x] ++ w2 ++ b)] =>
        eexists; eapply first_seq; [apply first_bol; reflexivity|];
        eapply first_amount; [exact Ha|exact Hw1|reflexivity|reflexivity|];
        eapply first_seq;
        [apply (first_char _ (MState _ ([x] ++ w2 ++ b) _) x (w2 ++ b));
         reflexivity
        |now apply first_operand]
      end. }
  destruct F as [st' F]. rewrite (String_match_first _ _ _ F). discriminate.
Qed.

Lemma math_chinese_match a w1 op w2 b :
  is_numeral a = true -> all_in space w1 = true -> In op operator_words ->
  all_in space w2 = true -> is_numeral b = true ->
  String_match (a ++ w1 ++ [op] ++ w2 ++ b) Patterns.math_chinese <> None.
Proof.
  intros Ha Hw1 Hs Hw2 Hb.
  assert (F : exists st', first Patterns.math_chinese
                (start Patterns.math_chinese 0
                   (a ++ w1 ++ [op] ++ w2 ++ b)) st').
  { unfold Patterns.math_chinese at 1. cbn [SeqOf].
    unfold operator_words in Hs. cases_in Hs;
      match goal with
      | |- context [start _ 0 (a ++ w1 ++ [?x] ++ w2 ++ b)] =>
        eexists; eapply first_seq; [apply first_bol; reflexivity|];
        eapply first_amount; [exact Ha|exact Hw1|reflexivity|reflexivity|];
        eapply first_seq;
        [apply (first_group_after 2 _ (MState _ ([x] ++ w2 ++ b) _) [x]
                  (w2 ++ b)); [eexists; reflexivity|reflexivity]
        |now apply first_operand]
      end. }
  destruct F as [st' F]. rewrite (String_match_first _ _ _ F). discriminate.
Qed.

(** The replacement loop turns an operator word into its symbol and
    leaves the rest alone. *)
Lemma translate_arith a w1 op w2 b :
  is_numeral a = true -> all_in space w1 = true ->
  In op (symbols ++ operator_words) ->
  all_in space w2 = true -> is_numeral b = true ->
  translate (a ++ w1 ++ [op] ++ w2 ++ b)
  = a ++ w1 ++ [symbol_of op] ++ w2 ++ b.
Proof.
  intros Ha Hw1 Hop Hw2 Hb.
  pose proof (numeral_numeric _ Ha) as Na.
  pose proof (numeral_numeric _ Hb) as Nb.
  pose proof (space_numeric _ Hw1) as N1.
  pose proof (space_numeric _ Hw2) as N2.
  unfold translate, replacements. cbn [fold_left].
  change (Lit (js "加")) with (Char (one 0x52A0)).
  change (Lit (js "减")) with (Char (one 0x51CF)).
  change (Lit (js "乘")) with (Char (one 0x4E58)).
  change (Lit (js "除")) with (Char (one 0x9664)).
  rewrite !replace_all_char.
  assert (E : substitute (one 0x9664) (js "/")
                (substitute (one 0x4E58) (js "*")
                   (substitute (one 0x51CF) (js "-")
                      (substitute (one 0x52A0) (js "+")
                         (a ++ w1 ++ [op] ++ w2 ++ b))))
              = a ++ w1 ++ [symbol_of op] ++ w2 ++ b).
  { unfold symbols, operator_words in Hop. cbn [app] in Hop.
    cases_in Hop;
      (rewrite !substitute_app;
       rewrite !(substitute_id _ _ numeric a) by (trivial; reflexivity);
       rewrite !(substitute_id _ _ numeric w1) by (trivial; reflexivity);
       rewrite !(substitute_id _ _ numeric w2) by (trivial; reflexivity);
       rewrite !(substitute_id _ _ numeric b) by (trivial; reflexivity);
       eval_substitute; reflexivity). }
  rewrite E.
  assert (Hal : all_in symbolic_alphabet
                  (a ++ w1 ++ [symbol_of op] ++ w2 ++ b) = true).
  { apply arithmetic_alphabet; trivial.
    unfold symbols, operator_words in Hop. cbn [app] in Hop.
    cases_in Hop; reflexivity. }
  rewrite (replace_all_none _ (Lit (js "的平方根")))
    by (apply (String_match_escapes symbolic_alphabet); [reflexivity|exact Hal]).
  rewrite (replace_all_none _ (Lit (js "的立方根")))
    by (apply (String_match_escapes symbolic_alphabet); [reflexivity|exact Hal]).
  reflexivity.
Qed.

End Arithmetic.

Section ArithmeticClaim.
Context {H : Host}.

Lemma symbol_of_symbol op :
  In op (symbols ++ operator_words) -> In (symbol_of op) symbols.
Proof. intros Hop. cases_in Hop; vm_compute; tauto. Qed.

Lemma handle_arith a w1 op w2 b m now :
  is_numeral a = true -> all_in space w1 = true ->
  In op (symbols ++ operator_words) ->
  all_in space w2 = true -> is_numeral b = true ->
  handleMathCalculation m (a ++ w1 ++ [op] ++ w2 ++ b) now
  = Return (Some (calculation
                    (operation (symbol_of op) (parseFloat a) (parseFloat b)))).
Proof.
  intros Ha Hw1 Hop Hw2 Hb. unfold handleMathCalculation.
  rewrite translate_arith by assumption.
  pose proof (symbol_of_symbol _ Hop) as Hsym.
  assert (Hal : all_in symbolic_alphabet
                  (a ++ w1 ++ [symbol_of op] ++ w2 ++ b) = true).
  { apply arithmetic_alphabet; trivial. cases_in Hsym; reflexivity. }
  change (js "sqrt") with (0x73 :: js "qrt").
  change (js "cbrt") with (0x63 :: js "brt").
  rewrite !(includes_none symbolic_alphabet) by (trivial; reflexivity).
  rewrite basic_arith_match by assumption.
  cbn [try_catch group groups nth text_of].
  cases_in Hsym; eval_string_eqb; reflexivity.
Qed.

Lemma math_split :
  attempts initializeRules =
  [] ++ map (pair math_rule) (patterns math_rule)
  ++ skipn 3 (attempts initializeRules).
Proof. reflexivity. Qed.

Lemma dispatch_arith a w1 op w2 b now :
  is_numeral a = true -> all_in space w1 = true ->
  In op (symbols ++ operator_words) ->
  all_in space w2 = true -> is_numeral b = true ->
  dispatch (a ++ w1 ++ [op] ++ w2 ++ b) now
  = Some (calculation
            (operation (symbol_of op) (parseFloat a) (parseFloat b))).
Proof.
  intros Ha Hw1 Hop Hw2 Hb.
  destruct (in_app_or _ _ _ Hop) as [Hs|Hc].
  - apply (dispatch_rule symbolic_alphabet math_rule _ _ _ now _
             Patterns.math_symbolic math_split); trivial.
    + apply arithmetic_alphabet; trivial. cases_in Hs; reflexivity.
    + intros m. now apply handle_arith.
    + left. split; [now left|]. now apply math_symbolic_match.
  - apply (dispatch_rule chinese_alphabet math_rule _ _ _ now _
             Patterns.math_chinese math_split); trivial.
    + apply arithmetic_alphabet; trivial. cases_in Hc; reflexivity.
    + intros m. now apply handle_arith.
    + left. split; [right; now left|]. now apply math_chinese_match.
Qed.

End ArithmeticClaim.

(** C2, as the code has it: for two numerals around one of [+ - * /] or
    加 减 乘 除, with or without whitespace, [process] returns a
    calculation whose display is ["= "] followed by the Number the
    binary64 operation gives on the Numbers nearest the two numerals,
    written by Number-to-string; division when the divisor does not read
    as zero.  No [toFixed] is applied. *)
Theorem arithmetic_display {H : Host} (e : Engine) (input : list N)
  (now : Z) (a w1 : list N) (op : N) (w2 b : list N) :
  reachable e ->
  is_numeral a = true -> all_in space w1 = true ->
  In op (symbols ++ operator_words) ->
  all_in space w2 = true -> is_numeral b = true ->
  preprocessInput input = a ++ w1 ++ [op] ++ w2 ++ b ->
  (symbol_of op = 0x2F -> is_zero (parseFloat b) = false) ->
  returned (process input now e)
  = Some (calculation
            (toString (arith (symbol_of op) (parseFloat a) (parseFloat b)))).
Proof.
  intros He Ha Hw1 Hop Hw2 Hb E Hz.
  apply process_settled; [assumption|]. intros t. rewrite E.
  rewrite dispatch_arith by assumption. do 2 f_equal.
  pose proof (symbol_of_symbol _ Hop) as Hsym.
  unfold operation, arith. cases_eq Hsym; rewrite <- Hsym in *;
    try reflexivity.
  change (47 =? 43) with false. change (47 =? 45) with false.
  change (47 =? 42) with false. cbv iota. now rewrite (Hz eq_refl).
Qed.

Lemma arithmetic_display_witness :
  returned (process (H := SampleHost.host) (js "1+1") 0 new_engine)
  = Some (calculation (js "2")).
Proof.
  apply (arithmetic_display (H := SampleHost.host) new_engine (js "1+1") 0
           (js "1") [] 0x2B [] (js "1") reach_new);
    first [reflexivity | vm_compute; tauto | discriminate].
Defined.

(** C2 as stated fails: the display of 0.1+0.2 is not the exact sum. *)
Lemma arithmetic_not_exact :
  exists d,
    shown (returned (process (H := SampleHost.host) (js "0.1+0.2") 0
                       new_engine)) = Some d /\
    d = js "= 0.30000000000000004" /\
    ~ Exact.shows_exact d Exact.plus (js "0.1") (js "0.2").
Proof.
  exists (js "= 0.30000000000000004"). split; [vm_compute; reflexivity|].
  split; [reflexivity|].
  intros (d & x & y & v & E & Hx & Hy & Hv & Hs).
  vm_compute in E. injection E as <-.
  vm_compute in Hx, Hy, Hv. injection Hx as <-. injection Hy as <-.
  injection Hv as <-. vm_compute in Hs. discriminate.
Qed.

(** C3, as the code has it: when the divisor of a division reads as
    zero, [process] returns a calculation whose display is ["= "]
    followed by the notice 除数不能为0; nothing is thrown and no Number
    is shown. *)
Theorem division_by_zero_display {H : Host} (e : Engine) (input : list N)
  (now : Z) (a w1 : list N) (op : N) (w2 b : list N) :
  reachable e ->
  is_numeral a = true -> all_in space w1 = true ->
  In op [0x2F; 0x9664] ->
  all_in space w2 = true -> is_numeral b = true ->
  preprocessInput input = a ++ w1 ++ [op] ++ w2 ++ b ->
  is_zero (parseFloat b) = true ->
  returned (process input now e) = Some (calculation division_by_zero).
Proof.
  intros He Ha Hw1 Hop Hw2 Hb E Hz.
  apply process_settled; [assumption|]. intros t. rewrite E.
  rewrite dispatch_arith; trivial.
  - do 2 f_equal. unfold operation.
    cases_in Hop;
      match goal with
      | |- context [symbol_of ?x] =>
        let v := eval vm_compute in (symbol_of x) in
        change (symbol_of x) with v
      end;
      change (47 =? 43) with false; change (47 =? 45) with false;
      change (47 =? 42) with false; cbv iota; now rewrite Hz.
  - cases_in Hop; vm_compute; tauto.
Qed.

Lemma division_by_zero_display_witness :
  returned (process (H := SampleHost.host) (js "5/0") 0 new_engine)
    = Some (calculation division_by_zero) /\
  returned (process (H := SampleHost.host) (js "5除0") 0 new_engine)
    = Some (calculation division_by_zero).
Proof.
  split.
  - apply (division_by_zero_display (H := SampleHost.host) new_engine
             (js "5/0") 0 (js "5") [] 0x2F [] (js "0") reach_new);
      first [reflexivity | vm_compute; tauto].
  - apply (division_by_zero_display (H := SampleHost.host) new_engine
             (js "5除0") 0 (js "5") [] 0x9664 [] (js "0") reach_new);
      first [reflexivity | vm_compute; tauto].
Defined.

(** C3 as stated fails: the display of 5/0 is not the bare notice. *)
Lemma division_by_zero_not_bare :
  shown (returned (process (H := SampleHost.host) (js "5/0") 0 new_engine))
    = Some (js "= 除数不能为0") /\
  shown (returned (process (H := SampleHost.host) (js "5/0") 0 new_engine))
    <> Some division_by_zero.
Proof. split; [vm_compute; reflexivity|vm_compute; discriminate]. Qed.

(* ===================================================================== *)
(** ** Time-zone queries *)
(* ===================================================================== *)

Section TimezoneHandler.
Context {H : Host}.

(** The city pattern reads the city, with or without whitespace before
    时间; without it the greedy run of CJK code units has to give 时间
    back. *)
Lemma timezone_city_match city w :
  In city cities -> all_in space w = true ->
  exists m, String_match (city ++ w ++ js "时间") Patterns.timezone_city
            = Some m /\ group m 1 = Some city.
Proof.
  intros Hc Hw. destruct w as [|c w].
  - cases_in Hc; eexists; (split; [vm_compute; reflexivity|reflexivity]).
  - unfold all_in in Hw. cbn [forallb] in Hw.
    apply andb_prop in Hw as [Hcs Hw]. fold (all_in space w) in Hw.
    assert (Hstop : forall tl, stops Patterns.cjk (c :: tl) = true).
    { intros tl. unfold stops.
      now rewrite (disjoint_sound space Patterns.cjk c eq_refl Hcs). }
    assert (Hall : all_in space (c :: w) = true).
    { unfold all_in. cbn [forallb]. now rewrite Hcs. }
    assert (F : forall c0 rs, city = c0 :: rs ->
              in_class Patterns.cjk c0 = true ->
              all_in Patterns.cjk rs = true ->
              first Patterns.timezone_city
                (start Patterns.timezone_city 0
                   (city ++ (c :: w) ++ js "时间"))
                (MState (2 + (List.length (c :: w) + (List.length city + 0)))
                        []
                        (set_nth 1 (Some city)
                           (repeat None (ngroups Patterns.timezone_city))))).
    { intros c0 rs -> Hc0 Hrs.
      unfold Patterns.timezone_city at 1. cbn [SeqOf].
      eapply first_seq; [apply first_bol; reflexivity|].
      eapply first_seq.
      - apply (first_group_after 1 _ _ (c0 :: rs) ((c :: w) ++ js "时间"));
          [|reflexivity].
        apply first_alt_l.
        apply (first_plus_class Patterns.cjk c0 rs _ ((c :: w) ++ js "时间"));
          trivial. apply (Hstop (w ++ js "时间")).
      - eapply first_seq.
        + apply (first_star_class space (c :: w)
                   (MState _ ((c :: w) ++ js "时间") _) (js "时间") eq_refl
                   Hall eq_refl).
        + eexists. reflexivity. }
    cases_in Hc;
      (eexists; split;
       [apply String_match_first; eapply F; reflexivity|reflexivity]).
Qed.

Lemma timezone_input_alphabet city w :
  In city cities -> all_in space w = true ->
  all_in timezone_alphabet (city ++ w ++ js "时间") = true.
Proof.
  intros Hc Hw. rewrite !all_in_app.
  rewrite (all_in_sub space timezone_alphabet w eq_refl Hw).
  cases_in Hc; reflexivity.
Qed.

Lemma handle_timezone city zone w m now :
  In (city, zone) Data.timezoneMap -> all_in space w = true ->
  handleTimezoneQuery m (city ++ w ++ js "时间") now
  = Return (Some (zone_time zone now)).
Proof.
  intros Hc Hw. unfold handleTimezoneQuery.
  assert (Hcity : In city cities) by (apply (in_map fst _ _ Hc)).
  destruct (timezone_city_match city w Hcity Hw) as (m' & -> & ->).
  cbn [text_of].
  cases_eq Hc; injection Hc as <- <-; eval_get; reflexivity.
Qed.

Lemma timezone_split :
  attempts initializeRules =
  firstn 5 (attempts initializeRules)
  ++ map (pair timezone_rule) (patterns timezone_rule)
  ++ skipn 7 (attempts initializeRules).
Proof. reflexivity. Qed.

Lemma dispatch_timezone city zone w now :
  In (city, zone) Data.timezoneMap -> all_in space w = true ->
  dispatch (city ++ w ++ js "时间") now = Some (zone_time zone now).
Proof.
  intros Hc Hw.
  assert (Hcity : In city cities) by (apply (in_map fst _ _ Hc)).
  apply (dispatch_rule timezone_alphabet timezone_rule _ _ _ now _
           Patterns.timezone_city timezone_split); trivial.
  - now apply timezone_input_alphabet.
  - intros m. now apply handle_timezone.
  - left. split; [now left|].
    destruct (timezone_city_match city w Hcity Hw) as (m' & -> & _).
    discriminate.
Qed.

End TimezoneHandler.




(* ===================================================================== *)
(** ** Signs of Numbers *)
(* ===================================================================== *)

Section NumberSigns.

Local Open Scope Z_scope.

Lemma shr_1_nonneg mrs : 0 <= shr_m mrs -> 0 <= shr_m (shr_1 mrs).
Proof.
  destruct mrs as [m r s]. destruct m as [|p|p]; simpl; try lia;
    destruct p; simpl; lia.
Qed.

Lemma iter_pos_shr_nonneg n : forall mrs,
  0 <= shr_m mrs -> 0 <= shr_m (SpecFloat.iter_pos shr_1 n mrs).
Proof.
  induction n as [n IH|n IH|]; intros mrs Hm; simpl.
  - apply IH, IH, shr_1_nonneg, Hm.
  - apply IH, IH, Hm.
  - apply shr_1_nonneg, Hm.
Qed.

Lemma shr_fexp_nonneg m e l :
  0 <= m -> 0 <= shr_m (fst (shr_fexp prec emax m e l)).
Proof.
  intros Hm. unfold shr_fexp, shr.
  assert (H0 : 0 <= shr_m (shr_record_of_loc m l))
    by (destruct l as [|[]]; exact Hm).
  destruct (fexp prec emax (Zdigits2 m + e) - e); simpl; trivial.
  now apply iter_pos_shr_nonneg.
Qed.

Lemma round_nearest_even_nonneg m l : 0 <= m -> 0 <= round_nearest_even m l.
Proof.
  intros Hm. destruct l as [|[]]; simpl; try lia.
  destruct (Z.even m); lia.
Qed.

(** Rounding a magnitude keeps the sign it is given. *)
Lemma binary_round_aux_nonneg m e l :
  0 <= m -> non_negative (binary_round_aux prec emax false m e l) = true.
Proof.
  intros Hm. unfold binary_round_aux.
  pose proof (shr_fexp_nonneg m e l Hm) as H1.
  destruct (shr_fexp prec emax m e l) as [mrs' e']. cbn [fst] in H1.
  pose proof (shr_fexp_nonneg _ e' loc_Exact
                (round_nearest_even_nonneg _ (loc_of_shr_record mrs') H1)) as H2.
  destruct (shr_fexp prec emax _ e' loc_Exact) as [mrs'' e'']. cbn [fst] in H2.
  destruct (shr_m mrs'') as [|p|p]; [reflexivity| |lia].
  now destruct (e'' <=? emax - prec).
Qed.

Lemma of_ratio_nonneg p q : 0 <= p -> non_negative (of_ratio p q) = true.
Proof.
  intros Hp. unfold of_ratio. destruct p as [|m|m]; [reflexivity| |lia].
  unfold div, SFdiv. cbn [xorb].
  unfold SFdiv_core_binary.
  match goal with
  | |- context [Z.div_eucl ?x ?y] =>
    pose proof (Z.div_pos x y) as Hd; unfold Z.div in Hd;
    assert (Hx : 0 <= x);
    [|destruct (Z.div_eucl x y) as [qq rr]; cbn [fst] in Hd;
      apply binary_round_aux_nonneg; apply Hd; [exact Hx|lia]]
  end.
  destruct (_ - _ - _) as [|s|s]; try lia.
  rewrite Z.shiftl_mul_pow2 by lia. apply Z.mul_nonneg_nonneg; lia.
Qed.

Lemma digits_value_nonneg ds : 0 <= digits_value ds.
Proof.
  unfold digits_value.
  assert (forall acc, 0 <= acc ->
            0 <= fold_left (fun a c => a * 10 + digit_value c) ds acc).
  { induction ds as [|c ds IH]; intros acc Ha; simpl; [assumption|].
    apply IH. unfold digit_value. lia. }
  apply H. lia.
Qed.

Lemma scale_nonneg v e : 0 <= v -> non_negative (scale false v e) = true.
Proof.
  intros Hv. unfold scale. destruct (v =? 0); [reflexivity|].
  destruct (0 <=? e); apply of_ratio_nonneg; [|assumption].
  apply Z.mul_nonneg_nonneg; [assumption|]. apply Z.pow_nonneg. lia.
Qed.

(** A string that starts with a digit parses to a Number that is neither
    NaN nor negative. *)
Lemma parseFloat_digit c t :
  is_digit c = true -> non_negative (parseFloat (c :: t)) = true.
Proof.
  intros Hc. unfold parseFloat.
  assert (Hr : (0x30 <= c <= 0x39)%N).
  { unfold is_digit in Hc. apply andb_prop in Hc as [H1 H2].
    apply N.leb_le in H1, H2. lia. }
  assert (Hs : is_space c = false).
  { rewrite is_space_class. apply (disjoint_sound digit); [reflexivity|].
    now rewrite <- is_digit_class. }
  cbn [trim_start]. rewrite Hs.
  replace (c =? 43)%N with false by (symmetry; apply N.eqb_neq; lia).
  replace (c =? 45)%N with false by (symmetry; apply N.eqb_neq; lia).
  assert (Hi : starts_with (js "Infinity") (c :: t) = false).
  { change (js "Infinity") with (0x49%N :: js "nfinity"). cbn [starts_with].
    replace (73 =? c)%N with false by (symmetry; apply N.eqb_neq; lia).
    reflexivity. }
  rewrite Hi. cbn [span_digits]. rewrite Hc.
  destruct (span_digits t) as [ds s3].
  destruct (match s3 with
            | [] => ([], s3)
            | c0 :: tl => if (c0 =? 46)%N then span_digits tl else ([], s3)
            end) as [fp s4].
  apply scale_nonneg, digits_value_nonneg.
Qed.

Lemma sqrt_nonneg x : non_negative x = true -> non_negative (sqrt x) = true.
Proof.
  destruct x as [s|s| |s m e]; simpl; try discriminate; trivial.
  - destruct s; [discriminate|reflexivity].
  - destruct s; [discriminate|]. intros _. unfold sqrt, SFsqrt.
    unfold SFsqrt_core_binary.
    match goal with
    | |- context [Z.sqrtrem ?x] =>
      pose proof (Z.sqrtrem_sqrt x) as Hq; pose proof (Z.sqrt_nonneg x) as Hn;
      destruct (Z.sqrtrem x) as [q r]; cbn [fst] in Hq
    end.
    apply binary_round_aux_nonneg. lia.
Qed.

End NumberSigns.

(* ===================================================================== *)
(** ** What Number-to-string writes *)
(* ===================================================================== *)

Section NumberText.

Local Open Scope Z_scope.

Lemma digit_char_digit n : 0 <= n < 10 -> is_digit (digit_char n) = true.
Proof.
  intros Hn. unfold is_digit, digit_char.
  apply andb_true_intro. split; apply N.leb_le; lia.
Qed.

Lemma decimal_loop_digits fuel : forall n acc,
  forallb is_digit acc = true ->
  forallb is_digit (decimal_loop fuel n acc) = true.
Proof.
  induction fuel as [|fuel IH]; intros n acc Ha; simpl; [assumption|].
  assert (Hd : forallb is_digit (digit_char (n mod 10) :: acc) = true).
  { simpl. rewrite Ha, digit_char_digit; [reflexivity|].
    apply Z.mod_pos_bound. lia. }
  destruct (n / 10 =? 0); [exact Hd|]. now apply IH.
Qed.

Lemma decimal_digits n : forallb is_digit (decimal n) = true.
Proof. unfold decimal. now apply decimal_loop_digits. Qed.

(** The first code unit of a laid-out Number is a digit or the point. *)
Lemma layout_head ds n c r :
  layout ds n = c :: r -> In c ds \/ c = 0x30%N \/ c = 0x2E%N.
Proof.
  unfold layout.
  destruct ((Z.of_nat (List.length ds) <=? n) && (n <=? 21)).
  { destruct ds as [|d ds]; simpl.
    - unfold zeros. destruct (Z.to_nat _); simpl; [discriminate|].
      intros [= <- _]. tauto.
    - intros [= <- _]. left. now left. }
  destruct ((0 <? n) && (n <=? 21)).
  { destruct (Z.to_nat n) as [|k]; destruct ds as [|d ds]; simpl;
      intros [= <- _]; tauto. }
  destruct ((-6 <? n) && (n <=? 0)).
  { change (js "0.") with [0x30%N; 0x2E%N]. simpl. intros [= <- _]. tauto. }
  destruct ds as [|d [|d' ds]]; simpl; [discriminate| |];
    intros [= <- _]; left; now left.
Qed.

Lemma toString_not_NaN x : non_negative x = true -> toString x <> js "NaN".
Proof.
  destruct x as [s|s| |s m e]; cbn [non_negative toString].
  - intros _. vm_compute. discriminate.
  - destruct s; [discriminate|]. intros _. vm_compute. discriminate.
  - discriminate.
  - destruct s; [discriminate|]. intros _.
    destruct (shortest m e) as [d x10]. cbn [app].
    intros Heq. change (js "NaN") with [0x4E%N; 0x61%N; 0x4E%N] in Heq.
    apply layout_head in Heq as [Hin|[Hc|Hc]]; try discriminate.
    pose proof (decimal_digits d) as Hd. rewrite forallb_forall in Hd.
    apply Hd in Hin. vm_compute in Hin. discriminate.
Qed.

End NumberText.

(* ===================================================================== *)
(** ** The square-root branch *)
(* ===================================================================== *)

Section RootClaim.

Context {H : Host}.

Local Open Scope nat_scope.

(** A literal that starts outside [p] leaves a head inside [p] in place. *)
Lemma replace_all_head p c s w f :
  in_class p c = true -> w <> [] -> stops p w = true ->
  exists t, String_replace_all (c :: s) (Lit w) f = c :: t.
Proof.
  intros Hc Hw Hs. unfold String_replace_all.
  rewrite replace_loop_skip; [eauto|].
  apply match_at_none, no_lit. destruct w as [|d w]; [congruence|].
  unfold stops in Hs. cbn [start rest starts_with].
  destruct (N.eqb_spec d c) as [->|]; [|reflexivity].
  now rewrite Hc in Hs.
Qed.

Lemma translate_head c s :
  in_class digit c = true -> exists t, translate (c :: s) = c :: t.
Proof.
  intros Hc. unfold translate, replacements. cbn [fold_left].
  repeat match goal with
  | |- context [String_replace_all (c :: ?x) (Lit ?w) ?f] =>
    let t := fresh "t" in let E := fresh "E" in
    destruct (replace_all_head digit c x w f Hc) as [t E];
    [vm_compute; discriminate|reflexivity|rewrite E; clear E]
  end.
  eauto.
Qed.

Lemma number_some st c s :
  rest st = c :: s -> in_class digit c = true ->
  exists st', first Patterns.number st st'.
Proof.
  intros E Hc. unfold Patterns.number, Plus.
  destruct (star_some true (Char digit) (MState (S (pos st)) s (caps st)))
    as [st1 H1].
  assert (Hp : first (Seq (Char digit) (Star true (Char digit))) st st1)
    by (eapply first_seq; [now apply (first_char digit st c s)|exact H1]).
  set (frac := Seq (Char (one 46)) (Seq (Char digit) (Star true (Char digit)))).
  destruct (matches frac st1) as [|st2 tl] eqn:E2.
  - exists st1. eapply first_seq; [exact Hp|]. now apply first_opt_skip.
  - exists st2. eapply first_seq; [exact Hp|]. apply first_alt_l.
    now exists tl.
Qed.

(** The replacement of the first numeral keeps a leading digit. *)
Lemma first_number_head c s :
  in_class digit c = true ->
  exists t,
    String_replace (c :: s) Patterns.first_number
      (fun m => match group m 1 with Some w => w | None => [] end) = c :: t.
Proof.
  intros Hc. unfold String_replace.
  set (st0 := start Patterns.first_number 0 (c :: s)).
  destruct (number_some st0 c s eq_refl Hc) as [st1 H1].
  assert (Hin : In st1 (matches Patterns.number st0))
    by (destruct H1 as [tl ->]; now left).
  destruct (begins_sound digit Patterns.number eq_refl _ _ Hin)
    as (c' & w & E & _).
  assert (Hcaps : caps st1 = caps st0)
    by (apply (matches_caps Patterns.number eq_refl _ _ Hin)).
  pose proof (first_group 1 _ _ _ H1) as H2.
  rewrite (consumed_app _ _ _ E), Hcaps in H2.
  cbn [rest st0 start] in E. injection E as <- E.
  match type of H2 with first _ _ ?x => set (st2 := x) in * end.
  destruct (star_some true (Char dot) st2) as [st3 H3].
  assert (Hcaps3 : caps st3 = caps st2).
  { apply (matches_caps (Star true (Char dot)) eq_refl).
    destruct H3 as [tl ->]. now left. }
  assert (F : first Patterns.first_number st0 st3).
  { unfold Patterns.first_number. cbn [SeqOf].
    eapply first_seq; [apply first_star_lazy|].
    eapply first_seq; [exact H2|exact H3]. }
  cbn [search]. rewrite (match_at_first _ _ _ _ F).
  cbn [index firstn app group groups]. rewrite Hcaps3.
  exists (w ++ skipn (0 + List.length (consumed st0 st3)) (c :: s)).
  reflexivity.
Qed.

(** Every pattern of the mathematics rule starts with a digit. *)
Lemma math_pattern_head pattern clean m :
  In pattern (patterns math_rule) ->
  String_match clean pattern = Some m ->
  exists c s, clean = c :: s /\ in_class digit c = true.
Proof.
  intros Hp Hm.
  assert (Hb : begins digit pattern = true /\ from_start pattern = true).
  { cbn [patterns math_rule] in Hp.
    destruct Hp as [<-|[<-|[<-|[]]]]; split; reflexivity. }
  destruct Hb as [Hb Hf].
  rewrite (String_match_from_start _ _ Hf) in Hm.
  apply match_at_some in Hm as (st' & tl & Hm & _).
  destruct (begins_sound digit pattern Hb (start pattern 0 clean) st')
    as (c & w & E & Hc); [rewrite Hm; now left|].
  cbn [start rest] in E. eauto.
Qed.

Lemma operand_non_negative c s :
  in_class digit c = true ->
  non_negative (operand (translate (c :: s))) = true.
Proof.
  intros Hc. destruct (translate_head c s Hc) as [t ->].
  unfold operand. destruct (first_number_head c t Hc) as [t' ->].
  apply parseFloat_digit. now rewrite is_digit_class.
Qed.

Lemma handle_root m clean now :
  includes (translate clean) (js "sqrt") = true ->
  handleMathCalculation m clean now
  = Return (Some (calculation (toString (sqrt (operand (translate clean)))))).
Proof.
  intros Hi. unfold handleMathCalculation. cbv zeta. now rewrite Hi.
Qed.

Lemma dispatch_root pattern clean m now :
  In pattern (patterns math_rule) ->
  String_match clean pattern = Some m ->
  includes (translate clean) (js "sqrt") = true ->
  dispatch clean now
  = Some (calculation (toString (sqrt (operand (translate clean))))).
Proof.
  intros Hp Hm Hi. unfold dispatch.
  change (attempts initializeRules)
    with (map (pair math_rule) (patterns math_rule)
          ++ skipn 3 (attempts initializeRules)).
  rewrite (run_rule math_rule clean now _ _ _
             (fun m' => handle_root m' clean now Hi)).
  replace (existsb _ _) with true; [reflexivity|].
  symmetry. apply existsb_exists. exists pattern. now rewrite Hm.
Qed.

End RootClaim.

(** C10: whenever a pattern of the mathematics rule matches the normalized
    input and the translated expression contains [sqrt], the operand read
    for [Math.sqrt] is neither NaN nor negative, the handler and [process]
    return the calculation that displays its square root, and that display
    is never ["= NaN"]. *)
Theorem sqrt_operand_non_negative {H : Host} (e : Engine) (input : list N)
  (now : Z) (pattern : regex) (m : MatchResult) :
  reachable e ->
  In pattern (patterns math_rule) ->
  String_match (preprocessInput input) pattern = Some m ->
  includes (translate (preprocessInput input)) (js "sqrt") = true ->
  let num := operand (translate (preprocessInput input)) in
  non_negative num = true /\
  is_nan (sqrt num) = false /\
  handleMathCalculation m (preprocessInput input) now
  = Return (Some (calculation (toString (sqrt num)))) /\
  returned (process input now e) = Some (calculation (toString (sqrt num))) /\
  toString (sqrt num) <> js "NaN".
Proof.
  intros Hr Hp Hm Hi num.
  destruct (math_pattern_head _ _ _ Hp Hm) as (c & s & E & Hc).
  assert (Hn : non_negative num = true)
    by (unfold num; rewrite E; now apply operand_non_negative).
  pose proof (sqrt_nonneg _ Hn) as Hs.
  split; [exact Hn|]. split; [now destruct (sqrt num)|].
  split; [now apply handle_root|].
  split; [|now apply toString_not_NaN].
  apply (process_settled e input now _ Hr).
  intros t. now apply (dispatch_root pattern _ m).
Qed.

Lemma sqrt_operand_non_negative_witness :
  let num := operand (translate (preprocessInput (js "16的平方根"))) in
  toString (@sqrt num) = js "4" /\
  returned (@process SampleHost.host (js "16的平方根") 1762000000000
              new_engine)
  = Some (calculation (js "4")).
Proof.
  assert (M : String_match (preprocessInput (js "16的平方根"))
                Patterns.math_root <> None) by (vm_compute; discriminate).
  destruct (String_match (preprocessInput (js "16的平方根"))
              Patterns.math_root) as [m|] eqn:E; [|congruence].
  destruct (@sqrt_operand_non_negative SampleHost.host new_engine
              (js "16的平方根") 1762000000000 Patterns.math_root m
              reach_new)
    as (_ & _ & _ & R & _).
  - cbn [patterns math_rule]. right. right. now left.
  - exact E.
  - vm_compute. reflexivity.
  - intros num. split; [vm_compute; reflexivity|].
    rewrite R. vm_compute. reflexivity.
Defined.

(* ===================================================================== *)
(** ** What toFixed shows *)
(* ===================================================================== *)

Section FixedNotation.

Local Open Scope Z_scope.

Lemma digits_value_from ds : forall acc,
  fold_left (fun a c => a * 10 + digit_value c) ds acc
  = acc * 10 ^ Z.of_nat (List.length ds) + digits_value ds.
Proof.
  unfold digits_value.
  induction ds as [|c ds IH]; intros acc.
  - cbn [fold_left List.length Z.of_nat]. rewrite Z.pow_0_r. lia.
  - cbn [fold_left List.length]. rewrite Nat2Z.inj_succ, Z.pow_succ_r by lia.
    rewrite IH, (IH (0 * 10 + digit_value c)). lia.
Qed.

Lemma digits_value_cons c ds :
  digits_value (c :: ds)
  = digit_value c * 10 ^ Z.of_nat (List.length ds) + digits_value ds.
Proof.
  unfold digits_value at 1. cbn [fold_left]. now rewrite digits_value_from.
Qed.

Lemma digits_value_zeros j ds :
  digits_value (repeat 0x30%N j ++ ds) = digits_value ds.
Proof.
  induction j as [|j IH]; [reflexivity|].
  cbn [repeat app]. rewrite digits_value_cons, IH.
  change (digit_value 0x30) with 0. lia.
Qed.

Lemma digit_value_char d : 0 <= d < 10 -> digit_value (digit_char d) = d.
Proof. intros Hd. unfold digit_value, digit_char. lia. Qed.

(** The digits [decimal] writes read back as the integer. *)
Lemma decimal_loop_value fuel : forall n acc,
  0 <= n < 10 ^ Z.of_nat fuel ->
  digits_value (decimal_loop fuel n acc)
  = n * 10 ^ Z.of_nat (List.length acc) + digits_value acc.
Proof.
  induction fuel as [|fuel IH]; intros n acc Hn.
  - cbn [Z.of_nat] in Hn. rewrite Z.pow_0_r in Hn.
    assert (n = 0) as -> by lia. cbn [decimal_loop]. lia.
  - cbn [decimal_loop].
    rewrite Nat2Z.inj_succ, Z.pow_succ_r in Hn by lia.
    pose proof (Z.mod_pos_bound n 10 ltac:(lia)) as Hr.
    assert (P : 0 < 10 ^ Z.of_nat (List.length acc))
      by (apply Z.pow_pos_nonneg; lia).
    destruct (Z.eqb_spec (n / 10) 0) as [E|E].
    + rewrite digits_value_cons, digit_value_char by assumption.
      replace (n mod 10) with n by (Z.div_mod_to_equations; lia).
      reflexivity.
    + rewrite IH by (Z.div_mod_to_equations; lia).
      cbn [List.length]. rewrite Nat2Z.inj_succ, Z.pow_succ_r by lia.
      rewrite digits_value_cons, digit_value_char by assumption.
      Z.div_mod_to_equations. nia.
Qed.

Lemma decimal_value n : 0 <= n -> digits_value (decimal n) = n.
Proof.
  intros Hn. unfold decimal. rewrite decimal_loop_value.
  - cbn [List.length Z.of_nat]. change (digits_value []) with 0.
    rewrite Z.pow_0_r. lia.
  - split; [assumption|].
    rewrite Nat2Z.inj_succ, Z2Nat.id by apply Z.log2_nonneg.
    destruct (Z.eq_dec n 0) as [->|Hz]; [reflexivity|].
    pose proof (Z.log2_spec n ltac:(lia)) as [_ L].
    eapply Z.lt_le_trans; [exact L|].
    apply Z.pow_le_mono_l. pose proof (Z.log2_nonneg n). lia.
Qed.

(** A numeral with a point reads as its digits over a power of ten. *)
Lemma value_numeral c ip fp :
  all_in digit (c :: ip) = true -> all_in digit fp = true ->
  Exact.value ((c :: ip) ++ js "." ++ fp)
  = Some (digits_value ((c :: ip) ++ fp), 10 ^ Z.of_nat (List.length fp)).
Proof.
  intros Hip Hfp. unfold Exact.value.
  assert (Hc : (c =? 0x2D)%N = false).
  { unfold all_in in Hip. cbn [forallb] in Hip.
    apply andb_prop in Hip as [Hc _]. rewrite <- is_digit_class in Hc.
    unfold is_digit in Hc. apply andb_prop in Hc as [L U].
    apply N.leb_le in L, U. apply N.eqb_neq. lia. }
  cbn [app]. rewrite Hc.
  change (c :: ip ++ js "." ++ fp) with ((c :: ip) ++ js "." ++ fp).
  rewrite (span_digits_app (c :: ip) (js "." ++ fp) Hip eq_refl).
  change (js "." ++ fp) with (0x2E%N :: fp). cbv iota beta.
  rewrite N.eqb_refl.
  rewrite <- (app_nil_r fp) at 1.
  rewrite (span_digits_app fp [] Hfp eq_refl). reflexivity.
Qed.

Lemma value_integer c ip :
  all_in digit (c :: ip) = true ->
  Exact.value (c :: ip) = Some (digits_value (c :: ip), 1).
Proof.
  intros Hip. unfold Exact.value.
  assert (Hc : (c =? 0x2D)%N = false).
  { unfold all_in in Hip. cbn [forallb] in Hip.
    apply andb_prop in Hip as [Hc _]. rewrite <- is_digit_class in Hc.
    unfold is_digit in Hc. apply andb_prop in Hc as [L U].
    apply N.leb_le in L, U. apply N.eqb_neq. lia. }
  rewrite Hc. rewrite <- (app_nil_r (c :: ip)) at 1.
  rewrite (span_digits_app (c :: ip) [] Hip eq_refl). cbv iota beta.
  now rewrite app_nil_r.
Qed.

Lemma decimal_all_digits n : all_in digit (decimal n) = true.
Proof.
  pose proof (decimal_digits n) as D. unfold all_in.
  rewrite forallb_forall in *. intros c Hc.
  rewrite <- is_digit_class. now apply D.
Qed.

Lemma decimal_loop_nonempty fuel : forall n acc,
  acc <> [] -> decimal_loop fuel n acc <> [].
Proof.
  induction fuel as [|fuel IH]; intros n acc Ha; cbn [decimal_loop];
    [assumption|].
  destruct (n / 10 =? 0); [discriminate|]. apply IH. discriminate.
Qed.

Lemma decimal_nonempty n : decimal n <> [].
Proof.
  unfold decimal. cbn [decimal_loop].
  destruct (n / 10 =? 0); [discriminate|].
  apply decimal_loop_nonempty. discriminate.
Qed.

(** [fixed_digits n k] reads as [n / 10^k]. *)
Lemma fixed_digits_value n k :
  0 <= n ->
  Exact.value (fixed_digits n k) = Some (n, 10 ^ Z.of_nat k).
Proof.
  intros Hn. unfold fixed_digits.
  pose proof (decimal_all_digits n) as Dd.
  pose proof (decimal_value n Hn) as Dv.
  pose proof (decimal_nonempty n) as Dn.
  destruct k as [|k].
  - destruct (decimal n) as [|c ip]; [congruence|].
    rewrite value_integer by assumption. now rewrite Dv.
  - cbv zeta.
    set (m := decimal n) in *.
    set (m' := if (List.length m <=? S k)%nat
               then repeat 0x30%N (S (S k) - List.length m) ++ m else m).
    assert (Hm' : all_in digit m' = true /\ digits_value m' = n
                  /\ (S k < List.length m')%nat).
    { subst m'. destruct (Nat.leb_spec (List.length m) (S k)) as [L|L].
      - rewrite all_in_app, Dd, digits_value_zeros, Dv.
        rewrite length_app, repeat_length. repeat split; [|lia].
        rewrite andb_true_r. unfold all_in. rewrite forallb_forall.
        intros c Hc. apply repeat_spec in Hc. now subst c.
      - repeat split; trivial. }
    destruct Hm' as (Ha & Hv & Hl).
    set (j := (List.length m' - S k)%nat).
    pose proof (firstn_skipn j m') as Es.
    assert (Hf : all_in digit (firstn j m') = true
                 /\ all_in digit (skipn j m') = true).
    { rewrite <- Es, all_in_app in Ha. now apply andb_prop in Ha. }
    destruct Hf as [Hf Hs].
    assert (Lf : List.length (firstn j m') = j)
      by (rewrite length_firstn; subst j; lia).
    assert (Ls : List.length (skipn j m') = S k)
      by (rewrite length_skipn; subst j; lia).
    destruct (firstn j m') as [|c ip] eqn:Ef;
      [cbn [List.length] in Lf; subst j; lia|].
    rewrite value_numeral by assumption.
    now rewrite Es, Hv, Ls.
Qed.

(** Below [10^21], [toFixed(k)] shows the decimal with [k] digits after
    the point that is nearest the Number. *)
Lemma toFixed_rounded x k :
  Rounded.fixed_range x = true -> Rounded.of_number (toFixed x k) k x.
Proof.
  unfold Rounded.fixed_range, Rounded.of_number, Rounded.nearest.
  destruct x as [s|s| |[|] m e]; cbn [Rounded.value_of]; try discriminate.
  - intros _. exists (0, 1), 0. cbn [toFixed fst snd].
    rewrite fixed_digits_value by lia. repeat split; lia.
  - unfold toFixed.
    assert (Hq : 0 < fst (to_ratio m e) /\ 0 < snd (to_ratio m e)).
    { unfold to_ratio. destruct (0 <=? e) eqn:E; cbn [fst snd].
      - split; [|lia]. apply Z.mul_pos_pos; [reflexivity|].
        apply Z.pow_pos_nonneg; lia.
      - split; [reflexivity|]. apply Z.pow_pos_nonneg; lia. }
    destruct (to_ratio m e) as [p q]. cbn [fst snd] in Hq.
    destruct Hq as [Hp Hq]. intros Hr. apply Z.ltb_lt in Hr.
    rewrite (proj2 (Z.leb_gt _ _)) by lia. cbn [app].
    assert (P : 0 < 10 ^ Z.of_nat k) by (apply Z.pow_pos_nonneg; lia).
    exists (p, q), ((2 * p * 10 ^ Z.of_nat k + q) / (2 * q)).
    cbn [fst snd]. split; [reflexivity|]. split.
    + apply fixed_digits_value. apply Z.div_pos; nia.
    + pose proof (Z.div_mod (2 * p * 10 ^ Z.of_nat k + q) (2 * q)
                    ltac:(lia)) as D.
      pose proof (Z.mod_pos_bound (2 * p * 10 ^ Z.of_nat k + q) (2 * q)
                    ltac:(lia)) as B.
      nia.
Qed.

End FixedNotation.







Lemma first_match_wins_witness :
  process_with preprocessInput (initializeRules (H := SampleHost.host))
    (js "东京时间") 1762000000000 new_engine
  = (Return (Some (zone_time (H := SampleHost.host) (js "Asia/Tokyo")
                     1762000000000)),
     mkEngine (<[js "东京时间" :=
                   zone_time (H := SampleHost.host) (js "Asia/Tokyo")
                     1762000000000]> ∅)
              []).
Proof.
  pose (before :=
    [(math_rule (H := SampleHost.host), Patterns.math_symbolic);
     (math_rule (H := SampleHost.host), Patterns.math_chinese);
     (math_rule (H := SampleHost.host), Patterns.math_root);
     (date_rule (H := SampleHost.host), Patterns.date_relative);
     (date_rule (H := SampleHost.host), Patterns.date_deictic)]).
  assert (Hm : exists m, String_match (preprocessInput (js "东京时间"))
                           Patterns.timezone_city = Some m)
    by (vm_compute; eauto).
  destruct Hm as [m Hm].
  refine (proj1 (first_match_wins preprocessInput
                   (initializeRules (H := SampleHost.host)) (js "东京时间")
                   1762000000000 new_engine before
                   (skipn 6 (attempts (initializeRules (H := SampleHost.host))))
                   (timezone_rule (H := SampleHost.host))
                   Patterns.timezone_city m
                   (zone_time (H := SampleHost.host) (js "Asia/Tokyo")
                      1762000000000) _ _ _ Hm _)).
  - reflexivity.
  - reflexivity.
  - intros rp Hin. unfold before in Hin. cbn [In] in Hin.
    destruct Hin as [<-|[<-|[<-|[<-|[<-|[]]]]]]; vm_compute; reflexivity.
  - vm_compute. reflexivity.
Defined.

Lemma process_contains_faults_witness :
  process (H := SampleHost.host) (js "constructor时间") 1762000000000
    new_engine
  = (Return None,
     mkEngine ∅ [(Category.timezone, RangeError (js "constructor"))])
  /\
  process_with preprocessInput
    [mkRule Category.formula 0 [Patterns.math_symbolic]
       (fun _ _ _ => Throw (Thrown (js "fault")));
     math_rule (H := SampleHost.host)]
    (js "1+1") 1762000000000 new_engine
  = (Return (Some (calculation (js "2"))),
     mkEngine (<[js "1+1" := calculation (js "2")]> ∅)
              [(Category.formula, Thrown (js "fault"))]).
Proof.
  split.
  - pose (before :=
      [(math_rule (H := SampleHost.host), Patterns.math_symbolic);
       (math_rule (H := SampleHost.host), Patterns.math_chinese);
       (math_rule (H := SampleHost.host), Patterns.math_root);
       (date_rule (H := SampleHost.host), Patterns.date_relative);
       (date_rule (H := SampleHost.host), Patterns.date_deictic)]).
    assert (Hm : exists m, String_match (preprocessInput (js "constructor时间"))
                             Patterns.timezone_city = Some m)
      by (vm_compute; eauto).
    destruct Hm as [m Hm].
    pose (rest :=
      [(timezone_rule (H := SampleHost.host), Patterns.timezone_clock);
       (unit_rule, Patterns.unit_temperature);
       (unit_rule, Patterns.unit_length);
       (currency_rule, Patterns.currency_any);
       (currency_rule, Patterns.currency_named);
       (formula_rule, Patterns.formula_physics);
       (formula_rule, Patterns.formula_math);
       (formula_rule, Patterns.formula_chemistry)]).
    destruct (process_contains_faults preprocessInput
                (initializeRules (H := SampleHost.host))
                (js "constructor时间") 1762000000000 new_engine) as [_ F].
    refine (proj2 (F before (timezone_rule (H := SampleHost.host))
                     Patterns.timezone_city m (RangeError (js "constructor"))
                     rest _ _ _ Hm _) _).
    + reflexivity.
    + reflexivity.
    + intros rp Hin. unfold before in Hin. cbn [In] in Hin.
      destruct Hin as [<-|[<-|[<-|[<-|[<-|[]]]]]]; vm_compute; reflexivity.
    + vm_compute. reflexivity.
    + intros rp Hin. unfold rest in Hin. cbn [In] in Hin.
      destruct Hin as [<-|[<-|[<-|[<-|[<-|[<-|[<-|[<-|[]]]]]]]]];
        vm_compute; reflexivity.
  - assert (Hm : exists m, String_match (preprocessInput (js "1+1"))
                             Patterns.math_symbolic = Some m)
      by (vm_compute; eauto).
    destruct Hm as [m Hm].
    destruct (process_contains_faults preprocessInput
                [mkRule Category.formula 0 [Patterns.math_symbolic]
                   (fun _ _ _ => Throw (Thrown (js "fault")));
                 math_rule (H := SampleHost.host)]
                (js "1+1") 1762000000000 new_engine) as [_ F].
    refine (proj1 (F [] (mkRule Category.formula 0 [Patterns.math_symbolic]
                           (fun _ _ _ => Throw (Thrown (js "fault"))))
                     Patterns.math_symbolic m (Thrown (js "fault"))
                     (map (pair (math_rule (H := SampleHost.host)))
                        (patterns (math_rule (H := SampleHost.host))))
                     _ _ _ Hm _)
              [] (math_rule (H := SampleHost.host)) Patterns.math_symbolic m
              (calculation (js "2"))
              [(math_rule (H := SampleHost.host), Patterns.math_chinese);
               (math_rule (H := SampleHost.host), Patterns.math_root)]
              _ _ Hm _).
    + reflexivity.
    + reflexivity.
    + intros rp [].
    + reflexivity.
    + reflexivity.
    + intros rp [].
    + vm_compute. reflexivity.
Defined.

(* ===================================================================== *)
(** ** The cache across calls *)
(* ===================================================================== *)

Section CacheAcrossCalls.

Context {H : Host}.

Lemma run_none l clean now :
  fst (run l clean now) = None -> snd (run l clean now) = faults l clean now.
Proof.
  induction l as [|rp l IH]; cbn [run faults flat_map]; [reflexivity|].
  destruct (yields rp clean now) as [r|]; [discriminate|].
  destruct (run l clean now) as [o log]. cbn [fst snd] in *.
  intros ->. now rewrite IH.
Qed.

Lemma engine_eta e : mkEngine (cache e) (console e) = e.
Proof. now destruct e. Qed.

Lemma returned_some input now e r :
  returned (process input now e) = Some r ->
  cache (snd (process input now e)) !! preprocessInput input = Some r.
Proof.
  destruct (cache e !! preprocessInput input) as [r0|] eqn:E.
  - rewrite (process_hit _ _ _ _ E). cbn. now intros [= <-].
  - rewrite (process_miss _ _ _ E). cbn [returned fst snd settle cache].
    intros ->. apply lookup_insert_eq.
Qed.

End CacheAcrossCalls.



(** X2: A call that returns null stores nothing: the cache is as before and
    has no entry for the normal form of the input; the call has visited
    the whole table, and the console has gained the fault of every visit
    that threw. *)
Theorem null_not_cached {H : Host} (e : Engine) (input : list N) (now : Z) :
  returned (process input now e) = None ->
  cache e !! preprocessInput input = None /\
  process input now e
  = (Return None,
     mkEngine (cache e)
       (console e
        ++ faults (attempts initializeRules) (preprocessInput input) now)).
Proof.
  intros Hr.
  destruct (cache e !! preprocessInput input) as [r0|] eqn:E.
  - rewrite (process_hit _ _ _ _ E) in Hr. discriminate.
  - split; [reflexivity|].
    rewrite (process_miss _ _ _ E) in Hr |- *. cbn [returned fst] in Hr.
    unfold dispatch in *. rewrite (run_none _ _ _ Hr), Hr. reflexivity.
Qed.

Lemma null_not_cached_witness :
  process (H := SampleHost.host) (js "constructor时间") 0 new_engine
  = (Return None,
     mkEngine ∅ [(Category.timezone, RangeError (js "constructor"))]).
Proof.
  destruct (null_not_cached (H := SampleHost.host) new_engine
              (js "constructor时间") 0) as [_ E].
  - vm_compute. reflexivity.
  - rewrite E. vm_compute. reflexivity.
Defined.

(** X3: A call touches the cache at one key at most, the normal form of its
    input, and only to add an entry that was missing; the console only
    grows. *)
Theorem cache_footprint {H : Host} (e : Engine) (input : list N) (now : Z) :
  (forall k, k <> preprocessInput input ->
     cache (snd (process input now e)) !! k = cache e !! k) /\
  (forall r, cache e !! preprocessInput input = Some r ->
     snd (process input now e) = e) /\
  (cache e !! preprocessInput input = None ->
     cache (snd (process input now e)) !! preprocessInput input
     = returned (process input now e)) /\
  (exists log, console (snd (process input now e)) = console e ++ log).
Proof.
  destruct (cache e !! preprocessInput input) as [r0|] eqn:E.
  - rewrite (process_hit _ _ _ _ E). cbn [snd].
    split; [reflexivity|]. split; [reflexivity|]. split; [discriminate|].
    exists []. now rewrite app_nil_r.
  - rewrite (process_miss _ _ _ E). cbn [snd returned fst settle cache console].
    split; [|split; [discriminate|split]].
    + intros k Hk. destruct (dispatch _ now); [|reflexivity].
      now rewrite lookup_insert_ne.
    + intros _. destruct (dispatch _ now); [|assumption].
      apply lookup_insert_eq.
    + eauto.
Qed.

(** X4: Every entry of the cache of an engine a program can hold is what the
    rule table found for its key at some moment; so for a query whose
    resolution does not depend on the time, [process] returns what the
    table finds now, cached or not. *)
Theorem cache_transparent {H : Host} (e : Engine) (input : list N) (now : Z) :
  reachable e ->
  (forall k r, cache e !! k = Some r -> exists t, dispatch k t = Some r) /\
  ((forall t, dispatch (preprocessInput input) t
              = dispatch (preprocessInput input) now) ->
   returned (process input now e) = dispatch (preprocessInput input) now).
Proof.
  intros He. split; [now apply cache_origin|].
  intros Ht. now apply process_settled.
Qed.

Lemma cache_transparent_witness :
  returned (process (H := SampleHost.host) (js "1+1") 5
              (snd (process (H := SampleHost.host) (js "1+1") 0 new_engine)))
  = dispatch (H := SampleHost.host) (js "1+1") 5.
Proof.
  destruct (cache_transparent (H := SampleHost.host)
              (snd (process (H := SampleHost.host) (js "1+1") 0 new_engine))
              (js "1+1") 5) as [_ T].
  - apply reach_process, reach_new.
  - rewrite T; [reflexivity|].
    intros t. change (preprocessInput (js "1+1")) with (js "1+1").
    transitivity (Some (calculation
                          (operation 0x2B (parseFloat (js "1"))
                             (parseFloat (js "1"))))).
    + apply (dispatch_arith (js "1") [] 0x2B [] (js "1")); try reflexivity.
      now left.
    + symmetry.
      apply (dispatch_arith (js "1") [] 0x2B [] (js "1")); try reflexivity.
      now left.
Defined.

(* ===================================================================== *)
(** ** The priority field *)
(* ===================================================================== *)

Section Priorities.

Lemma run_same_rule rule rule' clean now :
  category rule' = category rule -> handler rule' = handler rule ->
  forall ps,
    run (map (pair rule') ps) clean now = run (map (pair rule) ps) clean now.
Proof.
  intros Hc Hh ps.
  induction ps as [|p ps IHp]; cbn [map run]; [reflexivity|].
  unfold yields, fault, attempt. cbn [fst snd]. now rewrite IHp, Hc, Hh.
Qed.

Lemma attempts_with_priorities f rules clean now :
  run (attempts (with_priorities f rules)) clean now
  = run (attempts rules) clean now.
Proof.
  unfold with_priorities, attempts.
  induction rules as [|rule rules IH]; cbn [map flat_map patterns];
    [reflexivity|].
  rewrite !run_app, IH.
  now rewrite (run_same_rule rule
                 (mkRule (category rule) (f rule) (patterns rule)
                    (handler rule)) clean now eq_refl eq_refl).
Qed.

End Priorities.

(** X5: [process] never reads the [priority] of a rule: the order of the list
    alone decides.  Any other priorities give the same outcome and the
    same engine; the declared ones are 1 to 6 in list order. *)
Theorem priority_ignored {H : Host} (preprocess : list N -> list N)
  (rules : list Rule) (f : Rule -> nat) (input : list N) (now : Z)
  (e : Engine) :
  process_with preprocess (with_priorities f rules) input now e
  = process_with preprocess rules input now e /\
  map priority initializeRules = [1; 2; 3; 4; 5; 6]%nat.
Proof.
  split; [|reflexivity].
  destruct (cache e !! preprocess input) as [r|] eqn:E.
  - now rewrite !(process_with_hit _ _ _ _ _ _ E).
  - rewrite !(process_with_miss _ _ _ _ _ E).
    now rewrite attempts_with_priorities.
Qed.

(* ===================================================================== *)
(** ** Blank input *)
(* ===================================================================== *)

Section Blank.

Context {H : Host}.

Lemma trim_start_blank s : all_in space s = true -> trim_start s = [].
Proof.
  induction s as [|c s IH]; [reflexivity|].
  cbn [all_in forallb trim_start]. intros Hs.
  apply andb_prop in Hs as [Hc Hs]. rewrite is_space_class, Hc.
  now apply IH.
Qed.

Lemma preprocessInput_blank input :
  all_in space input = true -> preprocessInput input = [].
Proof.
  intros Hs. unfold preprocessInput, trim.
  now rewrite (trim_start_blank _ Hs).
Qed.

Lemma dispatch_blank now :
  run (attempts initializeRules) [] now = (None, []).
Proof. reflexivity. Qed.

End Blank.

(** X6: An input that is empty or all whitespace normalizes to the empty
    string, which no pattern matches: on every engine a program can hold
    [process] returns null and leaves the engine exactly as it was. *)
Theorem blank_input {H : Host} (e : Engine) (input : list N) (now : Z) :
  reachable e -> all_in space input = true ->
  preprocessInput input = [] /\ process input now e = (Return None, e).
Proof.
  intros He Hs. pose proof (preprocessInput_blank input Hs) as Hp.
  split; [exact Hp|].
  assert (Hmiss : cache e !! preprocessInput input = None).
  { destruct (cache e !! preprocessInput input) as [r|] eqn:E; [|reflexivity].
    destruct (cache_origin e He _ _ E) as [t Ht]. rewrite Hp in Ht.
    unfold dispatch in Ht. rewrite dispatch_blank in Ht. discriminate. }
  rewrite (process_miss _ _ _ Hmiss), Hp. unfold dispatch.
  rewrite !dispatch_blank. unfold settle. cbn [fst snd].
  rewrite app_nil_r. now rewrite engine_eta.
Qed.

Lemma blank_input_witness :
  process (H := SampleHost.host) (js "  ") 0 new_engine
  = (Return None, new_engine).
Proof.
  refine (proj2 (blank_input (H := SampleHost.host) new_engine (js "  ") 0 reach_new _)).
  reflexivity.
Defined.

(* ===================================================================== *)
(** ** Patterns that cannot match an input *)
(* ===================================================================== *)

Section Exclusion.

Lemma star_loop_within g step a :
  (forall s s', In s' (step s) ->
     exists w, rest s = w ++ rest s' /\ all_in a w = true) ->
  forall n st st', In st' (star_loop g step n st) ->
  exists w, rest st = w ++ rest st' /\ all_in a w = true.
Proof.
  intros Hstep. induction n as [|n IH]; intros st st' Hin; simpl in Hin.
  - destruct Hin as [<-|[]]. now exists [].
  - assert (Hmore : forall x,
      In x (flat_map (fun st0 =>
              if (List.length (rest st0) <? List.length (rest st))%nat
              then star_loop g step n st0 else []) (step st)) ->
      exists w, rest st = w ++ rest x /\ all_in a w = true).
    { intros x Hx. apply in_flat_map in Hx as (s1 & Hs1 & Hx).
      destruct (_ <? _)%nat; [|contradiction].
      apply Hstep in Hs1 as (w1 & E1 & H1).
      apply IH in Hx as (w2 & E2 & H2).
      exists (w1 ++ w2). split.
      - now rewrite E1, E2, app_assoc.
      - now rewrite all_in_app, H1, H2. }
    destruct g.
    + apply in_app_or in Hin as [Hin|[<-|[]]]; [auto|]. now exists [].
    + destruct Hin as [<-|Hin]; [|auto]. now exists [].
Qed.

Lemma within_sound a r :
  within a r = true ->
  forall st st', In st' (matches r st) ->
  exists w, rest st = w ++ rest st' /\ all_in a w = true.
Proof.
  induction r as [|cls|r1 IH1 r2 IH2|r1 IH1 r2 IH2|g r1 IH1|i r1 IH1| |];
    cbn [within]; intros Hw st st' Hin.
  - destruct Hin as [<-|[]]. now exists [].
  - apply in_char in Hin as (c & (E & _) & Hc). exists [c]. split; [exact E|].
    unfold all_in. cbn [forallb].
    now rewrite (subclass_sound _ _ _ Hw Hc).
  - apply andb_prop in Hw as [H1 H2].
    apply in_seq in Hin as (s1 & Hs1 & Hs2).
    destruct (IH1 H1 _ _ Hs1) as (w1 & E1 & A1).
    destruct (IH2 H2 _ _ Hs2) as (w2 & E2 & A2).
    exists (w1 ++ w2). split.
    + now rewrite E1, E2, app_assoc.
    + now rewrite all_in_app, A1, A2.
  - apply andb_prop in Hw as [H1 H2].
    apply in_alt in Hin as [Hin|Hin]; eauto.
  - cbn [matches] in Hin.
    apply (star_loop_within g
             (fun st0 => matches r1 (clear_caps (group_ids r1) st0)) a)
      in Hin; [exact Hin|].
    intros s s' Hs. apply (IH1 Hw) in Hs. exact Hs.
  - apply in_group in Hin as (x & Hx & ->). cbn [rest]. eauto.
  - apply in_bol in Hin as [-> _]. now exists [].
  - apply in_eol in Hin as [-> _]. now exists [].
Qed.

(** An anchored expression over [a] matches inputs over [a] only. *)
Lemma within_whole a r s m :
  within a r = true -> from_start r = true -> to_end r = true ->
  String_match s r = Some m -> all_in a s = true.
Proof.
  intros Hw Hf Ht Hm.
  destruct (String_match_in _ _ _ Hf Hm) as (st' & Hin & _).
  destruct (within_sound a r Hw _ _ Hin) as (w & E & A).
  rewrite (to_end_sound r Ht _ _ Hin), app_nil_r in E.
  cbn [start rest] in E. now rewrite E.
Qed.

Lemma escapes_whole a r s m :
  escapes a r = true -> String_match s r = Some m -> all_in a s = false.
Proof.
  intros He Hm. destruct (all_in a s) eqn:A; [|reflexivity].
  rewrite (String_match_escapes a r s He A) in Hm. discriminate.
Qed.

(** Two expressions one of which needs a code unit the other cannot take
    never match the same input. *)
Lemma separated a r1 r2 s m :
  escapes a r1 = true -> String_match s r1 = Some m ->
  within a r2 = true -> from_start r2 = true -> to_end r2 = true ->
  String_match s r2 = None.
Proof.
  intros He Hm Hw Hf Ht.
  destruct (String_match s r2) as [m2|] eqn:E; [|reflexivity].
  pose proof (escapes_whole a r1 s m He Hm) as Hx.
  rewrite (within_whole a r2 s m2 Hw Hf Ht E) in Hx. discriminate.
Qed.

Lemma begins_no_match p r s :
  begins p r = true -> from_start r = true -> stops p s = true ->
  String_match s r = None.
Proof.
  intros Hb Hf Hs.
  destruct (String_match s r) as [m|] eqn:E; [|reflexivity].
  destruct (String_match_in _ _ _ Hf E) as (st' & Hin & _).
  destruct (begins_sound p r Hb _ _ Hin) as (c & w & Er & Hc).
  cbn [start rest] in Er. rewrite Er in Hs. unfold stops in Hs.
  cbn [app] in Hs. now rewrite Hc in Hs.
Qed.

Lemma ends_no_match p r s c :
  ends p r = true -> to_end r = true -> in_class p c = false ->
  String_match (s ++ [c]) r = None.
Proof. intros He Ht Hc. now apply (search_ends p r He Ht c Hc). Qed.

End Exclusion.

(* ===================================================================== *)
(** ** Visits that are passed over *)
(* ===================================================================== *)

Section PassedOver.

Lemma run_no_match l l' clean now :
  (forall rp, In rp l -> String_match clean (snd rp) = None) ->
  run (l ++ l') clean now = run l' clean now.
Proof.
  induction l as [|rp l IH]; intros Hl; [reflexivity|].
  cbn [app run]. unfold yields, fault.
  rewrite (attempt_no_match _ _ _ now (Hl rp (or_introl eq_refl))).
  rewrite IH by (intros x Hx; apply Hl; now right).
  now destruct (run l' clean now).
Qed.

Lemma run_all_no_match l clean now :
  (forall rp, In rp l -> String_match clean (snd rp) = None) ->
  run l clean now = (None, []).
Proof.
  intros Hl. rewrite <- (app_nil_r l). now rewrite (run_no_match l []).
Qed.

(** Only the visits of [mid] count when no pattern before or after them
    matches. *)
Lemma run_only before mid after clean now :
  (forall rp, In rp (before ++ after) ->
     String_match clean (snd rp) = None) ->
  run (before ++ mid ++ after) clean now = run (mid ++ []) clean now.
Proof.
  intros Hl. rewrite run_no_match by (intros; apply Hl, in_or_app; now left).
  rewrite !(run_app mid).
  rewrite (run_all_no_match after)
    by (intros; apply Hl, in_or_app; now right).
  cbn [run]. reflexivity.
Qed.

End PassedOver.

(* ===================================================================== *)
(** ** Calls that return null *)
(* ===================================================================== *)

Section NullCalls.

Context {H : Host}.

Lemma never_cached e k :
  reachable e -> (forall t, dispatch k t = None) -> cache e !! k = None.
Proof.
  intros He Hd. destruct (cache e !! k) as [r|] eqn:E; [|reflexivity].
  destruct (cache_origin e He _ _ E) as [t Ht]. now rewrite Hd in Ht.
Qed.

(** A call on an input the table never resolves returns null, keeps the
    cache and logs the faults of the visits. *)
Lemma process_null e input now :
  reachable e ->
  (forall t, dispatch (preprocessInput input) t = None) ->
  process input now e
  = (Return None,
     mkEngine (cache e)
       (console e
        ++ snd (run (attempts initializeRules) (preprocessInput input) now))).
Proof.
  intros He Hd. rewrite (process_miss _ _ _ (never_cached e _ He Hd)).
  now rewrite Hd.
Qed.

End NullCalls.

(* ===================================================================== *)
(** ** Time-zone queries for a city that is not in the table *)
(* ===================================================================== *)

Section UnknownCity.

Context {H : Host}.

Lemma span_unique cls a b a' b' :
  all_in cls a = true -> all_in cls a' = true ->
  stops cls b = true -> stops cls b' = true ->
  a ++ b = a' ++ b' -> a = a' /\ b = b'.
Proof.
  revert a'. induction a as [|c a IH]; intros a' Ha Ha' Hb Hb' E.
  - destruct a' as [|c' a']; [now split|]. cbn [app] in E. subst b.
    unfold all_in in Ha'. cbn [forallb] in Ha'. unfold stops in Hb.
    apply andb_prop in Ha' as [Hc _]. now rewrite Hc in Hb.
  - destruct a' as [|c' a'].
    + cbn [app] in E. subst b'. unfold all_in in Ha. cbn [forallb] in Ha.
      unfold stops in Hb'.
      apply andb_prop in Ha as [Hc _]. now rewrite Hc in Hb'.
    + cbn [app] in E. injection E as <- E.
      unfold all_in in Ha, Ha'. cbn [forallb] in Ha, Ha'.
      apply andb_prop in Ha as [_ Ha]. apply andb_prop in Ha' as [_ Ha'].
      destruct (IH a' Ha Ha' Hb Hb' E) as [-> ->]. now split.
Qed.

Lemma stops_space cls w :
  disjoint space cls = true -> all_in space w = true -> stops cls w = true.
Proof.
  intros Hd Hw. destruct w as [|c w]; [reflexivity|].
  unfold all_in in Hw. cbn [forallb] in Hw. apply andb_prop in Hw as [Hc _].
  unfold stops. now rewrite (disjoint_sound space cls c Hd Hc).
Qed.

(** What the city pattern matches: a name in one script, whitespace,
    时间; the group is the name. *)
Lemma timezone_city_inv s m :
  String_match s Patterns.timezone_city = Some m ->
  exists city w,
    city <> [] /\ all_in letters city = true /\ all_in space w = true /\
    s = city ++ w ++ js "时间" /\ group m 1 = Some city.
Proof.
  intros Hm. apply String_match_in in Hm as (st' & Hin & Hg); [|reflexivity].
  unfold Patterns.timezone_city in Hin at 1. cbn [SeqOf] in Hin.
  apply in_seq in Hin as (s0 & H0 & Hin). apply in_bol in H0 as [-> _].
  apply in_seq in Hin as (s1 & H1 & Hin).
  apply in_group in H1 as (x & Hx & ->).
  assert (Hcity : exists c v, took (start Patterns.timezone_city 0 s)
                                (c :: v) x
                              /\ all_in letters (c :: v) = true).
  { apply in_alt in Hx as [Hx|Hx];
      apply in_plus_class in Hx as (c & v & T & Hc & Hv); exists c, v;
      (split; [exact T|]); unfold letters, all_in in *; cbn [forallb];
      rewrite in_class_app, Hc; cbn [orb andb].
    - apply (all_in_sub Patterns.cjk); [reflexivity|exact Hv].
    - rewrite orb_true_r. cbn [andb].
      apply (all_in_sub Patterns.latin); [reflexivity|exact Hv]. }
  destruct Hcity as (c & v & (E1 & P1 & C1) & Hcv).
  rewrite (consumed_app _ _ _ E1) in Hin.
  apply in_seq in Hin as (s2 & H2 & Hin).
  apply in_star_class in H2 as (w & (E2 & P2 & C2) & Hw).
  apply in_seq in Hin as (s3 & H3 & Hin).
  apply in_lit in H3 as (E3 & P3 & C3).
  apply in_eol in Hin as [-> Hend].
  cbn [start pos rest caps] in *.
  exists (c :: v), w. split; [discriminate|]. repeat split; trivial.
  - rewrite E1, E2, E3, Hend, app_nil_r. reflexivity.
  - unfold group. rewrite Hg, C3, C2, C1. reflexivity.
Qed.

(** The name of a query is determined by the query. *)
Lemma city_unique city w city' w' :
  all_in letters city = true -> all_in space w = true ->
  all_in letters city' = true -> all_in space w' = true ->
  city ++ w ++ js "时间" = city' ++ w' ++ js "时间" -> city = city'.
Proof.
  intros Hc Hw Hc' Hw' E. rewrite !app_assoc in E.
  apply app_inv_tail in E.
  assert (D : disjoint space letters = true) by reflexivity.
  now destruct (span_unique letters city w city' w' Hc Hc'
                  (stops_space letters w D Hw)
                  (stops_space letters w' D Hw') E).
Qed.

Lemma handle_city_lookup city w m now :
  all_in letters city = true -> all_in space w = true ->
  handleTimezoneQuery m (city ++ w ++ js "时间") now
  = match String_match (city ++ w ++ js "时间") Patterns.timezone_city with
    | Some _ =>
      match get Data.timezoneMap city with
      | Own [] | Undefined => Return None
      | Own zone => Return (Some (zone_time zone now))
      | Inherited key => Throw (RangeError key)
      end
    | None => Return None
    end.
Proof.
  intros Hc Hw. unfold handleTimezoneQuery.
  destruct (String_match _ Patterns.timezone_city) as [cm|] eqn:E;
    [|reflexivity].
  apply timezone_city_inv in E as (city' & w' & _ & Hc' & Hw' & E & ->).
  rewrite (city_unique _ _ _ _ Hc Hw Hc' Hw' E). cbn [text_of].
  destruct (get Data.timezoneMap city') as [[|z zs]| |]; reflexivity.
Qed.

(** No other rule's pattern matches a query that starts with a letter
    and ends with 间, nor does the clock pattern. *)
Lemma city_query_exclusive city w rp :
  city <> [] -> all_in letters city = true -> all_in space w = true ->
  In rp (firstn 5 (attempts initializeRules)
         ++ (timezone_rule, Patterns.timezone_clock)
         :: skipn 7 (attempts initializeRules)) ->
  String_match (city ++ w ++ js "时间") (snd rp) = None.
Proof.
  intros Hne Hc Hw Hin.
  assert (A : forallb
                (fun rp : Rule * regex =>
                   (from_start (snd rp) && begins digit (snd rp))
                   || (to_end (snd rp)
                       && ends (all_but (js "间")) (snd rp)))
                (firstn 5 (attempts initializeRules)
                 ++ (timezone_rule, Patterns.timezone_clock)
                 :: skipn 7 (attempts initializeRules)) = true)
    by reflexivity.
  rewrite forallb_forall in A. apply A in Hin.
  apply orb_prop in Hin as [Hb|He].
  - apply andb_prop in Hb as [Hf Hb].
    apply (begins_no_match digit); trivial.
    destruct city as [|c city]; [congruence|].
    unfold all_in in Hc. cbn [forallb] in Hc. apply andb_prop in Hc as [Hc _].
    cbn [app]. unfold stops.
    now rewrite (disjoint_sound letters digit c eq_refl Hc).
  - apply andb_prop in He as [Ht He].
    change (js "时间") with ([0x65F6] ++ [0x95F4]).
    rewrite !app_assoc.
    now apply (ends_no_match (all_but (js "间")) _ _ 0x95F4).
Qed.

Lemma city_query_run city w now :
  city <> [] -> all_in letters city = true -> all_in space w = true ->
  run (attempts initializeRules) (city ++ w ++ js "时间") now
  = match attempt timezone_rule Patterns.timezone_city
            (city ++ w ++ js "时间") now with
    | Return (Some r) => (Some r, [])
    | Return None => (None, [])
    | Throw x => (None, [(Category.timezone, x)])
    end.
Proof.
  intros Hne Hc Hw.
  change (attempts initializeRules)
    with (firstn 5 (attempts initializeRules)
          ++ [(timezone_rule, Patterns.timezone_city)]
          ++ (timezone_rule, Patterns.timezone_clock)
          :: skipn 7 (attempts initializeRules)).
  rewrite run_only.
  2:{ intros rp Hin. now apply city_query_exclusive. }
  cbn [app run]. unfold yields, fault. cbn [fst snd category timezone_rule].
  destruct (attempt _ _ _ now) as [[r|]|x]; reflexivity.
Qed.

Lemma latin_city_match city w :
  city <> [] -> all_in Patterns.latin city = true -> all_in space w = true ->
  String_match (city ++ w ++ js "时间") Patterns.timezone_city <> None.
Proof.
  intros Hne Hc Hw. destruct city as [|c v]; [congruence|].
  unfold all_in in Hc. cbn [forallb] in Hc. apply andb_prop in Hc as [Hc Hv].
  fold (all_in Patterns.latin v) in Hv.
  assert (Hstop : stops Patterns.latin (w ++ js "时间") = true)
    by (apply stops_ws; trivial).
  erewrite String_match_first; [discriminate|].
  unfold Patterns.timezone_city at 1. cbn [SeqOf].
  eapply first_seq; [apply first_bol; reflexivity|].
  eapply first_seq.
  - apply (first_group_after 1 _ _ (c :: v) (w ++ js "时间")); [|reflexivity].
    apply first_alt_r.
    + apply no_seq, no_char. cbn [start rest app]. unfold stops.
      now rewrite (disjoint_sound Patterns.latin Patterns.cjk c eq_refl Hc).
    + apply (first_plus_class Patterns.latin c v _ (w ++ js "时间")); trivial.
  - eapply first_seq.
    + apply (first_star_class space w (MState _ (w ++ js "时间") _)
               (js "时间") eq_refl Hw eq_refl).
    + eexists. reflexivity.
Qed.

End UnknownCity.

(** X7: A query for a city that is no key of the time-zone table, 北京时间 or
    Tokyo时间 say, returns null and leaves the engine as it is, whatever
    the script of the name. *)
Theorem unknown_city_null {H : Host} (e : Engine) (input : list N) (now : Z)
  (city w : list N) :
  reachable e ->
  city <> [] -> all_in letters city = true -> all_in space w = true ->
  preprocessInput input = city ++ w ++ js "时间" ->
  get Data.timezoneMap city = Undefined ->
  process input now e = (Return None, e).
Proof.
  intros He Hne Hc Hw E Hg.
  assert (R : forall t, run (attempts initializeRules)
                          (preprocessInput input) t = (None, [])).
  { intros t. rewrite E, (city_query_run city w t Hne Hc Hw).
    unfold attempt. cbn [handler timezone_rule].
    destruct (String_match _ Patterns.timezone_city) as [m|] eqn:M;
      [|reflexivity].
    rewrite (handle_city_lookup city w m t Hc Hw), M, Hg. reflexivity. }
  rewrite (process_null e input now He).
  - rewrite R. cbn [snd]. rewrite app_nil_r. now rewrite engine_eta.
  - intros t. unfold dispatch. now rewrite R.
Qed.

Lemma unknown_city_null_witness :
  process (H := SampleHost.host) (js "北京时间") 1762000000000 new_engine
  = (Return None, new_engine) /\
  process (H := SampleHost.host) (js "Tokyo 时间") 1762000000000 new_engine
  = (Return None, new_engine).
Proof.
  split.
  - apply (unknown_city_null (H := SampleHost.host) new_engine (js "北京时间")
             1762000000000 (js "北京") [] reach_new);
      first [discriminate | reflexivity].
  - apply (unknown_city_null (H := SampleHost.host) new_engine
             (js "Tokyo 时间") 1762000000000 (js "Tokyo") (js " ") reach_new);
      first [discriminate | reflexivity].
Defined.

(** X8: A query whose city is the name of a member every object inherits,
    constructor or toString say, makes the handler throw a RangeError:
    [process] returns null, stores nothing and logs the fault, at every
    call. *)
Theorem inherited_city_fault {H : Host} (e : Engine) (input : list N)
  (now : Z) (city w key : list N) :
  reachable e ->
  city <> [] -> all_in Patterns.latin city = true -> all_in space w = true ->
  preprocessInput input = city ++ w ++ js "时间" ->
  get Data.timezoneMap city = Inherited key ->
  process input now e
  = (Return None,
     mkEngine (cache e)
       (console e ++ [(Category.timezone, RangeError key)])).
Proof.
  intros He Hne Hl Hw E Hg.
  assert (Hc : all_in letters city = true)
    by (apply (all_in_sub Patterns.latin); [reflexivity|exact Hl]).
  assert (R : forall t, run (attempts initializeRules)
                          (preprocessInput input) t
                        = (None, [(Category.timezone, RangeError key)])).
  { intros t. rewrite E, (city_query_run city w t Hne Hc Hw).
    unfold attempt. cbn [handler timezone_rule].
    pose proof (latin_city_match city w Hne Hl Hw) as M.
    destruct (String_match _ Patterns.timezone_city) as [m|] eqn:M';
      [|congruence].
    rewrite (handle_city_lookup city w m t Hc Hw), M', Hg. reflexivity. }
  rewrite (process_null e input now He).
  - now rewrite R.
  - intros t. unfold dispatch. now rewrite R.
Qed.

Lemma inherited_city_fault_witness :
  process (H := SampleHost.host) (js "toString时间") 1762000000000 new_engine
  = (Return None,
     mkEngine ∅ [(Category.timezone, RangeError (js "toString"))]).
Proof.
  apply (inherited_city_fault (H := SampleHost.host) new_engine
           (js "toString时间") 1762000000000 (js "toString") []
           (js "toString") reach_new);
    first [discriminate | reflexivity].
Defined.

(* ===================================================================== *)
(** ** The clock pattern of the time-zone rule *)
(* ===================================================================== *)

Section ClockPattern.

Context {H : Host}.

Lemma clock_query_exclusive clean m rp :
  String_match clean Patterns.timezone_clock = Some m ->
  In rp (firstn 6 (attempts initializeRules)
         ++ skipn 7 (attempts initializeRules)) ->
  String_match clean (snd rp) = None.
Proof.
  intros Hm Hin.
  assert (A : forallb
                (fun rp : Rule * regex =>
                   (within no_hour (snd rp) && from_start (snd rp)
                    && to_end (snd rp))
                   || (from_start (snd rp) && begins letters (snd rp)))
                (firstn 6 (attempts initializeRules)
                 ++ skipn 7 (attempts initializeRules)) = true)
    by reflexivity.
  rewrite forallb_forall in A. apply A in Hin.
  apply orb_prop in Hin as [Hw|Hb].
  - apply andb_prop in Hw as [Hw Ht]. apply andb_prop in Hw as [Hw Hf].
    now apply (separated no_hour Patterns.timezone_clock _ clean m).
  - apply andb_prop in Hb as [Hf Hb].
    apply (begins_no_match letters); trivial.
    apply String_match_in in Hm as (st' & Hin & _); [|reflexivity].
    destruct (begins_sound digit Patterns.timezone_clock eq_refl _ _ Hin)
      as (c & w & E & Hc).
    cbn [start rest] in E. rewrite E. cbn [app]. unfold stops.
    now rewrite (disjoint_sound digit letters c eq_refl Hc).
Qed.

Lemma clock_query_run clean m now :
  String_match clean Patterns.timezone_clock = Some m ->
  handleTimezoneQuery m clean now = Return None /\
  run (attempts initializeRules) clean now = (None, []).
Proof.
  intros Hm.
  assert (Hcity : String_match clean Patterns.timezone_city = None).
  { apply (clock_query_exclusive clean m
             (timezone_rule, Patterns.timezone_city) Hm).
    apply in_or_app. left. do 5 right. now left. }
  assert (Hh : forall m', handleTimezoneQuery m' clean now = Return None)
    by (intros m'; unfold handleTimezoneQuery; now rewrite Hcity).
  split; [apply Hh|].
  change (attempts initializeRules)
    with (firstn 6 (attempts initializeRules)
          ++ [(timezone_rule, Patterns.timezone_clock)]
          ++ skipn 7 (attempts initializeRules)).
  rewrite run_only by (intros rp; apply (clock_query_exclusive clean m rp Hm)).
  cbn [app run]. unfold yields, fault, attempt.
  cbn [fst snd handler timezone_rule]. now rewrite Hm, Hh.
Qed.

End ClockPattern.

(** X9: The second pattern of the time-zone rule, an hour followed by 点 or 时
    and a place, never leads to a Result: on every input it matches the
    handler returns null, its own expression being the city pattern, and
    no other pattern matches, so [process] returns null and leaves the
    engine as it is. *)
Theorem clock_query_null {H : Host} (e : Engine) (input : list N) (now : Z)
  (m : MatchResult) :
  reachable e ->
  String_match (preprocessInput input) Patterns.timezone_clock = Some m ->
  handleTimezoneQuery m (preprocessInput input) now = Return None /\
  process input now e = (Return None, e).
Proof.
  intros He Hm. split; [now apply clock_query_run|].
  rewrite (process_null e input now He).
  - rewrite (proj2 (clock_query_run _ m now Hm)). cbn [snd].
    rewrite app_nil_r. now rewrite engine_eta.
  - intros t. unfold dispatch. now rewrite (proj2 (clock_query_run _ m t Hm)).
Qed.

Lemma clock_query_null_witness :
  process (H := SampleHost.host) (js "3点东京时间") 1762000000000 new_engine
  = (Return None, new_engine).
Proof.
  assert (M : exists m, String_match (preprocessInput (js "3点东京时间"))
                          Patterns.timezone_clock = Some m)
    by (vm_compute; eauto).
  destruct M as [m M].
  exact (proj2 (clock_query_null (H := SampleHost.host) new_engine
                  (js "3点东京时间") 1762000000000 m reach_new M)).
Defined.

(* ===================================================================== *)
(** ** Formula queries *)
(* ===================================================================== *)

Section Formulas.

Context {H : Host}.

Lemma in_any_of w c : in_class (any_of w) c = true -> In c w.
Proof.
  induction w as [|d w IH]; [discriminate|].
  change (in_class (any_of (d :: w)) c)
    with (in_range c (d, d) || in_class (any_of w) c).
  intros Hc. apply orb_prop in Hc as [Hc|Hc]; [left|right; now apply IH].
  unfold in_range in Hc. cbn [fst snd] in Hc.
  apply andb_prop in Hc as [H1 H2]. apply N.leb_le in H1, H2. lia.
Qed.

(** A pattern [^(...)$] around alternatives matches one of them, whole. *)
Lemma in_anchored_group r R s st' :
  In st' (matches (SeqOf [Bol; Group 1 R; Eol]) (start r 0 s)) ->
  exists x, In x (matches R (start r 0 s)) /\ rest x = [].
Proof.
  cbn [SeqOf]. intros Hin.
  apply in_seq in Hin as (s0 & H0 & Hin). apply in_bol in H0 as [-> _].
  apply in_seq in Hin as (s1 & H1 & Hin).
  apply in_group in H1 as (x & Hx & ->).
  apply in_eol in Hin as [_ Hend]. eauto.
Qed.

Lemma took_whole r s w x :
  took (start r 0 s) w x -> rest x = [] -> s = w.
Proof. intros (E & _ & _) Hx. cbn in E. now rewrite E, Hx, app_nil_r. Qed.

(** The inputs the three formula patterns match are the eleven keys of
    the formula table. *)
Lemma formula_names pattern clean m :
  In pattern (patterns formula_rule) ->
  String_match clean pattern = Some m ->
  In clean (map fst Data.formulaDatabase).
Proof.
  intros Hp Hm. cbn [patterns formula_rule] in Hp.
  destruct Hp as [<-|[<-|[<-|[]]]];
    (apply String_match_in in Hm as (st' & Hin & _); [|reflexivity]);
    apply in_anchored_group in Hin as (x & Hx & Hend).
  - cbn [AltOf] in Hx. apply in_alt in Hx as [Hx|Hx].
    + cbn [SeqOf] in Hx.
      apply in_seq in Hx as (s1 & H1 & Hx). apply in_lit in H1.
      apply in_seq in Hx as (s2 & H2 & Hx).
      apply in_char in H2 as (c & H2 & Hc). apply in_lit in Hx.
      pose proof (took_trans _ _ _ _ _ H1 (took_trans _ _ _ _ _ H2 Hx)) as T.
      rewrite (took_whole _ _ _ _ T Hend).
      apply in_any_of in Hc. cases_in Hc; vm_compute; tauto.
    + apply in_alt in Hx as [Hx|Hx]; apply in_lit in Hx;
        rewrite (took_whole _ _ _ _ Hx Hend); vm_compute; tauto.
  - change (AltOf _) with
      (AltOf (map Lit [js "勾股定理"; js "二次方程"; js "圆的面积公式"]))
      in Hx.
    apply in_words in Hx as (w & Hw & T).
    rewrite (took_whole _ _ _ _ T Hend). cases_in Hw; vm_compute; tauto.
  - change (AltOf _) with
      (AltOf (map Lit [js "水的分子式"; js "二氧化碳"; js "氧气的化学式"]))
      in Hx.
    apply in_words in Hx as (w & Hw & T).
    rewrite (took_whole _ _ _ _ T Hend). cases_in Hw; vm_compute; tauto.
Qed.

Lemma formula_dispatch clean now :
  In clean (map fst Data.formulaDatabase) ->
  exists text,
    own_property Data.formulaDatabase clean = Some text /\
    (forall m, handleFormulaQuery m clean now
               = Return (Some (mkResult ResultType.formula (Text text)))) /\
    dispatch clean now = Some (mkResult ResultType.formula (Text text)).
Proof.
  intros Hin.
  cases_in Hin; eexists;
    (split; [vm_compute; reflexivity|split; [intros m|]]);
    vm_compute; reflexivity.
Qed.

End Formulas.

(** X10: The formula patterns and the formula table agree: every input one of
    the three patterns matches is a key of the table, and [process]
    returns a formula Result with the text stored under it. *)
Theorem formula_lookup {H : Host} (e : Engine) (input : list N) (now : Z)
  (pattern : regex) (m : MatchResult) :
  reachable e ->
  In pattern (patterns formula_rule) ->
  String_match (preprocessInput input) pattern = Some m ->
  exists text,
    own_property Data.formulaDatabase (preprocessInput input) = Some text /\
    handleFormulaQuery m (preprocessInput input) now
    = Return (Some (mkResult ResultType.formula (Text text))) /\
    returned (process input now e)
    = Some (mkResult ResultType.formula (Text text)).
Proof.
  intros He Hp Hm. pose proof (formula_names _ _ _ Hp Hm) as Hin.
  destruct (formula_dispatch _ now Hin) as (text & Ho & Hh & _).
  exists text. split; [exact Ho|]. split; [apply Hh|].
  apply process_settled; [exact He|]. intros t.
  destruct (formula_dispatch _ t Hin) as (text' & Ho' & _ & Hd).
  congruence.
Qed.

Lemma formula_lookup_witness :
  returned (process (H := SampleHost.host) (js "牛顿第二定律") 0 new_engine)
  = Some (mkResult ResultType.formula (Text (js "F = ma"))).
Proof.
  assert (M : exists m, String_match (preprocessInput (js "牛顿第二定律"))
                          Patterns.formula_physics = Some m)
    by (vm_compute; eauto).
  destruct M as [m M].
  destruct (formula_lookup (H := SampleHost.host) new_engine
              (js "牛顿第二定律") 0 Patterns.formula_physics m reach_new)
    as (text & Ho & _ & R).
  - now left.
  - exact M.
  - rewrite R. vm_compute in Ho. injection Ho as <-. reflexivity.
Defined.

(* ===================================================================== *)
(** ** Temperature conversion *)
(* ===================================================================== *)

Section Temperature.

Context {H : Host}.

Lemma temperature_input_alphabet a w u w' sfx :
  is_numeral a = true -> all_in space w = true ->
  In u (celsius_units ++ fahrenheit_units) ->
  all_in space w' = true -> In sfx unit_suffixes ->
  all_in temperature_alphabet (a ++ w ++ u ++ w' ++ sfx) = true.
Proof.
  intros Ha Hw Hu Hw' Hs. apply all_in_parts; trivial. rewrite !all_in_app.
  rewrite (all_in_sub space temperature_alphabet w' eq_refl Hw').
  assert (all_in temperature_alphabet u = true) as ->
    by (cases_in Hu; reflexivity).
  cases_in Hs; reflexivity.
Qed.

(** The handler's temperature pattern reads the amount and the unit. *)
Lemma temperature_prefix_match a w u tl :
  is_numeral a = true -> all_in space w = true ->
  In u (celsius_units ++ fahrenheit_units) ->
  String_match (a ++ w ++ u ++ tl) Patterns.temperature_prefix
  = Some (Match 0 (a ++ w ++ u) [None; Some a; Some u]).
Proof.
  intros Ha Hw Hu.
  assert (F : first Patterns.temperature_prefix
                (start Patterns.temperature_prefix 0 (a ++ w ++ u ++ tl))
                (MState (List.length u + (List.length w + (List.length a + 0)))
                        tl
                        (set_nth 2 (Some u)
                           (set_nth 1 (Some a)
                              (repeat None
                                 (ngroups Patterns.temperature_prefix)))))).
  { unfold Patterns.temperature_prefix at 1. cbn [SeqOf].
    eapply first_seq; [apply first_bol; reflexivity|].
    cases_in Hu;
      match goal with
      | |- context [start _ 0 (a ++ w ++ ?n ++ tl)] =>
        eapply first_amount; [exact Ha|exact Hw|reflexivity|reflexivity|];
        apply (first_group_after 2 _ (MState _ (n ++ tl) _) n tl);
        [eexists; reflexivity|reflexivity]
      end. }
  rewrite (String_match_first _ _ _ F).
  rewrite (consumed_app _ _ (a ++ w ++ u)); [reflexivity|].
  cbn [start rest]. now rewrite <- !app_assoc.
Qed.

Lemma handle_celsius a w u w' sfx m now :
  is_numeral a = true -> all_in space w = true -> In u celsius_units ->
  handleUnitConversion m (a ++ w ++ u ++ w' ++ sfx) now
  = Return (Some (to_fahrenheit a)).
Proof.
  intros Ha Hw Hu. unfold handleUnitConversion.
  rewrite temperature_prefix_match; trivial; [|apply in_or_app; now left].
  cbn [group groups nth text_of].
  cases_in Hu; eval_string_eqb; reflexivity.
Qed.

Lemma handle_fahrenheit a w u w' sfx m now :
  is_numeral a = true -> all_in space w = true -> In u fahrenheit_units ->
  handleUnitConversion m (a ++ w ++ u ++ w' ++ sfx) now
  = Return (Some (to_celsius a)).
Proof.
  intros Ha Hw Hu. unfold handleUnitConversion.
  rewrite temperature_prefix_match; trivial; [|apply in_or_app; now right].
  cbn [group groups nth text_of].
  cases_in Hu; eval_string_eqb; reflexivity.
Qed.

(** The first unit pattern matches the temperature inputs. *)
Lemma unit_temperature_match a w u w' sfx :
  is_numeral a = true -> all_in space w = true ->
  In u (celsius_units ++ fahrenheit_units) ->
  all_in space w' = true -> In sfx unit_suffixes ->
  String_match (a ++ w ++ u ++ w' ++ sfx) Patterns.unit_temperature <> None.
Proof.
  intros Ha Hw Hn Hw' Hs.
  assert (F : exists st', first Patterns.unit_temperature
                (start Patterns.unit_temperature 0
                   (a ++ w ++ u ++ w' ++ sfx))
                st').
  { unfold Patterns.unit_temperature. cbn [SeqOf].
    assert (Htail : forall p cs, exists st',
      first (Seq Patterns.ws
               (Seq (Opt (Group 3 (AltOf [Patterns.word "等于";
                                          Patterns.word "转换为"]))) Eol))
            (MState p (w' ++ sfx) cs) st').
    { intros p cs. cases_in Hs;
        match goal with
        | |- exists st', first _ (MState p (w' ++ ?x) cs) st' =>
          eexists; eapply first_seq;
          [apply (first_star_class space w' (MState p (w' ++ x) cs) x
                    eq_refl Hw' eq_refl)|];
          eexists; reflexivity
        end. }
    cases_in Hn;
      match goal with
      | |- context [start _ 0 (a ++ w ++ ?n ++ w' ++ sfx)] =>
        destruct (Htail (List.length n
                         + (List.length w + (List.length a + 0)))%nat
                        (set_nth 2 (Some n)
                           (set_nth 1 (Some a)
                              (repeat None
                                 (ngroups Patterns.unit_temperature)))))
          as [st' Fst];
        exists st'; eapply first_seq; [apply first_bol; reflexivity|];
        eapply first_amount; [exact Ha|exact Hw|reflexivity|reflexivity|];
        eapply first_seq; [|exact Fst];
        apply (first_group_after 2 _ (MState _ (n ++ w' ++ sfx) _) n
                 (w' ++ sfx)); [eexists; reflexivity|reflexivity]
      end. }
  destruct F as [st' F]. rewrite (String_match_first _ _ _ F). discriminate.
Qed.

Lemma unit_temperature_inv s m :
  String_match s Patterns.unit_temperature = Some m ->
  exists a w u w' sfx,
    is_numeral a = true /\ all_in space w = true /\
    In u (celsius_units ++ fahrenheit_units) /\ all_in space w' = true /\
    In sfx unit_suffixes /\ s = a ++ w ++ u ++ w' ++ sfx.
Proof.
  intros Hm. apply String_match_in in Hm as (st' & Hin & Hg); [|reflexivity].
  apply (in_suffixed Patterns.unit_temperature
           [js "摄氏度"; js "华氏度"; js "℃"; js "℉"]
           [js "等于"; js "转换为"]) in Hin; [|reflexivity].
  destruct Hin as (a & w & u & w' & sfx & Ha & Hw & Hu & Hw' & Hs & E & _).
  exists a, w, u, w', sfx. repeat split; trivial.
  - unfold celsius_units, fahrenheit_units. cbn [app]. cbn [In] in *. tauto.
  - destruct Hs as [->|Hs]; [now left|now right].
Qed.

Lemma dispatch_temperature a w u w' sfx now r :
  is_numeral a = true -> all_in space w = true ->
  In u (celsius_units ++ fahrenheit_units) ->
  all_in space w' = true -> In sfx unit_suffixes ->
  (forall m, handleUnitConversion m (a ++ w ++ u ++ w' ++ sfx) now
             = Return (Some r)) ->
  dispatch (a ++ w ++ u ++ w' ++ sfx) now = Some r.
Proof.
  intros Ha Hw Hu Hw' Hs Hh.
  apply (dispatch_rule temperature_alphabet unit_rule _ _ _ now _
           Patterns.unit_temperature unit_split); trivial.
  - now apply temperature_input_alphabet.
  - left. split; [now left|]. now apply unit_temperature_match.
Qed.

End Temperature.

(** X11: Temperatures are converted in both directions: an amount in 摄氏度 or
    ℃ gives [num * 9 / 5 + 32] in 华氏度, one in 华氏度 or ℉ gives
    [(num - 32) * 5 / 9] in 摄氏度, each shown by [toFixed(1)], with or
    without a trailing 等于 or 转换为; so every input the temperature
    pattern matches gets a Result. *)
Theorem temperature_conversion {H : Host} (e : Engine) (input : list N)
  (now : Z) :
  reachable e ->
  (forall a w u w' sfx,
     is_numeral a = true -> all_in space w = true ->
     all_in space w' = true -> In sfx unit_suffixes ->
     preprocessInput input = a ++ w ++ u ++ w' ++ sfx ->
     (In u celsius_units ->
      returned (process input now e) = Some (to_fahrenheit a)) /\
     (In u fahrenheit_units ->
      returned (process input now e) = Some (to_celsius a))) /\
  (forall m,
     String_match (preprocessInput input) Patterns.unit_temperature = Some m ->
     returned (process input now e) <> None).
Proof.
  intros He.
  assert (C : forall a w u w' sfx,
     is_numeral a = true -> all_in space w = true ->
     all_in space w' = true -> In sfx unit_suffixes ->
     preprocessInput input = a ++ w ++ u ++ w' ++ sfx ->
     (In u celsius_units ->
      returned (process input now e) = Some (to_fahrenheit a)) /\
     (In u fahrenheit_units ->
      returned (process input now e) = Some (to_celsius a))).
  { intros a w u w' sfx Ha Hw Hw' Hs E. split; intros Hu;
      (apply process_settled; [assumption|]); intros t; rewrite E;
      apply dispatch_temperature; trivial.
    - apply in_or_app. now left.
    - intros m. now apply handle_celsius.
    - apply in_or_app. now right.
    - intros m. now apply handle_fahrenheit. }
  split; [exact C|].
  intros m Hm.
  apply unit_temperature_inv in Hm
    as (a & w & u & w' & sfx & Ha & Hw & Hu & Hw' & Hs & E).
  destruct (C a w u w' sfx Ha Hw Hw' Hs E) as [C1 C2].
  apply in_app_or in Hu as [Hu|Hu]; [rewrite (C1 Hu)|rewrite (C2 Hu)];
    discriminate.
Qed.

Lemma temperature_conversion_witness :
  shown (returned (process (H := SampleHost.host) (js "37摄氏度等于") 0
                     new_engine)) = Some (js "98.6华氏度") /\
  shown (returned (process (H := SampleHost.host) (js "212 ℉") 0
                     new_engine)) = Some (js "100.0摄氏度").
Proof.
  destruct (temperature_conversion (H := SampleHost.host) new_engine
              (js "37摄氏度等于") 0 reach_new) as [C1 _].
  destruct (temperature_conversion (H := SampleHost.host) new_engine
              (js "212 ℉") 0 reach_new) as [C2 _].
  split.
  - destruct (C1 (js "37") [] (js "摄氏度") [] (js "等于") eq_refl eq_refl
                eq_refl (or_intror (or_introl eq_refl)) eq_refl) as [R _].
    rewrite R; [reflexivity|now left].
  - destruct (C2 (js "212") (js " ") (js "℉") [] [] eq_refl eq_refl
                eq_refl (or_introl eq_refl) eq_refl) as [_ R].
    rewrite R; [reflexivity|right; now left].
Defined.

(* ===================================================================== *)
(** ** Currency amounts followed by 等于 or 换算成 *)
(* ===================================================================== *)

(** X12: The second currency pattern accepts a trailing 等于 or 换算成, but the
    handler matches the input again with the first pattern, which ends at
    the currency: with such a suffix, or with whitespace after the
    currency, every amount, dollars and yuan included, returns null. *)
Theorem currency_suffix_null {H : Host} (e : Engine) (input : list N)
  (now : Z) (a w name w' sfx : list N) :
  reachable e ->
  is_numeral a = true -> all_in space w = true -> In name currency_names ->
  all_in space w' = true -> In sfx currency_suffixes -> w' ++ sfx <> [] ->
  preprocessInput input = a ++ w ++ name ++ w' ++ sfx ->
  String_match (preprocessInput input) Patterns.currency_named <> None /\
  (forall m, handleCurrencyConversion m (preprocessInput input) now
             = Return None) /\
  returned (process input now e) = None.
Proof.
  intros He Ha Hw Hn Hw' Hs Hne E. split; [|split].
  - rewrite E. now apply currency_named_match.
  - intros m. rewrite E. now apply handle_suffixed.
  - apply process_settled; [assumption|]. intros t. rewrite E.
    now apply dispatch_suffixed.
Qed.

Lemma currency_suffix_null_witness :
  returned (process (H := SampleHost.host) (js "1美元等于") 0 new_engine)
  = None.
Proof.
  apply (currency_suffix_null (H := SampleHost.host) new_engine
           (js "1美元等于") 0 (js "1") [] (js "美元") [] (js "等于") reach_new);
    first [discriminate | reflexivity | vm_compute; tauto].
Defined.

(* ===================================================================== *)
(** ** Replacing and finding a literal *)
(* ===================================================================== *)

Section Literals.

Lemma starts_with_refl w tl : starts_with w (w ++ tl) = true.
Proof.
  induction w as [|c w IH]; [reflexivity|].
  cbn [app starts_with]. now rewrite N.eqb_refl, IH.
Qed.

Lemma starts_with_stops p w c s :
  w <> [] -> stops p w = true -> in_class p c = true ->
  starts_with w (c :: s) = false.
Proof.
  intros Hne Hs Hc. destruct w as [|d w]; [congruence|].
  unfold stops in Hs. cbn [starts_with].
  destruct (N.eqb_spec d c) as [->|]; [|reflexivity].
  now rewrite Hc in Hs.
Qed.

Lemma includes_suffix pre w : includes (pre ++ w) w = true.
Proof.
  induction pre as [|c pre IH].
  - destruct w as [|d w]; [reflexivity|].
    cbn [app includes].
    now rewrite <- (app_nil_r (d :: w)) at 2; rewrite starts_with_refl.
  - cbn [app includes]. rewrite IH. apply orb_true_r.
Qed.

(** A literal does not start inside a prefix it shares no head with. *)
Lemma includes_skip p pre w x :
  w <> [] -> stops p w = true -> all_in p pre = true ->
  includes (pre ++ x) w = includes x w.
Proof.
  intros Hne Hs. induction pre as [|c pre IH]; intros Hp; [reflexivity|].
  unfold all_in in Hp. cbn [forallb] in Hp. apply andb_prop in Hp as [Hc Hp].
  cbn [app includes]. rewrite (starts_with_stops p w c _ Hne Hs Hc).
  now apply IH.
Qed.

Lemma lit_search_none w : w <> [] -> forall s i,
  includes s w = false -> search (Lit w) i s = None.
Proof.
  intros Hne. induction s as [|c s IH]; intros i Hi.
  - cbn [search]. rewrite match_at_none; [reflexivity|].
    apply no_lit. cbn [start rest]. now destruct w.
  - cbn [includes] in Hi. apply orb_false_elim in Hi as [H1 H2].
    cbn [search]. rewrite match_at_none; [now apply IH|].
    now apply no_lit.
Qed.

Lemma replace_lit_none w s f :
  w <> [] -> includes s w = false -> String_replace_all s (Lit w) f = s.
Proof.
  intros Hne Hi. apply replace_all_none. now apply lit_search_none.
Qed.

Lemma replace_loop_nil fuel w f i :
  w <> [] -> replace_loop fuel (Lit w) f i [] = [].
Proof.
  intros Hne. destruct fuel as [|fuel]; [reflexivity|].
  cbn [replace_loop search]. rewrite match_at_none; [reflexivity|].
  apply no_lit. cbn [start rest]. now destruct w.
Qed.

Lemma search_here r i s m :
  match_at r i s = Some m -> search r i s = Some m.
Proof. intros Hm. destruct s; cbn [search]; now rewrite Hm. Qed.

(** A literal at the end of a string that it does not occur in before is
    replaced there. *)
Lemma replace_lit_suffix p pre w rep :
  w <> [] -> stops p w = true -> all_in p pre = true ->
  String_replace_all (pre ++ w) (Lit w) (fun _ => rep) = pre ++ rep.
Proof.
  intros Hne Hs Hp. unfold String_replace_all.
  generalize (List.length (pre ++ w)) as fuel. generalize 0%nat as i.
  induction pre as [|c pre IH]; intros i fuel.
  - cbn [app replace_loop].
    assert (F : first (Lit w) (start (Lit w) i w)
                  (after (start (Lit w) i w) w []))
      by (apply first_lit; cbn [start rest]; now rewrite app_nil_r).
    rewrite (search_here _ _ _ _ (match_at_first _ _ _ _ F)).
    cbn [index matched].
    rewrite (consumed_app _ _ w)
      by (cbn [start rest after]; now rewrite app_nil_r).
    rewrite Nat.sub_diag. cbn [firstn app Nat.add].
    rewrite skipn_all. destruct w as [|d w]; [congruence|].
    cbn [List.length]. rewrite replace_loop_nil by assumption.
    cbn [firstn app]. apply app_nil_r.
  - unfold all_in in Hp. cbn [forallb] in Hp.
    apply andb_prop in Hp as [Hc Hp]. cbn [app].
    rewrite replace_loop_skip.
    + now rewrite (IH Hp).
    + apply match_at_none, no_lit. cbn [start rest].
      now apply (starts_with_stops p).
Qed.

End Literals.

(* ===================================================================== *)
(** ** Square and cube roots *)
(* ===================================================================== *)

Section Roots.

Context {H : Host}.

Lemma blank_space w : all_in blank w = true -> all_in space w = true.
Proof. now apply all_in_sub. Qed.

Lemma root_input_alphabet a w1 w2 root :
  is_numeral a = true -> all_in space w1 = true -> all_in space w2 = true ->
  In root roots ->
  all_in root_alphabet (a ++ w1 ++ js "的" ++ w2 ++ root) = true.
Proof.
  intros Ha Hw1 Hw2 Hr. apply all_in_parts; trivial. rewrite !all_in_app.
  rewrite (all_in_sub space root_alphabet w2 eq_refl Hw2).
  cases_in Hr; reflexivity.
Qed.

(** The first four replacements find nothing in a root request. *)
Lemma translate_operators s :
  all_in root_alphabet s = true ->
  translate s
  = String_replace_all
      (String_replace_all s (Lit (js "的平方根")) (fun _ => js "sqrt"))
      (Lit (js "的立方根")) (fun _ => js "cbrt").
Proof.
  intros Hs. unfold translate, replacements. cbn [fold_left].
  change (Lit (js "加")) with (Char (one 0x52A0)).
  change (Lit (js "减")) with (Char (one 0x51CF)).
  change (Lit (js "乘")) with (Char (one 0x4E58)).
  change (Lit (js "除")) with (Char (one 0x9664)).
  rewrite !replace_all_char.
  rewrite (substitute_id (one 0x52A0) _ root_alphabet s eq_refl Hs).
  rewrite (substitute_id (one 0x51CF) _ root_alphabet s eq_refl Hs).
  rewrite (substitute_id (one 0x4E58) _ root_alphabet s eq_refl Hs).
  rewrite (substitute_id (one 0x9664) _ root_alphabet s eq_refl Hs).
  reflexivity.
Qed.

Lemma translate_square a w :
  is_numeral a = true -> all_in space w = true ->
  translate (a ++ w ++ js "的平方根") = a ++ w ++ js "sqrt".
Proof.
  intros Ha Hw.
  rewrite translate_operators.
  2:{ apply (root_input_alphabet a w [] (js "平方根")); trivial. now left. }
  pose proof (all_in_parts numeric a w [] eq_refl Ha Hw eq_refl) as Hp.
  rewrite app_nil_r in Hp.
  rewrite (app_assoc a w (js "的平方根")).
  rewrite (replace_lit_suffix numeric (a ++ w) (js "的平方根") (js "sqrt"));
    [|discriminate|reflexivity|exact Hp].
  rewrite replace_all_none; [now rewrite <- app_assoc|].
  apply (String_match_escapes (numeric ++ any_of (js "sqrt"))); [reflexivity|].
  rewrite all_in_app.
  now rewrite (all_in_sub numeric (numeric ++ any_of (js "sqrt")) (a ++ w)
                 eq_refl Hp).
Qed.

Lemma translate_cube a w :
  is_numeral a = true -> all_in space w = true ->
  translate (a ++ w ++ js "的立方根") = a ++ w ++ js "cbrt".
Proof.
  intros Ha Hw.
  assert (Hal : all_in root_alphabet (a ++ w ++ js "的立方根") = true).
  { apply (root_input_alphabet a w [] (js "立方根")); trivial.
    right. now left. }
  rewrite (translate_operators _ Hal).
  pose proof (all_in_parts numeric a w [] eq_refl Ha Hw eq_refl) as Hp.
  rewrite app_nil_r in Hp.
  rewrite (replace_all_none _ (Lit (js "的平方根"))).
  2:{ apply (String_match_escapes (numeric ++ any_of (js "的立方根")));
        [reflexivity|].
      rewrite (app_assoc a w), all_in_app.
      now rewrite (all_in_sub numeric (numeric ++ any_of (js "的立方根"))
                     (a ++ w) eq_refl Hp). }
  rewrite (app_assoc a w (js "的立方根")).
  rewrite (replace_lit_suffix numeric (a ++ w) (js "的立方根") (js "cbrt"));
    [|discriminate|reflexivity|exact Hp].
  now rewrite <- app_assoc.
Qed.

(** [replace(/.*?(\d+(?:\.\d+)?).*/, '$1')] on a numeral followed by
    text on the same line leaves the numeral. *)
Lemma operand_numeral a tl :
  is_numeral a = true -> stops (digit ++ one 0x2E) tl = true ->
  all_in dot tl = true ->
  operand (a ++ tl) = parseFloat a.
Proof.
  intros Ha Hs Hd. unfold operand, String_replace.
  set (st0 := start Patterns.first_number 0 (a ++ tl)).
  assert (F : first Patterns.first_number st0
                (MState (List.length tl + (List.length a + 0)) []
                        (set_nth 1 (Some a)
                           (repeat None (ngroups Patterns.first_number))))).
  { unfold Patterns.first_number. cbn [SeqOf].
    eapply first_seq; [apply first_star_lazy|].
    eapply first_seq.
    - apply (first_group_after 1 _ st0 a tl); [|reflexivity].
      now apply first_number.
    - apply (first_star_class dot tl (MState _ tl _) []);
        [cbn [rest]; now rewrite app_nil_r|exact Hd|reflexivity]. }
  rewrite (search_here _ _ _ _ (match_at_first _ _ _ _ F)).
  cbn [index matched groups group firstn app nth set_nth repeat].
  rewrite (consumed_app _ _ (a ++ tl))
    by (cbn [st0 start rest]; now rewrite app_nil_r).
  cbn [Nat.add]. now rewrite skipn_all, app_nil_r.
Qed.

Lemma operand_root a w name :
  is_numeral a = true -> all_in blank w = true ->
  In name [js "sqrt"; js "cbrt"] ->
  operand (a ++ w ++ name) = parseFloat a.
Proof.
  intros Ha Hw Hn. apply operand_numeral; trivial.
  - apply stops_ws; [now apply blank_space|reflexivity|].
    cases_in Hn; reflexivity.
  - rewrite all_in_app, (all_in_sub blank dot w eq_refl Hw).
    cases_in Hn; reflexivity.
Qed.

Lemma math_root_match a w1 w2 root :
  is_numeral a = true -> all_in space w1 = true -> all_in space w2 = true ->
  In root roots ->
  String_match (a ++ w1 ++ js "的" ++ w2 ++ root) Patterns.math_root <> None.
Proof.
  intros Ha Hw1 Hw2 Hr.
  assert (F : exists st', first Patterns.math_root
                (start Patterns.math_root 0
                   (a ++ w1 ++ js "的" ++ w2 ++ root)) st').
  { unfold Patterns.math_root at 1. cbn [SeqOf].
    cases_in Hr;
      match goal with
      | |- context [start _ 0 (a ++ w1 ++ _ ++ w2 ++ ?x)] =>
        eexists; eapply first_seq; [apply first_bol; reflexivity|];
        eapply first_amount; [exact Ha|exact Hw1|reflexivity|reflexivity|];
        eapply first_seq;
        [apply (first_lit (js "的") (MState _ (js "的" ++ w2 ++ x) _)
                  (w2 ++ x) eq_refl)|];
        eapply first_seq;
        [apply (first_star_class space w2 (MState _ (w2 ++ x) _) x
                  eq_refl Hw2 eq_refl)|];
        eexists; reflexivity
      end. }
  destruct F as [st' F]. rewrite (String_match_first _ _ _ F). discriminate.
Qed.

Lemma handle_cube m clean now :
  includes (translate clean) (js "sqrt") = false ->
  includes (translate clean) (js "cbrt") = true ->
  handleMathCalculation m clean now
  = Return (Some (calculation
                    (toFixed (Math_cbrt (operand (translate clean))) 4))).
Proof.
  intros H1 H2. unfold handleMathCalculation. cbv zeta. now rewrite H1, H2.
Qed.

Lemma dispatch_math clean now r pattern :
  In pattern (patterns math_rule) ->
  String_match clean pattern <> None ->
  (forall m, handleMathCalculation m clean now = Return (Some r)) ->
  dispatch clean now = Some r.
Proof.
  intros Hp Hm Hh. unfold dispatch.
  change (attempts initializeRules)
    with (map (pair math_rule) (patterns math_rule)
          ++ skipn 3 (attempts initializeRules)).
  rewrite (run_rule math_rule clean now _ _ _ Hh).
  replace (existsb _ _) with true; [reflexivity|].
  symmetry. apply existsb_exists. exists pattern.
  split; [exact Hp|]. now destruct (String_match clean pattern).
Qed.

(** With whitespace between 的 and the root's name no replacement
    applies: the expression is the input, which is neither a root nor an
    operation. *)
Lemma handle_split_root a w1 w2 root m now :
  is_numeral a = true -> all_in space w1 = true -> all_in space w2 = true ->
  w2 <> [] -> In root roots ->
  handleMathCalculation m (a ++ w1 ++ js "的" ++ w2 ++ root) now
  = Return None.
Proof.
  intros Ha Hw1 Hw2 Hne Hr.
  pose proof (root_input_alphabet a w1 w2 root Ha Hw1 Hw2 Hr) as Hal.
  pose proof (all_in_parts numeric a w1 [] eq_refl Ha Hw1 eq_refl) as Hp.
  rewrite app_nil_r in Hp.
  assert (Hno : forall lit, In lit [js "的平方根"; js "的立方根"] ->
            includes (a ++ w1 ++ js "的" ++ w2 ++ root) lit = false).
  { intros lit Hl. rewrite (app_assoc a w1).
    rewrite (includes_skip numeric (a ++ w1) lit);
      [|cases_in Hl; discriminate|cases_in Hl; reflexivity|exact Hp].
    destruct w2 as [|c w2]; [congruence|].
    unfold all_in in Hw2. cbn [forallb] in Hw2.
    apply andb_prop in Hw2 as [Hc Hw2].
    change (js "的" ++ (c :: w2) ++ root) with (0x7684 :: c :: w2 ++ root).
    assert (Hrest : includes (c :: w2 ++ root) lit = false).
    { change (c :: w2 ++ root) with ((c :: w2) ++ root).
      rewrite (includes_skip space (c :: w2) lit);
        [|cases_in Hl; discriminate|cases_in Hl; reflexivity
         |unfold all_in; cbn [forallb]; now rewrite Hc].
      cases_in Hl; cases_in Hr; reflexivity. }
    cbn [includes] in Hrest |- *. rewrite Hrest, orb_false_r.
    assert (Hc' : forall d, in_class space d = false -> (d =? c) = false).
    { intros d Hd. destruct (N.eqb_spec d c) as [->|]; [congruence|easy]. }
    cases_in Hl; cbn [starts_with];
      first [rewrite (Hc' 0x5E73 eq_refl) | rewrite (Hc' 0x7ACB eq_refl)];
      rewrite N.eqb_refl; reflexivity. }
  unfold handleMathCalculation. cbv zeta.
  rewrite (translate_operators _ Hal).
  rewrite (replace_lit_none (js "的平方根"))
    by (first [discriminate | apply Hno; now left]).
  rewrite (replace_lit_none (js "的立方根"))
    by (first [discriminate | apply Hno; right; now left]).
  change (js "sqrt") with (0x73 :: js "qrt").
  change (js "cbrt") with (0x63 :: js "brt").
  rewrite (includes_none root_alphabet _ 0x73 (js "qrt") Hal eq_refl).
  rewrite (includes_none root_alphabet _ 0x63 (js "brt") Hal eq_refl).
  rewrite (String_match_escapes root_alphabet Patterns.basic_arith _
             eq_refl Hal).
  reflexivity.
Qed.

End Roots.

(** X13: A numeral followed by 的平方根 displays ["= "] and the square root of
    the Number it reads, written by Number-to-string; followed by 的立方根
    it displays the cube root written by [toFixed(4)].  Spaces before 的
    change nothing. *)
Theorem root_display {H : Host} (e : Engine) (input : list N) (now : Z)
  (a w : list N) :
  reachable e -> is_numeral a = true -> all_in blank w = true ->
  (preprocessInput input = a ++ w ++ js "的平方根" ->
   returned (process input now e)
   = Some (calculation (toString (sqrt (parseFloat a))))) /\
  (preprocessInput input = a ++ w ++ js "的立方根" ->
   returned (process input now e)
   = Some (calculation (toFixed (Math_cbrt (parseFloat a)) 4))).
Proof.
  intros He Ha Hb. pose proof (blank_space w Hb) as Hw.
  split; intros E; (apply process_settled; [assumption|]); intros t;
    rewrite E.
  - apply (dispatch_math _ t _ Patterns.math_root);
      [right; right; now left| |].
    + apply (math_root_match a w [] (js "平方根")); trivial. now left.
    + intros m. rewrite handle_root.
      * rewrite (translate_square a w Ha Hw).
        now rewrite (operand_root a w (js "sqrt") Ha Hb (or_introl eq_refl)).
      * rewrite (translate_square a w Ha Hw), app_assoc.
        apply includes_suffix.
  - apply (dispatch_math _ t _ Patterns.math_root);
      [right; right; now left| |].
    + apply (math_root_match a w [] (js "立方根")); trivial.
      right. now left.
    + intros m. rewrite handle_cube.
      * rewrite (translate_cube a w Ha Hw).
        now rewrite (operand_root a w (js "cbrt") Ha Hb
                       (or_intror (or_introl eq_refl))).
      * rewrite (translate_cube a w Ha Hw).
        change (js "sqrt") with (0x73 :: js "qrt").
        apply (includes_none (numeric ++ any_of (js "cbrt")));
          [|reflexivity].
        rewrite !all_in_app.
        rewrite (all_in_sub numeric (numeric ++ any_of (js "cbrt")) a
                   eq_refl (numeral_numeric a Ha)).
        now rewrite (all_in_sub space (numeric ++ any_of (js "cbrt")) w
                       eq_refl Hw).
      * rewrite (translate_cube a w Ha Hw), app_assoc.
        apply includes_suffix.
Qed.

Lemma root_display_witness :
  returned (process (H := SampleHost.host) (js "2的平方根") 0 new_engine)
  = Some (calculation (js "1.4142135623730951")) /\
  returned (process (H := SampleHost.host) (js "27 的立方根") 0 new_engine)
  = Some (calculation (js "3.0000")).
Proof.
  split.
  - destruct (root_display (H := SampleHost.host) new_engine (js "2的平方根")
                0 (js "2") [] reach_new eq_refl eq_refl) as [R _].
    rewrite (R eq_refl). vm_compute. reflexivity.
  - destruct (root_display (H := SampleHost.host) new_engine
                (js "27 的立方根") 0 (js "27") (js " ") reach_new eq_refl
                eq_refl) as [_ R].
    rewrite (R eq_refl). vm_compute. reflexivity.
Defined.

(** X14: The root pattern allows whitespace between 的 and 平方根 or 立方根,
    but the handler only knows the two words unbroken: such an input
    matches, the handler returns null, and so does [process]. *)
Theorem split_root_null {H : Host} (e : Engine) (input : list N) (now : Z)
  (a w1 w2 root : list N) :
  reachable e ->
  is_numeral a = true -> all_in space w1 = true -> all_in space w2 = true ->
  w2 <> [] -> In root roots ->
  preprocessInput input = a ++ w1 ++ js "的" ++ w2 ++ root ->
  String_match (preprocessInput input) Patterns.math_root <> None /\
  returned (process input now e) = None.
Proof.
  intros He Ha Hw1 Hw2 Hne Hr E. split.
  - rewrite E. now apply math_root_match.
  - apply process_settled; [assumption|]. intros t. rewrite E.
    apply (dispatch_rule root_alphabet math_rule [] _ _ t None
             Patterns.math_root math_split); trivial.
    + now apply root_input_alphabet.
    + intros m. now apply handle_split_root.
    + now right.
Qed.

Lemma split_root_null_witness :
  returned (process (H := SampleHost.host) (js "16的 平方根") 0 new_engine)
  = None.
Proof.
  apply (split_root_null (H := SampleHost.host) new_engine
           (js "16的 平方根") 0 (js "16") [] (js " ") (js "平方根") reach_new);
    first [discriminate | reflexivity | now left].
Defined.

(* ===================================================================== *)
(** ** What a Result looks like *)
(* ===================================================================== *)

Section ResultShape.

Context {H : Host}.

Lemma run_some l clean now r :
  fst (run l clean now) = Some r ->
  exists rp, In rp l /\ yields rp clean now = Some r.
Proof.
  induction l as [|rp l IH]; cbn [run]; [discriminate|].
  destruct (yields rp clean now) as [r0|] eqn:Y.
  - cbn [fst]. intros [= <-]. exists rp. split; [now left|exact Y].
  - destruct (run l clean now) as [o log]. cbn [fst] in *. intros Hr.
    destruct (IH Hr) as (rp' & Hin & Hy). exists rp'. split; [now right|exact Hy].
Qed.

Lemma yields_handler rp clean now r :
  yields rp clean now = Some r ->
  exists m, String_match clean (snd rp) = Some m /\
            handler (fst rp) m clean now = Return (Some r).
Proof.
  unfold yields, attempt.
  destruct (String_match clean (snd rp)) as [m|]; [|discriminate].
  destruct (handler (fst rp) m clean now) as [[r0|]|x] eqn:E; try discriminate.
  intros [= <-]. eauto.
Qed.

Lemma in_attempts rules rule p :
  In (rule, p) (attempts rules) -> In rule rules /\ In p (patterns rule).
Proof.
  unfold attempts. intros Hin.
  apply in_flat_map in Hin as (rule' & Hr & Hp).
  apply in_map_iff in Hp as (p' & [= <- <-] & Hp). now split.
Qed.

Lemma app_nonempty (a b : list N) : b <> [] -> a ++ b <> [].
Proof. intros Hb E. apply app_eq_nil in E as [_ E]. contradiction. Qed.

Lemma shaped_math m clean now r :
  handleMathCalculation m clean now = Return (Some r) ->
  shaped Category.math r.
Proof.
  unfold handleMathCalculation. cbv zeta.
  destruct (includes _ (js "sqrt")); [|destruct (includes _ (js "cbrt"));
    [|destruct (String_match _ Patterns.basic_arith)]];
    cbn [try_catch]; intros [= <-]; (split; [reflexivity|]);
    eexists; (split; [reflexivity|discriminate]).
Qed.

Lemma shaped_date m clean now r :
  handleDateCalculation m clean now = Return (Some r) ->
  shaped Category.date r.
Proof.
  unfold handleDateCalculation. cbv zeta.
  destruct (String_match _ Patterns.date_relative);
    [|destruct (own_property specialDates clean)];
    intros [= <-]; (split; [reflexivity|]);
    eexists; (split; [reflexivity|discriminate]).
Qed.

Lemma shaped_timezone m clean now r :
  handleTimezoneQuery m clean now = Return (Some r) ->
  shaped Category.timezone r.
Proof.
  unfold handleTimezoneQuery. cbv zeta.
  destruct (String_match _ Patterns.timezone_city); [|discriminate].
  destruct (get Data.timezoneMap _) as [[|z zs]| |]; try discriminate.
  intros [= <-]. split; [reflexivity|].
  eexists. split; [reflexivity|discriminate].
Qed.

Lemma shaped_unit m clean now r :
  handleUnitConversion m clean now = Return (Some r) ->
  shaped Category.unit r.
Proof.
  unfold handleUnitConversion. cbv zeta.
  destruct (String_match _ Patterns.temperature_prefix) as [tm|].
  - destruct (_ || _).
    + intros [= <-]. split; [reflexivity|].
      eexists. split; [reflexivity|]. apply app_nonempty. discriminate.
    + destruct (_ || _).
      * intros [= <-]. split; [reflexivity|].
        eexists. split; [reflexivity|]. apply app_nonempty. discriminate.
      * destruct (String_match _ Patterns.length_prefix); [|discriminate].
        destruct (_ || _); [|discriminate].
        intros [= <-]. split; [reflexivity|].
        eexists. split; [reflexivity|]. apply app_nonempty. discriminate.
  - destruct (String_match _ Patterns.length_prefix); [|discriminate].
    destruct (_ || _); [|discriminate].
    intros [= <-]. split; [reflexivity|].
    eexists. split; [reflexivity|]. apply app_nonempty. discriminate.
Qed.

Lemma shaped_currency m clean now r :
  handleCurrencyConversion m clean now = Return (Some r) ->
  shaped Category.currency r.
Proof.
  unfold handleCurrencyConversion. cbv zeta.
  destruct (String_match _ Patterns.currency_any); [|discriminate].
  destruct (match get currencyMap _ with
            | Own code => _
            | Inherited _ => None
            | Undefined => _
            end) as [code|]; [|discriminate].
  destruct (string_eqb code (js "USD"));
    [|destruct (string_eqb code (js "CNY")); [|discriminate]];
    intros [= <-]; (split; [reflexivity|]);
    eexists; (split; [reflexivity|discriminate]).
Qed.

Lemma shaped_formula pattern m clean now r :
  In pattern (patterns formula_rule) ->
  String_match clean pattern = Some m ->
  handleFormulaQuery m clean now = Return (Some r) ->
  shaped Category.formula r.
Proof.
  intros Hp Hm. pose proof (formula_names _ _ _ Hp Hm) as Hin.
  destruct (formula_dispatch clean now Hin) as (text & Ho & _ & _).
  unfold handleFormulaQuery, get. rewrite Ho.
  destruct text as [|c text]; [discriminate|].
  intros [= <-]. split; [reflexivity|].
  eexists. split; [reflexivity|discriminate].
Qed.

Lemma shaped_yield rp clean now r :
  In rp (attempts initializeRules) -> yields rp clean now = Some r ->
  shaped (category (fst rp)) r.
Proof.
  intros Hin Hy. destruct rp as [rule p].
  apply in_attempts in Hin as [Hr Hp].
  apply yields_handler in Hy as (m & Hm & Hh). cbn [fst snd] in *.
  unfold initializeRules in Hr.
  destruct Hr as [<-|[<-|[<-|[<-|[<-|[<-|[]]]]]]];
    cbn [handler category math_rule date_rule timezone_rule unit_rule
         currency_rule formula_rule] in *.
  - now apply (shaped_math m clean now).
  - now apply (shaped_date m clean now).
  - now apply (shaped_timezone m clean now).
  - now apply (shaped_unit m clean now).
  - now apply (shaped_currency m clean now).
  - now apply (shaped_formula p m clean now).
Qed.

Lemma returned_origin e input now r :
  reachable e -> returned (process input now e) = Some r ->
  exists t, dispatch (preprocessInput input) t = Some r.
Proof.
  intros He Hr.
  destruct (cache e !! preprocessInput input) as [r0|] eqn:E.
  - rewrite (process_hit _ _ _ _ E) in Hr. cbn in Hr. injection Hr as <-.
    now apply (cache_origin e He).
  - rewrite (process_miss _ _ _ E) in Hr. cbn in Hr. eauto.
Qed.

End ResultShape.

(** X15: Whatever [process] returns on an engine a program can hold, fresh or
    from the cache, was built by the handler of a rule one of whose
    patterns matches the normalized input: its type is the one that rule
    builds, never [error], and its display is a non-empty string;
    [formatOutput] gives that string back, so the line shown to the user
    is the input followed by something. *)
Theorem result_shape {H : Host} (e : Engine) (input : list N) (now : Z)
  (r : Result) :
  reachable e ->
  returned (process input now e) = Some r ->
  exists rule pattern s,
    In rule initializeRules /\ In pattern (patterns rule) /\
    String_match (preprocessInput input) pattern <> None /\
    type r = result_type (category rule) /\
    type r <> ResultType.error /\
    result r = Text s /\ s <> [] /\
    formatOutput (Some r) = Text s.
Proof.
  intros He Hr. destruct (returned_origin e input now r He Hr) as [t Hd].
  apply run_some in Hd as ([rule p] & Hin & Hy).
  destruct (shaped_yield _ _ _ _ Hin Hy) as (Ht & s & Hs & Hne).
  cbn [fst] in Ht.
  destruct (in_attempts _ _ _ Hin) as [Hrule Hp].
  apply yields_handler in Hy as (m & Hm & _). cbn [snd] in Hm.
  exists rule, p, s. repeat split; trivial.
  - now rewrite Hm.
  - rewrite Ht. now destruct (category rule).
  - unfold formatOutput. rewrite Hs, Ht. now destruct (category rule).
Qed.

Lemma result_shape_witness :
  exists s,
    formatOutput (returned (process (H := SampleHost.host) (js "1美元") 0
                              new_engine)) = Text s /\ s <> [].
Proof.
  destruct (returned (process (H := SampleHost.host) (js "1美元") 0
                        new_engine)) as [r|] eqn:E;
    [|vm_compute in E; discriminate].
  destruct (result_shape (H := SampleHost.host) new_engine (js "1美元") 0 r
              reach_new E)
    as (rule & pattern & s & _ & _ & _ & _ & _ & _ & Hne & Hf).
  exists s. now split.
Defined.

(** [formatOutput] gives the empty string for null, and for a Result its
    [result] field whatever the type. *)
Lemma formatOutput_result (r : option Result) :
  formatOutput r = match r with
                   | None => Text []
                   | Some x => result x
                   end.
Proof.
  destruct r as [[t d]|]; [|reflexivity]. unfold formatOutput.
  cbn [type result]. destruct t; try reflexivity.
  now destruct d as [[|c s]|k].
Qed.

(* ===================================================================== *)
(** ** The normalizer *)
(* ===================================================================== *)

Section Normalizer.

Local Open Scope nat_scope.

Lemma span_space s :
  exists w tl, s = w ++ tl /\ all_in space w = true /\ stops space tl = true.
Proof.
  induction s as [|c s (w & tl & E & Hw & Htl)].
  - now exists [], [].
  - destruct (in_class space c) eqn:Hc.
    + exists (c :: w), tl. rewrite E. repeat split; trivial.
      unfold all_in in *. cbn [forallb]. now rewrite Hc.
    + exists [], (c :: s). repeat split. unfold stops. now rewrite Hc.
Qed.

Lemma match_at_spaces i c w tl :
  in_class space c = true -> all_in space w = true ->
  stops space tl = true ->
  match_at Patterns.spaces i (c :: w ++ tl)
  = Some (Match i (c :: w) (repeat None (ngroups Patterns.spaces))).
Proof.
  intros Hc Hw Htl.
  assert (F : first Patterns.spaces
                (start Patterns.spaces i (c :: w ++ tl))
                (after (start Patterns.spaces i (c :: w ++ tl)) (c :: w) tl))
    by (now apply first_plus_class).
  rewrite (match_at_first _ _ _ _ F).
  now rewrite (consumed_app _ _ (c :: w)).
Qed.

Lemma match_at_spaces_none i s :
  stops space s = true -> match_at Patterns.spaces i s = None.
Proof. intros Hs. now apply match_at_none, no_seq, no_char. Qed.

Lemma collapse_stops tl :
  stops space tl = true -> collapse true tl = collapse false tl.
Proof.
  destruct tl as [|c tl]; [reflexivity|]. unfold stops.
  rewrite <- is_space_class. cbn [collapse]. now destruct (is_space c).
Qed.

Lemma collapse_run w tl :
  all_in space w = true -> stops space tl = true ->
  collapse true (w ++ tl) = collapse false tl.
Proof.
  intros Hw Htl. induction w as [|c w IH]; [now apply collapse_stops|].
  unfold all_in in Hw. cbn [forallb] in Hw. apply andb_prop in Hw as [Hc Hw].
  cbn [app collapse]. rewrite is_space_class, Hc. now apply IH.
Qed.

(** [replace(/\s+/g, ' ')] *)
Lemma replace_spaces n : forall s fuel i,
  List.length s <= n -> List.length s < fuel ->
  replace_loop fuel Patterns.spaces (fun _ => js " ") i s = collapse false s.
Proof.
  induction n as [|n IH]; intros s fuel i Hn Hf;
    (destruct fuel as [|fuel]; [lia|]).
  - destruct s; [|cbn in Hn; lia].
    cbn [replace_loop search]. now rewrite match_at_spaces_none.
  - destruct s as [|c s].
    { cbn [replace_loop search]. now rewrite match_at_spaces_none. }
    cbn [List.length] in Hn, Hf. cbn [collapse]. rewrite is_space_class.
    destruct (in_class space c) eqn:Hc.
    + destruct (span_space s) as (w & tl & -> & Hw & Htl).
      rewrite length_app in Hn, Hf.
      cbn [replace_loop].
      rewrite (search_here _ _ _ _ (match_at_spaces i c w tl Hc Hw Htl)).
      cbn [index matched List.length]. rewrite Nat.sub_diag.
      cbn [firstn app Nat.add].
      replace (skipn (S (List.length w)) (c :: w ++ tl)) with tl
        by (cbn [skipn]; now rewrite skipn_app, skipn_all, Nat.sub_diag).
      rewrite (IH tl fuel _) by lia.
      now rewrite (collapse_run w tl Hw Htl).
    + rewrite replace_loop_skip
        by (apply match_at_spaces_none; unfold stops; now rewrite Hc).
      rewrite (IH s (S fuel) _) by lia. reflexivity.
Qed.

Lemma mark_class c :
  in_class (any_of Normal.marks) c = existsb (N.eqb c) Normal.marks.
Proof.
  induction Normal.marks as [|d w IH]; [reflexivity|].
  change (in_class (any_of (d :: w)) c)
    with (in_range c (d, d) || in_class (any_of w) c).
  cbn [existsb]. rewrite IH. f_equal.
  unfold in_range. cbn [fst snd].
  destruct (N.eqb_spec c d) as [->|Hne].
  - now rewrite N.leb_refl.
  - destruct (N.leb_spec d c), (N.leb_spec c d); try reflexivity. lia.
Qed.

(** The normalizer as a function on lists: trim, put one space for every
    run of whitespace, drop the six marks. *)
Lemma preprocessInput_steps input :
  preprocessInput input
  = substitute (any_of Normal.marks) [] (collapse false (trim input)).
Proof.
  unfold preprocessInput.
  change Patterns.punctuation with (Char (any_of Normal.marks)).
  rewrite replace_all_char. f_equal.
  unfold String_replace_all. apply (replace_spaces (List.length (trim input)));
    lia.
Qed.

Lemma substitute_no_mark s :
  Normal.has_mark (substitute (any_of Normal.marks) [] s) = false.
Proof.
  induction s as [|c s IH]; [reflexivity|].
  unfold substitute. cbn [flat_map]. fold (substitute (any_of Normal.marks) [] s).
  destruct (in_class (any_of Normal.marks) c) eqn:Hc; [exact IH|].
  cbn [app]. unfold Normal.has_mark in *. cbn [existsb].
  now rewrite <- mark_class, Hc, IH.
Qed.

Lemma substitute_mark_free s :
  Normal.has_mark s = false -> substitute (any_of Normal.marks) [] s = s.
Proof.
  induction s as [|c s IH]; [reflexivity|].
  unfold Normal.has_mark. cbn [existsb]. intros Hm.
  apply orb_false_elim in Hm as [Hc Hs].
  unfold substitute. cbn [flat_map]. fold (substitute (any_of Normal.marks) [] s).
  now rewrite mark_class, Hc, (IH Hs).
Qed.

(** *** Trimming *)

Lemma trim_start_stops s : stops space (trim_start s) = true.
Proof.
  induction s as [|c s IH]; [reflexivity|].
  cbn [trim_start]. destruct (is_space c) eqn:Hc; [exact IH|].
  unfold stops. now rewrite <- is_space_class, Hc.
Qed.

Lemma trim_start_suffix s : exists w, s = w ++ trim_start s.
Proof.
  induction s as [|c s (w & E)]; [now exists []|].
  cbn [trim_start]. destruct (is_space c).
  - exists (c :: w). cbn [app]. now rewrite <- E.
  - now exists [].
Qed.

Lemma trim_start_last a c :
  is_space c = false -> exists z, trim_start (a ++ [c]) = z ++ [c].
Proof.
  intros Hc. induction a as [|d a (z & E)].
  - exists []. cbn [app trim_start]. now rewrite Hc.
  - cbn [app trim_start]. destruct (is_space d); [now exists z|].
    now exists (d :: a).
Qed.

Lemma trim_ends s :
  stops space (trim s) = true /\ stops space (rev (trim s)) = true.
Proof.
  unfold trim, trim_end. split.
  - pose proof (trim_start_stops s) as Hs.
    destruct (trim_start s) as [|c y]; [reflexivity|].
    unfold stops in Hs. rewrite <- is_space_class in Hs.
    apply negb_true_iff in Hs.
    cbn [rev]. destruct (trim_start_last (rev y) c Hs) as (z & ->).
    rewrite rev_app_distr. cbn [rev app]. unfold stops.
    now rewrite <- is_space_class, Hs.
  - rewrite rev_involutive. apply trim_start_stops.
Qed.

Lemma in_trim s c : In c (trim s) -> In c s.
Proof.
  unfold trim, trim_end. intros Hin. apply in_rev in Hin.
  destruct (trim_start_suffix (rev (trim_start s))) as (w & E).
  assert (H1 : In c (rev (trim_start s)))
    by (rewrite E; apply in_or_app; now right).
  apply in_rev in H1.
  destruct (trim_start_suffix s) as (w' & E').
  rewrite E'. apply in_or_app. now right.
Qed.

(** *** One space for every run *)

Lemma collapse_leading s : Normal.leading_space (collapse true s) = false.
Proof.
  induction s as [|c s IH]; [reflexivity|].
  cbn [collapse]. destruct (is_space c) eqn:Hc; [exact IH|].
  cbn [Normal.leading_space]. exact Hc.
Qed.

Lemma collapse_head b s :
  stops space s = true -> Normal.leading_space (collapse b s) = false.
Proof.
  destruct s as [|c s]; [reflexivity|]. unfold stops.
  rewrite <- is_space_class. intros Hc. apply negb_true_iff in Hc.
  cbn [collapse]. rewrite Hc. cbn [Normal.leading_space]. exact Hc.
Qed.

Lemma collapse_no_run b s : Normal.space_run (collapse b s) = false.
Proof.
  revert b. induction s as [|c s IH]; intros b; [reflexivity|].
  cbn [collapse]. destruct (is_space c) eqn:Hc.
  - destruct b; [apply IH|].
    cbn [Normal.space_run]. now rewrite collapse_leading, IH.
  - cbn [Normal.space_run]. now rewrite Hc, IH.
Qed.

Lemma collapse_last b a c :
  is_space c = false -> collapse b (a ++ [c]) = collapse b a ++ [c].
Proof.
  intros Hc. revert b. induction a as [|d a IH]; intros b.
  - cbn [app collapse]. now rewrite Hc.
  - cbn [app collapse]. destruct (is_space d); [destruct b|];
      now rewrite IH.
Qed.

Lemma collapse_trailing s :
  stops space (rev s) = true ->
  Normal.trailing_space (collapse false s) = false.
Proof.
  intros Hs. destruct (rev s) as [|c y] eqn:E.
  - apply (f_equal (@rev N)) in E. rewrite rev_involutive in E. now subst s.
  - apply (f_equal (@rev N)) in E. rewrite rev_involutive in E. subst s.
    unfold stops in Hs. rewrite <- is_space_class in Hs.
    apply negb_true_iff in Hs. cbn [rev].
    rewrite (collapse_last _ _ _ Hs). unfold Normal.trailing_space.
    rewrite rev_app_distr. cbn [rev app Normal.leading_space]. exact Hs.
Qed.

Lemma collapse_marks b s :
  Normal.has_mark s = false -> Normal.has_mark (collapse b s) = false.
Proof.
  revert b. induction s as [|c s IH]; intros b; [reflexivity|].
  unfold Normal.has_mark in *. cbn [existsb]. intros Hm.
  apply orb_false_elim in Hm as [Hc Hs].
  cbn [collapse]. destruct (is_space c); [destruct b|]; cbn [existsb];
    rewrite ?Hc, ?(IH _ Hs); reflexivity.
Qed.

Lemma trim_marks s :
  Normal.has_mark s = false -> Normal.has_mark (trim s) = false.
Proof.
  unfold Normal.has_mark. intros Hm.
  destruct (existsb _ (trim s)) eqn:E; [|reflexivity].
  apply existsb_exists in E as (c & Hin & Hc).
  apply in_trim in Hin.
  assert (existsb (fun c => existsb (N.eqb c) Normal.marks) s = true)
    by (apply existsb_exists; eauto).
  congruence.
Qed.

End Normalizer.

(** X16: Whatever the input, the normal form contains none of the six marks
    ，。！？；：. *)
Theorem preprocessInput_no_marks (input : list N) :
  Normal.has_mark (preprocessInput input) = false.
Proof. rewrite preprocessInput_steps. apply substitute_no_mark. Qed.

(** X17: For an input that contains none of the six marks the normal form is
    the one the specification describes: no whitespace at either end, no
    two whitespace code units in a row, no mark; it is the input trimmed,
    with one space for every run of whitespace. *)
Theorem preprocessInput_mark_free (input : list N) :
  Normal.has_mark input = false ->
  preprocessInput input = collapse false (trim input) /\
  Normal.normalized (preprocessInput input) = true.
Proof.
  intros Hm.
  assert (Hc : Normal.has_mark (collapse false (trim input)) = false)
    by (apply collapse_marks, trim_marks, Hm).
  assert (E : preprocessInput input = collapse false (trim input))
    by (rewrite preprocessInput_steps; now apply substitute_mark_free).
  split; [exact E|]. rewrite E. unfold Normal.normalized.
  destruct (trim_ends input) as [H1 H2].
  rewrite (collapse_head false _ H1), (collapse_trailing _ H2).
  now rewrite collapse_no_run, Hc.
Qed.

Lemma preprocessInput_mark_free_witness :
  preprocessInput (js "  3 　 天  后 ") = js "3 天 后".
Proof.
  destruct (preprocessInput_mark_free (js "  3 　 天  后 ")) as [E _].
  - reflexivity.
  - rewrite E. reflexivity.
Defined.

(* ===================================================================== *)
(** ** The calendar *)
(* ===================================================================== *)

Section Calendar.

Local Open Scope Z_scope.

(** A day number has a month from 1 to 12 and a day from 1 to 31, and
    they give the day number back. *)
Lemma civil_round_trip z :
  let '(y, m, d) := civil_from_days z in
  1 <= m <= 12 /\ 1 <= d <= 31 /\ days_from_civil y m d = z.
Proof.
  unfold civil_from_days, days_from_civil.
  set (z' := z + 719468).
  set (era := z' / 146097).
  set (doe := z' - era * 146097).
  assert (Hdoe : 0 <= doe <= 146096)
    by (subst doe era; Z.div_mod_to_equations; lia).
  set (yoe := (doe - doe / 1460 + doe / 36524 - doe / 146096) / 365).
  assert (Hyoe : 0 <= yoe <= 399) by (subst yoe; Z.div_mod_to_equations; lia).
  set (doy := doe - (365 * yoe + yoe / 4 - yoe / 100)).
  assert (Hdoy : 0 <= doy <= 365)
    by (subst doy yoe; Z.div_mod_to_equations; lia).
  set (mp := (5 * doy + 2) / 153).
  assert (Hmp : 0 <= mp <= 11) by (subst mp; Z.div_mod_to_equations; lia).
  set (d := doy - (153 * mp + 2) / 5 + 1).
  assert (Hd : 1 <= d <= 31) by (subst d mp; Z.div_mod_to_equations; lia).
  cbv zeta.
  destruct (Z.ltb_spec mp 10) as [L|L].
  - split; [lia|]. split; [lia|].
    destruct (Z.leb_spec (mp + 3) 2) as [L2|L2]; [lia|].
    destruct (Z.ltb_spec 2 (mp + 3)) as [L3|L3]; [|lia].
    replace (mp + 3 - 3) with mp by lia.
    replace ((yoe + era * 400) / 400) with era
      by (Z.div_mod_to_equations; lia).
    replace (yoe + era * 400 - era * 400) with yoe by lia.
    subst d doy doe z'. lia.
  - split; [lia|]. split; [lia|].
    destruct (Z.leb_spec (mp - 9) 2) as [L2|L2]; [|lia].
    destruct (Z.ltb_spec 2 (mp - 9)) as [L3|L3]; [lia|].
    replace (mp - 9 + 9) with mp by lia.
    replace (yoe + era * 400 + 1 - 1) with (yoe + era * 400) by lia.
    replace ((yoe + era * 400) / 400) with era
      by (Z.div_mod_to_equations; lia).
    replace (yoe + era * 400 - era * 400) with yoe by lia.
    subst d doy doe z'. lia.
Qed.

(** MakeDay with a day of month beyond the month's days counts on into
    the next months, and before 1 back into the previous ones. *)
Lemma MakeDay_offset z k :
  let '(y, m, d) := civil_from_days z in MakeDay y (m - 1) (d + k) = z + k.
Proof.
  pose proof (civil_round_trip z) as R.
  destruct (civil_from_days z) as [[y m] d]. destruct R as (Hm & Hd & E).
  unfold MakeDay.
  replace ((m - 1) / 12) with 0 by (Z.div_mod_to_equations; lia).
  replace ((m - 1) mod 12 + 1) with m by (Z.div_mod_to_equations; lia).
  rewrite Z.add_0_r. rewrite <- E. unfold days_from_civil. lia.
Qed.

Lemma in_zrange lo n x :
  lo <= x < lo + Z.of_nat n -> In x (zrange lo n).
Proof.
  intros Hx. unfold zrange. apply in_map_iff.
  exists (Z.to_nat (x - lo)). split; [lia|]. apply List.in_seq. lia.
Qed.

End Calendar.

(* ===================================================================== *)
(** ** Small integers as Numbers *)
(* ===================================================================== *)

Section SmallNumbers.

Local Open Scope Z_scope.

(** The day of month plus a deictic offset is exact. *)
Lemma day_offset_exact d k :
  1 <= d <= 31 -> -2 <= k <= 2 ->
  to_integer (add (of_Z d) (of_Z k)) = Some (d + k).
Proof.
  intros Hd Hk.
  assert (A : forallb (fun d =>
                forallb (fun k =>
                  match to_integer (add (of_Z d) (of_Z k)) with
                  | Some v => v =? d + k
                  | None => false
                  end) (zrange (-2) 5)) (zrange 1 31) = true)
    by (vm_compute; reflexivity).
  rewrite forallb_forall in A.
  specialize (A d (in_zrange 1 31 d ltac:(lia))).
  rewrite forallb_forall in A.
  specialize (A k (in_zrange (-2) 5 k ltac:(lia))).
  destruct (to_integer (add (of_Z d) (of_Z k))) as [v|]; [|discriminate].
  apply Z.eqb_eq in A. now subst v.
Qed.

(** [getMonth() + 1] and [getDate()] are written as the integers they
    are. *)
Lemma month_text m :
  1 <= m <= 12 -> toString (add (of_Z (m - 1)) (of_Z 1)) = decimal m.
Proof.
  intros Hm.
  assert (A : forallb (fun m => string_eqb
                                  (toString (add (of_Z (m - 1)) (of_Z 1)))
                                  (decimal m)) (zrange 1 12) = true)
    by (vm_compute; reflexivity).
  rewrite forallb_forall in A.
  specialize (A m (in_zrange 1 12 m ltac:(lia))).
  unfold string_eqb in A. now destruct (decide _).
Qed.

Lemma day_text d : 1 <= d <= 31 -> toString (of_Z d) = decimal d.
Proof.
  intros Hd.
  assert (A : forallb (fun d => string_eqb (toString (of_Z d)) (decimal d))
                (zrange 1 31) = true)
    by (vm_compute; reflexivity).
  rewrite forallb_forall in A.
  specialize (A d (in_zrange 1 31 d ltac:(lia))).
  unfold string_eqb in A. now destruct (decide _).
Qed.

End SmallNumbers.

(* ===================================================================== *)
(** ** 今天, 明天, 后天, 昨天, 前天 *)
(* ===================================================================== *)

Section DeicticDates.

Context {H : Host}.

Local Open Scope Z_scope.

(** What [month_day] shows of a valid date. *)
Lemma month_day_valid t :
  month_day (Some t) = date_display (local_day t).
Proof.
  unfold month_day, date_display, getMonth, getDate, fields, local_day.
  pose proof (civil_round_trip (LocalTime t / msPerDay)) as R.
  destruct (civil_from_days (LocalTime t / msPerDay)) as [[y m] d].
  destruct R as (Hm & Hd & _). cbv zeta.
  now rewrite (month_text m Hm), (day_text d Hd).
Qed.

(** [setDate(getDate() + k)] moves the local day number by [k] on a host
    whose UTC operation inverts LocalTime, when the new date is in the
    range of Date. *)
Lemma setDate_offset now k t' :
  (forall x, LocalTime (UTC x) = x) ->
  -2 <= k <= 2 ->
  TimeClip (UTC ((local_day now + k) * msPerDay
                 + LocalTime now mod msPerDay)) = Some t' ->
  setDate (Some now) (add (getDate (Some now)) (of_Z k)) = Some t' /\
  local_day t' = local_day now + k.
Proof.
  intros Hlaw Hk Hclip.
  assert (Ht' : t' = UTC ((local_day now + k) * msPerDay
                          + LocalTime now mod msPerDay)).
  { unfold TimeClip in Hclip. destruct (_ <=? _); [|discriminate].
    now injection Hclip. }
  split.
  - unfold setDate, rebuild, getDate, fields, local_day in *.
    pose proof (civil_round_trip (LocalTime now / msPerDay)) as R.
    pose proof (MakeDay_offset (LocalTime now / msPerDay) k) as M.
    destruct (civil_from_days (LocalTime now / msPerDay)) as [[y m] d].
    destruct R as (Hm & Hd & _).
    rewrite (day_offset_exact d k Hd Hk). cbv zeta.
    replace (m - 1) with (m - 1) by reflexivity. rewrite M. exact Hclip.
  - unfold local_day at 1. rewrite Ht', Hlaw.
    unfold msPerDay. Z.div_mod_to_equations. lia.
Qed.

Lemma deictic_offsets name k :
  In (name, k) specialDates -> -2 <= k <= 2.
Proof.
  intros Hin. unfold specialDates in Hin. cbn [In] in Hin.
  repeat (destruct Hin as [[= <- <-]|Hin]; [lia|]). destruct Hin.
Qed.

Lemma dispatch_deictic name k now :
  In (name, k) specialDates ->
  dispatch name now
  = Some (month_day (setDate (Some now)
                       (add (getDate (Some now)) (of_Z k)))).
Proof.
  intros Hin. unfold dispatch.
  change (attempts initializeRules)
    with (firstn 4 (attempts initializeRules)
          ++ (date_rule, Patterns.date_deictic)
          :: skipn 5 (attempts initializeRules)).
  assert (A : forallb (fun rp : Rule * regex =>
                         match String_match name (snd rp) with
                         | None => true
                         | Some _ => false
                         end) (firstn 4 (attempts initializeRules)) = true
              /\ String_match name Patterns.date_deictic <> None
              /\ String_match name Patterns.date_relative = None
              /\ own_property specialDates name = Some k).
  { unfold specialDates in Hin. cbn [In] in Hin.
    repeat (destruct Hin as [[= <- <-]|Hin];
            [repeat split; vm_compute; congruence|]).
    destruct Hin. }
  destruct A as (A & M & R & O).
  rewrite run_no_match.
  2:{ rewrite forallb_forall in A. intros rp Hrp. specialize (A rp Hrp).
      now destruct (String_match name (snd rp)). }
  cbn [run]. unfold yields, attempt. cbn [fst snd handler date_rule].
  destruct (String_match name Patterns.date_deictic) as [m|]; [|congruence].
  unfold handleDateCalculation. cbv zeta. rewrite R, O. reflexivity.
Qed.

End DeicticDates.

(** X18: On a host whose UTC operation inverts LocalTime (a zone without
    daylight-saving gaps), 今天, 明天, 后天, 昨天 and 前天 show the month and
    the day of the local calendar day 0, 1, 2, -1 and -2 days from the
    one that contains the moment of the call, across the ends of months
    and years, provided that day is in the range of Date and the input is
    not in the cache. *)
Theorem deictic_dates {H : Host} (e : Engine) (input : list N) (now : Z)
  (name : list N) (k : Z) :
  (forall x, LocalTime (UTC x) = x) ->
  In (name, k) specialDates ->
  preprocessInput input = name ->
  cache e !! name = None ->
  TimeClip (UTC ((local_day now + k) * msPerDay
                 + (LocalTime now mod msPerDay)))%Z <> None ->
  returned (process input now e) = Some (date_display (local_day now + k)).
Proof.
  intros Hlaw Hin E Hmiss Hclip.
  destruct (TimeClip _) as [t'|] eqn:Ht; [|congruence].
  destruct (setDate_offset now k t' Hlaw (deictic_offsets name k Hin) Ht)
    as [Hset Hday].
  rewrite <- E in Hmiss. rewrite (process_miss _ _ _ Hmiss), E.
  cbn [returned fst]. rewrite (dispatch_deictic name k now Hin).
  now rewrite Hset, month_day_valid, Hday.
Qed.

Lemma deictic_dates_witness :
  shown (returned (process (H := SampleHost.host) (js "明天") 1761900000000
                     new_engine)) = Some (js "（11月1日）") /\
  shown (returned (process (H := SampleHost.host) (js "前天") 1767196800000
                     new_engine)) = Some (js "（12月30日）").
Proof.
  split.
  - rewrite (deictic_dates (H := SampleHost.host) new_engine (js "明天")
               1761900000000 (js "明天") 1).
    + vm_compute. reflexivity.
    + intros x. cbn. lia.
    + right. now left.
    + reflexivity.
    + reflexivity.
    + vm_compute. discriminate.
  - rewrite (deictic_dates (H := SampleHost.host) new_engine (js "前天")
               1767196800000 (js "前天") (-2)).
    + vm_compute. reflexivity.
    + intros x. cbn. lia.
    + do 4 right. now left.
    + reflexivity.
    + reflexivity.
    + vm_compute. discriminate.
Defined.

(* ===================================================================== *)
(** ** Relative dates *)
(* ===================================================================== *)

Section RelativeDates.

Context {H : Host}.

Lemma date_relative_match c ip w1 u w2 d :
  in_class digit c = true -> all_in digit ip = true ->
  all_in space w1 = true -> In u date_units ->
  all_in space w2 = true -> In d directions ->
  String_match ((c :: ip) ++ w1 ++ [u] ++ w2 ++ [d]) Patterns.date_relative
  = Some (Match 0 ((c :: ip) ++ w1 ++ [u] ++ w2 ++ [d])
                [None; Some (c :: ip); Some [u]; Some [d]]).
Proof.
  intros Hc Hip Hw1 Hu Hw2 Hd.
  set (s := (c :: ip) ++ w1 ++ [u] ++ w2 ++ [d]).
  assert (F : first Patterns.date_relative (start Patterns.date_relative 0 s)
                (MState (1 + (List.length w2
                              + (1 + (List.length w1
                                      + (List.length (c :: ip) + 0)))))
                        []
                        (set_nth 3 (Some [d])
                           (set_nth 2 (Some [u])
                              (set_nth 1 (Some (c :: ip))
                                 (repeat None
                                    (ngroups Patterns.date_relative))))))).
  { unfold Patterns.date_relative at 1. cbn [SeqOf]. subst s.
    eapply first_seq; [apply first_bol; reflexivity|].
    eapply first_seq.
    { apply (first_group_after 1 _ _ (c :: ip) (w1 ++ [u] ++ w2 ++ [d]));
        [|reflexivity].
      apply (first_plus_class digit c ip _ (w1 ++ [u] ++ w2 ++ [d]));
        trivial.
      apply stops_ws; trivial. unfold date_units in Hu.
      cases_in Hu; reflexivity. }
    eapply first_seq.
    { apply (first_star_class space w1 (MState _ (w1 ++ [u] ++ w2 ++ [d]) _)
               ([u] ++ w2 ++ [d]) eq_refl Hw1).
      unfold date_units in Hu. cases_in Hu; reflexivity. }
    unfold date_units in Hu. unfold directions in Hd.
    cases_in Hu; cases_in Hd;
      match goal with
      | |- context [[?x] ++ w2 ++ [?y]] =>
        eapply first_seq;
        [apply (first_group_after 2 _ (MState _ ([x] ++ w2 ++ [y]) _) [x]
                  (w2 ++ [y])); [eexists; reflexivity|reflexivity]|];
        eapply first_seq;
        [apply (first_star_class space w2 (MState _ (w2 ++ [y]) _) [y]
                  eq_refl Hw2 eq_refl)|];
        eapply first_seq; [|now apply first_eol];
        apply (first_group_after 3 _ (MState _ [y] _) [y] []);
        [eexists; reflexivity|reflexivity]
      end. }
  rewrite (String_match_first _ _ _ F).
  rewrite (consumed_app _ _ s); [reflexivity|].
  cbn [start rest]. now rewrite app_nil_r.
Qed.

Lemma handle_relative c ip w1 u w2 d m now :
  in_class digit c = true -> all_in digit ip = true ->
  all_in space w1 = true -> In u date_units ->
  all_in space w2 = true -> In d directions ->
  handleDateCalculation m ((c :: ip) ++ w1 ++ [u] ++ w2 ++ [d]) now
  = Return (Some (month_day (shifted now (c :: ip) u d))).
Proof.
  intros Hc Hip Hw1 Hu Hw2 Hd. unfold handleDateCalculation.
  rewrite date_relative_match by assumption.
  cbn [group groups nth text_of]. cbv zeta. unfold shifted.
  unfold date_units in Hu. unfold directions in Hd.
  cases_in Hu; cases_in Hd; eval_string_eqb; reflexivity.
Qed.

Lemma relative_alphabet c ip w1 u w2 d :
  in_class digit c = true -> all_in digit ip = true ->
  all_in space w1 = true -> In u date_units ->
  all_in space w2 = true -> In d directions ->
  all_in date_alphabet ((c :: ip) ++ w1 ++ [u] ++ w2 ++ [d]) = true.
Proof.
  intros Hc Hip Hw1 Hu Hw2 Hd. rewrite !all_in_app.
  rewrite (all_in_sub space date_alphabet w1 eq_refl Hw1).
  rewrite (all_in_sub space date_alphabet w2 eq_refl Hw2).
  assert (all_in date_alphabet (c :: ip) = true) as ->.
  { apply (all_in_sub digit); [reflexivity|].
    unfold all_in. cbn [forallb]. now rewrite Hc. }
  unfold date_units in Hu. unfold directions in Hd.
  cases_in Hu; cases_in Hd; reflexivity.
Qed.

Lemma date_split :
  attempts initializeRules =
  firstn 3 (attempts initializeRules)
  ++ map (pair date_rule) (patterns date_rule)
  ++ skipn 5 (attempts initializeRules).
Proof. reflexivity. Qed.

Lemma dispatch_relative c ip w1 u w2 d now :
  in_class digit c = true -> all_in digit ip = true ->
  all_in space w1 = true -> In u date_units ->
  all_in space w2 = true -> In d directions ->
  dispatch ((c :: ip) ++ w1 ++ [u] ++ w2 ++ [d]) now
  = Some (month_day (shifted now (c :: ip) u d)).
Proof.
  intros Hc Hip Hw1 Hu Hw2 Hd.
  apply (dispatch_rule date_alphabet date_rule _ _ _ now _
           Patterns.date_relative date_split); trivial.
  - now apply relative_alphabet.
  - intros m. now apply handle_relative.
  - left. split; [now left|]. now rewrite date_relative_match.
Qed.

End RelativeDates.

(** X19: An amount in digits, one of 天 日 周 月 年 and 后 or 前, with or
    without whitespace between them, always gets a date Result: the
    handler sets the day of month, the month or the year of the current
    date to its value plus or minus the amount (seven times the amount
    for 周) and shows the month and the day of what Date makes of it. *)
Theorem relative_date_result {H : Host} (e : Engine) (input : list N)
  (now : Z) (c : N) (ip w1 : list N) (u : N) (w2 : list N) (d : N) :
  in_class digit c = true -> all_in digit ip = true ->
  all_in space w1 = true -> In u date_units ->
  all_in space w2 = true -> In d directions ->
  preprocessInput input = (c :: ip) ++ w1 ++ [u] ++ w2 ++ [d] ->
  returned (process input now e) <> None /\
  (cache e !! preprocessInput input = None ->
   returned (process input now e)
   = Some (month_day (shifted now (c :: ip) u d))).
Proof.
  intros Hc Hip Hw1 Hu Hw2 Hd E.
  pose proof (dispatch_relative c ip w1 u w2 d now Hc Hip Hw1 Hu Hw2 Hd) as D.
  rewrite <- E in D.
  destruct (cache e !! preprocessInput input) as [r|] eqn:C.
  - rewrite (process_hit _ _ _ _ C). cbn. split; [discriminate|].
    discriminate.
  - rewrite (process_miss _ _ _ C). cbn [returned fst]. rewrite D.
    split; [discriminate|reflexivity].
Qed.

Lemma relative_date_result_witness :
  shown (returned (process (H := SampleHost.host) (js "3天后") 1761900000000
                     new_engine)) = Some (js "（11月3日）") /\
  shown (returned (process (H := SampleHost.host) (js "1 月 前")
                     1761900000000 new_engine)) = Some (js "（10月1日）").
Proof.
  split.
  - destruct (relative_date_result (H := SampleHost.host) new_engine
                (js "3天后") 1761900000000 0x33 [] [] 0x5929 [] 0x540E
                eq_refl eq_refl eq_refl (or_introl eq_refl) eq_refl
                (or_introl eq_refl) eq_refl)
      as [_ R].
    rewrite R; [|reflexivity]. vm_compute. reflexivity.
  - destruct (relative_date_result (H := SampleHost.host) new_engine
                (js "1 月 前") 1761900000000 0x31 [] (js " ") 0x6708 (js " ")
                0x524D
                eq_refl eq_refl eq_refl
                (or_intror (or_intror (or_intror (or_introl eq_refl))))
                eq_refl (or_intror (or_introl eq_refl)) eq_refl)
      as [_ R].
    rewrite R; [|reflexivity]. vm_compute. reflexivity.
Defined.

(* ===================================================================== *)
(** ** The examples the shell offers *)
(* ===================================================================== *)

Section ShellExamples.

Context {H : Host}.

(** An input the table resolves at every moment gets a Result from every
    engine. *)
Lemma always_resolved e input now :
  (forall t, dispatch (preprocessInput input) t <> None) ->
  returned (process input now e) <> None.
Proof.
  intros Hd. destruct (cache e !! preprocessInput input) as [r|] eqn:E.
  - now rewrite (process_hit _ _ _ _ E).
  - rewrite (process_miss _ _ _ E). cbn [returned fst]. apply Hd.
Qed.

(** The examples that resolve whatever the host and the time. *)
Lemma fixed_examples ex t :
  In ex [js "1+1"; js "25*4"; js "100的平方根"; js "37摄氏度等于";
         js "100米"; js "1美元"; js "100人民币"; js "牛顿第二定律";
         js "勾股定理"; js "欧姆定律"] ->
  preprocessInput ex = ex /\ dispatch ex t <> None.
Proof.
  intros Hin.
  cases_in Hin; (split; [vm_compute; reflexivity|vm_compute; discriminate]).
Qed.

Lemma dated_examples ex t :
  In ex [js "3天后"; js "明天"; js "纽约时间"; js "东京时间"; js "伦敦时间"] ->
  preprocessInput ex = ex /\ dispatch ex t <> None.
Proof.
  intros Hin. cases_eq Hin; subst ex; (split; [vm_compute; reflexivity|]).
  - rewrite (dispatch_relative 0x33 [] [] 0x5929 [] 0x540E t eq_refl eq_refl
               eq_refl (or_introl eq_refl) eq_refl (or_introl eq_refl)).
    discriminate.
  - rewrite (dispatch_deictic (js "明天") 1 t (or_intror (or_introl eq_refl))).
    discriminate.
  - rewrite (dispatch_timezone (js "纽约") (js "America/New_York") [] t
               (or_introl eq_refl) eq_refl).
    discriminate.
  - rewrite (dispatch_timezone (js "东京") (js "Asia/Tokyo") [] t
               (or_intror (or_intror (or_intror (or_intror
                  (or_introl eq_refl))))) eq_refl).
    discriminate.
  - rewrite (dispatch_timezone (js "伦敦") (js "Europe/London") [] t
               (or_intror (or_intror (or_introl eq_refl))) eq_refl).
    discriminate.
Qed.

Lemma dead_examples ex t :
  In ex [js "下周"; js "50英尺"; js "50欧元"] ->
  preprocessInput ex = ex /\ dispatch ex t = None.
Proof.
  intros Hin. cases_in Hin; split; vm_compute; reflexivity.
Qed.

End ShellExamples.

(** X20: Of the eighteen inputs the shell prints as examples, fifteen get a
    Result from [process] and three, 下周, 50英尺 and 50欧元, get null, on
    every engine a program can hold, whatever the host and the time. *)
Theorem examples_supported {H : Host} (e : Engine) (now : Z) (ex : list N) :
  reachable e ->
  In ex (concat (map snd examples)) ->
  (returned (process ex now e) = None
   <-> In ex [js "下周"; js "50英尺"; js "50欧元"]).
Proof.
  intros He Hin.
  assert (Hcases :
    In ex [js "1+1"; js "25*4"; js "100的平方根"; js "37摄氏度等于";
           js "100米"; js "1美元"; js "100人民币"; js "牛顿第二定律";
           js "勾股定理"; js "欧姆定律"]
    \/ In ex [js "3天后"; js "明天"; js "纽约时间"; js "东京时间";
              js "伦敦时间"]
    \/ In ex [js "下周"; js "50英尺"; js "50欧元"]).
  { cases_in Hin; vm_compute; tauto. }
  assert (Hlive : forall l,
    (forall x, In x l -> forall t, preprocessInput x = x
                                   /\ dispatch x t <> None) ->
    In ex l ->
    (returned (process ex now e) = None
     <-> In ex [js "下周"; js "50英尺"; js "50欧元"])).
  { intros l Hl Hex. split.
    - intros R. exfalso. revert R. apply always_resolved. intros t.
      destruct (Hl ex Hex t) as [-> D]. exact D.
    - intros Hd. exfalso.
      destruct (Hl ex Hex now) as [E D].
      destruct (dead_examples ex now Hd) as [_ D']. contradiction. }
  destruct Hcases as [Hc|[Hc|Hc]].
  - apply (Hlive _ (fun x Hx t => fixed_examples x t Hx) Hc).
  - apply (Hlive _ (fun x Hx t => dated_examples x t Hx) Hc).
  - split; [intros _; exact Hc|intros _].
    apply process_settled; [exact He|]. intros t.
    destruct (dead_examples ex t Hc) as [-> D]. exact D.
Qed.

Lemma examples_supported_witness :
  returned (process (H := SampleHost.host) (js "50英尺") 0 new_engine) = None.
Proof.
  apply (examples_supported (H := SampleHost.host) new_engine 0 (js "50英尺")
           reach_new).
  - vm_compute. tauto.
  - vm_compute. tauto.
Defined.

(* ===================================================================== *)
(** ** The rules exclude each other *)
(* ===================================================================== *)

Section Exclusive.

Context {H : Host}.

Lemma needs_beyond_sound p q s :
  needs_beyond p q = true ->
  String_match s p <> None -> String_match s q = None.
Proof.
  unfold needs_beyond. intros Hn Hp.
  apply andb_prop in Hn as [Hn Ht]. apply andb_prop in Hn as [Hn Hf].
  apply andb_prop in Hn as [He Hw].
  destruct (String_match s p) as [m|] eqn:E; [|congruence].
  now apply (separated (alphabet_of q) p q s m).
Qed.

Lemma category_id_inj a b : category_id a = category_id b -> a = b.
Proof. destruct a, b; cbn; congruence. Qed.

Lemma patterns_apart rp1 rp2 clean :
  In rp1 (attempts initializeRules) -> In rp2 (attempts initializeRules) ->
  String_match clean (snd rp1) <> None ->
  String_match clean (snd rp2) <> None ->
  category (fst rp1) = category (fst rp2).
Proof.
  intros H1 H2 M1 M2.
  assert (A : forallb (fun rp1 : Rule * regex =>
                forallb (fun rp2 : Rule * regex =>
                  Nat.eqb (category_id (category (fst rp1)))
                          (category_id (category (fst rp2)))
                  || needs_beyond (snd rp1) (snd rp2)
                  || needs_beyond (snd rp2) (snd rp1))
                  (attempts initializeRules))
                (attempts initializeRules) = true)
    by (vm_compute; reflexivity).
  rewrite forallb_forall in A. specialize (A rp1 H1).
  rewrite forallb_forall in A. specialize (A rp2 H2).
  apply orb_prop in A as [A|A]; [apply orb_prop in A as [A|A]|].
  - apply category_id_inj. now apply Nat.eqb_eq.
  - now rewrite (needs_beyond_sound _ _ clean A M1) in M2.
  - now rewrite (needs_beyond_sound _ _ clean A M2) in M1.
Qed.

Lemma live_pattern clean rule :
  live clean rule = true ->
  exists p, In p (patterns rule) /\ String_match clean p <> None.
Proof.
  unfold live. intros Hl. apply existsb_exists in Hl as (p & Hp & Hm).
  exists p. split; [exact Hp|]. now destruct (String_match clean p).
Qed.

Lemma dead_rule clean rule now l :
  live clean rule = false ->
  run (map (pair rule) (patterns rule) ++ l) clean now = run l clean now.
Proof.
  intros Hl. apply run_no_match. intros rp Hin.
  apply in_map_iff in Hin as (p & <- & Hp). cbn [snd].
  destruct (String_match clean p) eqn:E; [|reflexivity].
  unfold live in Hl.
  assert (existsb (fun p => match String_match clean p with
                            | Some _ => true
                            | None => false
                            end) (patterns rule) = true)
    by (apply existsb_exists; exists p; now rewrite E).
  congruence.
Qed.

Lemma in_attempts_intro rules rule p :
  In rule rules -> In p (patterns rule) -> In (rule, p) (attempts rules).
Proof.
  intros Hr Hp. unfold attempts. apply in_flat_map. exists rule.
  split; [exact Hr|]. now apply in_map.
Qed.

(** Two live rules of the table have the same category. *)
Lemma live_same clean r1 r2 :
  In r1 initializeRules -> In r2 initializeRules ->
  live clean r1 = true -> live clean r2 = true ->
  category r1 = category r2.
Proof.
  intros H1 H2 L1 L2.
  destruct (live_pattern _ _ L1) as (p1 & P1 & M1).
  destruct (live_pattern _ _ L2) as (p2 & P2 & M2).
  apply (patterns_apart (r1, p1) (r2, p2) clean); trivial;
    now apply in_attempts_intro.
Qed.

(** The visits of a list of rules of the table with distinct categories:
    only the live rule counts. *)
Lemma run_live clean now : forall l,
  (forall r, In r l -> In r initializeRules) ->
  List.NoDup (map category l) ->
  run (attempts l) clean now
  = match find (live clean) l with
    | Some r => run (map (pair r) (patterns r)) clean now
    | None => (None, [])
    end.
Proof.
  induction l as [|rule l IH]; intros Hin Hnd; [reflexivity|].
  change (attempts (rule :: l))
    with (map (pair rule) (patterns rule) ++ attempts l).
  cbn [map] in Hnd. apply NoDup_cons_iff in Hnd as [Hnot Hnd].
  assert (Hl : forall r, In r l -> In r initializeRules)
    by (intros r Hr; apply Hin; now right).
  cbn [find]. destruct (live clean rule) eqn:L.
  - assert (Hdead : find (live clean) l = None).
    { destruct (find (live clean) l) as [r|] eqn:F; [|reflexivity].
      apply find_some in F as [Hr Lr]. exfalso. apply Hnot.
      rewrite (live_same clean rule r (Hin rule (or_introl eq_refl))
                 (Hl r Hr) L Lr).
      now apply in_map. }
    rewrite run_app, (IH Hl Hnd), Hdead.
    destruct (run (map (pair rule) (patterns rule)) clean now) as [[r|] log];
      [reflexivity|now rewrite app_nil_r].
  - rewrite (dead_rule _ _ _ _ L). now apply IH.
Qed.

Lemma find_live_permutation clean l l' :
  Permutation l l' ->
  (forall r, In r l -> In r initializeRules) ->
  List.NoDup (map category l) ->
  match find (live clean) l, find (live clean) l' with
  | Some r, Some r' => category r = category r'
  | None, None => True
  | _, _ => False
  end.
Proof.
  intros Hp Hin Hnd.
  destruct (find (live clean) l) as [r|] eqn:F;
    destruct (find (live clean) l') as [r'|] eqn:F'; trivial.
  - apply find_some in F as [Hr Lr]. apply find_some in F' as [Hr' Lr'].
    apply (live_same clean); trivial; apply Hin; trivial.
    now apply (Permutation_in _ (Permutation_sym Hp)).
  - apply find_some in F as [Hr Lr].
    rewrite (find_none _ _ F' r (Permutation_in _ Hp Hr)) in Lr.
    discriminate.
  - apply find_some in F' as [Hr' Lr'].
    rewrite (find_none _ _ F r'
               (Permutation_in _ (Permutation_sym Hp) Hr')) in Lr'.
    discriminate.
Qed.

Lemma same_rule r r' :
  In r initializeRules -> In r' initializeRules ->
  category r = category r' -> r = r'.
Proof.
  unfold initializeRules. intros Hr Hr' Hc.
  destruct Hr as [<-|[<-|[<-|[<-|[<-|[<-|[]]]]]]];
    destruct Hr' as [<-|[<-|[<-|[<-|[<-|[<-|[]]]]]]];
    first [reflexivity | discriminate Hc].
Qed.

Lemma run_permutation clean now rules :
  Permutation rules initializeRules ->
  run (attempts rules) clean now = run (attempts initializeRules) clean now.
Proof.
  intros Hp.
  assert (Hnd0 : List.NoDup (map category initializeRules)).
  { unfold initializeRules. cbn [map category math_rule date_rule
      timezone_rule unit_rule currency_rule formula_rule].
    repeat (apply List.NoDup_cons; [cbn [In]; intuition discriminate|]).
    apply List.NoDup_nil. }
  assert (Hin : forall r, In r rules -> In r initializeRules)
    by (intros r; apply (Permutation_in _ Hp)).
  assert (Hnd : List.NoDup (map category rules)).
  { apply (Permutation_NoDup (l := map category initializeRules));
      [|exact Hnd0].
    apply Permutation_map. now apply Permutation_sym. }
  rewrite (run_live clean now rules Hin Hnd).
  rewrite (run_live clean now initializeRules (fun r Hr => Hr) Hnd0).
  pose proof (find_live_permutation clean rules initializeRules Hp Hin Hnd)
    as F.
  destruct (find (live clean) rules) as [r|] eqn:F1;
    destruct (find (live clean) initializeRules) as [r'|] eqn:F2;
    try contradiction; [|reflexivity].
  apply find_some in F1 as [Hr _]. apply find_some in F2 as [Hr' _].
  now rewrite (same_rule r r' (Hin r Hr) Hr' F).
Qed.

End Exclusive.

(** X21: No input is matched by patterns of two different rules: whenever two
    patterns of the table match the same normalized input, they belong to
    the same rule. *)
Theorem rules_exclusive {H : Host} (clean : list N) (r1 r2 : Rule)
  (p1 p2 : regex) :
  In r1 initializeRules -> In p1 (patterns r1) ->
  In r2 initializeRules -> In p2 (patterns r2) ->
  String_match clean p1 <> None -> String_match clean p2 <> None ->
  r1 = r2.
Proof.
  intros H1 P1 H2 P2 M1 M2. apply same_rule; trivial.
  apply (patterns_apart (r1, p1) (r2, p2) clean); trivial;
    now apply in_attempts_intro.
Qed.

Lemma rules_exclusive_witness :
  currency_rule = currency_rule.
Proof.
  apply (rules_exclusive (H := SampleHost.host) (js "1美元")
           currency_rule currency_rule
           Patterns.currency_any Patterns.currency_named).
  - do 4 right. now left.
  - now left.
  - do 4 right. now left.
  - right. now left.
  - vm_compute. discriminate.
  - vm_compute. discriminate.
Defined.

(** X22: With this table the order of the rules does not matter: [process]
    run with the rules in any other order returns the same and leaves the
    same engine. *)
Theorem rule_order_irrelevant {H : Host} (rules : list Rule)
  (input : list N) (now : Z) (e : Engine) :
  Permutation rules initializeRules ->
  process_with preprocessInput rules input now e = process input now e.
Proof.
  intros Hp. unfold process.
  destruct (cache e !! preprocessInput input) as [r|] eqn:E.
  - now rewrite !(process_with_hit _ _ _ _ _ _ E).
  - rewrite !(process_with_miss _ _ _ _ _ E).
    now rewrite (run_permutation _ now rules Hp).
Qed.

Lemma rule_order_irrelevant_witness :
  process_with preprocessInput (rev (initializeRules (H := SampleHost.host)))
    (js "1美元") 0 new_engine
  = process (H := SampleHost.host) (js "1美元") 0 new_engine.
Proof.
  apply (rule_order_irrelevant (H := SampleHost.host)).
  apply Permutation_sym, Permutation_rev.
Defined.

(* ===================================================================== *)
(** ** Integers below 2^53 are computed exactly *)
(* ===================================================================== *)

Section Exact.

Local Open Scope Z_scope.

Lemma pow2_pos k : 0 <= k -> 0 < 2 ^ k.
Proof. intros Hk. apply Z.pow_pos_nonneg; lia. Qed.

Lemma scaled_intro M e v K :
  0 <= K -> 0 <= e + K -> M * 2 ^ (e + K) = v * 2 ^ K -> scaled M e v.
Proof.
  intros HK HeK E K' HK' HeK'.
  apply (proj1 (Z.mul_cancel_r _ _ (2 ^ K) ltac:(pose proof (pow2_pos K); lia))).
  transitivity (M * 2 ^ (e + K) * 2 ^ K').
  - rewrite <- !Z.mul_assoc, <- !Z.pow_add_r by lia.
    f_equal. f_equal. lia.
  - rewrite E. ring.
Qed.

Lemma scaled_mul M1 e1 v1 M2 e2 v2 :
  scaled M1 e1 v1 -> scaled M2 e2 v2 -> scaled (M1 * M2) (e1 + e2) (v1 * v2).
Proof.
  intros H1 H2.
  assert (B1 : exists K1, 0 <= K1 /\ 0 <= e1 + K1)
    by (exists (Z.max 0 (- e1)); lia).
  assert (B2 : exists K2, 0 <= K2 /\ 0 <= e2 + K2)
    by (exists (Z.max 0 (- e2)); lia).
  destruct B1 as (K1 & ? & ?). destruct B2 as (K2 & ? & ?).
  specialize (H1 K1 ltac:(lia) ltac:(lia)).
  specialize (H2 K2 ltac:(lia) ltac:(lia)).
  apply (scaled_intro _ _ _ (K1 + K2)); [lia|lia|].
  replace (e1 + e2 + (K1 + K2)) with ((e1 + K1) + (e2 + K2)) by lia.
  rewrite (Z.pow_add_r 2 (e1 + K1) (e2 + K2)), (Z.pow_add_r 2 K1 K2) by lia.
  revert H1 H2.
  generalize (2 ^ (e1 + K1)) (2 ^ (e2 + K2)) (2 ^ K1) (2 ^ K2).
  intros P1 P2 Q1 Q2 H1 H2.
  transitivity (M1 * P1 * (M2 * P2)); [ring|].
  rewrite H1, H2. ring.
Qed.

Lemma scaled_add M1 M2 e v1 v2 :
  scaled M1 e v1 -> scaled M2 e v2 -> scaled (M1 + M2) e (v1 + v2).
Proof.
  intros H1 H2 K HK HeK. rewrite !Z.mul_add_distr_r.
  now rewrite (H1 K), (H2 K).
Qed.

Lemma scaled_opp M e v : scaled M e v -> scaled (- M) e (- v).
Proof.
  intros H1 K HK HeK. rewrite !Z.mul_opp_l. now rewrite (H1 K).
Qed.

Lemma scaled_shift M e v d :
  0 <= d -> scaled M e v -> scaled (M * 2 ^ d) (e - d) v.
Proof.
  intros Hd H1.
  apply (scaled_intro _ _ _ (Z.max 0 (- e) + d)); [lia|lia|].
  rewrite <- (H1 (Z.max 0 (- e) + d)) by lia.
  rewrite <- Z.mul_assoc, <- Z.pow_add_r by lia.
  f_equal. f_equal. lia.
Qed.

Lemma scaled_pos M e v : scaled M e v -> 0 < M -> 0 < v.
Proof.
  intros H1 HM.
  specialize (H1 (Z.max 0 (- e)) ltac:(lia) ltac:(lia)).
  apply (Z.mul_pos_cancel_r v (2 ^ Z.max 0 (- e))); [apply pow2_pos; lia|].
  rewrite <- H1. apply Z.mul_pos_pos; [assumption|apply pow2_pos; lia].
Qed.

Lemma scaled_zero e v : scaled 0 e v -> v = 0.
Proof.
  intros H1.
  specialize (H1 (Z.max 0 (- e)) ltac:(lia) ltac:(lia)).
  rewrite Z.mul_0_l in H1. symmetry in H1.
  apply Z.mul_eq_0 in H1 as [H1|H1]; [assumption|].
  pose proof (pow2_pos (Z.max 0 (- e))). lia.
Qed.

(** The sign of a Number and the magnitude apart. *)
Lemma scaled_abs s m e v :
  scaled (cond_Zopp s (Zpos m)) e v ->
  scaled (Zpos m) e (cond_Zopp s v) /\ 0 < cond_Zopp s v.
Proof.
  intros H1.
  assert (H2 : scaled (Zpos m) e (cond_Zopp s v)).
  { destruct s; cbn [cond_Zopp] in *; [|assumption].
    apply scaled_opp in H1. exact H1. }
  split; [assumption|]. now apply (scaled_pos _ _ _ H2).
Qed.

(** *** The number of binary digits *)

Lemma digits2_size p : digits2_pos p = Pos.size p.
Proof. induction p; simpl; congruence. Qed.

Lemma digits_bounds M :
  0 < M -> 0 < Zdigits2 M /\ 2 ^ (Zdigits2 M - 1) <= M < 2 ^ Zdigits2 M.
Proof.
  intros HM. destruct M as [|m|m]; try lia. cbn [Zdigits2].
  rewrite digits2_size. split; [lia|].
  pose proof (Pos.size_gt m) as G. pose proof (Pos.size_le m) as L.
  apply Pos2Z.pos_lt_pos in G. apply Pos2Z.pos_le_pos in L.
  rewrite Pos2Z.inj_pow in G, L.
  replace (Z.pos (Pos.size m)) with (Z.succ (Z.pos (Pos.size m) - 1)) in L
    by lia.
  rewrite Z.pow_succ_r in L by lia. lia.
Qed.

Lemma digits_le M k : 0 < M -> 0 <= k -> M < 2 ^ k -> Zdigits2 M <= k.
Proof.
  intros HM Hk Hlt. destruct (digits_bounds M HM) as (Hd & Hlo & _).
  assert (L : 2 ^ (Zdigits2 M - 1) < 2 ^ k) by lia.
  apply Z.pow_lt_mono_r_iff in L; lia.
Qed.

(** *** Shifting out zeros *)

Lemma iter_pos_nat {A : Type} (f : A -> A) p :
  forall x, SpecFloat.iter_pos f p x = Nat.iter (Pos.to_nat p) f x.
Proof.
  induction p as [p IH|p IH|]; intros x; cbn [SpecFloat.iter_pos].
  - rewrite !IH, Pos2Nat.inj_xI.
    replace (S (2 * Pos.to_nat p))
      with (Pos.to_nat p + (Pos.to_nat p + 1))%nat by lia.
    rewrite !Nat.iter_add. reflexivity.
  - rewrite !IH, Pos2Nat.inj_xO.
    replace (2 * Pos.to_nat p)%nat
      with (Pos.to_nat p + Pos.to_nat p)%nat by lia.
    now rewrite Nat.iter_add.
  - reflexivity.
Qed.

Lemma shr_1_even q :
  0 < q ->
  shr_1 {| shr_m := 2 * q; shr_r := false; shr_s := false |}
  = {| shr_m := q; shr_r := false; shr_s := false |}.
Proof. intros Hq. destruct q as [|p|p]; try lia. reflexivity. Qed.

Lemma shr_zeros k : forall q,
  0 < q ->
  Nat.iter k shr_1
    {| shr_m := q * 2 ^ Z.of_nat k; shr_r := false; shr_s := false |}
  = {| shr_m := q; shr_r := false; shr_s := false |}.
Proof.
  induction k as [|k IH]; intros q Hq.
  - cbn [Nat.iter Z.of_nat]. now rewrite Z.pow_0_r, Z.mul_1_r.
  - rewrite Nat.iter_succ_r, Nat2Z.inj_succ, Z.pow_succ_r by lia.
    replace (q * (2 * 2 ^ Z.of_nat k)) with (2 * (q * 2 ^ Z.of_nat k)) by ring.
    rewrite shr_1_even
      by (apply Z.mul_pos_pos; [assumption|apply pow2_pos; lia]).
    now apply IH.
Qed.

Lemma shr_exact q e n :
  0 < q -> 0 < n ->
  shr {| shr_m := q * 2 ^ n; shr_r := false; shr_s := false |} e n
  = ({| shr_m := q; shr_r := false; shr_s := false |}, e + n).
Proof.
  intros Hq Hn. destruct n as [|p|p]; try lia. cbn [shr].
  rewrite iter_pos_nat. rewrite <- (positive_nat_Z p) at 1.
  now rewrite shr_zeros.
Qed.

Lemma shr_none r e n : n <= 0 -> shr r e n = (r, e).
Proof. intros Hn. destruct n; try lia; reflexivity. Qed.

(** *** Rounding *)

(** Rounding leaves an integer below 2^53 as it is. *)
Lemma round_exact s M e v :
  0 < M -> scaled M e v -> v < 2 ^ 53 ->
  holds (binary_round_aux prec emax s M e loc_Exact) (cond_Zopp s v).
Proof.
  intros HM Hs Hv.
  pose proof (scaled_pos _ _ _ Hs HM) as Hv0.
  destruct (digits_bounds M HM) as (Hd & Dlo & Dhi).
  assert (Hde : 1 <= Zdigits2 M + e).
  { destruct (Z.le_gt_cases 0 e) as [He|He]; [lia|].
    pose proof (Hs (- e) ltac:(lia) ltac:(lia)) as E.
    replace (e + - e) with 0 in E by lia. rewrite Z.pow_0_r, Z.mul_1_r in E.
    pose proof (pow2_pos (- e) ltac:(lia)) as P.
    assert (L : 2 ^ (- e) < 2 ^ Zdigits2 M) by nia.
    apply Z.pow_lt_mono_r_iff in L; lia. }
  unfold binary_round_aux, shr_fexp.
  assert (F : fexp prec emax (Zdigits2 M + e) - e = Zdigits2 M - 53)
    by (unfold fexp, SpecFloat.emin, prec, emax; lia).
  rewrite F.
  destruct (Z.le_gt_cases (Zdigits2 M) 53) as [Hle|Hgt].
  - rewrite shr_none by lia.
    cbn [shr_record_of_loc shr_m loc_of_shr_record round_nearest_even
         shr_r shr_s].
    rewrite F, shr_none by lia. cbn [shr_record_of_loc shr_m].
    assert (He : e <= 971).
    { destruct (Z.le_gt_cases e 0) as [He|He]; [lia|].
      pose proof (Hs 0 ltac:(lia) ltac:(lia)) as E.
      rewrite Z.add_0_r, Z.pow_0_r, Z.mul_1_r in E.
      pose proof (pow2_pos e ltac:(lia)) as P.
      assert (L : 2 ^ e < 2 ^ 53) by nia.
      apply Z.pow_lt_mono_r_iff in L; lia. }
    destruct M as [|m|m]; try lia.
    rewrite (proj2 (Z.leb_le _ _)) by (unfold emax, prec; lia).
    cbn [holds]. destruct s; cbn [cond_Zopp]; [|assumption].
    now apply scaled_opp in Hs.
  - set (n := Zdigits2 M - 53) in *.
    assert (He : n <= - e).
    { destruct (Z.le_gt_cases 0 e) as [He|He].
      - pose proof (Hs 0 ltac:(lia) ltac:(lia)) as E.
        rewrite Z.add_0_r, Z.pow_0_r, Z.mul_1_r in E.
        pose proof (pow2_pos e ltac:(lia)) as P.
        pose proof (Z.pow_le_mono_r 2 53 (Zdigits2 M - 1) ltac:(lia)
                      ltac:(lia)) as Q.
        nia.
      - pose proof (Hs (- e) ltac:(lia) ltac:(lia)) as E.
        replace (e + - e) with 0 in E by lia.
        rewrite Z.pow_0_r, Z.mul_1_r in E.
        pose proof (pow2_pos (- e) ltac:(lia)) as P.
        assert (L : 2 ^ (Zdigits2 M - 1) < 2 ^ (53 - e)).
        { replace (53 - e) with (53 + - e) by lia.
          rewrite Z.pow_add_r by lia. nia. }
        apply Z.pow_lt_mono_r_iff in L; lia. }
    set (q := v * 2 ^ (- e - n)).
    assert (Hq : 0 < q)
      by (apply Z.mul_pos_pos; [assumption|apply pow2_pos; lia]).
    assert (EM : M = q * 2 ^ n).
    { pose proof (Hs (- e) ltac:(lia) ltac:(lia)) as E.
      replace (e + - e) with 0 in E by lia.
      rewrite Z.pow_0_r, Z.mul_1_r in E. subst q.
      rewrite <- Z.mul_assoc, <- Z.pow_add_r by lia.
      now replace (- e - n + n) with (- e) by lia. }
    assert (Hq53 : q < 2 ^ 53).
    { pose proof (pow2_pos n ltac:(lia)) as P.
      replace (Zdigits2 M) with (53 + n) in Dhi by lia.
      rewrite Z.pow_add_r in Dhi by lia. rewrite EM in Dhi.
      apply Z.mul_lt_mono_pos_r in Dhi; assumption. }
    cbn [shr_record_of_loc]. rewrite EM at 1.
    rewrite shr_exact by lia.
    cbn [shr_m shr_r shr_s loc_of_shr_record round_nearest_even].
    pose proof (digits_le q 53 Hq ltac:(lia) Hq53) as Dq.
    destruct (digits_bounds q Hq) as (Hdq & _).
    rewrite shr_none
      by (unfold fexp, SpecFloat.emin, prec, emax; lia).
    cbn [shr_record_of_loc shr_m].
    destruct q as [|m|m] eqn:Eq; try lia.
    rewrite (proj2 (Z.leb_le _ _)) by (unfold emax, prec; lia).
    cbn [holds].
    assert (Sq : scaled (Z.pos m) (e + n) v).
    { apply (scaled_intro _ _ _ (- e - n)); [lia|lia|].
      replace (e + n + (- e - n)) with 0 by lia.
      rewrite Z.pow_0_r, Z.mul_1_r. exact (eq_sym Eq). }
    destruct s; cbn [cond_Zopp]; [|assumption].
    now apply scaled_opp in Sq.
Qed.

(** *** The operations *)

Lemma to_integer_holds x v : holds x v -> to_integer x = Some v.
Proof.
  destruct x as [s|s| |s m e]; cbn [holds to_integer]; try contradiction.
  - now intros ->.
  - intros Hs. apply scaled_abs in Hs as [Hs Hv]. f_equal.
    assert (E : (if 0 <=? e then Z.pos m * 2 ^ e else Z.pos m / 2 ^ (- e))
                = cond_Zopp s v).
    { destruct (Z.leb_spec 0 e) as [He|He].
      - pose proof (Hs 0 ltac:(lia) ltac:(lia)) as E.
        now rewrite Z.add_0_r, Z.pow_0_r, Z.mul_1_r in E.
      - pose proof (Hs (- e) ltac:(lia) ltac:(lia)) as E.
        replace (e + - e) with 0 in E by lia.
        rewrite Z.pow_0_r, Z.mul_1_r in E. rewrite E.
        apply Z.div_mul. pose proof (pow2_pos (- e)). lia. }
    rewrite E. destruct s; cbn [cond_Zopp]; lia.
Qed.

Lemma of_Z_exact z : Z.abs z < 2 ^ 53 -> holds (of_Z z) z.
Proof.
  intros Hz.
  assert (P : forall s m, Z.pos m < 2 ^ 53 ->
              holds (div (S754_finite s m 0) (S754_finite false 1 0))
                    (cond_Zopp s (Z.pos m))).
  { intros s m Hm. unfold div, SFdiv, SFdiv_core_binary.
    destruct (digits_bounds (Z.pos m) eq_refl) as (Hd & _).
    pose proof (digits_le (Z.pos m) 53 eq_refl ltac:(lia) Hm) as Hd53.
    set (d := Zdigits2 (Z.pos m)) in *.
    change (Zdigits2 1) with 1. cbv zeta.
    assert (E : Z.min (fexp prec emax (d + 0 - (1 + 0))) (0 - 0) = d - 54)
      by (unfold fexp, SpecFloat.emin, prec, emax; lia).
    rewrite E. replace (0 - 0 - (d - 54)) with (54 - d) by lia.
    destruct (54 - d) as [|p|p] eqn:Ep; try lia.
    rewrite Z.shiftl_mul_pow2 by lia.
    pose proof (Z.div_1_r (Z.pos m * 2 ^ Z.pos p)) as Dq.
    pose proof (Z.mod_1_r (Z.pos m * 2 ^ Z.pos p)) as Dr.
    unfold Z.div, Z.modulo in Dq, Dr.
    destruct (Z.div_eucl (Z.pos m * 2 ^ Z.pos p) 1) as [q r].
    subst q r. change (new_location 1 0) with loc_Exact.
    rewrite xorb_false_r.
    apply round_exact; [|apply (scaled_intro _ _ _ (54 - d)); [lia|lia|]|lia].
    - apply Z.mul_pos_pos; [reflexivity|apply pow2_pos; lia].
    - replace (d - 54 + (54 - d)) with 0 by lia.
      now rewrite Z.pow_0_r, Z.mul_1_r, Ep. }
  destruct z as [|m|m]; unfold of_Z, of_ratio.
  - reflexivity.
  - apply (P false m). lia.
  - apply (P true m). lia.
Qed.

Lemma mul_exact x y a b :
  holds x a -> holds y b -> Z.abs (a * b) < 2 ^ 53 -> holds (mul x y) (a * b).
Proof.
  destruct x as [sx|sx| |sx mx ex], y as [sy|sy| |sy my ey];
    cbn [holds]; try contradiction; intros Ha Hb Hab;
    unfold mul; cbn [SFmul holds]; try (subst; lia).
  apply scaled_abs in Ha as [Ha Ha0]. apply scaled_abs in Hb as [Hb Hb0].
  pose proof (scaled_mul _ _ _ _ _ _ Ha Hb) as Hs.
  replace (a * b)
    with (cond_Zopp (xorb sx sy) (cond_Zopp sx a * cond_Zopp sy b))
    by (destruct sx, sy; cbn [cond_Zopp xorb]; lia).
  apply round_exact.
  - reflexivity.
  - now rewrite Pos2Z.inj_mul.
  - destruct sx, sy; cbn [cond_Zopp] in *; lia.
Qed.

(** Aligning a mantissa to a smaller exponent keeps the value. *)
Lemma shl_align_scaled M m e e' v :
  M = Z.pos m -> scaled M e v ->
  scaled (Z.pos (fst (shl_align m e e'))) (snd (shl_align m e e')) v.
Proof.
  intros -> Hs. unfold shl_align.
  destruct (e' - e) as [|d|d] eqn:Ed; cbn [fst snd]; try assumption.
  change (Pos.iter xO m d) with (shift_pos d m).
  rewrite Zpower.shift_pos_correct.
  change (Z.pow_pos 2 d) with (2 ^ Z.pos d).
  replace e' with (e - Z.pos d) by lia.
  rewrite Z.mul_comm. apply scaled_shift; [lia|assumption].
Qed.

Lemma shl_align_to m e e' : e' <= e -> snd (shl_align m e e') = e'.
Proof.
  intros Hle. unfold shl_align.
  destruct (e' - e) as [|d|d] eqn:Ed; cbn [snd]; lia.
Qed.

Lemma shl_align_signed s m e e' v :
  e' <= e -> scaled (cond_Zopp s (Z.pos m)) e v ->
  scaled (cond_Zopp s (Z.pos (fst (shl_align m e e')))) e' v.
Proof.
  intros Hle Hs. apply scaled_abs in Hs as [Hs _].
  pose proof (shl_align_scaled _ m e e' _ eq_refl Hs) as A.
  rewrite (shl_align_to m e e' Hle) in A.
  destruct s; cbn [cond_Zopp] in *; [|assumption].
  apply scaled_opp in A. now rewrite Z.opp_involutive in A.
Qed.

Lemma binary_round_exact s m e v :
  scaled (Z.pos m) e v -> v < 2 ^ 53 ->
  holds (binary_round prec emax s m e) (cond_Zopp s v).
Proof.
  intros Hs Hv. unfold binary_round.
  pose proof (shl_align_scaled _ m e
                (fexp prec emax (Z.pos (digits2_pos m) + e)) _ eq_refl Hs)
    as A.
  destruct (shl_align m e _) as [mz ez]. cbn [fst snd] in A.
  apply round_exact; [reflexivity|assumption|assumption].
Qed.

Lemma add_exact x y a b :
  holds x a -> holds y b -> Z.abs (a + b) < 2 ^ 53 -> holds (add x y) (a + b).
Proof.
  destruct x as [sx|sx| |sx mx ex], y as [sy|sy| |sy my ey];
    cbn [holds]; try contradiction; intros Ha Hb Hab; unfold add;
    cbn [SFadd].
  - subst. now destruct sx, sy.
  - subst. exact Hb.
  - subst. cbn [holds]. now rewrite Z.add_0_r.
  - pose proof (shl_align_signed sx mx ex (Z.min ex ey) a ltac:(lia) Ha) as A.
    pose proof (shl_align_signed sy my ey (Z.min ex ey) b ltac:(lia) Hb) as B.
    pose proof (scaled_add _ _ _ _ _ A B) as Hs.
    cbv zeta. unfold binary_normalize.
    set (sum := cond_Zopp sx _ + cond_Zopp sy _) in *.
    destruct sum as [|m|m].
    + cbn [holds]. now apply scaled_zero in Hs.
    + apply (binary_round_exact false m _ (a + b)); [assumption|lia].
    + replace (a + b) with (cond_Zopp true (- (a + b)))
        by (cbn [cond_Zopp]; lia).
      apply binary_round_exact; [|lia].
      apply scaled_opp in Hs. exact Hs.
Qed.

End Exact.

(* ===================================================================== *)
(** ** Amounts of days *)
(* ===================================================================== *)

Section Amounts.

Local Open Scope Z_scope.

Lemma digit_value_bound c :
  in_class digit c = true -> 0 <= digit_value c <= 9.
Proof.
  rewrite <- is_digit_class. unfold is_digit, digit_value. intros Hc.
  apply andb_prop in Hc as [L U]. apply N.leb_le in L, U. lia.
Qed.

(** A run of [n] digits is below [10^n]. *)
Lemma digits_value_bound ds :
  all_in digit ds = true -> digits_value ds < 10 ^ Z.of_nat (List.length ds).
Proof.
  unfold digits_value.
  assert (G : forall acc, 0 <= acc -> all_in digit ds = true ->
            fold_left (fun a c => a * 10 + digit_value c) ds acc
            < (acc + 1) * 10 ^ Z.of_nat (List.length ds)).
  { induction ds as [|c ds IH]; intros acc Hacc Hd.
    - cbn [fold_left List.length Z.of_nat]. lia.
    - unfold all_in in Hd. cbn [forallb] in Hd.
      apply andb_prop in Hd as [Hc Hd].
      pose proof (digit_value_bound c Hc) as Bc.
      cbn [fold_left List.length]. rewrite Nat2Z.inj_succ.
      rewrite Z.pow_succ_r by lia.
      specialize (IH (acc * 10 + digit_value c) ltac:(lia) Hd).
      assert (P : 0 < 10 ^ Z.of_nat (List.length ds))
        by (apply Z.pow_pos_nonneg; lia).
      nia. }
  intros Hd. specialize (G 0 ltac:(lia) Hd). lia.
Qed.

Lemma parseInt_digits c ip :
  in_class digit c = true -> all_in digit ip = true ->
  digits_value (c :: ip) < 2 ^ 53 ->
  holds (parseInt (c :: ip)) (digits_value (c :: ip)).
Proof.
  intros Hc Hip Hv. unfold parseInt. cbn [trim_start].
  rewrite is_space_class, (disjoint_sound digit space c eq_refl Hc).
  assert (Hc' : (0x30 <= c <= 0x39)%N).
  { rewrite <- is_digit_class in Hc. unfold is_digit in Hc.
    apply andb_prop in Hc as [L U]. apply N.leb_le in L, U. lia. }
  assert (E1 : (c =? 0x2B)%N = false) by (apply N.eqb_neq; lia).
  assert (E2 : (c =? 0x2D)%N = false) by (apply N.eqb_neq; lia).
  rewrite E1, E2.
  assert (Sp : span_digits (c :: ip) = (c :: ip, [])).
  { rewrite <- (app_nil_r (c :: ip)) at 1.
    apply span_digits_app; [|reflexivity].
    unfold all_in in *. cbn [forallb]. now rewrite Hc. }
  assert (M : match c :: ip with
              | z :: x :: tl =>
                if ((z =? 0x30) && ((x =? 0x78) || (x =? 0x58)))%N
                then parse_hex tl None
                else match fst (span_digits (c :: ip)) with
                     | [] => None
                     | ds => Some (digits_value ds)
                     end
              | _ => match fst (span_digits (c :: ip)) with
                     | [] => None
                     | ds => Some (digits_value ds)
                     end
              end = Some (digits_value (c :: ip))).
  { rewrite Sp. cbn [fst]. destruct ip as [|x tl]; [reflexivity|].
    unfold all_in in Hip. cbn [forallb] in Hip.
    apply andb_prop in Hip as [Hx _]. rewrite <- is_digit_class in Hx.
    unfold is_digit in Hx.
    apply andb_prop in Hx as [L U]. apply N.leb_le in L, U.
    assert (X1 : (x =? 0x78)%N = false) by (apply N.eqb_neq; lia).
    assert (X2 : (x =? 0x58)%N = false) by (apply N.eqb_neq; lia).
    now rewrite X1, X2, andb_false_r. }
  rewrite M.
  pose proof (digits_value_nonneg (c :: ip)) as P.
  destruct (Z.eqb_spec (digits_value (c :: ip)) 0) as [E|E].
  - cbn [holds]. exact E.
  - apply of_Z_exact. lia.
Qed.

End Amounts.

(* ===================================================================== *)
(** ** N 天/日/周 后/前 *)
(* ===================================================================== *)

(** Comparisons of two given code units. *)
Ltac eval_eqb :=
  repeat match goal with
         | |- context [N.eqb (N.pos ?a) (N.pos ?b)] =>
           let r := eval vm_compute in (N.eqb (N.pos a) (N.pos b)) in
           change (N.eqb (N.pos a) (N.pos b)) with r
         end;
  cbn [orb].

Section RelativeDays.

Context {H : Host}.

Local Open Scope Z_scope.

(** [setDate(getDate() + x)] for an integer [x] moves the local day number
    by [x]. *)
Lemma setDate_exact now x k :
  holds x k -> Z.abs k < 2 ^ 53 - 31 ->
  setDate (Some now) (add (getDate (Some now)) x)
  = at_day now (local_day now + k).
Proof.
  intros Hx Hk.
  assert (Q : 2 ^ 53 = 9007199254740992) by reflexivity.
  unfold setDate, rebuild, getDate, fields, at_day, local_day.
  pose proof (civil_round_trip (LocalTime now / msPerDay)) as R.
  pose proof (MakeDay_offset (LocalTime now / msPerDay) k) as M.
  destruct (civil_from_days (LocalTime now / msPerDay)) as [[y m] d].
  destruct R as (Hm & Hd & _).
  rewrite (to_integer_holds _ (d + k))
    by (apply add_exact; [apply of_Z_exact; lia|assumption|lia]).
  cbv zeta. now rewrite M.
Qed.

Lemma at_day_local now day t' :
  (forall x, LocalTime (UTC x) = x) ->
  at_day now day = Some t' -> local_day t' = day.
Proof.
  intros Hlaw Ht. unfold at_day, TimeClip in Ht.
  destruct (_ <=? _); [|discriminate]. injection Ht as <-.
  unfold local_day. rewrite Hlaw.
  unfold msPerDay. Z.div_mod_to_equations. lia.
Qed.

Lemma month_day_at now day :
  (forall x, LocalTime (UTC x) = x) ->
  at_day now day <> None ->
  month_day (at_day now day) = date_display day.
Proof.
  intros Hlaw Hv. destruct (at_day now day) as [t'|] eqn:Ht; [|congruence].
  now rewrite month_day_valid, (at_day_local now day t' Hlaw Ht).
Qed.

Lemma amount_bound c ip :
  in_class digit c = true -> all_in digit ip = true ->
  (List.length (c :: ip) <= 15)%nat ->
  0 <= digits_value (c :: ip) < 10 ^ 15.
Proof.
  intros Hc Hip Hlen. split; [apply digits_value_nonneg|].
  eapply Z.lt_le_trans.
  - apply digits_value_bound. unfold all_in in *. cbn [forallb].
    now rewrite Hc.
  - apply Z.pow_le_mono_r; lia.
Qed.

Lemma sign_holds d sign :
  In (d, sign) signs ->
  holds (if (d =? 0x540E)%N then of_Z 1 else of_Z (-1)) sign
  /\ Z.abs sign = 1.
Proof.
  intros Hd. unfold signs in Hd. cbn [In] in Hd.
  destruct Hd as [[= <- <-]|[[= <- <-]|[]]]; eval_eqb;
    (split; [apply of_Z_exact; reflexivity|reflexivity]).
Qed.

Lemma shifted_days now c ip u d per sign :
  in_class digit c = true -> all_in digit ip = true ->
  (List.length (c :: ip) <= 15)%nat ->
  In (u, per) day_units -> In (d, sign) signs ->
  shifted now (c :: ip) u d
  = at_day now (local_day now + digits_value (c :: ip) * per * sign).
Proof.
  intros Hc Hip Hlen Hu Hd.
  pose proof (amount_bound c ip Hc Hip Hlen) as Bn.
  assert (P : 10 ^ 15 = 1000000000000000) by reflexivity.
  assert (Q : 2 ^ 53 = 9007199254740992) by reflexivity.
  pose proof (parseInt_digits c ip Hc Hip ltac:(lia)) as Hn.
  destruct (sign_holds d sign Hd) as [Hs As].
  unfold shifted. cbv zeta.
  set (n := digits_value (c :: ip)) in *.
  unfold day_units in Hu. cbn [In] in Hu.
  assert (S : sign = 1 \/ sign = -1) by lia.
  destruct Hu as [[= <- <-]|[[= <- <-]|[[= <- <-]|[]]]]; eval_eqb.
  - rewrite (setDate_exact now _ (n * sign)).
    + f_equal. lia.
    + apply mul_exact; [assumption|assumption|destruct S; subst; lia].
    + destruct S; subst; lia.
  - rewrite (setDate_exact now _ (n * sign)).
    + f_equal. lia.
    + apply mul_exact; [assumption|assumption|destruct S; subst; lia].
    + destruct S; subst; lia.
  - rewrite (setDate_exact now _ (n * 7 * sign)).
    + reflexivity.
    + apply mul_exact; [apply mul_exact|assumption|destruct S; subst; lia];
        [assumption|apply of_Z_exact; reflexivity|lia].
    + destruct S; subst; lia.
Qed.

End RelativeDays.

(** X23: On a host whose UTC operation inverts LocalTime, an amount of at most
    fifteen digits followed by 天 or 日 and 后 or 前 shows the month and the
    day of the local calendar day that many days after or before the day
    of the call, and followed by 周 seven times as many, provided that day
    is in the range of Date and the input is not in the cache. *)
Theorem relative_days {H : Host} (e : Engine) (input : list N) (now : Z)
  (c : N) (ip w1 : list N) (u : N) (w2 : list N) (d : N) (per sign : Z) :
  (forall x, LocalTime (UTC x) = x) ->
  in_class digit c = true -> all_in digit ip = true ->
  (List.length (c :: ip) <= 15)%nat ->
  all_in space w1 = true -> In (u, per) day_units ->
  all_in space w2 = true -> In (d, sign) signs ->
  preprocessInput input = (c :: ip) ++ w1 ++ [u] ++ w2 ++ [d] ->
  cache e !! preprocessInput input = None ->
  at_day now (local_day now + digits_value (c :: ip) * per * sign)%Z
  <> None ->
  returned (process input now e)
  = Some (date_display
            (local_day now + digits_value (c :: ip) * per * sign)%Z).
Proof.
  intros Hlaw Hc Hip Hlen Hw1 Hu Hw2 Hd E Hmiss Hv.
  assert (Hu' : In u date_units).
  { unfold day_units in Hu. cbn [In] in Hu. unfold date_units.
    destruct Hu as [[= <- <-]|[[= <- <-]|[[= <- <-]|[]]]];
      repeat (first [left; reflexivity|right]). }
  assert (Hd' : In d directions).
  { unfold signs in Hd. cbn [In] in Hd. unfold directions.
    destruct Hd as [[= <- <-]|[[= <- <-]|[]]];
      repeat (first [left; reflexivity|right]). }
  destruct (relative_date_result e input now c ip w1 u w2 d
              Hc Hip Hw1 Hu' Hw2 Hd' E) as [_ R].
  rewrite (R Hmiss), (shifted_days now c ip u d per sign) by assumption.
  now rewrite month_day_at.
Qed.

(** X24: When the day an amount of 天, 日 or 周 leads to is outside the range of
    Date, the date handler does not notice: the answer is the date Result
    （NaN月NaN日）, not null and not an error. *)
Theorem relative_days_out_of_range {H : Host} (e : Engine) (input : list N)
  (now : Z) (c : N) (ip w1 : list N) (u : N) (w2 : list N) (d : N)
  (per sign : Z) :
  in_class digit c = true -> all_in digit ip = true ->
  (List.length (c :: ip) <= 15)%nat ->
  all_in space w1 = true -> In (u, per) day_units ->
  all_in space w2 = true -> In (d, sign) signs ->
  preprocessInput input = (c :: ip) ++ w1 ++ [u] ++ w2 ++ [d] ->
  cache e !! preprocessInput input = None ->
  at_day now (local_day now + digits_value (c :: ip) * per * sign)%Z = None ->
  returned (process input now e) = Some invalid_date_display.
Proof.
  intros Hc Hip Hlen Hw1 Hu Hw2 Hd E Hmiss Hv.
  assert (Hu' : In u date_units).
  { unfold day_units in Hu. cbn [In] in Hu. unfold date_units.
    destruct Hu as [[= <- <-]|[[= <- <-]|[[= <- <-]|[]]]];
      repeat (first [left; reflexivity|right]). }
  assert (Hd' : In d directions).
  { unfold signs in Hd. cbn [In] in Hd. unfold directions.
    destruct Hd as [[= <- <-]|[[= <- <-]|[]]];
      repeat (first [left; reflexivity|right]). }
  destruct (relative_date_result e input now c ip w1 u w2 d
              Hc Hip Hw1 Hu' Hw2 Hd' E) as [_ R].
  rewrite (R Hmiss), (shifted_days now c ip u d per sign) by assumption.
  rewrite Hv. vm_compute. reflexivity.
Qed.

Lemma relative_days_witness :
  shown (returned (process (H := SampleHost.host) (js "45天后") 1761900000000
                     new_engine)) = Some (js "（12月15日）") /\
  shown (returned (process (H := SampleHost.host) (js "10 周 前")
                     1761900000000 new_engine)) = Some (js "（8月22日）").
Proof.
  split.
  - rewrite (relative_days (H := SampleHost.host) new_engine (js "45天后")
               1761900000000 0x34 [0x35] [] 0x5929 [] 0x540E 1 1
               (fun x => ltac:(cbn; lia)) eq_refl eq_refl ltac:(cbn; lia)
               eq_refl (or_introl eq_refl) eq_refl (or_introl eq_refl)
               eq_refl eq_refl ltac:(vm_compute; discriminate)).
    vm_compute. reflexivity.
  - rewrite (relative_days (H := SampleHost.host) new_engine (js "10 周 前")
               1761900000000 0x31 [0x30] (js " ") 0x5468 (js " ") 0x524D
               7 (-1)
               (fun x => ltac:(cbn; lia)) eq_refl eq_refl ltac:(cbn; lia)
               eq_refl (or_intror (or_intror (or_introl eq_refl))) eq_refl
               (or_intror (or_introl eq_refl))
               eq_refl eq_refl ltac:(vm_compute; discriminate)).
    vm_compute. reflexivity.
Defined.

Lemma relative_days_out_of_range_witness :
  shown (returned (process (H := SampleHost.host) (js "99999999999天后")
                     1761900000000 new_engine))
  = Some (js "（NaN月NaN日）").
Proof.
  rewrite (relative_days_out_of_range (H := SampleHost.host) new_engine
             (js "99999999999天后") 1761900000000 0x39 (js "9999999999") []
             0x5929 [] 0x540E 1 1
             eq_refl eq_refl ltac:(vm_compute; lia)
             eq_refl (or_introl eq_refl) eq_refl (or_introl eq_refl)
             eq_refl eq_refl ltac:(vm_compute; reflexivity)).
  vm_compute. reflexivity.
Defined.

(* ===================================================================== *)
(** ** The calendar, from dates to days *)
(* ===================================================================== *)

Section Months.

Local Open Scope Z_scope.

Lemma leap_spec y :
  leap y = true <-> (y mod 4 = 0 /\ (y mod 100 <> 0 \/ y mod 400 = 0)).
Proof.
  unfold leap.
  destruct (Z.eqb_spec (y mod 4) 0), (Z.eqb_spec (y mod 100) 0),
    (Z.eqb_spec (y mod 400) 0); cbn; split; intros; try discriminate;
    try tauto; try reflexivity.
  - exfalso. Z.div_mod_to_equations. lia.
  - exfalso. Z.div_mod_to_equations. lia.
Qed.

(** The year of the era from the day of the era. *)
Lemma year_of_era yoe doy :
  0 <= yoe <= 399 -> 0 <= doy <= 365 ->
  (doy = 365 -> (yoe + 1) mod 4 = 0 /\ ((yoe + 1) mod 100 <> 0 \/ yoe = 399)) ->
  let doe := yoe * 365 + yoe / 4 - yoe / 100 + doy in
  0 <= doe <= 146096 /\
  (doe - doe / 1460 + doe / 36524 - doe / 146096) / 365 = yoe.
Proof.
  intros Hy Hd Hl doe. subst doe.
  assert (doy <= 364 \/ doy = 365) as [D|D] by lia.
  - split; Z.div_mod_to_equations; lia.
  - destruct (Hl D) as [L4 L100]. subst doy.
    split; Z.div_mod_to_equations; lia.
Qed.

Lemma days_round_trip y m d :
  1 <= m <= 12 -> 1 <= d <= month_length y m ->
  civil_from_days (days_from_civil y m d) = (y, m, d).
Proof.
  intros Hm Hd.
  pose proof (leap_spec y) as L.
  unfold civil_from_days, days_from_civil.
  set (y' := if m <=? 2 then y - 1 else y).
  set (era := y' / 400).
  set (yoe := y' - era * 400).
  set (mp := if 2 <? m then m - 3 else m + 9).
  set (doy := (153 * mp + 2) / 5 + d - 1).
  assert (Hyoe : 0 <= yoe <= 399)
    by (subst yoe era; Z.div_mod_to_equations; lia).
  assert (Hdoy : 0 <= doy <= 365 /\
                 (doy = 365 ->
                  (yoe + 1) mod 4 = 0 /\
                  ((yoe + 1) mod 100 <> 0 \/ yoe = 399)) /\
                 (5 * doy + 2) / 153 = mp /\
                 doy - (153 * mp + 2) / 5 + 1 = d /\
                 (if mp <? 10 then mp + 3 else mp - 9) = m).
  { unfold month_length in Hd.
    assert (C : m = 1 \/ m = 2 \/ m = 3 \/ m = 4 \/ m = 5 \/ m = 6 \/ m = 7
                \/ m = 8 \/ m = 9 \/ m = 10 \/ m = 11 \/ m = 12) by lia.
    destruct C as [C|[C|[C|[C|[C|[C|[C|[C|[C|[C|[C|C]]]]]]]]]]];
      subst doy mp yoe era y'; subst m; cbn in Hd |- *;
      try match type of Hd with
          | context [leap y] =>
            destruct (leap y); [destruct (proj1 L eq_refl) as [L4 L100]|]
          end;
      repeat match goal with
             | |- _ /\ _ => split
             | |- _ -> _ => intro
             end; first [Z.div_mod_to_equations; lia|reflexivity]. }
  destruct Hdoy as (D1 & D2 & D3 & D4 & D5).
  destruct (year_of_era yoe doy Hyoe D1 D2) as [E1 E2].
  set (doe := yoe * 365 + yoe / 4 - yoe / 100 + doy) in *.
  replace (era * 146097 + doe - 719468 + 719468) with (doe + era * 146097)
    by lia.
  replace ((doe + era * 146097) / 146097) with era
    by (Z.div_mod_to_equations; lia).
  replace (doe + era * 146097 - era * 146097) with doe by lia.
  rewrite E2.
  replace (doe - (365 * yoe + yoe / 4 - yoe / 100)) with doy
    by (subst doe; lia).
  rewrite D3, D4, D5. f_equal. f_equal.
  subst yoe. destruct (m <=? 2); lia.
Qed.

(** Day [d] of a month counts from its first day. *)
Lemma days_from_first y m d :
  days_from_civil y m 1 + d - 1 = days_from_civil y m d.
Proof. unfold days_from_civil. lia. Qed.

End Months.

(* ===================================================================== *)
(** ** N 月/年 后/前 *)
(* ===================================================================== *)

Section RelativeMonths.

Context {H : Host}.

Local Open Scope Z_scope.

(** [setMonth(getMonth() + x)] for an integer [x]. *)
Lemma setMonth_exact now x k y m dd :
  civil_from_days (local_day now) = (y, m, dd) ->
  holds x k -> Z.abs k < 2 ^ 53 - 11 ->
  setMonth (Some now) (add (getMonth (Some now)) x)
  = at_day now (days_from_civil ((y * 12 + (m - 1) + k) / 12)
                                ((y * 12 + (m - 1) + k) mod 12 + 1) 1
                + dd - 1).
Proof.
  intros E Hx Hk.
  assert (Q : 2 ^ 53 = 9007199254740992) by reflexivity.
  pose proof (civil_round_trip (local_day now)) as R. rewrite E in R.
  destruct R as (Hm & Hd & _).
  unfold setMonth, rebuild, getMonth, fields, at_day.
  unfold local_day in E. rewrite E.
  rewrite (to_integer_holds _ (m - 1 + k))
    by (apply add_exact; [apply of_Z_exact; lia|assumption|lia]).
  cbv zeta. unfold MakeDay.
  replace (y + (m - 1 + k + 1 - 1) / 12) with ((y * 12 + (m - 1) + k) / 12)
    by (Z.div_mod_to_equations; lia).
  replace ((m - 1 + k + 1 - 1) mod 12) with ((y * 12 + (m - 1) + k) mod 12)
    by (Z.div_mod_to_equations; lia).
  reflexivity.
Qed.

(** [setFullYear(getFullYear() + x)] for an integer [x]. *)
Lemma setFullYear_exact now x k y m dd :
  civil_from_days (local_day now) = (y, m, dd) ->
  Z.abs y < 10 ^ 15 ->
  holds x k -> Z.abs k < 10 ^ 15 ->
  setFullYear (Some now) (add (getFullYear (Some now)) x)
  = at_day now (days_from_civil ((y * 12 + (m - 1) + k * 12) / 12)
                                ((y * 12 + (m - 1) + k * 12) mod 12 + 1) 1
                + dd - 1).
Proof.
  intros E Hy Hx Hk.
  assert (Q : 2 ^ 53 = 9007199254740992) by reflexivity.
  assert (P : 10 ^ 15 = 1000000000000000) by reflexivity.
  pose proof (civil_round_trip (local_day now)) as R. rewrite E in R.
  destruct R as (Hm & Hd & _).
  unfold setFullYear, rebuild, getFullYear, fields, at_day.
  unfold local_day in E. rewrite E.
  rewrite (to_integer_holds _ (y + k))
    by (apply add_exact; [apply of_Z_exact; lia|assumption|lia]).
  cbv zeta. unfold MakeDay.
  replace (y + k + (m - 1) / 12) with ((y * 12 + (m - 1) + k * 12) / 12)
    by (Z.div_mod_to_equations; lia).
  replace ((m - 1) mod 12) with ((y * 12 + (m - 1) + k * 12) mod 12)
    by (Z.div_mod_to_equations; lia).
  reflexivity.
Qed.

Lemma shifted_months now c ip u d per sign y m dd :
  in_class digit c = true -> all_in digit ip = true ->
  (List.length (c :: ip) <= 15)%nat ->
  In (u, per) month_units -> In (d, sign) signs ->
  civil_from_days (local_day now) = (y, m, dd) -> Z.abs y < 10 ^ 15 ->
  let t := y * 12 + (m - 1) + digits_value (c :: ip) * per * sign in
  shifted now (c :: ip) u d
  = at_day now (days_from_civil (t / 12) (t mod 12 + 1) 1 + dd - 1).
Proof.
  intros Hc Hip Hlen Hu Hd E Hy t.
  pose proof (amount_bound c ip Hc Hip Hlen) as Bn.
  assert (P : 10 ^ 15 = 1000000000000000) by reflexivity.
  assert (Q : 2 ^ 53 = 9007199254740992) by reflexivity.
  pose proof (parseInt_digits c ip Hc Hip ltac:(lia)) as Hn.
  destruct (sign_holds d sign Hd) as [Hs As].
  assert (S : sign = 1 \/ sign = -1) by lia.
  assert (Hx : holds (mul (parseInt (c :: ip))
                        (if (d =? 0x540E)%N then of_Z 1 else of_Z (-1)))
                     (digits_value (c :: ip) * sign))
    by (apply mul_exact; [assumption|assumption|destruct S; subst; lia]).
  assert (Bx : Z.abs (digits_value (c :: ip) * sign) < 10 ^ 15)
    by (destruct S; subst; lia).
  unfold shifted. cbv zeta.
  unfold month_units in Hu. cbn [In] in Hu.
  destruct Hu as [[= <- <-]|[[= <- <-]|[]]]; eval_eqb.
  - rewrite (setMonth_exact now _ _ y m dd E Hx) by lia.
    subst t.
    now replace (digits_value (c :: ip) * 1 * sign)
      with (digits_value (c :: ip) * sign) by lia.
  - rewrite (setFullYear_exact now _ _ y m dd E Hy Hx Bx).
    subst t.
    now replace (digits_value (c :: ip) * 12 * sign)
      with (digits_value (c :: ip) * sign * 12) by lia.
Qed.

End RelativeMonths.

(** X25: On a host whose UTC operation inverts LocalTime, an amount of at most
    fifteen digits followed by 月 or 年 and 后 or 前 shows the day that lies
    today's day of month, less one, after the first day of the month that
    many months (twelve times as many for 年) after or before the current
    one: the same day of month in that month when the month has such a
    day, and a day of the month after it when it has not.  The result must
    be in the range of Date and the input not in the cache. *)
Theorem relative_months {H : Host} (e : Engine) (input : list N) (now : Z)
  (c : N) (ip w1 : list N) (u : N) (w2 : list N) (d : N) (per sign : Z)
  (y m dd : Z) :
  (forall x, LocalTime (UTC x) = x) ->
  in_class digit c = true -> all_in digit ip = true ->
  (List.length (c :: ip) <= 15)%nat ->
  all_in space w1 = true -> In (u, per) month_units ->
  all_in space w2 = true -> In (d, sign) signs ->
  preprocessInput input = (c :: ip) ++ w1 ++ [u] ++ w2 ++ [d] ->
  cache e !! preprocessInput input = None ->
  civil_from_days (local_day now) = (y, m, dd) ->
  (Z.abs y < 10 ^ 15)%Z ->
  let t := (y * 12 + (m - 1) + digits_value (c :: ip) * per * sign)%Z in
  let first := days_from_civil (t / 12) (t mod 12 + 1) 1 in
  at_day now (first + dd - 1)%Z <> None ->
  returned (process input now e) = Some (date_display (first + dd - 1)%Z) /\
  ((dd <= month_length (t / 12) (t mod 12 + 1))%Z ->
   returned (process input now e)
   = Some (month_day_display (t mod 12 + 1) dd)).
Proof.
  intros Hlaw Hc Hip Hlen Hw1 Hu Hw2 Hd E Hmiss Hnow Hy t first Hv.
  assert (Hu' : In u date_units).
  { unfold month_units in Hu. cbn [In] in Hu. unfold date_units.
    destruct Hu as [[= <- <-]|[[= <- <-]|[]]];
      repeat (first [left; reflexivity|right]). }
  assert (Hd' : In d directions).
  { unfold signs in Hd. cbn [In] in Hd. unfold directions.
    destruct Hd as [[= <- <-]|[[= <- <-]|[]]];
      repeat (first [left; reflexivity|right]). }
  destruct (relative_date_result e input now c ip w1 u w2 d
              Hc Hip Hw1 Hu' Hw2 Hd' E) as [_ R].
  assert (G : returned (process input now e)
              = Some (date_display (first + dd - 1)%Z)).
  { rewrite (R Hmiss).
    rewrite (shifted_months now c ip u d per sign y m dd) by assumption.
    fold t. fold first. now rewrite month_day_at. }
  split; [exact G|].
  intros Hdd. rewrite G. f_equal.
  pose proof (civil_round_trip (local_day now)) as T. rewrite Hnow in T.
  destruct T as (_ & Hd1 & _).
  unfold date_display, first. rewrite days_from_first.
  rewrite days_round_trip; [reflexivity| |lia].
  pose proof (Z.mod_pos_bound t 12 ltac:(lia)). lia.
Qed.

Lemma relative_months_witness :
  shown (returned (process (H := SampleHost.host) (js "4月后") 1761900000000
                     new_engine)) = Some (js "（3月3日）") /\
  shown (returned (process (H := SampleHost.host) (js "2 年 前")
                     1761900000000 new_engine)) = Some (js "（10月31日）").
Proof.
  split.
  - destruct (relative_months (H := SampleHost.host) new_engine (js "4月后")
                1761900000000 0x34 [] [] 0x6708 [] 0x540E 1 1 2025 10 31
                (fun x => ltac:(cbn; lia)) eq_refl eq_refl ltac:(cbn; lia)
                eq_refl (or_introl eq_refl) eq_refl (or_introl eq_refl)
                eq_refl eq_refl ltac:(vm_compute; reflexivity)
                ltac:(vm_compute; reflexivity)
                ltac:(vm_compute; discriminate)) as [R _].
    rewrite R. vm_compute. reflexivity.
  - destruct (relative_months (H := SampleHost.host) new_engine
                (js "2 年 前") 1761900000000 0x32 [] (js " ") 0x5E74 (js " ")
                0x524D 12 (-1) 2025 10 31
                (fun x => ltac:(cbn; lia)) eq_refl eq_refl ltac:(cbn; lia)
                eq_refl (or_intror (or_introl eq_refl)) eq_refl
                (or_intror (or_introl eq_refl))
                eq_refl eq_refl ltac:(vm_compute; reflexivity)
                ltac:(vm_compute; reflexivity)
                ltac:(vm_compute; discriminate)) as [_ R].
    rewrite R; [|vm_compute; discriminate]. vm_compute. reflexivity.
Defined.
